(* ===== verification/_CoqProject ===== *)
-Q . S2P
Prelude.v
Text.v
Interfaces.v
Instances.v
Protocol.v
Sealed.v
NonceStore.v
Handshake.v
Connections.v
Sessions.v
Router.v
Auth.v
Database.v
Accounts.v
Gateway.v
RelayRace.v
Socket.v
RateLimit.v
Trusted.v
Host.v
ClientSession.v
Direct.v
Pins.v
SharedFolder.v
Lan.v
P2p.v
Bridge.v
Tunnel.v
KeyStore.v
Server.v
Worker.v
WorkerProcess.v
Greeter.v
Clipboard.v
Broker.v
BrokerClient.v
LanHost.v
ConsoleLan.v
Listeners.v
AgentConfig.v
Discovery.v
Rest.v
ClientCli.v
Runner.v
Capture.v
MacCapture.v
Screen.v
Inputs.v
