(* ===== verification/Prelude.v ===== *)
(** * RivetLink: a verification library

    RivetLink is a remote-desktop system: an agent on the controlled machine,
    a client (SDK), and a relay server between them, or a direct connection on
    the local network. This library models the logic of its Rust crates (under
    [src/crates/]) and proves what makes it correct. A definition has the name
    of the Rust item where it can; what one function does in a loop with its
    environment is an executable function over the answers it gets, or a step
    relation where tasks interleave.

    ** The parts and how they interact

    - Every end-to-end message goes through a sealed channel (crypto). Its keys
      come from a key exchange between two identities, or from a password.
    - The relay authenticates users (tokens) and devices (signatures over a
      challenge), pairs a client and a host into a session, and routes
      signaling packets and tunnel frames between the two connections. Accounts
      and devices are in its database.
    - The host session (agent) answers a client over the relay: consent or
      trust, key exchange, captures, console input. The client session (SDK) is
      its other end.
    - On the local network the two ends shake hands over TCP (SDK, [direct.rs])
      and then exchange sealed requests and responses ([lan.rs] of the SDK),
      served by the agent's [lan.rs]: from the user's own session, or from the
      physical console.
    - The physical console is a broker process and workers inside graphical
      sessions. The broker admits workers, keeps the newest, sends it requests
      over a socket and shares out its one desktop stream; the worker captures,
      injects input and serves the shared folder.
    - Around these are the programs: the relay's start-up and first-time setup,
      the agent's commands, configuration and reconnecting host loop, the
      support client; the REST calls between them; and the search for hosts on
      the local network.

    ** The files

    Foundations:
    - [Prelude]: results, the state-and-error monad, bytes and integers,
      automation, shared lemmas. [Text]: the [str] methods the sources use.
    - [Interfaces]: the crates outside the repository as classes of operations,
      with classes of the laws they document. [Instances]: executable
      instances of every class, for witnesses only; they are not secure.
    - [Protocol]: rivetlink-core/types.rs, rivetlink-protocol/packets.rs.
    Crypto (rivetlink-crypto):
    - [Sealed]: sealed.rs. Sending and receiving, threads that claim sequence
      numbers concurrently, two ends over a network that does what it wants.
    - [NonceStore]: challenge.rs. [Handshake]: handshake.rs, identity.rs,
      session_keys.rs, pq_kem.rs, pake.rs.
    Relay (rivetlink-server):
    - [Connections]: websocket/connection.rs. [Sessions]: sessions/manager.rs.
      [Router]: signaling/router.rs. [RelayRace]: the router's accesses to the
      shared maps interleaved with those of closing sockets.
    - [Auth]: auth/*. [Database]: db/*. [Accounts]: handlers/*.
      [Gateway]: websocket/gateway.rs, heartbeat.rs; [Socket]: the life of one
      socket in gateway.rs. [RateLimit]: middleware/rate_limit.rs. [Server]:
      config.rs, cli/init.rs, main.rs, the routes and the request ids.
    Agent and client:
    - [Trusted]: trusted.rs, secure_file.rs, console/state.rs. [Host]:
      session/host.rs. [ClientSession]: rivetlink-sdk/session.rs.
    - [Direct]: rivetlink-sdk/direct.rs. [Pins]: pq_pins.rs and the connection
      functions of lan.rs. [Lan]: the rest of rivetlink-sdk/lan.rs but
      discovery, which is [Discovery].
    - [P2p] and [Bridge]: rivetlink-sdk/p2p.rs. [Tunnel]: relay_tunnel.rs and the agent's
      relay/client.rs. [Rest]: client.rs, rest.rs and config.rs of the SDK and
      the agent's registration.rs. [ClientCli]: rivetlink-client.
    - [KeyStore]: keystore/* of the agent, identity.rs of the SDK.
      [AgentConfig]: config.rs. [Runner]: runner.rs.
    - [SharedFolder]: rivetlink-sdk/share.rs, console/shared_folder.rs.
    - [Worker]: a connection of console/worker.rs; [WorkerProcess]: the process
      around it. [Broker]: requests, claims and the pool of console/broker.rs;
      [BrokerClient]: the broker's end of a connection, with the socket's access
      list. [Greeter]: console/lightdm.rs. [Clipboard]: console/clipboard.rs.
    - [LanHost] and [ConsoleLan]: the two hosts of rivetlink-agent/lan.rs;
      [Listeners]: their accept loops.
    - [Capture]: capture/screencast.rs (module [Tiles]) and capture/h264.rs
      (module [H264]); [MacCapture]: the macOS backend of screencast.rs.
      [Screen]: mutter.rs, x11.rs, portal.rs and screenshot.rs (modules
      [Mutter], [X11], [Screenshot]). [Inputs]: input/*.

    ** Conventions

    - A [String] is a [string] of its UTF-8 bytes, a [Vec<u8>] a list of
      [Byte.byte]; unsigned integers are [N] with their wrap-around or checked
      arithmetic written out where it can be reached; a database timestamp is a
      [Z] of nanoseconds, an [Instant] an [N] of them.
    - [DashMap], [HashMap] and SQL tables are [gmap]s, association lists where
      the order shows. One [DashMap] operation or one SQL statement is one
      atomic step.
    - Errors are values: [Result], with the error types of the crates.
    - Everything nondeterministic is an argument: fresh ids, random bytes,
      clock readings, the operator's answer, captures, injections, and scripts
      of faults for sends, queries and system calls. A statement that
      quantifies over them covers every behaviour of the outside.
    - A side of a connection is an interaction tree of writes and exact reads
      ([Direct.Io]). [Direct.sound] runs it against any network,
      [Direct.pair_step] runs two sides against each other in any interleaving.
    - Concurrent tasks are step relations with one constructor per atomic
      access ([Sealed.claim_step], [RelayRace], [Worker.worker_step],
      [Broker.link_step], [Broker.desk_step], [Broker.pool_step],
      [Pins.pin_step]), and theorems hold in every reachable state. Where the
      tasks share one small state, they are a function over the list of what
      happens in its order ([Socket.socket_step], [Listeners.listen_step],
      [BrokerClient.client_step], [Screen.Mutter], [Clipboard]), and theorems
      hold for every list.
    - JSON and other encodings are parameters with round-trip laws; a message
      that does not fit its frame limit is refused as in the code. Logging is
      left out, except for the text it slices ([Direct.short]).

    ** What the theorems show

    - Channels and handshakes: what arrives is what was sent, in order, once,
      over any network; concurrent senders never share a sequence number; a
      client ends with a channel only to the identity it pinned, a host only
      to one it trusts or to the password; honest ends complete in every
      interleaving; a pinned host is never downgraded.
    - Relay: no session outlives its connections, requests for a device go to
      its newest open connection, packets stay inside an organisation, a device
      is authenticated exactly by the signature it sent, nonces are accepted once,
      session limits and rate quotas are exact, refresh tokens have one live
      member per family, login attempts are spaced once locked. A socket is
      registered and forgotten once, writes what its queue accepted in order and
      expires exactly after its timeout; the setup writes a file of which every
      reader that treats plain lines as documented makes a configuration the
      server starts with.
    - Programs: as long as no write of it is cut short, the agent's
      configuration always loads and a failed command changes nothing; a store
      has one key of each kind until it is reset; an unattended host, headless
      or at a physical console, captures and injects only for sessions that
      clients of its file signed; credentials stay on TLS; and the host that
      advertises itself is the one that is found. A listener never runs more
      sessions than it has slots and hangs up exactly on whom a kick is for.
    - Tunnels: bytes come out in order, honest logins complete, a host signs
      for a relay nothing but logins, and a direct path is taken only for the
      token of the offer.
    - Host and client: captures and input only for whom the trust store or the
      operator admits, at the moment it happens; the client gets the very image
      that was captured, whatever the order of the chunks; the same for the
      stream and the downloads of the LAN.
    - Console: replies pair with requests, frames stay between the start and
      the stop of their stream, a viewer is handed decodable video, leaves no
      key pressed unless it pressed one that the worker refuses, and acts only
      with permission; the shared folder confines every operation, and while no
      system call fails it changes no file that is there; a packet of a worker goes to one
      channel in its order; the launcher keeps one worker of its own; the
      clipboard bridge does not echo.
    - Pictures and input: the tiles make the picture that was sent last; the
      video frames that are queued can be decoded and the newest picture is not
      lost; a stream's encoder gets the captured frames in order, and a whole
      turn of its loop leaves none waiting; decoding an X image never leaves its
      bounds and gives each pixel its colour; the two input backends
      replay the same events.
    - The lemmas that the manifest lists as findings show behaviours which
      contradict the code's own comments or its evident intention.

    ** Bounds and fuel

    - [SharedFolder.walk] follows 40 links, as Linux does; the listing has fuel
      5001, one more than the entries it may return, and [list_shared_ends]
      proves that is enough; [first_unused] tries as many names as the source.
    - [ConsoleLan.download] needs one unit more than the full chunks of the
      file; [Lan.stream_loop] and the loops of [LanHost] and [ConsoleLan] bound
      the number of requests served, the theorems quantify over it.
    - Lists of events, turns and inputs stand for loops that run as long as
      their environment feeds them.
    - [WorkerProcess.connect_to_broker] ends within 50 attempts;
      [Server.serve], [Socket.handle_socket] and the like recurse on what they
      are given.

    ** Not modelled, and why

    - The primitives themselves, their secrecy and their constant time; the
      zeroing of memory; file modes; the allocation of memory. They are below
      what the sources say.
    - QUIC and TLS (their configuration in p2p.rs), HTTP, the sockets, timers
      and schedulers of tokio beyond the steps above, mDNS packets: library code
      that the sources configure.
    - The D-Bus conversations with Mutter, the portal and logind, the X
      protocol, GStreamer pipelines, OpenH264, JPEG and PNG: parameters where
      their answers matter.
    - Argument parsing (clap), printing beyond the lines of the commands, log
      set-up, traits without bodies, the installation helpers and scripts, and
      the tests. *)

From Stdlib Require Import NArith ZArith Lia List Strings.String Strings.Byte.
From stdpp Require Export base numbers list gmap strings relations functions pretty.


(** ** Results

    [Result<T, E>] of the Rust sources, with a `?`-like binder. *)

Inductive Result (A E : Type) : Type :=
| Ok (a : A)
| Err (e : E).
Arguments Ok {A E} a.
Arguments Err {A E} e.

Declare Scope rust_scope.
Delimit Scope rust_scope with rust.
Open Scope rust_scope.

Notation "'let?' x ':=' e 'in' k" :=
  (match e with Ok x => k | Err er => Err er end)
  (at level 10, x pattern, e at level 200, k at level 200) : rust_scope.
(** [let Some x = e else { return d }]. *)
Notation "'let_some' x ':=' e 'else' d 'in' k" :=
  (match e with Some x => k | None => d end)
  (at level 10, x pattern, e at level 200, d at level 200, k at level 200)
  : rust_scope.

Definition is_ok {A E} (r : Result A E) : bool :=
  match r with Ok _ => true | Err _ => false end.
(** [Result::ok] and [Result::map_err]. *)
Definition ok {A E} (r : Result A E) : option A :=
  match r with Ok a => Some a | Err _ => None end.
Definition map_err {A E F} (f : E -> F) (r : Result A E) : Result A F :=
  match r with Ok a => Ok a | Err e => Err (f e) end.
(** [Option::ok_or]. *)
Definition ok_or {A E} (o : option A) (e : E) : Result A E :=
  match o with Some a => Ok a | None => Err e end.

#[export] Instance Result_eq_dec {A E} `{EqDecision A} `{EqDecision E} :
  EqDecision (Result A E).
Proof. solve_decision. Defined.

(** [std::io::Error]: its kind, as far as the sources look at it, and its text. *)
Module io.
Inductive ErrorKind :=
| NotFound
| UnexpectedEof
| ConnectionReset
| ConnectionAborted
| BrokenPipe
| Other.
#[export] Instance ErrorKind_eq_dec : EqDecision ErrorKind.
Proof. solve_decision. Defined.
Record Error := { kind : ErrorKind; text : string }.
End io.

(** ** Decidable bytes *)

#[export] Instance byte_eq_dec : EqDecision byte := Byte.byte_eq_dec.
#[export] Program Instance byte_countable : Countable byte :=
  inj_countable Byte.to_N Byte.of_N _.
Next Obligation. intros b. apply Byte.of_to_N. Qed.

(** ** Tactics *)

(** Case analysis on the outermost [match]/[if] of the goal or a hypothesis. *)
Ltac case_goal :=
  match goal with
  | |- context [match ?x with _ => _ end] =>
      lazymatch x with
      | context [match _ with _ => _ end] => fail
      | _ => destruct x eqn:?
      end
  end.
Ltac case_hyp H :=
  match type of H with
  | context [match ?x with _ => _ end] =>
      lazymatch x with
      | context [match _ with _ => _ end] => fail
      | _ => destruct x eqn:?
      end
  end.
(** Split a successful monadic computation into its successful steps. *)
Ltac inv_ok H := repeat (case_hyp H; try discriminate H); simplify_eq.
Ltac crush_match := repeat (case_goal; simplify_eq/=).

(** ** Lemma databases

    [rivet] collects the facts that close routine side conditions;
    [bytes] the rewrite rules of byte encodings. *)
Create HintDb rivet.
Create Rewrite HintDb bytes.

(** ** Machine integers

    Unsigned integers are [N] kept below their width; wrap-around and
    exhaustion are written out where the source has them. *)
Definition u16_max : N := 65535.
Definition u32_max : N := 4294967295.
Definition u64_max : N := 18446744073709551615.

(** [Duration]s and [Instant]s are nanoseconds. [Instant::duration_since] and
    [Instant::elapsed] saturate at zero, which is [N.sub]. *)
Definition nanos_per_sec : N := 1000000000.
Definition from_secs (s : N) : N := (s * nanos_per_sec)%N.
Definition as_secs (d : N) : N := (d / nanos_per_sec)%N.
Definition duration_since (now t : N) : N := (now - t)%N.

(** ** Bytes

    [Vec<u8>] and [&[u8]] are [list byte]; a Rust [String] is its UTF-8 bytes,
    a [string]. *)
Abbreviation bytes := (list byte).
Definition len {A} (l : list A) : N := N.of_nat (length l).
Definition byte_of_N (n : N) : byte :=
  default Byte.x00 (Byte.of_N (n mod 256)).
Definition as_bytes (s : string) : bytes := String.list_byte_of_string s.
Definition from_utf8 (b : bytes) : string := String.string_of_list_byte b.
(** [str::len] counts bytes. *)
Definition slen (s : string) : N := len (as_bytes s).

(** Big-endian encoding on [n] bytes: [u16::to_be_bytes] is [be_bytes 2],
    [u64::to_be_bytes] is [be_bytes 8]. *)
Fixpoint be_bytes (n : nat) (z : N) : bytes :=
  match n with
  | O => []
  | S n' => be_bytes n' (z / 256) ++ [byte_of_N z]
  end.
(** [from_be_bytes]. *)
Definition be_val (b : bytes) : N :=
  fold_left (fun acc x => (acc * 256 + Byte.to_N x)%N) b 0%N.

Lemma to_N_byte_of_N n : Byte.to_N (byte_of_N n) = (n mod 256)%N.
Proof.
  unfold byte_of_N. pose proof (N.mod_upper_bound n 256 ltac:(lia)) as Hb.
  destruct (Byte.of_N (n mod 256)) as [b|] eqn:E; simpl.
  - by apply Byte.to_of_N.
  - apply Byte.of_N_None_iff in E. lia.
Qed.

Lemma byte_of_N_to_N b : byte_of_N (Byte.to_N b) = b.
Proof.
  unfold byte_of_N. pose proof (Byte.to_N_bounded b).
  rewrite N.mod_small by lia. by rewrite Byte.of_to_N.
Qed.

Lemma length_be_bytes n z : length (be_bytes n z) = n.
Proof.
  revert z. induction n as [|n IH]; intros z; simpl; [done|].
  rewrite length_app, IH. simpl. lia.
Qed.

Lemma be_val_snoc b x : be_val (b ++ [x]) = (be_val b * 256 + Byte.to_N x)%N.
Proof. unfold be_val. by rewrite fold_left_app. Qed.

Lemma be_val_be_bytes n z : be_val (be_bytes n z) = (z mod 256 ^ N.of_nat n)%N.
Proof.
  revert z. induction n as [|n IH]; intros z.
  - simpl. by rewrite N.mod_1_r.
  - cbn [be_bytes]. rewrite be_val_snoc, IH, to_N_byte_of_N.
    rewrite Nat2N.inj_succ, N.pow_succ_r'.
    rewrite N.Div0.mod_mul_r. lia.
Qed.

Lemma be_val_bound b : (be_val b < 256 ^ len b)%N.
Proof.
  induction b as [|x b IH] using rev_ind; [done|].
  rewrite be_val_snoc. pose proof (Byte.to_N_bounded x).
  unfold len in *. rewrite length_app. simpl.
  rewrite Nat.add_1_r, Nat2N.inj_succ, N.pow_succ_r'. lia.
Qed.

Lemma be_bytes_be_val b : be_bytes (length b) (be_val b) = b.
Proof.
  induction b as [|x b IH] using rev_ind; [done|].
  rewrite length_app, Nat.add_1_r. cbn [be_bytes].
  rewrite be_val_snoc. pose proof (Byte.to_N_bounded x).
  rewrite N.div_add_l, (N.div_small (Byte.to_N x)), N.add_0_r, IH by lia.
  f_equal. f_equal. unfold byte_of_N.
  rewrite (N.add_comm (be_val b * 256)), N.Div0.mod_add, N.mod_small by lia.
  by rewrite Byte.of_to_N.
Qed.

Lemma be_bytes_inj n a b :
  (a < 256 ^ N.of_nat n)%N -> (b < 256 ^ N.of_nat n)%N ->
  be_bytes n a = be_bytes n b -> a = b.
Proof.
  intros Ha Hb E. apply (f_equal be_val) in E.
  rewrite !be_val_be_bytes, !N.mod_small in E by done. done.
Qed.

Lemma app_inj_length {A} (a b c d : list A) :
  length a = length c -> a ++ b = c ++ d -> a = c /\ b = d.
Proof. apply app_inj_1. Qed.

Lemma take_app_exact {A} (a b : list A) n : length a = n -> take n (a ++ b) = a.
Proof. intros <-. apply take_app_length. Qed.
Lemma drop_app_exact {A} (a b : list A) n : length a = n -> drop n (a ++ b) = b.
Proof. intros <-. apply drop_app_length. Qed.

#[export] Hint Rewrite length_be_bytes be_val_be_bytes be_bytes_be_val
  @length_app @length_take @length_drop : bytes.
#[export] Hint Resolve length_be_bytes : rivet.

Lemma as_bytes_inj s t : as_bytes s = as_bytes t -> s = t.
Proof.
  intros E. apply (f_equal String.string_of_list_byte) in E.
  by rewrite !String.string_of_list_byte_of_string in E.
Qed.
Lemma from_utf8_as_bytes s : from_utf8 (as_bytes s) = s.
Proof. apply String.string_of_list_byte_of_string. Qed.
Lemma as_bytes_from_utf8 b : as_bytes (from_utf8 b) = b.
Proof. apply String.list_byte_of_string_of_list_byte. Qed.

Lemma as_bytes_app s t : as_bytes (String.append s t) = as_bytes s ++ as_bytes t.
Proof.
  induction s as [|a s IH]; [done|]. unfold as_bytes, String.list_byte_of_string in *.
  simpl. by rewrite IH.
Qed.

(** ** Length-prefixed fields

    Injectivity of a [u64] length prefix, shared by every binding and
    transcript of the handshakes. A Rust slice is shorter than 2^63 bytes. *)
Definition slice_ok (b : bytes) : Prop := (len b < 256 ^ 8)%N.
#[export] Instance slice_ok_dec b : Decision (slice_ok b).
Proof. unfold slice_ok. apply _. Defined.

Definition len_prefixed (v : bytes) : bytes := be_bytes 8 (len v) ++ v.

Lemma len_prefixed_app_inj v w r s :
  slice_ok v -> slice_ok w ->
  len_prefixed v ++ r = len_prefixed w ++ s -> v = w /\ r = s.
Proof.
  unfold len_prefixed, slice_ok. intros Hv Hw E.
  rewrite <-!app_assoc in E.
  apply app_inj_length in E as [E1 E2]; [|by rewrite !length_be_bytes].
  apply be_bytes_inj in E1; [|done..].
  apply app_inj_length in E2; [done|]. unfold len in E1. lia.
Qed.

Lemma slice_ok_of_length v n : length v = n -> (N.of_nat n < 256 ^ 8)%N -> slice_ok v.
Proof. unfold slice_ok, len. by intros ->. Qed.

(** ** [str::trim]

    Removes leading and trailing characters with the Unicode White_Space
    property. On UTF-8 text a character is matched by its byte sequence:
    lead bytes never occur inside another character. *)
Definition whitespace : list (list N) :=
  [[9]; [10]; [11]; [12]; [13]; [32]; [194; 133]; [194; 160]; [225; 154; 128];
   [226; 128; 128]; [226; 128; 129]; [226; 128; 130]; [226; 128; 131];
   [226; 128; 132]; [226; 128; 133]; [226; 128; 134]; [226; 128; 135];
   [226; 128; 136]; [226; 128; 137]; [226; 128; 138]; [226; 128; 168];
   [226; 128; 169]; [226; 128; 175]; [226; 129; 159]; [227; 128; 128]]%N.

(** The rest of [b] after the pattern [p], if [b] starts with [p]. *)
Fixpoint strip_pattern (p : list N) (b : bytes) : option bytes :=
  match p, b with
  | [], _ => Some b
  | x :: p', y :: b' => if (Byte.to_N y =? x)%N then strip_pattern p' b' else None
  | _ :: _, [] => None
  end.
Fixpoint strip_first (ps : list (list N)) (b : bytes) : option bytes :=
  match ps with
  | [] => None
  | p :: ps' =>
      match strip_pattern p b with Some r => Some r | None => strip_first ps' b end
  end.
Fixpoint trim_matches (ps : list (list N)) (fuel : nat) (b : bytes) : bytes :=
  match fuel with
  | O => b
  | S fuel' =>
      match strip_first ps b with
      | Some r => trim_matches ps fuel' r
      | None => b
      end
  end.
Definition trim_start (b : bytes) : bytes := trim_matches whitespace (length b) b.
Definition trim_end (b : bytes) : bytes :=
  rev (trim_matches (map (@rev N) whitespace) (length b) (rev b)).
Definition trim (s : string) : string := from_utf8 (trim_end (trim_start (as_bytes s))).

(** No whitespace at either end. *)
Definition trimmed (s : string) : bool :=
  match strip_first whitespace (as_bytes s),
        strip_first (map (@rev N) whitespace) (rev (as_bytes s)) with
  | None, None => true
  | _, _ => false
  end.

Lemma trim_matches_stop ps fuel b :
  strip_first ps b = None -> trim_matches ps fuel b = b.
Proof. intros E. destruct fuel; simpl; [done|]. by rewrite E. Qed.

Lemma trim_trimmed s : trimmed s = true -> trim s = s.
Proof.
  unfold trimmed, trim, trim_start, trim_end. intros H. inv_ok H.
  rewrite (trim_matches_stop whitespace) by done.
  rewrite trim_matches_stop by done. rewrite rev_involutive.
  apply from_utf8_as_bytes.
Qed.
#[export] Hint Resolve trim_trimmed : rivet.

(** ** [String::from_utf8_lossy]

    Every maximal prefix of a well-formed character that a wrong byte breaks
    off becomes U+FFFD. [utf8_char] gives the number of bytes consumed and
    whether they are a character. *)
Definition between (lo hi : N) (b : byte) : bool :=
  (lo <=? Byte.to_N b)%N && (Byte.to_N b <=? hi)%N.
(** Match the ranges of the continuation bytes, counting the matched ones. *)
Fixpoint utf8_tail (ranges : list (N * N)) (b : bytes) : nat * bool :=
  match ranges, b with
  | [], _ => (0, true)
  | (lo, hi) :: ranges', x :: b' =>
      if between lo hi x
      then let '(n, good) := utf8_tail ranges' b' in (S n, good)
      else (0, false)
  | _ :: _, [] => (0, false)
  end.
Definition utf8_ranges (x : byte) : option (list (N * N)) :=
  let cont := (128, 191)%N in
  if between 0 127 x then Some []
  else if between 194 223 x then Some [cont]
  else if between 224 224 x then Some [(160, 191)%N; cont]
  else if between 237 237 x then Some [(128, 159)%N; cont]
  else if between 225 239 x then Some [cont; cont]
  else if between 240 240 x then Some [(144, 191)%N; cont; cont]
  else if between 241 243 x then Some [cont; cont; cont]
  else if between 244 244 x then Some [(128, 143)%N; cont; cont]
  else None.
Definition utf8_char (x : byte) (b : bytes) : nat * bool :=
  match utf8_ranges x with
  | Some ranges => let '(n, good) := utf8_tail ranges b in (S n, good)
  | None => (1, false)
  end.
Definition replacement_character : bytes := [Byte.xef; Byte.xbf; Byte.xbd].
Fixpoint utf8_lossy (fuel : nat) (b : bytes) : bytes :=
  match fuel, b with
  | S fuel', x :: b' =>
      let '(n, good) := utf8_char x b' in
      (if good then take n b else replacement_character) ++ utf8_lossy fuel' (drop n b)
  | _, _ => []
  end.
Definition from_utf8_lossy (b : bytes) : string := from_utf8 (utf8_lossy (length b) b).

(** [str::is_ascii]. *)
Definition is_ascii (b : bytes) : bool := forallb (between 0 127) b.

Lemma from_utf8_lossy_ascii b : is_ascii b = true -> from_utf8_lossy b = from_utf8 b.
Proof.
  intros H. unfold from_utf8_lossy. f_equal. revert H.
  induction b as [|x b IH]; simpl; [done|]. intros [Hx Hb]%andb_true_iff.
  unfold utf8_char, utf8_ranges. rewrite Hx. simpl.
  unfold is_ascii in IH. rewrite drop_0. by rewrite IH.
Qed.

(** ** UUIDs

    [uuid::Uuid] is a 16-byte value; [Uuid::from_slice] accepts exactly the
    slices of that length. The newtypes [SessionId], [DeviceId], [UserId] and
    [OrganizationId] of rivetlink-core are transparent. *)
Definition Uuid : Type := dsig (fun b : bytes => length b = 16).
Definition uuid_as_bytes (u : Uuid) : bytes := proj1_sig u.
Definition uuid_from_slice (b : bytes) : option Uuid :=
  match decide (length b = 16) with
  | left H => Some (dexist b H)
  | right _ => None
  end.
(** [Uuid::from_u128]. *)
Definition uuid_from_u128 (n : N) : Uuid :=
  dexist (be_bytes 16 n) (length_be_bytes 16 n).

Lemma uuid_as_bytes_length u : length (uuid_as_bytes u) = 16.
Proof. destruct u as [b H]. simpl. by apply bool_decide_unpack in H. Qed.
Lemma uuid_as_bytes_inj u v : uuid_as_bytes u = uuid_as_bytes v -> u = v.
Proof. intros E. by apply dsig_eq. Qed.
Lemma uuid_from_slice_as_bytes u : uuid_from_slice (uuid_as_bytes u) = Some u.
Proof.
  unfold uuid_from_slice. destruct decide as [H|H].
  - f_equal. by apply dsig_eq.
  - by destruct H; apply uuid_as_bytes_length.
Qed.
Lemma uuid_from_slice_Some b u : uuid_from_slice b = Some u -> uuid_as_bytes u = b.
Proof. unfold uuid_from_slice. intros H. by inv_ok H. Qed.
#[export] Hint Resolve uuid_as_bytes_length : rivet.

(** ** Reachability *)

(** Rule induction for a property kept by every step of a relation. *)
Lemma invariant_rtc {S : Type} (step : S -> S -> Prop) (I : S -> Prop) :
  (forall x y, step x y -> I x -> I y) ->
  forall x y, rtc step x y -> I x -> I y.
Proof. intros H x y. induction 1; eauto. Qed.
