(* ===== verification/Text.v ===== *)
(** * Text functions of the standard library

    The [str] methods the sources use on paths, configuration values and the
    output of system tools, as functions on the UTF-8 bytes, with the lemmas
    that the components share. *)
From Stdlib Require Import NArith Lia Strings.String Strings.Byte.
From S2P Require Import Prelude.

(** ** Splitting *)

(** [str::split] at an ASCII character: never empty. *)
Fixpoint split_on (c : byte) (b : bytes) : list bytes :=
  match b with
  | [] => [[]]
  | x :: b' =>
      if Byte.eqb x c then [] :: split_on c b'
      else match split_on c b' with
           | p :: ps => (x :: p) :: ps
           | [] => [[x]]
           end
  end.
Definition str_split (c : byte) (s : string) : list string := map from_utf8 (split_on c (as_bytes s)).

(** [str::split_once] and [str::rsplit_once]. *)
Fixpoint split_once_b (c : byte) (b : bytes) : option (bytes * bytes) :=
  match b with
  | [] => None
  | x :: b' =>
      if Byte.eqb x c then Some ([], b')
      else match split_once_b c b' with
           | Some (p, q) => Some (x :: p, q)
           | None => None
           end
  end.
Definition split_once (c : byte) (s : string) : option (string * string) :=
  match split_once_b c (as_bytes s) with
  | Some (p, q) => Some (from_utf8 p, from_utf8 q)
  | None => None
  end.
Definition rsplit_once (c : byte) (s : string) : option (string * string) :=
  match split_once_b c (rev (as_bytes s)) with
  | Some (p, q) => Some (from_utf8 (rev q), from_utf8 (rev p))
  | None => None
  end.

Definition starts_with_b (p b : bytes) : bool := bool_decide (take (length p) b = p).
(** [str::starts_with], [str::ends_with], [str::strip_prefix] and [str::contains]. *)
Definition str_starts_with (p s : string) : bool := starts_with_b (as_bytes p) (as_bytes s).
Definition ends_with (p s : string) : bool := starts_with_b (rev (as_bytes p)) (rev (as_bytes s)).
Definition strip_prefix (p s : string) : option string :=
  if str_starts_with p s then Some (from_utf8 (drop (length (as_bytes p)) (as_bytes s))) else None.
Fixpoint contains_b (p b : bytes) : bool :=
  starts_with_b p b || match b with [] => false | _ :: b' => contains_b p b' end.
Definition str_contains (p s : string) : bool := contains_b (as_bytes p) (as_bytes s).

(** [str::lines]: the line feed, with a carriage return before it, is dropped;
    no empty last line. *)
Definition strip_cr (b : bytes) : bytes :=
  match rev b with
  | x :: r => if Byte.eqb x Byte.x0d then rev r else b
  | [] => b
  end.
Fixpoint lines_of (parts : list bytes) : list bytes :=
  match parts with
  | [] => []
  | [p] => match p with [] => [] | _ => [p] end
  | p :: ps => strip_cr p :: lines_of ps
  end.
Definition lines (s : string) : list string :=
  map from_utf8 (lines_of (split_on Byte.x0a (as_bytes s))).

(** [str::split_whitespace]. *)
Fixpoint whitespace_fields (fuel : nat) (current b : bytes) : list bytes :=
  let flush := match current with [] => [] | _ => [rev current] end in
  match fuel, b with
  | S fuel', x :: b' =>
      match strip_first whitespace b with
      | Some r => flush ++ whitespace_fields fuel' [] r
      | None => whitespace_fields fuel' (x :: current) b'
      end
  | _, _ => flush
  end.
Definition split_whitespace (s : string) : list string :=
  map from_utf8 (whitespace_fields (length (as_bytes s)) [] (as_bytes s)).

(** The order of [str] and of the keys of a [BTreeSet<String>]. *)
Definition by_text (a b : string) : Prop := String.leb a b = true.
#[export] Instance by_text_dec : RelDecision by_text.
Proof. intros a b. unfold by_text. apply _. Defined.

(** ** Characters and numbers *)

Definition is_ascii_digit (x : byte) : bool := between 48 57 x.
Definition ascii_lower (x : byte) : byte := if between 65 90 x then byte_of_N (Byte.to_N x + 32) else x.
(** [str::to_ascii_lowercase]. *)
Definition to_ascii_lowercase (s : string) : string := from_utf8 (map ascii_lower (as_bytes s)).

(** [chars().any(char::is_control)]: U+0000..U+001F and U+007F..U+009F. *)
Fixpoint has_control (b : bytes) : bool :=
  match b with
  | [] => false
  | x :: b' =>
      between 0 31 x || between 127 127 x ||
      (match b' with y :: _ => between 194 194 x && between 128 159 y | [] => false end) ||
      has_control b'
  end.

(** [str::parse::<u32>]: an optional plus sign and digits, in range. *)
Fixpoint parse_digits (acc : N) (b : bytes) : option N :=
  match b with
  | [] => Some acc
  | x :: b' =>
      if is_ascii_digit x then
        let acc := (acc * 10 + (Byte.to_N x - 48))%N in
        if (u32_max <? acc)%N then None else parse_digits acc b'
      else None
  end.
Definition parse_u32 (s : string) : option N :=
  match as_bytes s with
  | [] => None
  | [x] => if is_ascii_digit x then Some (Byte.to_N x - 48)%N else None
  | x :: b => if Byte.eqb x Byte.x2b then parse_digits 0 b else parse_digits 0 (x :: b)
  end.

(** ** Lemmas *)

Lemma byte_eqb_eq x y : Byte.eqb x y = true <-> x = y.
Proof. split; [apply Byte.byte_dec_bl|apply Byte.byte_dec_lb]. Qed.
Lemma byte_eqb_neq x y : Byte.eqb x y = false <-> x <> y.
Proof. rewrite <-byte_eqb_eq. by destruct (Byte.eqb x y). Qed.

Lemma elem_of_rev {A} (x : A) l : x ∈ rev l <-> x ∈ l.
Proof. rewrite !list_elem_of_In. symmetry. apply in_rev. Qed.

Lemma split_on_nonempty c b : split_on c b <> [].
Proof. induction b as [|x b IH]; simpl; [done|]. destruct (Byte.eqb x c); [done|]. by destruct (split_on c b). Qed.

(** Parts joined by the separator give the text back. *)
Fixpoint join_b (c : byte) (ps : list bytes) : bytes :=
  match ps with
  | [] => []
  | [p] => p
  | p :: ps' => p ++ c :: join_b c ps'
  end.
Lemma join_split c b : join_b c (split_on c b) = b.
Proof.
  induction b as [|x b IH]; [done|]. simpl. destruct (Byte.eqb x c) eqn:E.
  - apply byte_eqb_eq in E as ->. pose proof (split_on_nonempty c b).
    destruct (split_on c b); [done|]. simpl in *. by f_equal.
  - pose proof (split_on_nonempty c b). destruct (split_on c b) as [|p ps]; [done|].
    destruct ps; simpl in *; by f_equal.
Qed.
Lemma split_on_no_sep c b : Forall (fun p => c ∉ p) (split_on c b).
Proof.
  induction b as [|x b IH]; simpl; [repeat constructor; apply not_elem_of_nil|].
  destruct (Byte.eqb x c) eqn:E; [constructor; [apply not_elem_of_nil|done]|].
  apply byte_eqb_neq in E. destruct (split_on c b) as [|p ps].
  - repeat constructor. intros [|]%elem_of_cons; [done|by eapply not_elem_of_nil].
  - inversion IH; subst. constructor; [|done]. intros [|]%elem_of_cons; done.
Qed.
Lemma split_no_sep c b : c ∉ b -> split_on c b = [b].
Proof.
  induction b as [|x b IH]; intros H; [done|]. simpl.
  apply not_elem_of_cons in H as [Hx Hb]. destruct (Byte.eqb x c) eqn:E.
  - apply byte_eqb_eq in E. congruence.
  - by rewrite IH.
Qed.
Lemma split_join c ps : ps <> [] -> Forall (fun p => c ∉ p) ps -> split_on c (join_b c ps) = ps.
Proof.
  intros Hn F. induction F as [|p ps Hp F IH]; [done|]. destruct ps as [|q ps].
  - by apply split_no_sep.
  - change (split_on c (p ++ c :: join_b c (q :: ps)) = p :: q :: ps).
    rewrite <-(IH ltac:(done)) at 2. generalize (join_b c (q :: ps)) as r. intros r. clear IH F Hn.
    induction p as [|x p IHp]; simpl.
    + by rewrite (proj2 (byte_eqb_eq c c)).
    + apply not_elem_of_cons in Hp as [Hx Hp]. rewrite (proj2 (byte_eqb_neq x c)) by congruence.
      by rewrite IHp.
Qed.

Lemma starts_with_b_spec p b : starts_with_b p b = true <-> exists r, b = p ++ r.
Proof.
  unfold starts_with_b. rewrite bool_decide_eq_true. split.
  - intros E. exists (drop (length p) b). rewrite <-E at 1. by rewrite take_drop.
  - intros [r ->]. apply take_app_length.
Qed.
Lemma ends_with_spec p s : ends_with p s = true <-> exists r, as_bytes s = r ++ as_bytes p.
Proof.
  unfold ends_with. rewrite starts_with_b_spec. split; intros [r E].
  - exists (rev r). rewrite <-(rev_involutive (as_bytes s)), E, rev_app_distr, rev_involutive. done.
  - exists (rev r). by rewrite E, rev_app_distr.
Qed.

(** Decimal numbers are digits. *)
Lemma pretty_go_digits n s : Forall (fun x => is_ascii_digit x = true) (as_bytes s) ->
  Forall (fun x => is_ascii_digit x = true) (as_bytes (pretty_N_go n s)).
Proof.
  revert s. induction (N.lt_wf_0 n) as [n _ IH]. intros s F.
  destruct (decide (n = 0)%N) as [->|Hn]; [by rewrite pretty_N_go_0|].
  rewrite pretty_N_go_step by lia. apply IH; [apply N.div_lt; lia|].
  unfold as_bytes in *. cbn [String.list_byte_of_string]. constructor; [|done].
  unfold pretty_N_char. repeat case_match; reflexivity.
Qed.
Lemma pretty_digits (n : N) : Forall (fun x => is_ascii_digit x = true) (as_bytes (pretty n)).
Proof.
  unfold pretty, pretty_N. case_decide; [by repeat constructor|]. apply pretty_go_digits. constructor.
Qed.

(** A printed number is parsed back. *)
Lemma pretty_N_char_digit n : (n < 10)%N ->
  is_ascii_digit (Ascii.byte_of_ascii (pretty_N_char n)) = true /\ (Byte.to_N (Ascii.byte_of_ascii (pretty_N_char n)) - 48 = n)%N.
Proof.
  intros H. assert (forallb (fun d => is_ascii_digit (Ascii.byte_of_ascii (pretty_N_char d)) &&
    (Byte.to_N (Ascii.byte_of_ascii (pretty_N_char d)) - 48 =? d)%N) (map N.of_nat (seq 0 10)) = true) as All by reflexivity.
  rewrite forallb_forall in All. specialize (All n).
  apply andb_true_iff in All as [D V%N.eqb_eq]; [done|]. apply in_map_iff. exists (N.to_nat n). rewrite in_seq. lia.
Qed.
Lemma parse_digits_go n s : (n <= u32_max)%N ->
  parse_digits 0 (as_bytes (pretty_N_go n s)) = parse_digits n (as_bytes s).
Proof.
  revert s. induction (N.lt_wf_0 n) as [n _ IH]. intros s Hmax.
  destruct (decide (n = 0)%N) as [->|Hn]; [by rewrite pretty_N_go_0|].
  assert (n / 10 < n)%N by (apply N.div_lt; lia).
  rewrite pretty_N_go_step by lia. rewrite IH by lia.
  destruct (pretty_N_char_digit (n mod 10)) as [Hd Hv]; [by apply N.mod_lt|].
  change (as_bytes (String (pretty_N_char (n mod 10)) s)) with (Ascii.byte_of_ascii (pretty_N_char (n mod 10)) :: as_bytes s).
  cbn [parse_digits]. rewrite Hd, Hv.
  pose proof (N.div_mod' n 10). replace (n / 10 * 10 + n mod 10)%N with n by lia.
  by destruct (N.ltb_spec u32_max n); [lia|].
Qed.
Lemma parse_u32_pretty (n : N) : (n <= u32_max)%N -> parse_u32 (pretty n) = Some n.
Proof.
  intros Hmax. pose proof (pretty_digits n) as Hdigits.
  assert (parse_digits 0 (as_bytes (pretty n)) = Some n) as Hp.
  { unfold pretty, pretty_N. case_decide as E; [subst; reflexivity|]. by rewrite parse_digits_go. }
  assert (pretty n <> ""%string) as Hne.
  { unfold pretty, pretty_N. case_decide; [done|]. intros E. revert Hp. unfold pretty, pretty_N. rewrite decide_False by done.
    rewrite E. intros [= <-]. done. }
  unfold parse_u32. destruct (as_bytes (pretty n)) as [|x [|y b]] eqn:E.
  - apply (as_bytes_inj _ ""%string) in E. done.
  - apply list.Forall_cons in Hdigits as [Hx _]. revert Hp. cbn [parse_digits]. rewrite Hx.
    destruct (u32_max <? 0 * 10 + (Byte.to_N x - 48))%N; [done|]. intros [= <-]. done.
  - apply list.Forall_cons in Hdigits as [Hx _].
    assert (Byte.eqb x Byte.x2b = false) as ->; [|done].
    apply byte_eqb_neq. intros ->. by vm_compute in Hx.
Qed.

(** ** Separators and prefixes *)

Lemma split_once_b_spec c b p q : split_once_b c b = Some (p, q) -> b = p ++ c :: q /\ c ∉ p.
Proof.
  revert p. induction b as [|x b IH]; intros p; simpl; [done|].
  destruct (Byte.eqb x c) eqn:E.
  - apply byte_eqb_eq in E as ->. intros [= <- <-]. split; [done|apply not_elem_of_nil].
  - destruct (split_once_b c b) as [[p' q']|]; [|done]. intros [= <- <-].
    destruct (IH p' eq_refl) as [-> Hp]. split; [done|].
    apply byte_eqb_neq in E. intros [|]%elem_of_cons; done.
Qed.
Lemma rsplit_once_spec c s t e : rsplit_once c s = Some (t, e) ->
  as_bytes s = as_bytes t ++ c :: as_bytes e /\ c ∉ as_bytes e.
Proof.
  unfold rsplit_once. intros E. inv_ok E. rewrite !as_bytes_from_utf8.
  apply split_once_b_spec in Heqo as [E H]. apply (f_equal (@rev byte)) in E.
  rewrite rev_involutive in E. rewrite E, rev_app_distr. simpl. rewrite <-app_assoc.
  split; [done|]. by rewrite elem_of_rev.
Qed.

(** The last separator is at one place. *)
Lemma split_once_b_app c p q : c ∉ p -> split_once_b c (p ++ c :: q) = Some (p, q).
Proof.
  induction p as [|z l IH]; simpl; intros H; [by rewrite (proj2 (byte_eqb_eq c c))|].
  apply not_elem_of_cons in H as [Hz Hl]. rewrite (proj2 (byte_eqb_neq z c)) by congruence. by rewrite IH.
Qed.
Lemma last_sep (c : byte) x a y b : c ∉ a -> c ∉ b -> x ++ c :: a = y ++ c :: b -> x = y /\ a = b.
Proof.
  intros Ha Hb E. apply (f_equal (@rev byte)) in E. rewrite !rev_app_distr in E. simpl in E.
  rewrite <-!app_assoc in E. simpl in E. apply (f_equal (split_once_b c)) in E.
  rewrite !split_once_b_app in E by by rewrite elem_of_rev. simplify_eq.
  by rewrite <-(rev_involutive x), <-(rev_involutive a), H0, H, !rev_involutive.
Qed.
Lemma rsplit_once_app c s a b : as_bytes s = a ++ c :: b -> c ∉ b ->
  rsplit_once c s = Some (from_utf8 a, from_utf8 b).
Proof.
  intros E H. unfold rsplit_once. rewrite E, rev_app_distr. cbn [rev]. rewrite <-app_assoc. cbn [app].
  rewrite split_once_b_app by by rewrite elem_of_rev. by rewrite !rev_involutive.
Qed.
Lemma split_once_b_none c b : c ∉ b -> split_once_b c b = None.
Proof.
  induction b as [|x b IH]; [done|]. intros [Hx Hb]%not_elem_of_cons. simpl.
  rewrite (proj2 (byte_eqb_neq x c)) by congruence. by rewrite IH.
Qed.
Lemma rsplit_once_none c s : c ∉ as_bytes s -> rsplit_once c s = None.
Proof. intros H. unfold rsplit_once. by rewrite split_once_b_none by by rewrite elem_of_rev. Qed.

Lemma str_starts_with_spec p s : str_starts_with p s = true <-> exists r, as_bytes s = as_bytes p ++ r.
Proof. apply starts_with_b_spec. Qed.
Lemma strip_prefix_spec p s t : strip_prefix p s = Some t <-> as_bytes s = as_bytes p ++ as_bytes t.
Proof.
  unfold strip_prefix. split.
  - destruct (str_starts_with p s) eqn:E; [|done]. intros [= <-]. rewrite as_bytes_from_utf8.
    apply str_starts_with_spec in E as [r E]. rewrite E. by rewrite drop_app_length.
  - intros E. rewrite (proj2 (str_starts_with_spec p s)) by eauto. rewrite E, drop_app_length.
    by rewrite from_utf8_as_bytes.
Qed.

(** Lines that were each ended by a line feed come back. *)
Lemma strip_cr_plain b : Byte.x0d ∉ b -> strip_cr b = b.
Proof.
  intros N. unfold strip_cr. destruct (rev b) as [|x r] eqn:E; [done|].
  destruct (Byte.eqb x Byte.x0d) eqn:Ex; [|done]. apply byte_eqb_eq in Ex as ->.
  destruct N. apply elem_of_rev. rewrite E. left.
Qed.
Lemma lines_of_terminated ps : Forall (fun p => Byte.x0d ∉ p) ps -> lines_of (ps ++ [[]]) = ps.
Proof.
  induction 1 as [|p ps Hp F IH]; [done|]. cbn [app lines_of].
  destruct (ps ++ [[]]) as [|q qs] eqn:E; [by destruct ps|]. by rewrite IH, strip_cr_plain.
Qed.
Lemma concat_terminated c ps : concat (map (fun p => p ++ [c]) ps) = join_b c (ps ++ [[]]).
Proof.
  induction ps as [|p ps IH]; [done|]. cbn [map concat app join_b]. rewrite IH.
  destruct (ps ++ [[]]) as [|q qs] eqn:E; [by destruct ps|]. by rewrite <-app_assoc.
Qed.
