(* ===== verification/Interfaces.v ===== *)
(** * Interfaces of the code outside the repository

    The Rust crates the sources call (ed25519-dalek, x25519-dalek, sha2, hkdf,
    chacha20poly1305, ml-kem, spake2, base64, serde_json, tokio's bounded
    channels, the uuid crate's text form) are parameters of the model: a class
    of operations, and a class of the documented laws the theorems rely on.
    [Instances.v] gives concrete functions for each, for the witnesses. *)
From S2P Require Import Prelude.

(** ** Text and JSON encodings *)

(** [base64::engine::general_purpose::STANDARD]; a decoding error carries its
    display text. *)
Class Base64 := {
  b64_encode : bytes -> string;
  b64_decode : string -> Result bytes string;
}.
Definition b64_symbol (x : Byte.byte) : bool :=
  between 65 90 x || between 97 122 x || between 48 57 x || between 43 43 x ||
  between 47 47 x || between 61 61 x.
Class Base64Laws `{Base64} := {
  b64_decode_encode : forall b, b64_decode (b64_encode b) = Ok b;
  (** The alphabet is [A-Za-z0-9+/=]. *)
  b64_encode_trimmed : forall b, trimmed (b64_encode b) = true;
  b64_encode_length : forall b, (slen (b64_encode b) <= 2 * len b + 2)%N;
  b64_encode_empty : forall b, as_bytes (b64_encode b) = [] -> b = [];
  b64_encode_ascii : forall b, is_ascii (as_bytes (b64_encode b)) = true;
  b64_encode_alphabet : forall b, forallb b64_symbol (as_bytes (b64_encode b)) = true;
  (** Any other symbol is an error. *)
  b64_decode_alphabet : forall s b, b64_decode s = Ok b -> forallb b64_symbol (as_bytes s) = true;
}.

(** The hyphenated text form of a UUID. *)
Class UuidText := { uuid_to_string : Uuid -> string }.
Class UuidTextLaws `{UuidText} := {
  uuid_to_string_length : forall u, length (as_bytes (uuid_to_string u)) = 36;
  uuid_to_string_inj : forall u v, uuid_to_string u = uuid_to_string v -> u = v;
}.

(** [serde_json::Value], for the values the sources build with [json!]; objects
    keep the order of insertion. [json_text] is its [to_string]. *)
Inductive Json :=
| JNull
| JString (s : string)
| JNumber (n : Z)
| JObject (fields : list (string * Json)).
Class JsonText := { json_text : Json -> string }.

(** [serde_json::to_string] and [serde_json::from_str] at one type; errors
    carry their display text. *)
Class Serde (A : Type) := {
  to_json : A -> Result string string;
  from_json : string -> Result A string;
}.
Class SerdeLaws (A : Type) `{Serde A} := {
  to_json_ok : forall a : A, is_ok (to_json a) = true;
  from_to_json : forall (a : A) s, to_json a = Ok s -> from_json s = Ok a;
}.

(** ** Cryptographic primitives *)

(** ed25519-dalek. A [VerifyingKey] is its 32 bytes; [vk_valid] is
    [VerifyingKey::from_bytes] succeeding (a point on the curve). *)
Class Ed25519 := {
  SigningKey : Type;
  verifying_key : SigningKey -> bytes;
  ed_sign : SigningKey -> bytes -> bytes;
  ed_verify : bytes -> bytes -> bytes -> bool;
  vk_valid : bytes -> bool;
  (** The text of the refusal of an invalid key. *)
  vk_error : bytes -> string;
}.
Class Ed25519Laws `{Ed25519} := {
  verifying_key_length : forall sk, length (verifying_key sk) = 32;
  verifying_key_valid : forall sk, vk_valid (verifying_key sk) = true;
  ed_sign_length : forall sk m, length (ed_sign sk m) = 64;
  ed_verify_sign : forall sk m, ed_verify (verifying_key sk) m (ed_sign sk m) = true;
}.

(** x25519-dalek: an ephemeral secret and its public key bytes. *)
Class X25519 := {
  EphemeralSecret : Type;
  x_public : EphemeralSecret -> bytes;
  diffie_hellman : EphemeralSecret -> bytes -> bytes;
}.
Class X25519Laws `{X25519} := {
  x_public_length : forall s, length (x_public s) = 32;
  diffie_hellman_length : forall s p, length (diffie_hellman s p) = 32;
  diffie_hellman_comm : forall a b,
    diffie_hellman a (x_public b) = diffie_hellman b (x_public a);
}.

(** sha2 and hkdf. [hkdf_expand salt ikm info n] is
    [Hkdf::<Sha256>::new(Some(salt), ikm).expand(info, out)] with an [n]-byte
    output, [None] when it refuses the length. *)
Class Hash := {
  sha256 : bytes -> bytes;
  hkdf_expand : bytes -> bytes -> bytes -> nat -> option bytes;
}.
Class HashLaws `{Hash} := {
  sha256_length : forall b, length (sha256 b) = 32;
  (** HKDF-SHA-256 gives up to 255 blocks of 32 bytes. *)
  hkdf_expand_ok : forall salt ikm info n,
    (N.of_nat n <= 8160)%N -> exists out, hkdf_expand salt ikm info n = Some out /\ length out = n;
}.

(** chacha20poly1305 with a 32-byte key: key, nonce, associated data, text. *)
Class Aead := {
  aead_encrypt : bytes -> bytes -> bytes -> bytes -> Result bytes string;
  aead_decrypt : bytes -> bytes -> bytes -> bytes -> Result bytes string;
}.
Class AeadLaws `{Aead} := {
  (** Only a text of gigabytes is refused. *)
  aead_encrypt_ok : forall k n a m, (len m < 2 ^ 32)%N -> is_ok (aead_encrypt k n a m) = true;
  (** Ciphertexts carry a 16-byte tag. *)
  aead_encrypt_length : forall k n a m c,
    aead_encrypt k n a m = Ok c -> length c = length m + 16;
  aead_decrypt_encrypt : forall k n a m c,
    aead_encrypt k n a m = Ok c -> aead_decrypt k n a c = Ok m;
  (** Decryption recomputes the tag: what it accepts is an encryption. *)
  aead_decrypt_sound : forall k n a m c,
    aead_decrypt k n a c = Ok m -> aead_encrypt k n a m = Ok c;
}.

(** ml-kem (ML-KEM-768). [kem_encapsulate ek r] runs with randomness [r];
    [None] when the key fails the FIPS 203 check. Decapsulation of a ciphertext
    of the right length always yields some secret (implicit rejection). *)
Class MlKem := {
  KemKey : Type;
  kem_public : KemKey -> bytes;
  kem_encapsulate : bytes -> bytes -> option (bytes * bytes);
  kem_decapsulate : KemKey -> bytes -> option bytes;
}.
Class MlKemLaws `{MlKem} := {
  kem_encapsulate_ok : forall k r,
    exists ct ss, kem_encapsulate (kem_public k) r = Some (ct, ss);
  kem_decapsulate_encapsulate : forall k r ct ss,
    kem_encapsulate (kem_public k) r = Some (ct, ss) -> kem_decapsulate k ct = Some ss;
  kem_public_length : forall k, len (kem_public k) = 1184%N;
  kem_ciphertext_length : forall ek r ct ss,
    kem_encapsulate ek r = Some (ct, ss) -> len ct = 1088%N;
  kem_encapsulate_length : forall ek r ct ss,
    kem_encapsulate ek r = Some (ct, ss) -> length ss = 32;
  kem_decapsulate_length : forall k ct ss, kem_decapsulate k ct = Some ss -> length ss = 32;
}.

(** spake2 in its symmetric mode: started with a password, an identity and
    randomness it gives a state and a message; [spake_finish] takes the peer's
    message, [None] when malformed. *)
Class Spake2 := {
  SpakeState : Type;
  spake_start : bytes -> bytes -> bytes -> SpakeState * bytes;
  spake_finish : SpakeState -> bytes -> option bytes;
}.
Class Spake2Laws `{Spake2} := {
  spake_message_length : forall pw id r, len (spake_start pw id r).2 = 33%N;
  (** Equal passwords and identities: both sides derive one 32-byte key. *)
  spake_agree : forall pw id r1 r2,
    exists key, length key = 32 /\
      spake_finish (spake_start pw id r1).1 (spake_start pw id r2).2 = Some key /\
      spake_finish (spake_start pw id r2).1 (spake_start pw id r1).2 = Some key;
}.

(** ** tokio's bounded channel

    The sending end of [tokio::sync::mpsc]: [try_send] never waits. *)
Class MpscSender (Q M : Type) := {
  try_send : Q -> M -> option Q;
  queued : Q -> list M;
}.
Class MpscLaws (Q M : Type) `{MpscSender Q M} := {
  (** A successful send appends one message and changes nothing else. *)
  try_send_queued : forall (q q' : Q) (m : M),
    try_send q m = Some q' -> queued q' = queued q ++ [m];
}.
