(* ===== verification/Instances.v ===== *)
(** * Concrete instances of the external interfaces

    Executable functions that satisfy every law of [Interfaces.v]. They are
    the inputs of the witnesses: they show that the laws can hold together,
    and make the protocol definitions computable. They are not secure
    primitives and no theorem is stated about them. *)
From Stdlib Require Import NArith Lia Strings.String Strings.Byte.
From S2P Require Import Prelude Interfaces.

(** ** Hexadecimal text *)

Definition hex_digit (n : N) : byte :=
  if (n <? 10)%N then byte_of_N (48 + n) else byte_of_N (87 + n).
Definition unhex_digit (b : byte) : option N :=
  let n := Byte.to_N b in
  if (48 <=? n)%N && (n <=? 57)%N then Some (n - 48)%N
  else if (97 <=? n)%N && (n <=? 102)%N then Some (n - 87)%N else None.
Fixpoint hex (b : bytes) : bytes :=
  match b with
  | [] => []
  | x :: b' =>
      hex_digit (Byte.to_N x / 16) :: hex_digit (Byte.to_N x mod 16) :: hex b'
  end.
Fixpoint unhex (b : bytes) : Result bytes string :=
  match b with
  | [] => Ok []
  | [_] => Err "Invalid padding"
  | x :: y :: b' =>
      match unhex_digit x, unhex_digit y with
      | Some h, Some l => let? r := unhex b' in Ok (byte_of_N (h * 16 + l) :: r)
      | _, _ => Err "Invalid symbol"
      end
  end.

Lemma two_step_ind {A} (P : list A -> Prop) :
  P [] -> (forall x, P [x]) -> (forall x y l, P l -> P (x :: y :: l)) -> forall l, P l.
Proof. intros H0 H1 H2. fix IH 1. intros [|x [|y l]]; [done|done|]. apply H2, IH. Qed.

Lemma unhex_hex_byte x :
  unhex_digit (hex_digit (Byte.to_N x / 16)) = Some (Byte.to_N x / 16)%N /\
  unhex_digit (hex_digit (Byte.to_N x mod 16)) = Some (Byte.to_N x mod 16)%N.
Proof. destruct x; split; reflexivity. Qed.

Lemma unhex_hex b : unhex (hex b) = Ok b.
Proof.
  induction b as [|x b IH]; [done|]. cbn [hex unhex].
  destruct (unhex_hex_byte x) as [-> ->]. rewrite IH. f_equal. f_equal.
  rewrite N.mul_comm, <-N.Div0.div_mod. apply byte_of_N_to_N.
Qed.

Lemma hex_inj a b : hex a = hex b -> a = b.
Proof. intros E. pose proof (unhex_hex a) as H. rewrite E, unhex_hex in H. by inversion H. Qed.

Lemma length_hex b : length (hex b) = 2 * length b.
Proof. induction b; simpl; lia. Qed.

(** No digit starts or ends a whitespace character. *)
Lemma strip_first_hex_digit x b :
  strip_first whitespace (hex_digit (Byte.to_N x / 16) :: b) = None /\
  strip_first (map (@rev N) whitespace) (hex_digit (Byte.to_N x mod 16) :: b) = None.
Proof. destruct x; split; reflexivity. Qed.

Lemma hex_trimmed b : trimmed (from_utf8 (hex b)) = true.
Proof.
  unfold trimmed. rewrite as_bytes_from_utf8.
  assert (strip_first whitespace (hex b) = None) as ->.
  { destruct b as [|x b]; [done|]. apply strip_first_hex_digit. }
  assert (strip_first (map (@rev N) whitespace) (rev (hex b)) = None) as ->; [|done].
  destruct b as [|x b] using rev_ind; [done|].
  assert (hex (b ++ [x]) = hex b ++ hex [x]) as ->.
  { clear. induction b as [|y b IH]; simpl; [done|]. by rewrite IH. }
  rewrite rev_app_distr. apply strip_first_hex_digit.
Qed.

Lemma hex_ascii b : is_ascii (hex b) = true.
Proof. induction b as [|x b IH]; [done|]. cbn [hex is_ascii forallb].
  unfold is_ascii in IH. rewrite IH. by destruct x. Qed.

Lemma hex_alphabet b : forallb b64_symbol (hex b) = true.
Proof. induction b as [|x b IH]; [done|]. cbn [hex forallb]. rewrite IH. by destruct x. Qed.
Lemma unhex_digit_symbol x n : unhex_digit x = Some n -> b64_symbol x = true.
Proof. by destruct x. Qed.
Lemma unhex_alphabet s b : unhex s = Ok b -> forallb b64_symbol s = true.
Proof.
  revert b. induction s as [| |x y s IH] using two_step_ind; cbn [unhex]; intros b E; [done..|].
  destruct (unhex_digit x) eqn:Ex, (unhex_digit y) eqn:Ey; try done.
  destruct (unhex s) as [r|] eqn:Es; [|done]. cbn [forallb].
  rewrite (unhex_digit_symbol _ _ Ex), (unhex_digit_symbol _ _ Ey). by eapply IH.
Qed.

#[export] Instance toy_base64 : Base64 := {
  b64_encode b := from_utf8 (hex b);
  b64_decode s := unhex (as_bytes s);
}.
#[export] Instance toy_base64_laws : Base64Laws.
Proof.
  split; simpl.
  - intros b. by rewrite as_bytes_from_utf8, unhex_hex.
  - apply hex_trimmed.
  - intros b. unfold slen, len. rewrite as_bytes_from_utf8, length_hex. lia.
  - intros b E. rewrite as_bytes_from_utf8 in E. by destruct b.
  - intros b. rewrite as_bytes_from_utf8. apply hex_ascii.
  - intros b. rewrite as_bytes_from_utf8. apply hex_alphabet.
  - intros s b. apply unhex_alphabet.
Qed.

(** ** Base64 proper, for what depends on its padding *)

Definition base64_symbol (n : N) : byte :=
  byte_of_N (if (n <? 26)%N then 65 + n else if (n <? 52)%N then 71 + n
             else if (n <? 62)%N then n - 4 else if (n =? 62)%N then 43 else 47)%N.
Definition base64_value (b : byte) : option N :=
  let n := Byte.to_N b in
  if (65 <=? n)%N && (n <=? 90)%N then Some (n - 65)%N
  else if (97 <=? n)%N && (n <=? 122)%N then Some (n - 71)%N
  else if (48 <=? n)%N && (n <=? 57)%N then Some (n + 4)%N
  else if (n =? 43)%N then Some 62%N else if (n =? 47)%N then Some 63%N else None.
Definition pad : byte := Byte.x3d.
Fixpoint base64 (b : bytes) : bytes :=
  let c n := base64_symbol (n mod 64) in
  match b with
  | [] => []
  | [x] => let v := (Byte.to_N x * 65536)%N in [c (v / 262144); c (v / 4096); pad; pad]%N
  | [x; y] =>
      let v := (Byte.to_N x * 65536 + Byte.to_N y * 256)%N in
      [c (v / 262144); c (v / 4096); c (v / 64); pad]%N
  | x :: y :: z :: rest =>
      let v := (Byte.to_N x * 65536 + Byte.to_N y * 256 + Byte.to_N z)%N in
      c (v / 262144)%N :: c (v / 4096)%N :: c (v / 64)%N :: c v :: base64 rest
  end.
Fixpoint unbase64 (s : bytes) : option bytes :=
  match s with
  | [] => Some []
  | [a; b; c; d] =>
      match base64_value a, base64_value b with
      | Some a, Some b =>
          let v := (a * 262144 + b * 4096)%N in
          match base64_value c, base64_value d with
          | Some c, Some d =>
              let v := (v + c * 64 + d)%N in
              Some [byte_of_N (v / 65536); byte_of_N (v / 256 mod 256); byte_of_N (v mod 256)]
          | Some c, None =>
              let v := (v + c * 64)%N in
              if Byte.eqb d pad && (v mod 256 =? 0)%N
              then Some [byte_of_N (v / 65536); byte_of_N (v / 256 mod 256)] else None
          | None, _ =>
              if Byte.eqb c pad && Byte.eqb d pad && (v mod 65536 =? 0)%N
              then Some [byte_of_N (v / 65536)] else None
          end
      | _, _ => None
      end
  | a :: b :: c :: d :: rest =>
      match base64_value a, base64_value b, base64_value c, base64_value d, unbase64 rest with
      | Some a, Some b, Some c, Some d, Some rest =>
          let v := (a * 262144 + b * 4096 + c * 64 + d)%N in
          Some (byte_of_N (v / 65536) :: byte_of_N (v / 256 mod 256) :: byte_of_N (v mod 256) :: rest)
      | _, _, _, _, _ => None
      end
  | _ => None
  end.
Definition padded_base64 : Base64 := {|
  b64_encode b := from_utf8 (base64 b);
  b64_decode s := ok_or (unbase64 (as_bytes s)) "Invalid symbol"%string;
|}.
(** The vectors of RFC 4648. *)
Example base64_vectors :
  map (fun s => from_utf8 (base64 (as_bytes s))) [""; "f"; "fo"; "foo"; "foob"; "fooba"; "foobar"]%string =
  [""; "Zg=="; "Zm8="; "Zm9v"; "Zm9vYg=="; "Zm9vYmE="; "Zm9vYmFy"]%string.
Proof. reflexivity. Qed.
Example unbase64_vectors :
  map (fun s => from_utf8 <$> unbase64 (as_bytes s)) [""; "Zg=="; "Zm8="; "Zm9v"; "Zm9vYg=="; "Zm9vYmE="; "Zh=="; "Zg"]%string =
  [Some ""; Some "f"; Some "fo"; Some "foo"; Some "foob"; Some "fooba"; None; None]%string.
Proof. reflexivity. Qed.

Lemma three_step_ind {A} (P : list A -> Prop) :
  P [] -> (forall x, P [x]) -> (forall x y, P [x; y]) ->
  (forall x y z l, P l -> P (x :: y :: z :: l)) -> forall l, P l.
Proof. intros H0 H1 H2 H3. fix IH 1. intros [|x [|y [|z l]]]; [done|done|done|]. apply H3, IH. Qed.
Lemma base64_symbol_not_pad n : Byte.eqb (base64_symbol (n mod 64)) pad = false.
Proof.
  assert (n mod 64 < 64)%N as L by (apply N.mod_lt; done). revert L. generalize (n mod 64)%N. intros m L.
  assert (forallb (fun i => negb (Byte.eqb (base64_symbol (N.of_nat i)) pad)) (seq 0 64) = true) as F by reflexivity.
  rewrite forallb_forall in F. specialize (F (N.to_nat m)). rewrite N2Nat.id in F.
  apply negb_true_iff, F, in_seq. lia.
Qed.

(** ** UUID text *)

Definition dash : bytes := as_bytes "-".
Definition uuid_hyphenated (h : bytes) : bytes :=
  take 8 h ++ dash ++ take 4 (drop 8 h) ++ dash ++ take 4 (drop 12 h) ++ dash ++
  take 4 (drop 16 h) ++ dash ++ drop 20 h.
Definition uuid_unhyphenated (t : bytes) : bytes :=
  take 8 t ++ take 4 (drop 9 t) ++ take 4 (drop 14 t) ++ take 4 (drop 19 t) ++ drop 24 t.

Lemma uuid_unhyphenated_hyphenated h :
  length h = 32 -> uuid_unhyphenated (uuid_hyphenated h) = h.
Proof. intros H. do 33 (destruct h as [|? h]; try discriminate H). reflexivity. Qed.

#[export] Instance toy_uuid_text : UuidText := {
  uuid_to_string u := from_utf8 (uuid_hyphenated (hex (uuid_as_bytes u)));
}.
#[export] Instance toy_uuid_text_laws : UuidTextLaws.
Proof.
  assert (forall u, length (hex (uuid_as_bytes u)) = 32) as L.
  { intros u. by rewrite length_hex, uuid_as_bytes_length. }
  split; simpl.
  - intros u. rewrite as_bytes_from_utf8. unfold uuid_hyphenated.
    rewrite !length_app, !length_take, !length_drop, L. reflexivity.
  - intros u v E. apply (f_equal as_bytes) in E. rewrite !as_bytes_from_utf8 in E.
    apply (f_equal uuid_unhyphenated) in E.
    rewrite !uuid_unhyphenated_hyphenated in E by apply L.
    by apply uuid_as_bytes_inj, hex_inj.
Qed.

(** ** JSON

    Text made of the binary digits of the value's code number. *)
Fixpoint bits_text (p : positive) : string :=
  match p with
  | xH => String (Ascii.ascii_of_N 105) EmptyString
  | xO p => String (Ascii.ascii_of_N 111) (bits_text p)
  | xI p => String (Ascii.ascii_of_N 105) (bits_text p)
  end.
Fixpoint text_bits (s : string) : option positive :=
  match s with
  | EmptyString => None
  | String c EmptyString => Some xH
  | String c s' =>
      p ← text_bits s'; Some (if Ascii.eqb c (Ascii.ascii_of_N 111) then xO p else xI p)
  end.
Lemma text_bits_text p : text_bits (bits_text p) = Some p.
Proof.
  induction p as [p IH|p IH|]; simpl; [| |done].
  - rewrite IH. by destruct (bits_text p).
  - rewrite IH. by destruct (bits_text p).
Qed.

Definition toy_serde (A : Type) `{Countable A} : Serde A := {|
  to_json a := Ok (bits_text (encode a));
  from_json s := ok_or (p ← text_bits s; decode p) "expected value";
|}.
Lemma toy_serde_laws (A : Type) `{Countable A} : @SerdeLaws A (toy_serde A).
Proof.
  split; simpl; [done|]. intros a s E. simplify_eq.
  by rewrite text_bits_text; simpl; rewrite decode_encode.
Qed.

(** ** Primitives *)

(** A keyed mixing function on byte strings. *)
Definition mix_modulus : N := 2305843009213693951.
Definition mix (seed : N) (b : bytes) : N :=
  (fold_left (fun acc x => (acc * 65599 + Byte.to_N x + 1) mod mix_modulus) b (seed + 7))%N.

Lemma be_bytes_mod n z : be_bytes n (z mod 256 ^ N.of_nat n) = be_bytes n z.
Proof.
  rewrite <-(be_bytes_be_val (be_bytes n z)), length_be_bytes.
  by rewrite be_val_be_bytes.
Qed.

#[export] Instance toy_ed25519 : Ed25519 := {
  SigningKey := N;
  verifying_key sk := be_bytes 32 sk;
  ed_sign sk m := be_bytes 64 (mix (be_val (be_bytes 32 sk)) m);
  ed_verify vk m s := bool_decide (s = be_bytes 64 (mix (be_val vk) m));
  vk_valid vk := bool_decide (length vk = 32);
  vk_error vk := "signature error";
}.
#[export] Instance toy_ed25519_laws : Ed25519Laws.
Proof.
  split; intros; cbn -[be_bytes mix];
    rewrite ?bool_decide_eq_true; auto using length_be_bytes.
Qed.

#[export] Instance toy_x25519 : X25519 := {
  EphemeralSecret := N;
  x_public s := be_bytes 32 s;
  diffie_hellman s p := be_bytes 32 (s * be_val p);
}.
#[export] Instance toy_x25519_laws : X25519Laws.
Proof.
  split; intros; cbn -[be_bytes be_val N.pow]; [by autorewrite with bytes..|].
  rewrite !be_val_be_bytes, <-(be_bytes_mod 32 (a * _)), <-(be_bytes_mod 32 (b * _)).
  f_equal. by rewrite !N.Div0.mul_mod_idemp_r, (N.mul_comm a b).
Qed.

#[export] Instance toy_hash : Hash := {
  sha256 b := be_bytes 32 (mix 1 b);
  hkdf_expand salt ikm info n :=
    if (N.of_nat n <=? 8160)%N then Some (be_bytes n (mix 2 (salt ++ ikm ++ info))) else None;
}.
#[export] Instance toy_hash_laws : HashLaws.
Proof.
  split; intros; cbn -[be_bytes mix]; [apply length_be_bytes|].
  rewrite (proj2 (N.leb_le _ _)) by done.
  eexists; split; [done|]. apply length_be_bytes.
Qed.

Definition toy_tag (k n a m : bytes) : bytes := be_bytes 16 (mix 3 (k ++ n ++ a ++ m)).
Lemma length_toy_tag k n a m : length (toy_tag k n a m) = 16.
Proof. apply length_be_bytes. Qed.
#[export] Instance toy_aead : Aead := {
  aead_encrypt k n a m := Ok (m ++ toy_tag k n a m);
  aead_decrypt k n a c :=
    let m := take (length c - 16) c in
    if bool_decide (c = m ++ toy_tag k n a m) then Ok m else Err "aead::Error";
}.
#[export] Instance toy_aead_laws : AeadLaws.
Proof.
  split; [done|intros k n a m c; cbn -[toy_tag]..].
  - intros [= <-]. by rewrite length_app, length_toy_tag.
  - intros [= <-]. rewrite length_app, length_toy_tag.
    rewrite Nat.add_sub, take_app_exact by done. by rewrite bool_decide_true.
  - intros E. case_bool_decide as Hc; [|done]. injection E as <-. by rewrite <-Hc.
Qed.

Definition ek_len : nat := N.to_nat 1184.
Definition ct_len : nat := N.to_nat 1088.
#[export] Instance toy_mlkem : MlKem := {
  KemKey := N;
  kem_public k := be_bytes ek_len k;
  kem_encapsulate ek r :=
    let ct := be_bytes ct_len (mix 4 r) in Some (ct, be_bytes 32 (mix 5 (ek ++ ct)));
  kem_decapsulate k ct :=
    if bool_decide (length ct = ct_len)
    then Some (be_bytes 32 (mix 5 (be_bytes ek_len k ++ ct))) else None;
}.
#[export] Instance toy_mlkem_laws : MlKemLaws.
Proof.
  split; cbn -[be_bytes mix ek_len ct_len].
  - intros k r. by do 2 eexists.
  - intros k r ct ss E. apply (inj Some), pair_eq in E as [<- <-].
    by rewrite length_be_bytes, bool_decide_true.
  - intros k. unfold len. by rewrite length_be_bytes.
  - intros ek r ct ss E. apply (inj Some), pair_eq in E as [<- <-].
    unfold len. by rewrite length_be_bytes.
  - intros ek r ct ss E. apply (inj Some), pair_eq in E as [<- <-]. apply length_be_bytes.
  - intros k ct ss E. case_bool_decide; [|done]. apply (inj Some) in E as <-.
    apply length_be_bytes.
Qed.

(** A state is the mixed password and identity with the own message. *)
#[export] Instance toy_spake2 : Spake2 := {
  SpakeState := N * bytes;
  spake_start pw id r :=
    let msg := byte_of_N 83 :: be_bytes 32 (mix 6 r) in ((mix 6 (len_prefixed pw ++ id), msg), msg);
  spake_finish st msg :=
    if bool_decide (length msg = 33) && bool_decide (head msg = Some (byte_of_N 83))
    then Some (be_bytes 32 (st.1 + be_val st.2 + be_val msg)) else None;
}.
#[export] Instance toy_spake2_laws : Spake2Laws.
Proof.
  split.
  { intros pw id r. unfold len. cbn -[be_bytes mix byte_of_N]. by rewrite length_be_bytes. }
  intros pw id r1 r2. eexists. split; [apply length_be_bytes|].
  cbn -[be_bytes mix be_val byte_of_N]. rewrite !length_be_bytes.
  rewrite !bool_decide_true by done. split; [done|].
  cbn [andb]. do 2 f_equal. lia.
Qed.

(** ** A bounded queue *)
Record BoundedQueue (M : Type) := {
  capacity : nat;
  rx_closed : bool;
  items : list M;
}.
Arguments capacity {M} _.
Arguments rx_closed {M} _.
Arguments items {M} _.

#[export] Instance toy_mpsc M : MpscSender (BoundedQueue M) M := {
  try_send q m :=
    if rx_closed q || (capacity q <=? length (items q))%nat then None
    else Some {| capacity := capacity q; rx_closed := rx_closed q; items := items q ++ [m] |};
  queued := items;
}.
#[export] Instance toy_mpsc_laws M : MpscLaws (BoundedQueue M) M.
Proof. split; cbn. intros q q' m E. by inv_ok E. Qed.
