(* ===== verification/Protocol.v ===== *)
(** * Core types and wire packets

    rivetlink-core (roles, modes) and rivetlink-protocol/src/packets.rs: the
    signaling packets the relay routes, and the console input vocabulary. *)
From S2P Require Import Prelude.

Definition RELAY_PROTOCOL_VERSION : N := 2.
Definition RELAY_TUNNEL_VERSION : N := 3.
Definition MAX_TUNNEL_PAYLOAD : N := 64 * 1024.

Abbreviation SessionId := Uuid.
Abbreviation DeviceId := Uuid.

Inductive SessionRole := Viewer | Controller | Admin.

Inductive HostConsoleState :=
| Booting | GdmLogin | SessionStarting | DesktopReady | SessionLocked
| SessionSwitching | Offline.

(** [Screenshot] is the default of a request that names no capability. *)
Inductive SessionCapability := Screenshot | ConsoleControl.

Inductive SignalPacket :=
| SessionRequest (device_id : DeviceId) (client_public_key : string)
    (protocol_version : N) (requested_capability : SessionCapability)
    (session_id : option SessionId)
| AuthChallenge (session_id : SessionId) (nonce : string)
| AuthResponse (session_id : SessionId) (signature : string)
| SessionAccepted (session_id : SessionId) (role : SessionRole)
| SessionRejected (session_id : SessionId) (reason : string)
| IceCandidate (session_id : SessionId) (candidate : string)
| SessionKeyExchange (session_id : SessionId) (ephemeral_public_key : string)
    (identity_public_key : string) (signature : string)
| ScreenshotRequest (session_id : SessionId)
| ScreenshotData (session_id : SessionId) (sequence total : N) (last : bool)
    (payload : string)
| HostConsoleStatePacket (session_id : SessionId) (state : HostConsoleState)
    (generation : N)
| ConsoleInput (session_id : SessionId) (payload : string)
| Heartbeat
| SessionClosed (session_id : SessionId).

Inductive MouseButton := Left | Right | Middle.

Inductive ConsoleInputPacket :=
| PointerMove (x y : N)
| PointerButton (button : MouseButton) (down : bool)
| Scroll (dx dy : Z)
| Key (code : string) (down : bool).

#[export] Instance SessionRole_eq_dec : EqDecision SessionRole.
Proof. solve_decision. Defined.
#[export] Instance HostConsoleState_eq_dec : EqDecision HostConsoleState.
Proof. solve_decision. Defined.
#[export] Instance SessionCapability_eq_dec : EqDecision SessionCapability.
Proof. solve_decision. Defined.
#[export] Instance SignalPacket_eq_dec : EqDecision SignalPacket.
Proof. solve_decision. Defined.
#[export] Instance MouseButton_eq_dec : EqDecision MouseButton.
Proof. solve_decision. Defined.
#[export] Instance ConsoleInputPacket_eq_dec : EqDecision ConsoleInputPacket.
Proof. solve_decision. Defined.

(** ** Countability, for executable encodings of the packets *)

Definition console_state_index (s : HostConsoleState) : N :=
  match s with
  | Booting => 0 | GdmLogin => 1 | SessionStarting => 2 | DesktopReady => 3
  | SessionLocked => 4 | SessionSwitching => 5 | Offline => 6
  end.
Definition console_state_of_index (n : N) : HostConsoleState :=
  match n with
  | 0 => Booting | 1 => GdmLogin | 2 => SessionStarting | 3 => DesktopReady
  | 4 => SessionLocked | 5 => SessionSwitching | _ => Offline
  end%N.
Definition role_index (r : SessionRole) : N :=
  match r with Viewer => 0 | Controller => 1 | Admin => 2 end.
Definition role_of_index (n : N) : SessionRole :=
  match n with 0 => Viewer | 1 => Controller | _ => Admin end%N.

(** Tag, ids, numbers, texts. *)
Definition packet_fields : Type := N * option Uuid * option Uuid * N * N * N * list string.
Definition packet_to_fields (p : SignalPacket) : packet_fields :=
  match p with
  | SessionRequest d k v c s =>
      (0, Some d, s, v, match c with Screenshot => 0 | ConsoleControl => 1 end, 0, [k])
  | AuthChallenge s n => (1, Some s, None, 0, 0, 0, [n])
  | AuthResponse s g => (2, Some s, None, 0, 0, 0, [g])
  | SessionAccepted s r => (3, Some s, None, role_index r, 0, 0, [])
  | SessionRejected s r => (4, Some s, None, 0, 0, 0, [r])
  | IceCandidate s c => (5, Some s, None, 0, 0, 0, [c])
  | SessionKeyExchange s e i g => (6, Some s, None, 0, 0, 0, [e; i; g])
  | ScreenshotRequest s => (7, Some s, None, 0, 0, 0, [])
  | ScreenshotData s q t l p => (8, Some s, None, q, t, if l then 1 else 0, [p])
  | HostConsoleStatePacket s c g => (9, Some s, None, console_state_index c, g, 0, [])
  | ConsoleInput s p => (10, Some s, None, 0, 0, 0, [p])
  | Heartbeat => (11, None, None, 0, 0, 0, [])
  | SessionClosed s => (12, Some s, None, 0, 0, 0, [])
  end%N.
Definition packet_of_fields (f : packet_fields) : option SignalPacket :=
  match f with
  | (0, Some d, s, v, c, _, [k]) =>
      Some (SessionRequest d k v (if (c =? 0)%N then Screenshot else ConsoleControl) s)
  | (1, Some s, _, _, _, _, [n]) => Some (AuthChallenge s n)
  | (2, Some s, _, _, _, _, [g]) => Some (AuthResponse s g)
  | (3, Some s, _, r, _, _, _) => Some (SessionAccepted s (role_of_index r))
  | (4, Some s, _, _, _, _, [r]) => Some (SessionRejected s r)
  | (5, Some s, _, _, _, _, [c]) => Some (IceCandidate s c)
  | (6, Some s, _, _, _, _, [e; i; g]) => Some (SessionKeyExchange s e i g)
  | (7, Some s, _, _, _, _, _) => Some (ScreenshotRequest s)
  | (8, Some s, _, q, t, l, [p]) => Some (ScreenshotData s q t (l =? 1)%N p)
  | (9, Some s, _, c, g, _, _) => Some (HostConsoleStatePacket s (console_state_of_index c) g)
  | (10, Some s, _, _, _, _, [p]) => Some (ConsoleInput s p)
  | (11, _, _, _, _, _, _) => Some Heartbeat
  | (12, Some s, _, _, _, _, _) => Some (SessionClosed s)
  | _ => None
  end%N.
#[export] Instance SignalPacket_countable : Countable SignalPacket.
Proof.
  refine (inj_countable packet_to_fields packet_of_fields _).
  intros [? ? ? [] ?| | |? []| | | | |? ? ? [] ?|? [] ?| | |]; reflexivity.
Defined.

Definition button_index (b : MouseButton) : N :=
  match b with Left => 0 | Right => 1 | Middle => 2 end.
Definition button_of_index (n : N) : MouseButton :=
  match n with 0 => Left | 1 => Right | _ => Middle end%N.
#[export] Instance ConsoleInputPacket_countable : Countable ConsoleInputPacket.
Proof.
  refine (inj_countable'
    (fun p => match p with
              | PointerMove x y => inl (inl (x, y))
              | PointerButton b d => inl (inr (button_index b, d))
              | Scroll x y => inr (inl (x, y))
              | Key c d => inr (inr (c, d))
              end)
    (fun s => match s with
              | inl (inl (x, y)) => PointerMove x y
              | inl (inr (b, d)) => PointerButton (button_of_index b) d
              | inr (inl (x, y)) => Scroll x y
              | inr (inr (c, d)) => Key c d
              end) _).
  by intros [|[] ?| |].
Defined.
