(* ===== verification/Sealed.v ===== *)
(** * The sealed channel

    rivetlink-crypto/src/sealed.rs: directional authenticated encryption with a
    strictly checked sequence number, the concurrent claim of sequence numbers
    in [seal], and the stream two peers see over a hostile network. *)
From Stdlib Require Import NArith Lia Strings.String Strings.Byte.
From S2P Require Import Prelude Interfaces Instances.

(** rivetlink-crypto/src/error.rs. *)
Inductive CryptoError :=
| InvalidSignature
| NonceExpired
| NonceReused
| UntrustedKey
| KeyGeneration (message : string)
| Encryption (message : string)
| Decryption (message : string)
| ReplayOrOutOfOrder (expected received : N)
| NonceExhausted
| UnsupportedWireVersion
| KeyDerivation
| PqEncapsulation
| PqDecapsulation
| HybridKeyDerivation
| InvalidPqSignature
| UnsupportedSuite (suite : string)
| PakeFailed.
#[export] Instance CryptoError_eq_dec : EqDecision CryptoError.
Proof. solve_decision. Defined.
(** Its [Display]. *)
Definition CryptoError_display (e : CryptoError) : string :=
  (match e with
  | InvalidSignature => "invalid signature"
  | NonceExpired => "nonce expired"
  | NonceReused => "nonce already used"
  | UntrustedKey => "untrusted public key"
  | KeyGeneration m => "key generation failed: " ++ m
  | Encryption m => "encryption failed: " ++ m
  | Decryption m => "decryption failed: " ++ m
  | ReplayOrOutOfOrder expected received =>
      "replayed or out-of-order packet (expected sequence " ++ pretty expected ++
      ", received " ++ pretty received ++ ")"
  | NonceExhausted => "sealed-channel nonce sequence exhausted"
  | UnsupportedWireVersion => "unsupported sealed-channel wire version"
  | KeyDerivation => "session key derivation failed"
  | PqEncapsulation => "post-quantum key encapsulation failed"
  | PqDecapsulation => "post-quantum decapsulation failed"
  | HybridKeyDerivation => "hybrid key derivation failed"
  | InvalidPqSignature => "invalid post-quantum signature"
  | UnsupportedSuite s => "crypto suite not supported: " ++ s
  | PakeFailed => "password authentication failed"
  end)%string.

Definition HEADER_LEN : nat := 1 + 8.
Definition TAG_LEN : nat := 16.
Definition WIRE_VERSION : N := 2.
Definition KDF_LABEL : bytes := as_bytes "rivetlink-sealed-channel-v2".
Definition C2H_LABEL : bytes := as_bytes "rivetlink-c2h".
Definition H2C_LABEL : bytes := as_bytes "rivetlink-h2c".

Inductive ChannelRole := Initiator | Responder.

Record SealedChannel := {
  send_key : bytes;
  recv_key : bytes;
  binding_hash : bytes;
  next_send : N;
  next_recv : N;
}.
#[export] Instance SealedChannel_eq_dec : EqDecision SealedChannel.
Proof. solve_decision. Defined.

Definition set_next_send (n : N) (ch : SealedChannel) : SealedChannel :=
  {| send_key := send_key ch; recv_key := recv_key ch;
     binding_hash := binding_hash ch; next_send := n; next_recv := next_recv ch |}.
Definition set_next_recv (n : N) (ch : SealedChannel) : SealedChannel :=
  {| send_key := send_key ch; recv_key := recv_key ch;
     binding_hash := binding_hash ch; next_send := next_send ch; next_recv := n |}.

(** [header], [nonce] and [aad]. *)
Definition header (sequence : N) : bytes := byte_of_N WIRE_VERSION :: be_bytes 8 sequence.
Definition nonce (sequence : N) : bytes := be_bytes 4 0 ++ be_bytes 8 sequence.
Definition aad (hdr binding : bytes) : bytes := KDF_LABEL ++ binding ++ hdr.

Arguments header : simpl never.
Arguments nonce : simpl never.

(** One thread's progress through the compare-exchange loop of [seal] that
    claims a sequence number, against the shared [next_send]. *)
Inductive claim_pc :=
| ClaimLoad
| ClaimCas (sequence : N)
| Claimed (sequence : N)
| ClaimExhausted.

(** One step: [weak_fails] is a spurious failure of [compare_exchange_weak]. *)
Definition claim_step (next : N) (pc : claim_pc) (weak_fails : bool) : N * claim_pc :=
  match pc with
  | ClaimLoad => (next, ClaimCas next)
  | ClaimCas sequence =>
      if (sequence =? u64_max)%N then (next, ClaimExhausted)
      else if (next =? sequence)%N && negb weak_fails
      then ((sequence + 1)%N, Claimed sequence)
      else (next, ClaimCas next)
  | Claimed _ | ClaimExhausted => (next, pc)
  end.

(** Threads sharing one channel: each step runs one thread of the list. *)
Definition claim_sys : Type := N * list claim_pc.
Inductive claims_step : claim_sys -> claim_sys -> Prop :=
| claims_step_intro next pcs i pc weak_fails next' pc' :
    pcs !! i = Some pc ->
    claim_step next pc weak_fails = (next', pc') ->
    claims_step (next, pcs) (next', <[i := pc']> pcs).

(** The claim run by one thread alone: the loop of [seal] without interference. *)
Definition claim (ch : SealedChannel) : Result (N * SealedChannel) CryptoError :=
  if (next_send ch =? u64_max)%N then Err NonceExhausted
  else Ok (next_send ch, set_next_send (next_send ch + 1) ch).

Section Channel.
Context `{Hash} `{Aead}.

Definition from_handshake_secret (shared transcript : bytes) (role : ChannelRole)
  : Result SealedChannel CryptoError :=
  let binding := sha256 transcript in
  let? c2h := ok_or (hkdf_expand binding shared (KDF_LABEL ++ C2H_LABEL) 32) KeyDerivation in
  let? h2c := ok_or (hkdf_expand binding shared (KDF_LABEL ++ H2C_LABEL) 32) KeyDerivation in
  let '(send, recv) :=
    match role with Initiator => (c2h, h2c) | Responder => (h2c, c2h) end in
  Ok {| send_key := send; recv_key := recv; binding_hash := binding;
        next_send := 0; next_recv := 0 |}.

(** [seal] returns the channel too: a claimed sequence number stays claimed
    even when the cipher then refuses the message. *)
Definition seal (ch : SealedChannel) (plaintext : bytes)
  : SealedChannel * Result bytes CryptoError :=
  match claim ch with
  | Err e => (ch, Err e)
  | Ok (sequence, ch') =>
      let hdr := header sequence in
      (ch',
       let? ciphertext :=
         map_err Encryption
           (aead_encrypt (send_key ch) (nonce sequence)
              (aad hdr (binding_hash ch)) plaintext) in
       Ok (hdr ++ ciphertext))
  end.

Definition open (ch : SealedChannel) (sealed : bytes)
  : SealedChannel * Result bytes CryptoError :=
  if (length sealed <? HEADER_LEN + TAG_LEN)%nat
  then (ch, Err (Decryption "sealed message too short"))
  else
    let header_bytes := take HEADER_LEN sealed in
    let ciphertext := drop HEADER_LEN sealed in
    if negb (bool_decide (head header_bytes = Some (byte_of_N WIRE_VERSION)))
    then (ch, Err UnsupportedWireVersion)
    else
      let sequence := be_val (tail header_bytes) in
      let expected := next_recv ch in
      if negb (sequence =? expected)%N
      then (ch, Err (ReplayOrOutOfOrder expected sequence))
      else
        match map_err Decryption
                (aead_decrypt (recv_key ch) (nonce sequence)
                   (aad header_bytes (binding_hash ch)) ciphertext) with
        | Err e => (ch, Err e)
        | Ok plaintext =>
            if (expected =? u64_max)%N then (ch, Err NonceExhausted)
            else (set_next_recv (expected + 1) ch, Ok plaintext)
        end.
End Channel.

(** ** Claiming sequence numbers *)

(** The claimed numbers of a system of threads. *)
Definition claimed (pcs : list claim_pc) : list N :=
  omap (fun pc => match pc with Claimed n => Some n | _ => None end) pcs.
(** The numbers [start], [start + 1], ... *)
Definition numbers (start : N) (count : nat) : list N :=
  map (fun i => start + N.of_nat i)%N (seq 0 count).

(** What the loop of [seal] maintains: the counter stays in [start, u64::MAX],
    threads hold distinct numbers below it, all of those since [start]. *)
Record claims_ok (start : N) (s : claim_sys) : Prop := {
  claims_range : (start <= s.1 <= u64_max)%N;
  claims_nodup : NoDup (claimed s.2);
  claims_below : forall n, n ∈ claimed s.2 -> (start <= n < s.1)%N;
  claims_all : N.of_nat (length (claimed s.2)) = (s.1 - start)%N;
  claims_seen : forall n, ClaimCas n ∈ s.2 -> (start <= n <= s.1)%N;
  claims_spent : ClaimExhausted ∈ s.2 -> s.1 = u64_max;
}.

Lemma claimed_insert pcs i pc pc' :
  pcs !! i = Some pc -> exists rest,
  claimed pcs ≡ₚ claimed [pc] ++ rest /\
  claimed (<[i := pc']> pcs) ≡ₚ claimed [pc'] ++ rest.
Proof.
  intros Hi. pose proof (lookup_lt_Some _ _ _ Hi).
  exists (claimed (take i pcs ++ drop (S i) pcs)).
  unfold claimed. rewrite <-!omap_app. split.
  - apply omap_Permutation. rewrite <-(take_drop_middle pcs i pc) at 1 by done.
    by rewrite <-Permutation_middle.
  - apply omap_Permutation. rewrite insert_take_drop by done.
    by rewrite <-Permutation_middle.
Qed.

Lemma elem_of_update {A} (l : list A) i (x y : A) : y ∈ <[i:=x]> l -> y = x \/ y ∈ l.
Proof.
  intros [j Hj]%list_elem_of_lookup. apply list_lookup_insert_Some in Hj as [[_ [-> _]]|[_ Hj]];
    [by left|right; by eapply list_elem_of_lookup_2].
Qed.

(** A step that claims nothing and leaves the counter. *)
Lemma claims_ok_quiet start next pcs i pc pc' :
  pcs !! i = Some pc -> claims_ok start (next, pcs) ->
  claimed [pc'] = [] -> claimed [pc] = [] ->
  (forall n, pc' = ClaimCas n -> n = next) -> (pc' = ClaimExhausted -> next = u64_max) ->
  claims_ok start (next, <[i:=pc']> pcs).
Proof.
  intros Hi [Hr Hn Hb Ha Hseen Hsp] E' E Hcas Hex.
  destruct (claimed_insert pcs i pc pc' Hi) as (rest & P & P').
  rewrite E in P. rewrite E' in P'. rewrite <-P in P'. simpl in *.
  split; simpl; rewrite ?P'; auto.
  - intros n. rewrite P'. auto.
  - intros n [Hq|Hq]%elem_of_update; [rewrite (Hcas n) by done; lia|auto].
  - intros [Hq|Hq]%elem_of_update; auto.
Qed.

(** A compare-exchange that wins. *)
Lemma claims_ok_win start next pcs i :
  pcs !! i = Some (ClaimCas next) -> next <> u64_max -> claims_ok start (next, pcs) ->
  claims_ok start ((next + 1)%N, <[i:=Claimed next]> pcs).
Proof.
  intros Hi Hmax [Hr Hn Hb Ha Hseen Hsp].
  destruct (claimed_insert pcs i _ (Claimed next) Hi) as (rest & P & P').
  simpl in *. rewrite P in *. split; simpl.
  - lia.
  - rewrite P'. constructor; [|done].
    intros Hin. assert (start <= next < next)%N by (apply Hb; by rewrite P). lia.
  - intros n. rewrite P'. intros [->|Hin]%elem_of_cons; [lia|].
    assert (start <= n < next)%N by (apply Hb; by rewrite P). lia.
  - rewrite P'. simpl. lia.
  - intros n [Hq|Hq]%elem_of_update; [done|]. apply Hseen in Hq. lia.
  - intros [Hq|Hq]%elem_of_update; [done|]. apply Hsp in Hq. lia.
Qed.

Lemma claims_ok_step start s s' : claims_step s s' -> claims_ok start s -> claims_ok start s'.
Proof.
  intros [next pcs i pc weak_fails next' pc' Hi Hs] Hok.
  assert (pc ∈ pcs) as Hin by (by eapply list_elem_of_lookup_2).
  destruct pc as [|q|q|]; simpl in Hs.
  - simplify_eq. eapply claims_ok_quiet; eauto; [congruence|done].
  - destruct (N.eqb_spec q u64_max) as [->|Hq]; simplify_eq.
    { eapply claims_ok_quiet; eauto; [done|]. intros _.
      destruct Hok as [Hr _ _ _ Hseen _]. apply Hseen in Hin. simpl in *. lia. }
    destruct (N.eqb_spec next q) as [<-|Hne], weak_fails; simpl in Hs; simplify_eq;
      try (eapply claims_ok_quiet; eauto; [congruence|done]).
    by apply claims_ok_win.
  - simplify_eq. by rewrite list_insert_id.
  - simplify_eq. by rewrite list_insert_id.
Qed.

Lemma claims_ok_start start k :
  (start <= u64_max)%N -> claims_ok start (start, replicate k ClaimLoad).
Proof.
  intros H. assert (claimed (replicate k ClaimLoad) = []) as E by (induction k; simpl; auto).
  split; cbn [fst snd]; rewrite ?E; cbn [length]; try lia.
  - constructor.
  - intros n Hn%elem_of_nil. done.
  - intros n [Hn _]%elem_of_replicate. done.
  - intros [Hn _]%elem_of_replicate. done.
Qed.

Lemma elem_of_numbers start count n :
  n ∈ numbers start count <-> (start <= n < start + N.of_nat count)%N.
Proof.
  unfold numbers. rewrite list_elem_of_fmap. split.
  - intros (i & -> & Hi%elem_of_seq). lia.
  - intros H. exists (N.to_nat (n - start)). rewrite elem_of_seq. lia.
Qed.

(** Distinct numbers filling a range are the range. *)
Lemma claims_ok_permutation start s :
  claims_ok start s -> claimed s.2 ≡ₚ numbers start (length (claimed s.2)).
Proof.
  intros [Hr Hn Hb Ha _ _]. apply submseteq_length_Permutation.
  - apply NoDup_submseteq; [done|]. intros n Hin. apply elem_of_numbers.
    apply Hb in Hin. lia.
  - unfold numbers. by rewrite length_map, length_seq.
Qed.

(** A thread alone, after [n] spurious failures. *)
Fixpoint claim_alone (fails : nat) (next : N) (pc : claim_pc) : N * claim_pc :=
  match fails with
  | O => claim_step next pc false
  | S fails' => let '(next', pc') := claim_step next pc true in claim_alone fails' next' pc'
  end.

Lemma claim_alone_claim ch fails :
  claim_alone fails (claim_step (next_send ch) ClaimLoad false).1
    (claim_step (next_send ch) ClaimLoad false).2 =
  match claim ch with
  | Ok (sequence, ch') => (next_send ch', Claimed sequence)
  | Err _ => (next_send ch, ClaimExhausted)
  end.
Proof.
  unfold claim. simpl. destruct (N.eqb_spec (next_send ch) u64_max) as [E|E].
  - induction fails as [|fails IH]; simpl; rewrite ?E, ?N.eqb_refl in *; [done|].
    clear. by induction fails.
  - apply N.eqb_neq in E. induction fails as [|fails IH]; simpl; rewrite E.
    + by rewrite N.eqb_refl.
    + by rewrite andb_false_r.
Qed.

(** ** The channel operations *)

Lemma length_header n : length (header n) = HEADER_LEN.
Proof. unfold header. cbn [length]. by rewrite length_be_bytes. Qed.
#[export] Hint Rewrite length_header : bytes.

Lemma nonce_inj a b : (a <= u64_max)%N -> (b <= u64_max)%N -> nonce a = nonce b -> a = b.
Proof.
  unfold nonce, u64_max. intros Ha Hb E. apply app_inj_length in E as [_ E]; [|done].
  apply be_bytes_inj in E; [done|simpl; lia..].
Qed.

Section ChannelLemmas.
Context `{HashLaws} `{AeadLaws}.

(** The counters are [u64]. *)
Definition channel_wf (ch : SealedChannel) : Prop :=
  (next_send ch <= u64_max)%N /\ (next_recv ch <= u64_max)%N.

(** Two channels of one handshake, seen from one direction. *)
Record direction (s r : SealedChannel) : Prop := {
  direction_key : send_key s = recv_key r;
  direction_binding : binding_hash s = binding_hash r;
}.

Lemma seal_cases ch m :
  (next_send ch = u64_max /\ seal ch m = (ch, Err NonceExhausted)) \/
  (next_send ch <> u64_max /\ exists c,
    aead_encrypt (send_key ch) (nonce (next_send ch))
      (aad (header (next_send ch)) (binding_hash ch)) m = Ok c /\
    seal ch m = (set_next_send (next_send ch + 1) ch, Ok (header (next_send ch) ++ c))) \/
  (next_send ch <> u64_max /\ exists e,
    aead_encrypt (send_key ch) (nonce (next_send ch))
      (aad (header (next_send ch)) (binding_hash ch)) m = Err e /\
    seal ch m = (set_next_send (next_send ch + 1) ch, Err (Encryption e))).
Proof.
  unfold seal, claim. destruct (N.eqb_spec (next_send ch) u64_max) as [E|E]; [by left|right].
  cbn [send_key binding_hash set_next_send].
  destruct aead_encrypt as [c|e]; [left|right]; eauto.
Qed.

(** What [open] accepts, exactly. *)
Lemma open_ok_iff ch x ch' p :
  open ch x = (ch', Ok p) <->
  next_recv ch <> u64_max /\ ch' = set_next_recv (next_recv ch + 1) ch /\
  (HEADER_LEN + TAG_LEN <= length x)%nat /\
  head x = Some (byte_of_N WIRE_VERSION) /\
  be_val (tail (take HEADER_LEN x)) = next_recv ch /\
  aead_decrypt (recv_key ch) (nonce (next_recv ch))
    (aad (take HEADER_LEN x) (binding_hash ch)) (drop HEADER_LEN x) = Ok p.
Proof.
  unfold open. destruct (Nat.ltb_spec (length x) (HEADER_LEN + TAG_LEN)) as [Hl|Hl].
  { split; [done|]. unfold HEADER_LEN, TAG_LEN in *. intros (_ & _ & ? & _). lia. }
  assert (head (take HEADER_LEN x) = head x) as -> by (by destruct x).
  case_bool_decide as Hv; simpl; [|split; [done|]; intros (? & ? & ? & ? & ?); congruence].
  destruct (N.eqb_spec (be_val (tail (take HEADER_LEN x))) (next_recv ch)) as [Hs|Hs]; simpl in *;
    [rewrite Hs|split; [done|intros (? & ? & ? & ? & ? & ?); congruence]].
  destruct aead_decrypt as [q|e] eqn:Ed; simpl; [|split; [done|intros (? & ? & ? & ? & ? & ?); congruence]].
  destruct (N.eqb_spec (next_recv ch) u64_max) as [Hm|Hm];
    (split; [intros; simplify_eq; done || by repeat split|intros (? & ? & ? & ? & ? & ?); congruence]).
Qed.

(** The header of an accepted message is that of the expected number. *)
Lemma take_header x n :
  (HEADER_LEN <= length x)%nat -> head x = Some (byte_of_N WIRE_VERSION) ->
  be_val (tail (take HEADER_LEN x)) = n -> take HEADER_LEN x = header n.
Proof.
  intros Hl Hh <-. destruct x as [|b x]; [done|]. simpl in *. simplify_eq.
  unfold header. f_equal.
  assert (length (take 8 x) = 8) as L by (rewrite length_take; unfold HEADER_LEN in *; lia).
  rewrite <-L at 2. by rewrite be_bytes_be_val.
Qed.

Lemma open_state ch x : (open ch x).1 = ch \/
  ((open ch x).1 = set_next_recv (next_recv ch + 1) ch /\ exists p, (open ch x).2 = Ok p).
Proof.
  destruct (open ch x) as [ch' [p|e]] eqn:E; simpl.
  - apply open_ok_iff in E as (_ & -> & _). eauto.
  - left. revert E. unfold open. crush_match; congruence.
Qed.

(** An encryption under number [n] is accepted exactly when [n] is expected. *)
Lemma open_sealed s r n m c :
  direction s r -> (n < u64_max)%N ->
  aead_encrypt (send_key s) (nonce n) (aad (header n) (binding_hash s)) m = Ok c ->
  open r (header n ++ c) =
    if (n =? next_recv r)%N then (set_next_recv (n + 1) r, Ok m)
    else (r, Err (ReplayOrOutOfOrder (next_recv r) n)).
Proof.
  intros [Hk Hb] Hn Hc. pose proof (aead_encrypt_length _ _ _ _ _ Hc) as Hl.
  pose proof (aead_decrypt_encrypt _ _ _ _ _ Hc) as Hd.
  rewrite Hk, Hb in Hd. unfold open.
  rewrite take_app_exact, drop_app_exact by apply length_header.
  rewrite length_app, length_header.
  destruct (Nat.ltb_spec (HEADER_LEN + length c) (HEADER_LEN + TAG_LEN)) as [Hx|_];
    [unfold TAG_LEN in Hx; lia|].
  rewrite bool_decide_true by done.
  assert (be_val (tail (header n)) = n) as ->.
  { unfold header; cbn [tail]. rewrite be_val_be_bytes, N.mod_small; [done|].
    unfold u64_max in Hn. simpl. lia. }
  cbn [negb]. destruct (N.eqb_spec n (next_recv r)) as [->|Hne]; cbn [negb]; [|done].
  rewrite Hd. simpl. destruct (N.eqb_spec (next_recv r) u64_max); [lia|done].
Qed.

Lemma from_handshake_secret_ok shared transcript role :
  exists c2h h2c, length c2h = 32 /\ length h2c = 32 /\
  from_handshake_secret shared transcript role =
    Ok {| send_key := match role with Initiator => c2h | Responder => h2c end;
          recv_key := match role with Initiator => h2c | Responder => c2h end;
          binding_hash := sha256 transcript; next_send := 0; next_recv := 0 |} /\
  forall role', from_handshake_secret shared transcript role' =
    Ok {| send_key := match role' with Initiator => c2h | Responder => h2c end;
          recv_key := match role' with Initiator => h2c | Responder => c2h end;
          binding_hash := sha256 transcript; next_send := 0; next_recv := 0 |}.
Proof.
  unfold from_handshake_secret.
  destruct (hkdf_expand_ok (sha256 transcript) shared (KDF_LABEL ++ C2H_LABEL) 32)
    as (c2h & E1 & L1); [lia|].
  destruct (hkdf_expand_ok (sha256 transcript) shared (KDF_LABEL ++ H2C_LABEL) 32)
    as (h2c & E2 & L2); [lia|].
  rewrite E1, E2. exists c2h, h2c. split; [done|]. split; [done|].
  split; [by destruct role|intros role'; by destruct role'].
Qed.

Lemma from_handshake_secret_direction shared transcript c h :
  from_handshake_secret shared transcript Initiator = Ok c ->
  from_handshake_secret shared transcript Responder = Ok h ->
  direction c h /\ direction h c /\
  next_send c = 0%N /\ next_recv c = 0%N /\ next_send h = 0%N /\ next_recv h = 0%N.
Proof.
  destruct (from_handshake_secret_ok shared transcript Initiator)
    as (c2h & h2c & _ & _ & _ & E). rewrite !E. intros. simplify_eq. by repeat split.
Qed.
End ChannelLemmas.

(** ** A stream of messages *)

Section Stream.
Context `{HashLaws} `{AeadLaws}.

(** Seal the messages one after the other; stop at the first error. *)
Fixpoint seal_all (ch : SealedChannel) (ms : list bytes)
  : SealedChannel * Result (list bytes) CryptoError :=
  match ms with
  | [] => (ch, Ok [])
  | m :: ms' =>
      match seal ch m with
      | (ch', Err e) => (ch', Err e)
      | (ch', Ok c) =>
          let '(ch'', r) := seal_all ch' ms' in
          (ch'', let? cs := r in Ok (c :: cs))
      end
  end.
Fixpoint open_all (ch : SealedChannel) (cs : list bytes)
  : SealedChannel * list (Result bytes CryptoError) :=
  match cs with
  | [] => (ch, [])
  | c :: cs' =>
      let '(ch', r) := open ch c in
      let '(ch'', rs) := open_all ch' cs' in (ch'', r :: rs)
  end.

Lemma seal_all_open_all s r ms s' cs :
  direction s r -> channel_wf s -> next_recv r = next_send s ->
  seal_all s ms = (s', Ok cs) ->
  open_all r cs = (set_next_recv (next_send s') r, map Ok ms) /\
  next_send s' = (next_send s + len ms)%N.
Proof.
  revert s r s' cs. induction ms as [|m ms IH]; intros s r s' cs D Hw Hn E; simpl in E.
  { simplify_eq. simpl. rewrite <-Hn. unfold len. simpl. split; [by destruct r|lia]. }
  destruct (seal_cases s m) as [[Hmax Es]|[(Hmax & c & Ec & Es)|(Hmax & e & Ec & Es)]];
    rewrite Es in E; try discriminate.
  destruct (seal_all _ ms) as [s2 [cs'|e]] eqn:Er; [|discriminate].
  apply pair_eq in E as [-> E]. assert (cs = (header (next_send s) ++ c) :: cs') as -> by congruence.
  destruct Hw as [Hws Hwr].
  cbn [open_all]. rewrite (open_sealed s r (next_send s) m c) by (done || lia).
  rewrite <-Hn, N.eqb_refl.
  eapply (IH _ (set_next_recv (next_recv r + 1) r)) in Er as [-> ->].
  - unfold len. simpl. split; [|lia]. by f_equal.
  - destruct D. by split.
  - split; simpl; lia.
  - simpl. by rewrite Hn.
Qed.
End Stream.

(** ** Two endpoints over a hostile network *)

(** An AEAD computation: key, nonce, associated data, plaintext, ciphertext. *)
Record AeadCall := {
  call_key : bytes;
  call_nonce : bytes;
  call_aad : bytes;
  call_plain : bytes;
  call_cipher : bytes;
}.

(** An endpoint, with what its application sent and received. [sent] has an
    entry per sequence number: [None] for a number spent on a message the
    cipher refused. *)
Record Endpoint := {
  chan : SealedChannel;
  sent : list (option bytes);
  got : list bytes;
}.
Definition peer (role : ChannelRole) : ChannelRole :=
  match role with Initiator => Responder | Responder => Initiator end.
#[export] Instance ChannelRole_eq_dec : EqDecision ChannelRole.
Proof. solve_decision. Defined.

(** [calls] records every AEAD encryption made under the two session keys,
    both of them known to the endpoints alone. *)
Record Net := { ends : ChannelRole -> Endpoint; calls : list AeadCall }.

Section HostileNetwork.
Context `{HashLaws} `{AeadLaws}.

Definition send_message (e : Endpoint) (m : bytes) : Endpoint * list AeadCall :=
  let n := next_send (chan e) in
  match seal (chan e) m with
  | (ch', Ok x) =>
      ({| chan := ch'; sent := sent e ++ [Some m]; got := got e |},
       [{| call_key := send_key (chan e); call_nonce := nonce n;
           call_aad := aad (header n) (binding_hash (chan e));
           call_plain := m; call_cipher := drop HEADER_LEN x |}])
  | (ch', Err NonceExhausted) => ({| chan := ch'; sent := sent e; got := got e |}, [])
  | (ch', Err _) => ({| chan := ch'; sent := sent e ++ [None]; got := got e |}, [])
  end.
Definition receive_message (e : Endpoint) (x : bytes) : Endpoint :=
  match open (chan e) x with
  | (ch', Ok p) => {| chan := ch'; sent := sent e; got := got e ++ [p] |}
  | (ch', Err _) => {| chan := ch'; sent := sent e; got := got e |}
  end.

(** The attacker delivers any bytes it likes to either end, whenever it
    likes. The premise of [net_deliver] is the security of the AEAD: bytes that
    decrypt under a session key are the output of some encryption under it
    with that nonce and associated data. *)
Definition unforged (log : list AeadCall) (e : Endpoint) (x : bytes) : Prop :=
  let n := next_recv (chan e) in
  let a := aad (take HEADER_LEN x) (binding_hash (chan e)) in
  forall p, aead_decrypt (recv_key (chan e)) (nonce n) a (drop HEADER_LEN x) = Ok p ->
  exists call, call ∈ log /\ call_key call = recv_key (chan e) /\
    call_nonce call = nonce n /\ call_aad call = a /\
    call_cipher call = drop HEADER_LEN x.

Inductive net_step : Net -> Net -> Prop :=
| net_send n role m :
    net_step n {| ends := <[role := (send_message (ends n role) m).1]> (ends n);
                  calls := calls n ++ (send_message (ends n role) m).2 |}
| net_deliver n role x :
    unforged (calls n) (ends n role) x ->
    net_step n {| ends := <[role := receive_message (ends n role) x]> (ends n);
                  calls := calls n |}.

Definition net_start (c h : SealedChannel) : Net :=
  {| ends := fun role =>
       {| chan := match role with Initiator => c | Responder => h end;
          sent := []; got := [] |};
     calls := [] |}.

(** The invariant of one endpoint: its counter counts its messages, and the
    recorded encryptions under its key are those messages. *)
Record endpoint_ok (log : list AeadCall) (e : Endpoint) : Prop := {
  endpoint_wf : channel_wf (chan e);
  endpoint_sent : next_send (chan e) = len (sent e);
  endpoint_got : next_recv (chan e) = len (got e);
  endpoint_log : forall call, call ∈ log -> call_key call = send_key (chan e) ->
    exists n m, call_nonce call = nonce (N.of_nat n) /\ call_plain call = m /\
      sent e !! n = Some (Some m) /\
      aead_encrypt (call_key call) (call_nonce call) (call_aad call) m
        = Ok (call_cipher call);
}.
Record net_ok (n : Net) : Prop := {
  net_ends : forall r, endpoint_ok (calls n) (ends n r);
  net_keys : forall r, send_key (chan (ends n r)) = recv_key (chan (ends n (peer r)));
  net_distinct : forall r, send_key (chan (ends n r)) <> recv_key (chan (ends n r));
  net_prefix : forall r, Some <$> got (ends n (peer r)) `prefix_of` sent (ends n r);
}.

Lemma send_message_ok log e m :
  endpoint_ok log e ->
  let '(e', new) := send_message e m in
  endpoint_ok (log ++ new) e' /\ send_key (chan e') = send_key (chan e) /\
  recv_key (chan e') = recv_key (chan e) /\ got e' = got e /\
  sent e `prefix_of` sent e' /\ (forall c, c ∈ new -> call_key c = send_key (chan e)).
Proof.
  intros [[Hws Hwr] Hs Hg Hl]. unfold send_message.
  destruct (seal_cases (chan e) m) as [[Hmax ->]|Hcase].
  { rewrite app_nil_r. repeat split; try done; by intros c' ?%elem_of_nil. }
  set (n := next_send (chan e)) in *.
  assert (forall o, n + 1 = len (sent e ++ [o]))%N as Hlen.
  { intros o. unfold n, len in *. rewrite length_app. simpl. lia. }
  assert (forall o k v, sent e !! k = Some v -> (sent e ++ [o]) !! k = Some v) as Hk.
  { intros. by apply lookup_app_l_Some. }
  destruct Hcase as [(Hmax & c & Ec & ->)|(Hmax & er & Ec & ->)].
  - rewrite drop_app_exact by apply length_header.
    split; [|repeat split; try done; [by eexists|]].
    2: { by intros c' ->%list_elem_of_singleton. }
    split; simpl; [split; simpl; lia|apply Hlen|done|].
    intros call [Hc| ->%list_elem_of_singleton]%elem_of_app Hkey.
    + destruct (Hl call Hc Hkey) as (k & m' & ? & ? & ? & ?). exists k, m'. auto.
    + exists (length (sent e)), m. simpl. rewrite Hs in Ec. unfold len in Ec.
      repeat split; try done; [by rewrite Hs|by rewrite lookup_app_r, Nat.sub_diag|].
      unfold n in *. by rewrite Hs.
  - rewrite app_nil_r.
    split; [|repeat split; try done; [by eexists|by intros c' ?%elem_of_nil]].
    split; simpl; [split; simpl; lia|apply Hlen|done|].
    intros call Hc Hkey. destruct (Hl call Hc Hkey) as (k & m' & ? & ? & ? & ?).
    exists k, m'. auto.
Qed.

(** What an endpoint accepts is its peer's next message. *)
Lemma receive_message_ok log e f x :
  endpoint_ok log e -> endpoint_ok log f -> send_key (chan f) = recv_key (chan e) ->
  Some <$> got e `prefix_of` sent f -> unforged log e x ->
  let e' := receive_message e x in
  endpoint_ok log e' /\ send_key (chan e') = send_key (chan e) /\
  recv_key (chan e') = recv_key (chan e) /\ sent e' = sent e /\
  Some <$> got e' `prefix_of` sent f.
Proof.
  intros [[Hws Hwr] Hs Hg Hl] [[Hfs Hfr] Hsf Hgf Hlf] Hkey Hpre Hun. unfold receive_message.
  destruct (open (chan e) x) as [ch' [p|er]] eqn:E.
  - apply open_ok_iff in E as (Hmax & -> & _ & _ & _ & Hd).
    split; [split; simpl; [split; simpl; lia|done| |done]|].
    { unfold len in *. rewrite length_app. simpl. lia. }
    do 3 (split; [done|]). simpl.
    destruct (Hun p Hd) as (call & Hin & Hck & Hcn & Hca & Hcc).
    destruct (Hlf call Hin) as (n & m & Hn & Hm & Hlook & Henc); [congruence|].
    assert (N.of_nat n < len (sent f))%N.
    { apply lookup_lt_Some in Hlook. unfold len. lia. }
    assert (N.of_nat n = next_recv (chan e)) as En.
    { apply nonce_inj; [lia|lia|congruence]. }
    assert (m = p) as ->.
    { apply aead_decrypt_encrypt in Henc. rewrite Hck, Hcn, Hca, Hcc, Hd in Henc. congruence. }
    rewrite fmap_app. destruct Hpre as [rest Erest]. rewrite Erest in Hlook |- *.
    rewrite lookup_app_r in Hlook; rewrite length_fmap in *; unfold len in *; [|lia].
    assert (n - length (got e) = 0) as En0 by lia. rewrite En0 in Hlook.
    destruct rest as [|o rest]; simpl in Hlook; simplify_eq.
    exists rest. by rewrite <-app_assoc.
  - destruct (open_state (chan e) x) as [Ho|[_ [p Ho]]]; rewrite E in Ho; simpl in Ho; [|done].
    subst. by repeat split.
Qed.

Lemma net_ok_step n n' : net_step n n' -> net_ok n -> net_ok n'.
Proof.
  intros Hstep [Hends Hkeys Hdist Hpre].
  destruct Hstep as [n r m|n r x Hun].
  - pose proof (send_message_ok (calls n) (ends n r) m (Hends r)) as Hsend.
    destruct (send_message (ends n r) m) as [e' new]; cbn [fst snd].
    destruct Hsend as (He & Hsk & Hrk & Hgot & Hsent & Hnew).
    assert (endpoint_ok (calls n ++ new) (ends n (peer r))) as Hp.
    { destruct (Hends (peer r)) as [? ? ? Hl]. split; [done..|].
      intros call [Hc|Hc]%elem_of_app Hkey; [auto|].
      apply Hnew in Hc.
      pose proof (Hdist (peer r)) as Hd. pose proof (Hkeys r). congruence. }
    pose proof (Hkeys r). pose proof (Hkeys (peer r)). pose proof (Hdist r).
    pose proof (Hdist (peer r)). pose proof (Hpre r). pose proof (Hpre (peer r)).
    destruct r; split; intros []; simpl in *; rewrite ?fn_lookup_insert,
      ?functions.fn_lookup_insert_ne by done; try congruence; try done;
      first [by etrans; eauto | by rewrite Hgot].
  - pose proof (receive_message_ok (calls n) (ends n r) (ends n (peer r)) x) as Hrecv.
    pose proof (Hends r). pose proof (Hends (peer r)).
    pose proof (Hkeys r). pose proof (Hkeys (peer r)). pose proof (Hdist r).
    pose proof (Hdist (peer r)). pose proof (Hpre r). pose proof (Hpre (peer r)).
    destruct Hrecv as (He & Hsk & Hrk & Hsent & Hgot); try done; try (destruct r; done).
    destruct r; split; intros []; simpl in *; rewrite ?fn_lookup_insert,
      ?functions.fn_lookup_insert_ne by done; try congruence; done.
Qed.
End HostileNetwork.

(** ** Properties *)

Section Properties.
Context `{HashLaws} `{AeadLaws}.

(** C1. Replay, reordering, injection and reflection resistance of an
    established session. Two endpoints hold the channels derived from one
    handshake secret, with different keys per direction. Whatever bytes the
    network delivers to either endpoint, in whatever order and however often
    (only AEAD forgery is excluded), the messages an endpoint's application
    has received are the first messages its peer's application sent, in order
    and without a gap, each once. *)
Theorem hostile_network_stream shared transcript c h n :
  from_handshake_secret shared transcript Initiator = Ok c ->
  from_handshake_secret shared transcript Responder = Ok h ->
  send_key c <> recv_key c ->
  rtc net_step (net_start c h) n ->
  forall role, Some <$> got (ends n (peer role)) `prefix_of` sent (ends n role).
Proof.
  intros Hc Hh Hd Hr.
  destruct (from_handshake_secret_direction _ _ _ _ Hc Hh)
    as ([K1 B1] & [K2 B2] & N1 & N2 & N3 & N4).
  apply net_prefix. eapply (invariant_rtc net_step); [apply net_ok_step|exact Hr|].
  split; intros []; simpl; try congruence; try done;
    (split; simpl; [split; simpl; lia|by rewrite ?N1, ?N3|by rewrite ?N2, ?N4|];
     intros call ?%elem_of_nil; done).
Qed.

(** Sealed messages arrive. When the network delivers the sealed messages
    of one endpoint in order, the other endpoint opens every one of them to the
    plaintext sent, and both counters advance together. *)
Theorem sealed_stream_round_trip shared transcript c h ms c' cs :
  from_handshake_secret shared transcript Initiator = Ok c ->
  from_handshake_secret shared transcript Responder = Ok h ->
  seal_all c ms = (c', Ok cs) ->
  open_all h cs = (set_next_recv (len ms) h, map Ok ms) /\ next_send c' = len ms.
Proof.
  intros Hc Hh Hs.
  destruct (from_handshake_secret_direction _ _ _ _ Hc Hh) as (D & _ & N1 & N2 & N3 & N4).
  destruct (seal_all_open_all c h ms c' cs) as [-> E]; try done.
  - split; [rewrite N1|rewrite N2]; done.
  - by rewrite N1, N4.
  - rewrite N1 in E. simpl in E. by rewrite E.
Qed.
End Properties.

(** Sequence numbers claimed concurrently. Whatever the interleaving of any
    number of [seal]s sharing a channel, and whatever spurious failures the weak
    compare-exchange has, the threads that got a number hold exactly the next
    consecutive numbers, each once (so no AEAD nonce is ever used twice); the
    counter never passes [u64::MAX], and a thread is refused only when all
    numbers are spent. *)
Theorem concurrent_claims_unique start k next pcs :
  (start <= u64_max)%N ->
  rtc claims_step (start, replicate k ClaimLoad) (next, pcs) ->
  claimed pcs ≡ₚ numbers start (length (claimed pcs)) /\
  NoDup (claimed pcs) /\
  next = (start + N.of_nat (length (claimed pcs)))%N /\ (next <= u64_max)%N /\
  (ClaimExhausted ∈ pcs -> next = u64_max).
Proof.
  intros Hs Hr.
  assert (claims_ok start (next, pcs)) as Hok.
  { eapply (invariant_rtc claims_step); [apply claims_ok_step|done|by apply claims_ok_start]. }
  split; [by apply (claims_ok_permutation start (next, pcs))|].
  destruct Hok as [? ? ? Ha ? ?]; simpl in *. repeat split; try done; lia.
Qed.

(** ** Witnesses *)

Definition witness_secret : bytes := as_bytes "shared".
Definition witness_transcript : bytes := as_bytes "transcript".
Definition witness_channel (role : ChannelRole) : SealedChannel :=
  match from_handshake_secret witness_secret witness_transcript role with
  | Ok ch => ch
  | Err _ => {| send_key := []; recv_key := []; binding_hash := []; next_send := 0; next_recv := 0 |}
  end.

(** An honest send, its delivery, and its reflection to the sender. *)
Definition witness_n0 : Net :=
  net_start (witness_channel Initiator) (witness_channel Responder).
Definition witness_sent : Endpoint * list AeadCall :=
  send_message (ends witness_n0 Initiator) (as_bytes "input").
Definition witness_wire : bytes :=
  header 0 ++ match witness_sent.2 with c :: _ => call_cipher c | [] => [] end.
Definition witness_n1 : Net :=
  {| ends := <[Initiator := witness_sent.1]> (ends witness_n0);
     calls := calls witness_n0 ++ witness_sent.2 |}.
Definition witness_n2 : Net :=
  {| ends := <[Responder := receive_message (ends witness_n1 Responder) witness_wire]>
               (ends witness_n1);
     calls := calls witness_n1 |}.
Definition witness_net : Net :=
  {| ends := <[Initiator := receive_message (ends witness_n2 Initiator) witness_wire]>
               (ends witness_n2);
     calls := calls witness_n2 |}.

Lemma hostile_network_stream_witness :
  rtc net_step witness_n0 witness_net /\
  got (ends witness_net Responder) = [as_bytes "input"] /\
  Some <$> got (ends witness_net Responder) `prefix_of` sent (ends witness_net Initiator).
Proof.
  assert (rtc net_step witness_n0 witness_net) as Hr.
  { apply (rtc_l _ _ witness_n1); [exact (net_send witness_n0 Initiator (as_bytes "input"))|].
    apply (rtc_l _ _ witness_n2).
    { refine (net_deliver witness_n1 Responder witness_wire _).
      intros p Hp. eexists. split; [apply list_elem_of_here|].
      repeat split; vm_compute; reflexivity. }
    apply (rtc_l _ _ witness_net); [|apply rtc_refl].
    refine (net_deliver witness_n2 Initiator witness_wire _).
    intros p Hp. exfalso. revert Hp. vm_compute. discriminate. }
  split; [exact Hr|]. split; [vm_compute; reflexivity|].
  refine (hostile_network_stream (H := toy_hash) (H1 := toy_aead)
            witness_secret witness_transcript
            (witness_channel Initiator) (witness_channel Responder) witness_net
            _ _ _ Hr Initiator); vm_compute; try reflexivity; discriminate.
Defined.

Lemma sealed_stream_round_trip_witness :
  let ms := [as_bytes "a"; []; as_bytes "bc"] in
  let '(c', r) := seal_all (witness_channel Initiator) ms in
  match r with
  | Ok cs => (open_all (witness_channel Responder) cs).2 = map Ok ms
  | Err _ => False
  end.
Proof.
  intros ms. destruct (seal_all (witness_channel Initiator) ms) as [c' [cs|e]] eqn:E.
  - refine (f_equal snd (proj1 (sealed_stream_round_trip (H := toy_hash) (H1 := toy_aead)
      witness_secret witness_transcript (witness_channel Initiator)
      (witness_channel Responder) ms c' cs _ _ E))); vm_compute; reflexivity.
  - vm_compute in E. discriminate E.
Defined.

(** Two threads, one spurious failure, one lost race. *)
Lemma concurrent_claims_unique_witness :
  rtc claims_step (0%N, replicate 2 ClaimLoad) (2%N, [Claimed 1%N; Claimed 0%N]) /\
  NoDup (claimed [Claimed 1%N; Claimed 0%N]).
Proof.
  assert (rtc claims_step (0%N, replicate 2 ClaimLoad) (2%N, [Claimed 1%N; Claimed 0%N])) as Hr.
  { do 2 (eapply rtc_l; [eapply (claims_step_intro _ _ 0 _ true); reflexivity|]; simpl).
    do 2 (eapply rtc_l; [eapply (claims_step_intro _ _ 1 _ false); reflexivity|]; simpl).
    do 2 (eapply rtc_l; [eapply (claims_step_intro _ _ 0 _ false); reflexivity|]; simpl).
    apply rtc_refl. }
  split; [exact Hr|].
  apply (concurrent_claims_unique 0 2 _ _ ltac:(done) Hr).
Defined.
