(* ===== verification/NonceStore.v ===== *)
(** * Challenge nonces

    rivetlink-crypto/src/challenge.rs: one-off nonces with an expiry and the
    store that refuses to accept one twice. [DashMap] operations are atomic, so
    concurrent use is some sequence of these operations. The clock reading and
    the random bytes are arguments. *)
From Stdlib Require Import NArith Lia.
From S2P Require Import Prelude Sealed.

Definition NONCE_SIZE : nat := 32.
Definition NONCE_EXPIRY : N := from_secs 30.

Record Nonce := { nonce_bytes : bytes; created_at : N }.

(** [Nonce::generate], with the random bytes and the time. *)
Definition generate (rnd : bytes) (now : N) : Nonce :=
  {| nonce_bytes := rnd; created_at := now |}.
Definition validate (n : Nonce) (now : N) : Result unit CryptoError :=
  if (NONCE_EXPIRY <? duration_since now (created_at n))%N then Err NonceExpired else Ok tt.
Definition is_expired (n : Nonce) (now : N) : bool :=
  (NONCE_EXPIRY <? duration_since now (created_at n))%N.

Record NonceStore := { issued : gmap bytes N; ttl : N }.

Definition nonce_store_new (ttl : N) : NonceStore := {| issued := ∅; ttl := ttl |}.
Definition nonce_store_default : NonceStore := nonce_store_new NONCE_EXPIRY.

Definition issue (st : NonceStore) (rnd : bytes) (now : N) : NonceStore * Nonce :=
  let n := generate rnd now in
  ({| issued := <[nonce_bytes n := created_at n]> (issued st); ttl := ttl st |}, n).

Definition consume (st : NonceStore) (b : bytes) (now : N)
  : NonceStore * Result unit CryptoError :=
  match issued st !! b with
  | None => (st, Err NonceReused)
  | Some created =>
      ({| issued := delete b (issued st); ttl := ttl st |},
       if (ttl st <? duration_since now created)%N then Err NonceExpired else Ok tt)
  end.

Definition stale_keys (st : NonceStore) (now : N) : list bytes :=
  map fst (filter (fun e => ttl st < duration_since now e.2)%N (map_to_list (issued st))).
Definition cleanup_expired (st : NonceStore) (now : N) : NonceStore * nat :=
  let stale := stale_keys st now in
  ({| issued := fold_right delete (issued st) stale; ttl := ttl st |}, length stale).
Arguments cleanup_expired : simpl never.
Definition pending (st : NonceStore) : nat := size (issued st).

(** A use of the store: operations with the time each runs at. *)
Inductive nonce_op :=
| OpIssue (rnd : bytes)
| OpConsume (b : bytes)
| OpCleanup.
Definition nonce_step (st : NonceStore) (op : nonce_op * N) : NonceStore :=
  match op with
  | (OpIssue rnd, now) => (issue st rnd now).1
  | (OpConsume b, now) => (consume st b now).1
  | (OpCleanup, now) => (cleanup_expired st now).1
  end.
Definition nonce_run (st : NonceStore) (h : list (nonce_op * N)) : NonceStore :=
  fold_left nonce_step h st.

(** The specification: the time of the last issue of [b] that no later consume
    of [b] has used. Cleanups play no part in it. *)
Definition outstanding_step (b : bytes) (o : option N) (op : nonce_op * N) : option N :=
  match op with
  | (OpIssue rnd, now) => if bool_decide (rnd = b) then Some now else o
  | (OpConsume c, _) => if bool_decide (c = b) then None else o
  | (OpCleanup, _) => o
  end.
Definition outstanding (b : bytes) (h : list (nonce_op * N)) : option N :=
  fold_left (outstanding_step b) h None.

(** The clock does not go back, up to the time [now]. *)
Fixpoint clock_ok (from : N) (h : list (nonce_op * N)) (now : N) : bool :=
  match h with
  | [] => (from <=? now)%N
  | (_, t) :: h' => (from <=? t)%N && clock_ok t h' now
  end.

(** ** Lemmas *)

Lemma lookup_fold_delete {V} (m : gmap bytes V) l b :
  fold_right delete m l !! b = if decide (b ∈ l) then None else m !! b.
Proof.
  induction l as [|x l IH]; cbn [fold_right].
  { destruct (decide (b ∈ [])) as [H|H]; [by apply elem_of_nil in H|done]. }
  destruct (decide (b = x)) as [->|Hne].
  - rewrite lookup_delete_eq, decide_True by (by left). done.
  - rewrite lookup_delete_ne, IH by done. apply decide_ext.
    split; [by right|by intros [->|?]%elem_of_cons].
Qed.

Lemma elem_of_stale st now b :
  b ∈ stale_keys st now <->
  exists t, issued st !! b = Some t /\ (ttl st < duration_since now t)%N.
Proof.
  unfold stale_keys. rewrite list_elem_of_fmap. split.
  - intros ([k t] & -> & [H1 H2]%list_elem_of_filter).
    apply elem_of_map_to_list in H2. eauto.
  - intros (t & H1 & H2). exists (b, t). split; [done|].
    apply list_elem_of_filter. by rewrite elem_of_map_to_list.
Qed.

Lemma lookup_cleanup st now b :
  issued (cleanup_expired st now).1 !! b =
    match issued st !! b with
    | Some t => if (ttl st <? duration_since now t)%N then None else Some t
    | None => None
    end.
Proof.
  unfold cleanup_expired. simpl. rewrite lookup_fold_delete.
  destruct (issued st !! b) as [t|] eqn:E; [|by destruct decide].
  destruct (N.ltb_spec (ttl st) (duration_since now t)) as [H|H];
    destruct decide as [Hin|Hin]; rewrite elem_of_stale in Hin; try done.
  - destruct Hin. eauto.
  - destruct Hin as (t' & ? & ?). simplify_eq. lia.
Qed.

(** The store agrees with the specification, but for entries that a cleanup
    dropped because they were past their time to live. *)
Definition store_matches (b : bytes) (st : NonceStore) (o : option N) (now : N) : Prop :=
  match o with
  | Some t => (t <= now)%N /\
              (issued st !! b = Some t \/
               (issued st !! b = None /\ (ttl st < duration_since now t)%N))
  | None => issued st !! b = None
  end.

Lemma store_matches_later b st o now now' :
  (now <= now')%N -> store_matches b st o now -> store_matches b st o now'.
Proof.
  intros Hle. unfold store_matches, duration_since. destruct o; [|done].
  intros [? [?|[? ?]]]; split; try lia; [by left|right; split; [done|lia]].
Qed.

Lemma store_matches_step b st o op now :
  store_matches b st o now ->
  store_matches b (nonce_step st (op, now)) (outstanding_step b o (op, now)) now.
Proof.
  intros Hm. destruct op as [rnd|c|]; cbn [nonce_step outstanding_step].
  - case_bool_decide as Hb; simpl; [subst|].
    + split; [done|]. left. by rewrite lookup_insert_eq.
    + unfold store_matches in *. destruct o; simpl; by rewrite lookup_insert_ne.
  - unfold consume. case_bool_decide as Hb; [subst|].
    + unfold store_matches. destruct (issued st !! b) eqn:E; simpl; [|done].
      apply lookup_delete_eq.
    + destruct (issued st !! c) eqn:E; simpl; [|done].
      unfold store_matches in *. destruct o; simpl; by rewrite lookup_delete_ne.
  - pose proof (lookup_cleanup st now b) as Hl. unfold store_matches in *. destruct o as [t|].
    + destruct Hm as [Hle [Hm|[Hm Hx]]]; (split; [done|]); rewrite Hm in Hl; rewrite Hl.
      * destruct (N.ltb_spec (ttl st) (duration_since now t)); [right|left]; done.
      * by right.
    + rewrite Hm in Hl. exact Hl.
Qed.

Lemma store_matches_run b st o from h now :
  clock_ok from h now = true -> store_matches b st o from ->
  store_matches b (nonce_run st h) (fold_left (outstanding_step b) h o) now.
Proof.
  revert st o from. induction h as [|[op t] h IH]; intros st o from Hc Hm; simpl in *.
  - apply N.leb_le in Hc. by eapply store_matches_later.
  - apply andb_prop in Hc as [Hc1%N.leb_le Hc2]. eapply IH; [exact Hc2|].
    apply store_matches_step. by eapply store_matches_later.
Qed.

Lemma ttl_run st h : ttl (nonce_run st h) = ttl st.
Proof.
  revert st. induction h as [|[[] t] h IH]; intros st; simpl; [done|..]; rewrite IH; [done| |done].
  unfold consume. by destruct (issued st !! b).
Qed.

(** ** Properties *)

(** Replay protection of the nonce store. After any sequence of issues,
    consumes and cleanups, consuming [b] succeeds exactly when its last issue
    has not been consumed since and is at most [ttl] old: no nonce is accepted
    twice, none is accepted late, and a background cleanup never changes which
    nonces are accepted. *)
Theorem consume_accepts_iff ttl0 h b from now :
  clock_ok from h now = true ->
  (consume (nonce_run (nonce_store_new ttl0) h) b now).2 = Ok tt <->
  exists t, outstanding b h = Some t /\ (duration_since now t <= ttl0)%N.
Proof.
  intros Hc.
  pose proof (store_matches_run b (nonce_store_new ttl0) None from h now Hc) as Hm.
  specialize (Hm eq_refl). fold (outstanding b h) in Hm.
  pose proof (ttl_run (nonce_store_new ttl0) h) as Ht. simpl in Ht.
  set (st := nonce_run (nonce_store_new ttl0) h) in *. clearbody st. subst ttl0.
  unfold consume, store_matches in *. destruct (outstanding b h) as [t|].
  - destruct Hm as [_ [->|[-> Hx]]]; simpl.
    + destruct (N.ltb_spec (ttl st) (duration_since now t)).
      * split; [done|]. intros (t' & ? & ?). simplify_eq. lia.
      * split; [eauto|done].
    + split; [done|]. intros (t' & ? & ?). simplify_eq. lia.
  - rewrite Hm. simpl. split; [done|]. by intros (? & ? & _).
Qed.

(** A nonce issued, consumed and presented again after an unrelated cleanup. *)
Lemma consume_accepts_iff_witness :
  let n := be_bytes 32 5 in
  let h := [(OpIssue n, 10%N); (OpCleanup, 20%N)] in
  (consume (nonce_run nonce_store_default h) n 30).2 = Ok tt /\
  (consume (nonce_run nonce_store_default (h ++ [(OpConsume n, 30%N)])) n 40).2 <> Ok tt.
Proof.
  intros n h. split.
  - apply (consume_accepts_iff NONCE_EXPIRY h n 0 30 eq_refl).
    exists 10%N. split; [vm_compute; reflexivity|vm_compute; discriminate].
  - intros H.
    apply (consume_accepts_iff NONCE_EXPIRY (h ++ [(OpConsume n, 30%N)]) n 0 40 eq_refl) in H.
    destruct H as (t & Ho & _). vm_compute in Ho. discriminate Ho.
Defined.
