(* ===== verification/Handshake.v ===== *)
(** * Key exchanges that establish a sealed channel

    rivetlink-crypto: identity.rs (device identities), session_keys.rs
    (ephemeral x25519), pq_kem.rs (ML-KEM-768), handshake.rs (the
    authenticated, optionally hybrid exchange) and pake.rs (the password
    exchange). Random bytes are arguments: the ephemeral secret, the ML-KEM
    key and encapsulation randomness, the SPAKE2 randomness. *)
From Stdlib Require Import NArith Lia Strings.String Strings.Byte.
From S2P Require Import Prelude Interfaces Instances Sealed.

(** ** Identities *)

Section Identity.
Context `{Ed25519}.

Record DeviceIdentity := { signing_key : SigningKey }.
Definition public_key (d : DeviceIdentity) : bytes := verifying_key (signing_key d).
Definition sign (d : DeviceIdentity) (message : bytes) : bytes :=
  ed_sign (signing_key d) message.
Definition verify (public_key message signature : bytes) : Result unit CryptoError :=
  if ed_verify public_key message signature then Ok tt else Err InvalidSignature.
End Identity.

(** ** Ephemeral keys *)

Section SessionKeys.
Context `{X25519}.

Record SessionKeyPair := { kp_secret : EphemeralSecret; kp_public : bytes }.
Definition generate_keypair (secret : EphemeralSecret) : SessionKeyPair :=
  {| kp_secret := secret; kp_public := x_public secret |}.
Definition derive_shared_secret (kp : SessionKeyPair) (peer_public : bytes) : bytes :=
  diffie_hellman (kp_secret kp) peer_public.
End SessionKeys.

(** ** ML-KEM *)

Definition ENCAPSULATION_KEY_LEN : N := 1184.
Definition CIPHERTEXT_LEN : N := 1088.

Section PqKem.
Context `{MlKem}.

Record PqKeyPair := { decaps_key : KemKey }.
Definition encapsulation_key_bytes (kp : PqKeyPair) : bytes := kem_public (decaps_key kp).
Definition decapsulate_bytes (kp : PqKeyPair) (ciphertext : bytes)
  : Result bytes CryptoError :=
  ok_or (kem_decapsulate (decaps_key kp) ciphertext) PqDecapsulation.
Definition encapsulate_to (encapsulation_key randomness : bytes)
  : Result (bytes * bytes) CryptoError :=
  ok_or (kem_encapsulate encapsulation_key randomness) PqEncapsulation.
End PqKem.

(** ** The authenticated exchange *)

Definition SIGNATURE_DOMAIN : bytes := as_bytes "rivetlink-authenticated-kex-v2".
Definition signature_message (binding ephemeral : bytes) : bytes :=
  SIGNATURE_DOMAIN ++ be_bytes 8 (len binding) ++ binding ++ ephemeral.
(** Both secrets are [u8; 32]. *)
Definition hybrid_secret (pq classical : bytes) : bytes := pq ++ classical.

(** The secret that keys the channel. *)
Definition handshake_secret (pq : option bytes) (classical : bytes) : bytes :=
  match pq with Some pq => hybrid_secret pq classical | None => classical end.

Section Handshake.
Context `{Ed25519} `{X25519} `{Hash} `{Aead}.

Record LocalKeyExchange := {
  keypair : SessionKeyPair;
  ephemeral_public : bytes;
  signature : bytes;
}.

Definition start (identity : SigningKey) (binding : bytes) (secret : EphemeralSecret)
  : LocalKeyExchange :=
  let keypair := generate_keypair secret in
  let ephemeral_public := kp_public keypair in
  {| keypair := keypair;
     ephemeral_public := ephemeral_public;
     signature := ed_sign identity (signature_message binding ephemeral_public) |}.

Definition into_channel (kex : LocalKeyExchange) (peer_ephemeral : bytes)
  (pq : option bytes) (transcript : bytes) (role : ChannelRole)
  : Result SealedChannel CryptoError :=
  let shared := derive_shared_secret (keypair kex) peer_ephemeral in
  match pq with
  | Some pq => from_handshake_secret (hybrid_secret pq shared) transcript role
  | None => from_handshake_secret shared transcript role
  end.

Definition verify_peer (peer_identity peer_ephemeral peer_signature binding : bytes)
  : Result unit CryptoError :=
  if ed_verify peer_identity (signature_message binding peer_ephemeral) peer_signature
  then Ok tt else Err InvalidSignature.
End Handshake.

(** ** The password exchange *)

Definition PAKE_IDENTITY : bytes := as_bytes "rivetlink-direct-pake-v1".

Section Pake.
Context `{Spake2} `{Hash} `{Aead}.

Record PakeHandshake := { pake_state : SpakeState }.
Record Started := { message : bytes; handshake : PakeHandshake }.

Definition pake_start (password randomness : bytes) : Started :=
  let '(state, message) := spake_start password PAKE_IDENTITY randomness in
  {| message := message; handshake := {| pake_state := state |} |}.

Definition pake_finish (h : PakeHandshake) (peer_message : bytes) (pq : option bytes)
  (transcript : bytes) (role : ChannelRole) : Result SealedChannel CryptoError :=
  let? key := ok_or (spake_finish (pake_state h) peer_message) PakeFailed in
  if negb (length key =? 32)%nat then Err PakeFailed
  else match pq with
       | Some pq => from_handshake_secret (hybrid_secret pq key) transcript role
       | None => from_handshake_secret key transcript role
       end.
End Pake.

(** ** Lemmas *)

(** The signed message determines the binding and the ephemeral key. *)
Lemma signature_message_inj b1 e1 b2 e2 :
  slice_ok b1 -> slice_ok b2 ->
  signature_message b1 e1 = signature_message b2 e2 -> b1 = b2 /\ e1 = e2.
Proof.
  unfold signature_message. intros H1 H2 E. apply app_inv_head in E.
  rewrite !(app_assoc (be_bytes _ _)) in E. by apply len_prefixed_app_inj in E.
Qed.

Section Lemmas.
Context `{Ed25519Laws} `{X25519Laws} `{HashLaws} `{AeadLaws} `{MlKemLaws} `{Spake2Laws}.

Lemma into_channel_secret kex peer pq transcript role :
  into_channel kex peer pq transcript role =
  from_handshake_secret (handshake_secret pq (diffie_hellman (kp_secret (keypair kex)) peer))
    transcript role.
Proof. by destruct pq. Qed.

Lemma verify_peer_start sk binding s :
  verify_peer (verifying_key sk) (ephemeral_public (start sk binding s))
    (signature (start sk binding s)) binding = Ok tt.
Proof. unfold verify_peer, start. simpl. by rewrite ed_verify_sign. Qed.

Lemma verify_peer_ok vk e s b u : verify_peer vk e s b = Ok u ->
  ed_verify vk (signature_message b e) s = true.
Proof. unfold verify_peer. intros E. by inv_ok E. Qed.

(** What the two sides derive from one secret. *)
Record paired (c h : SealedChannel) : Prop := {
  paired_out : direction c h;
  paired_in : direction h c;
  paired_zero : next_send c = 0%N /\ next_recv c = 0%N /\ next_send h = 0%N /\ next_recv h = 0%N;
}.

Lemma paired_of_secret secret transcript : exists c h,
  from_handshake_secret secret transcript Initiator = Ok c /\
  from_handshake_secret secret transcript Responder = Ok h /\ paired c h.
Proof.
  destruct (from_handshake_secret_ok secret transcript Initiator)
    as (c2h & h2c & _ & _ & _ & E).
  do 2 eexists. split; [apply (E Initiator)|]. split; [apply (E Responder)|].
  split; [by split..|]. by simpl.
Qed.

(** The channels of one exchange pair up. *)
Lemma into_channel_paired sc sh bc bh ec eh pq transcript :
  let c := start sc bc ec in
  let h := start sh bh eh in
  exists cc ch, into_channel c (ephemeral_public h) pq transcript Initiator = Ok cc /\
    into_channel h (ephemeral_public c) pq transcript Responder = Ok ch /\ paired cc ch.
Proof.
  intros c h. rewrite !into_channel_secret. simpl.
  rewrite (diffie_hellman_comm eh). apply paired_of_secret.
Qed.

Lemma encapsulate_decapsulate kp r ct ss :
  encapsulate_to (encapsulation_key_bytes kp) r = Ok (ct, ss) ->
  decapsulate_bytes kp ct = Ok ss.
Proof.
  unfold encapsulate_to, decapsulate_bytes, encapsulation_key_bytes.
  destruct kem_encapsulate as [[? ?]|] eqn:E; [|done]. simpl. intros Eq. simplify_eq.
  by rewrite (kem_decapsulate_encapsulate _ _ _ _ E).
Qed.

(** Equal passwords give paired channels. *)
Lemma pake_channels password r1 r2 pq transcript :
  let a := pake_start password r1 in
  let b := pake_start password r2 in
  exists ca cb,
    pake_finish (handshake a) (message b) pq transcript Initiator = Ok ca /\
    pake_finish (handshake b) (message a) pq transcript Responder = Ok cb /\ paired ca cb.
Proof.
  intros a b. destruct (spake_agree password PAKE_IDENTITY r1 r2) as (key & L & E1 & E2).
  destruct (paired_of_secret (handshake_secret pq key) transcript) as (ca & cb & Ea & Eb & P).
  exists ca, cb. unfold a, b, pake_finish, pake_start.
  destruct (spake_start password PAKE_IDENTITY r1) as [s1 m1].
  destruct (spake_start password PAKE_IDENTITY r2) as [s2 m2].
  simpl in *. rewrite E1, E2. simpl. rewrite L. simpl.
  split; [by destruct pq|]. split; [by destruct pq|done].
Qed.

(** Messages flow over paired channels, in both directions. *)
Lemma paired_flow c h ms c' cs :
  paired c h -> seal_all c ms = (c', Ok cs) -> open_all h cs = (set_next_recv (len ms) h, map Ok ms).
Proof.
  intros [D _ (N1 & N2 & N3 & N4)] Hs.
  destruct (seal_all_open_all c h ms c' cs) as [-> E]; try done.
  - split; [rewrite N1|rewrite N2]; done.
  - by rewrite N1, N4.
  - rewrite N1 in E. by rewrite E.
Qed.
End Lemmas.

(** ** Properties *)

Section Properties.
Context `{Ed25519Laws} `{X25519Laws} `{HashLaws} `{AeadLaws} `{MlKemLaws} `{Spake2Laws}.

(** An honest hybrid exchange succeeds. The host offers an ML-KEM key, the
    client encapsulates to it, each signs its ephemeral key over its own
    binding: both signatures verify, the host recovers the client's ML-KEM
    secret, both derive a channel over the common transcript, and whatever one
    side seals the other opens, in order. *)
Theorem hybrid_exchange_completes sc sh bc bh ec eh kem r ct ss transcript ms :
  encapsulate_to (encapsulation_key_bytes kem) r = Ok (ct, ss) ->
  let c := start sc bc ec in
  let h := start sh bh eh in
  verify_peer (verifying_key sc) (ephemeral_public c) (signature c) bc = Ok tt /\
  verify_peer (verifying_key sh) (ephemeral_public h) (signature h) bh = Ok tt /\
  decapsulate_bytes kem ct = Ok ss /\
  exists cc ch,
    into_channel c (ephemeral_public h) (Some ss) transcript Initiator = Ok cc /\
    into_channel h (ephemeral_public c) (Some ss) transcript Responder = Ok ch /\
    (forall c' cs, seal_all cc ms = (c', Ok cs) ->
       open_all ch cs = (set_next_recv (len ms) ch, map Ok ms)) /\
    (forall h' cs, seal_all ch ms = (h', Ok cs) ->
       open_all cc cs = (set_next_recv (len ms) cc, map Ok ms)).
Proof.
  intros Hk c h. split; [apply verify_peer_start|]. split; [apply verify_peer_start|].
  split; [by eapply encapsulate_decapsulate|].
  destruct (into_channel_paired sc sh bc bh ec eh (Some ss) transcript)
    as (cc & ch & Ec & Eh & P).
  exists cc, ch. split; [done|]. split; [done|].
  split; intros; [by eapply paired_flow|]. eapply paired_flow; [|done].
  destruct P as [? ? (? & ? & ? & ?)]. by split.
Qed.

(** A signature is good for one binding and one ephemeral key. If the
    verification of a peer accepts a signature under two bindings and keys that
    differ in either, then ed25519 accepted one signature for two different
    messages. *)
Theorem signature_binds_exchange vk e1 e2 s b1 b2 :
  slice_ok b1 -> slice_ok b2 ->
  verify_peer vk e1 s b1 = Ok tt -> verify_peer vk e2 s b2 = Ok tt ->
  (b1 = b2 /\ e1 = e2) \/
  exists m1 m2, m1 <> m2 /\ ed_verify vk m1 s = true /\ ed_verify vk m2 s = true.
Proof.
  intros S1 S2 V1%verify_peer_ok V2%verify_peer_ok.
  destruct (decide (signature_message b1 e1 = signature_message b2 e2)) as [E|E]; eauto 6.
  left. by apply signature_message_inj.
Qed.

(** The password exchange. Peers that start with the same password and swap
    their messages both finish, with or without an ML-KEM secret, and what one
    seals the other opens; a malformed message fails as [PakeFailed]. *)
Theorem pake_equal_passwords_agree password r1 r2 pq transcript ms :
  let a := pake_start password r1 in
  let b := pake_start password r2 in
  (exists ca cb,
    pake_finish (handshake a) (message b) pq transcript Initiator = Ok ca /\
    pake_finish (handshake b) (message a) pq transcript Responder = Ok cb /\
    forall c' cs, seal_all ca ms = (c', Ok cs) ->
      open_all cb cs = (set_next_recv (len ms) cb, map Ok ms)) /\
  forall st m role, spake_finish (pake_state st) m = None ->
    pake_finish st m pq transcript role = Err PakeFailed.
Proof.
  intros a b. split.
  - destruct (pake_channels password r1 r2 pq transcript) as (ca & cb & Ea & Eb & P).
    exists ca, cb. split; [done|]. split; [done|]. intros. by eapply paired_flow.
  - intros st m role E. unfold pake_finish. by rewrite E.
Qed.
End Properties.

(** ** Witnesses *)

Definition witness_kem : PqKeyPair (H := toy_mlkem) := Build_PqKeyPair (H := toy_mlkem) 9%N.
Definition witness_capsule : bytes * bytes :=
  match encapsulate_to (encapsulation_key_bytes witness_kem) (as_bytes "r") with
  | Ok p => p | Err _ => ([], []) end.

Lemma hybrid_exchange_completes_witness :
  decapsulate_bytes witness_kem witness_capsule.1 = Ok witness_capsule.2.
Proof.
  apply (hybrid_exchange_completes (H := toy_ed25519) (H1 := toy_x25519) 1%N 2%N [] [] 3%N 4%N
   
    witness_kem (as_bytes "r") witness_capsule.1 witness_capsule.2 [] []).
  reflexivity.
Defined.

Definition witness_sk : @SigningKey toy_ed25519 := 5%N.
Definition witness_eph : @EphemeralSecret toy_x25519 := 6%N.

Lemma signature_binds_exchange_witness :
  let k := start witness_sk (as_bytes "binding") witness_eph in
  (as_bytes "binding" = as_bytes "binding" /\ ephemeral_public k = ephemeral_public k) \/
  exists m1 m2, m1 <> m2 /\ ed_verify (verifying_key witness_sk) m1 (signature k) = true /\
    ed_verify (verifying_key witness_sk) m2 (signature k) = true.
Proof.
  intros k. apply (signature_binds_exchange (verifying_key witness_sk)).
  - vm_compute. reflexivity.
  - vm_compute. reflexivity.
  - vm_compute. reflexivity.
  - vm_compute. reflexivity.
Defined.

Lemma pake_equal_passwords_agree_witness :
  let a := pake_start (as_bytes "4821") (as_bytes "r1") in
  let b := pake_start (as_bytes "4821") (as_bytes "r2") in
  pake_finish (handshake a) [] None (as_bytes "t") Initiator = Err PakeFailed /\
  is_ok (pake_finish (handshake a) (message b) None (as_bytes "t") Initiator) = true.
Proof.
  intros a b.
  destruct (pake_equal_passwords_agree (as_bytes "4821") (as_bytes "r1") (as_bytes "r2") None
    (as_bytes "t") []) as [(ca & cb & E & _) F].
  split; [by apply F|]. unfold a, b. by rewrite E.
Defined.
