(* ===== verification/Connections.v ===== *)
(** * Connected WebSocket clients

    rivetlink-server/src/websocket/connection.rs. A [WsSender] is a handle to
    a bounded queue; a clone of it names the same queue, so the queues live in
    a store of their own. *)
From Stdlib Require Import NArith Lia.
From S2P Require Import Prelude Interfaces.

Definition OUTGOING_QUEUE : nat := 128.

(** axum's WebSocket messages. *)
Inductive Message :=
| Text (text : string)
| Binary (data : bytes)
| Ping (data : bytes)
| Pong (data : bytes)
| Close.

Abbreviation WsSender := N.

Inductive PrincipalKind := User | Device.
#[export] Instance PrincipalKind_eq_dec : EqDecision PrincipalKind.
Proof. solve_decision. Defined.

Record ConnectedClient := {
  client_user_id : Uuid;
  client_org_id : Uuid;
  client_kind : PrincipalKind;
  client_sender : WsSender;
}.

Record ConnectionMap := {
  inner : gmap Uuid ConnectedClient;
  devices : gmap Uuid Uuid;
}.
Definition connection_map_new : ConnectionMap := {| inner := ∅; devices := ∅ |}.

Definition insert_connection (m : ConnectionMap) (conn_id : Uuid) (client : ConnectedClient)
  : ConnectionMap :=
  {| inner := <[conn_id := client]> (inner m);
     devices := if decide (client_kind client = Device)
                then <[client_user_id client := conn_id]> (devices m) else devices m |}.

(** [DashMap::remove_if]. *)
Definition remove_if (d : gmap Uuid Uuid) (k : Uuid) (p : Uuid -> bool) : gmap Uuid Uuid :=
  match d !! k with Some v => if p v then delete k d else d | None => d end.

Definition remove_connection (m : ConnectionMap) (conn_id : Uuid) : ConnectionMap :=
  match inner m !! conn_id with
  | Some client =>
      {| inner := delete conn_id (inner m);
         devices := if decide (client_kind client = Device)
                    then remove_if (devices m) (client_user_id client)
                           (fun current => bool_decide (current = conn_id))
                    else devices m |}
  | None => m
  end.

Definition device_conn (m : ConnectionMap) (device_id : Uuid) : option Uuid :=
  devices m !! device_id.
Definition device_is_connected (m : ConnectionMap) (device_id : Uuid) : bool :=
  bool_decide (is_Some (devices m !! device_id)).
Definition get_sender (m : ConnectionMap) (conn_id : Uuid) : option WsSender :=
  client_sender <$> inner m !! conn_id.
Definition connected_count (m : ConnectionMap) : nat := size (inner m).
Definition get_client (m : ConnectionMap) (conn_id : Uuid) : option ConnectedClient :=
  inner m !! conn_id.

Abbreviation Queues Q := (gmap WsSender Q).

Section Queues.
Context {Q : Type} `{MpscSender Q Message}.


(** [try_send] through a handle. A [send_timeout] that ends has the outcome of
    [try_send] at that instant: accepted, or refused because the queue stayed
    full or its receiver is gone. *)
Definition send_message (qs : Queues Q) (s : WsSender) (m : Message) : Queues Q * bool :=
  match qs !! s with
  | Some q => match try_send q m with
              | Some q' => (<[s := q']> qs, true)
              | None => (qs, false)
              end
  | None => (qs, false)
  end.

Definition send_to (m : ConnectionMap) (qs : Queues Q) (conn_id : Uuid) (message : string)
  : Queues Q * bool :=
  match inner m !! conn_id with
  | Some client => send_message qs (client_sender client) (Text message)
  | None => (qs, false)
  end.

(** The messages waiting in a queue. *)
Definition waiting (qs : Queues Q) (s : WsSender) : list Message :=
  match qs !! s with Some q => queued q | None => [] end.

(** ** Lemmas *)

Context `{!MpscLaws Q Message}.

Lemma send_message_waiting qs s m qs' ok s' :
  send_message qs s m = (qs', ok) ->
  waiting qs' s' = waiting qs s' ++ (if ok && bool_decide (s' = s) then [m] else []).
Proof.
  unfold send_message, waiting. intros E.
  destruct (qs !! s) as [q|] eqn:Eq; [|simplify_eq; by rewrite app_nil_r].
  destruct (try_send q m) as [q'|] eqn:Et; simplify_eq/=; [|by rewrite app_nil_r].
  case_bool_decide as Hs; subst.
  - rewrite lookup_insert_eq, Eq. by apply try_send_queued.
  - by rewrite lookup_insert_ne, app_nil_r.
Qed.

Lemma send_to_inv m qs conn text qs' ok s :
  send_to m qs conn text = (qs', ok) ->
  (waiting qs' s = waiting qs s /\ (ok = true -> exists cl, inner m !! conn = Some cl)) \/
  (exists cl, inner m !! conn = Some cl /\ client_sender cl = s /\ ok = true /\
     waiting qs' s = waiting qs s ++ [Text text]).
Proof.
  unfold send_to. destruct (inner m !! conn) as [cl|] eqn:E; intros H'.
  - pose proof (send_message_waiting _ _ _ _ _ s H') as Hw.
    destruct ok; [|left; simpl in Hw; by rewrite app_nil_r in Hw].
    simpl in Hw. case_bool_decide; [right|left; rewrite app_nil_r in Hw]; eauto 6.
  - simplify_eq. left. done.
Qed.
End Queues.

(** The entries of [devices] are live connections of that device. *)
Definition devices_ok (m : ConnectionMap) : Prop :=
  forall d c, devices m !! d = Some c ->
  exists cl, inner m !! c = Some cl /\ client_kind cl = Device /\ client_user_id cl = d.

Lemma remove_if_Some d k p x y :
  remove_if d k p !! x = Some y -> d !! x = Some y /\ (x = k -> p y = false).
Proof.
  unfold remove_if. destruct (d !! k) as [v|] eqn:E.
  - destruct (p v) eqn:Ep.
    + intros [? ?]%lookup_delete_Some. split; [done|congruence].
    + intros Hx. split; [done|]. intros ->. congruence.
  - intros Hx. split; [done|]. intros ->. congruence.
Qed.

Lemma devices_ok_insert m conn client :
  devices_ok m -> inner m !! conn = None -> devices_ok (insert_connection m conn client).
Proof.
  intros Hok Hfresh d c. unfold insert_connection; simpl. intros Hd.
  assert (devices m !! d = Some c -> exists cl, <[conn:=client]> (inner m) !! c = Some cl /\
            client_kind cl = Device /\ client_user_id cl = d) as Hold.
  { intros (cl & H1 & H2 & H3)%Hok. exists cl. split; [|done].
    rewrite lookup_insert_ne; congruence. }
  destruct (decide (client_kind client = Device)) as [Hk|Hk]; [|by apply Hold].
  apply lookup_insert_Some in Hd as [[<- <-]|[_ Hd]]; [|by apply Hold].
  exists client. by rewrite lookup_insert_eq.
Qed.

Lemma devices_ok_remove m conn : devices_ok m -> devices_ok (remove_connection m conn).
Proof.
  intros Hok. unfold remove_connection. destruct (inner m !! conn) as [cl|] eqn:E; [|done].
  intros d c. simpl. intros Hd.
  assert (devices m !! d = Some c /\ c <> conn) as [Hd' Hne].
  { destruct (decide (client_kind cl = Device)) as [Hk|Hk].
    - apply remove_if_Some in Hd as [Hd Hp]. split; [done|]. intros ->.
      destruct (Hok _ _ Hd) as (cl' & ? & ? & ?). simplify_eq.
      specialize (Hp eq_refl). by rewrite bool_decide_true in Hp.
    - split; [done|]. intros ->. destruct (Hok _ _ Hd) as (cl' & ? & ? & ?). congruence. }
  destruct (Hok _ _ Hd') as (cl' & ? & ? & ?). exists cl'. by rewrite lookup_delete_ne.
Qed.

Lemma remove_connection_devices m c' d c :
  devices_ok m ->
  devices (remove_connection m c') !! d = Some c <-> devices m !! d = Some c /\ c' <> c.
Proof.
  intros Hok.
  assert (forall cl, inner m !! c' = Some cl -> devices m !! d = Some c ->
          client_kind cl <> Device \/ client_user_id cl <> d \/
          devices m !! client_user_id cl <> Some c' -> c' <> c) as Hkeep.
  { intros cl Hcl Hd Hx ->. destruct (Hok _ _ Hd) as (cl' & ? & ? & <-). simplify_eq.
    naive_solver. }
  unfold remove_connection. destruct (inner m !! c') as [cl|] eqn:E; simpl.
  - destruct (decide (client_kind cl = Device)) as [Hk|Hk]; [|naive_solver].
    unfold remove_if. destruct (devices m !! client_user_id cl) as [v|] eqn:Ev.
    + case_bool_decide as Hv; subst; [|naive_solver].
      rewrite lookup_delete_Some. destruct (decide (client_user_id cl = d)) as [<-|Hne].
      * rewrite Ev. naive_solver.
      * naive_solver.
    + split; [|naive_solver]. intros Hd. split; [done|].
      apply (Hkeep cl); [done|done|]. right. right. congruence.
  - split; [|naive_solver]. intros Hd. split; [done|]. intros ->.
    destruct (Hok _ _ Hd) as (? & ? & ?). congruence.
Qed.

(** A history of registrations and removals. *)
Inductive conn_op :=
| Connect (conn_id : Uuid) (client : ConnectedClient)
| Disconnect (conn_id : Uuid).
Definition conn_step (m : ConnectionMap) (op : conn_op) : ConnectionMap :=
  match op with
  | Connect conn_id client => insert_connection m conn_id client
  | Disconnect conn_id => remove_connection m conn_id
  end.
Definition conn_run (h : list conn_op) : ConnectionMap :=
  fold_left conn_step h connection_map_new.
(** Connection ids are fresh: no id is registered twice. *)
Definition connect_ids (h : list conn_op) : list Uuid :=
  omap (fun op => match op with Connect c _ => Some c | Disconnect _ => None end) h.

(** [c] is the newest registration of device [d] in [h], and still open. *)
Definition newest_open (d c : Uuid) (h : list conn_op) : Prop :=
  exists h1 h2 client, h = h1 ++ Connect c client :: h2 /\
    client_kind client = Device /\ client_user_id client = d /\
    (forall c' cl', Connect c' cl' ∈ h2 -> client_kind cl' = Device -> client_user_id cl' <> d) /\
    Disconnect c ∉ h2.

Lemma conn_run_snoc h op : conn_run (h ++ [op]) = conn_step (conn_run h) op.
Proof. unfold conn_run. by rewrite fold_left_app. Qed.
Lemma connect_ids_snoc h op :
  connect_ids (h ++ [op]) =
  connect_ids h ++ match op with Connect c _ => [c] | Disconnect _ => [] end.
Proof. unfold connect_ids. rewrite omap_app. by destruct op. Qed.

Lemma inner_connect_ids h c cl : inner (conn_run h) !! c = Some cl -> c ∈ connect_ids h.
Proof.
  induction h as [|op h IH] using rev_ind; [unfold conn_run; simpl; by rewrite lookup_empty|].
  rewrite conn_run_snoc, connect_ids_snoc, elem_of_app.
  destruct op as [c' cl'|c']; simpl.
  - intros [[-> _]|[_ H]]%lookup_insert_Some; [right; by left|auto].
  - unfold remove_connection. destruct (inner (conn_run h) !! c'); [|auto].
    simpl. intros [_ H]%lookup_delete_Some. auto.
Qed.

Lemma conn_run_devices_ok h : NoDup (connect_ids h) -> devices_ok (conn_run h).
Proof.
  induction h as [|op h IH] using rev_ind; intros Hn.
  { intros d c. unfold conn_run; simpl. by rewrite lookup_empty. }
  rewrite conn_run_snoc. rewrite connect_ids_snoc in Hn.
  apply list.NoDup_app in Hn as (Hn1 & Hn2 & _). destruct op as [c cl|c]; simpl.
  - apply devices_ok_insert; [auto|].
    destruct (inner (conn_run h) !! c) eqn:E; [|done].
    apply inner_connect_ids in E. destruct (Hn2 c E). by left.
  - by apply devices_ok_remove, IH.
Qed.

Lemma newest_open_nil d c : ~ newest_open d c [].
Proof. intros ([|] & h2 & cl & E & _); discriminate E. Qed.

Lemma newest_open_snoc d c h op :
  newest_open d c (h ++ [op]) <->
  (exists cl, op = Connect c cl /\ client_kind cl = Device /\ client_user_id cl = d) \/
  (newest_open d c h /\ op <> Disconnect c /\
   forall c' cl', op = Connect c' cl' -> client_kind cl' = Device -> client_user_id cl' <> d).
Proof.
  split.
  - intros (h1 & h2 & cl & E & Hk & Hd & Hnew & Hopen).
    destruct h2 as [|op' h2 _] using rev_ind.
    { apply app_inj_tail in E as [_ ->]. left. eauto. }
    rewrite app_comm_cons, app_assoc in E. apply app_inj_tail in E as [-> ->].
    right. split; [|split].
    + exists h1, h2, cl. repeat split; try done.
      * intros c' cl' Hin. apply (Hnew c'). apply elem_of_app. by left.
      * intros Hin. apply Hopen. apply elem_of_app. by left.
    + intros ->. apply Hopen. apply elem_of_app. right. by left.
    + intros c' cl' ->. apply (Hnew c'). apply elem_of_app. right. by left.
  - intros [(cl & -> & Hk & Hd)|((h1 & h2 & cl & -> & Hk & Hd & Hnew & Hopen) & Hne & Hop)].
    + exists h, [], cl. repeat split; try done; by intros * ?%elem_of_nil.
    + exists h1, (h2 ++ [op]), cl. rewrite <-app_assoc. repeat split; try done.
      * intros c' cl' [Hin|Hin]%elem_of_app; [by apply (Hnew c')|].
        apply list_elem_of_singleton in Hin. by apply (Hop c').
      * intros [Hin|Hin]%elem_of_app; [done|]. apply list_elem_of_singleton in Hin. congruence.
Qed.

(** C30. The device index follows the connections. However connections with
    fresh ids are registered and removed, session requests for a device are
    routed to connection [c] exactly when [c] is the newest registration of that
    device and is still open: a reconnect replaces the route, and the late removal
    of a replaced connection does not take the device offline. *)
Theorem device_index_follows_newest h d c :
  NoDup (connect_ids h) ->
  device_conn (conn_run h) d = Some c <-> newest_open d c h.
Proof.
  induction h as [|op h IH] using rev_ind; intros Hn.
  { unfold device_conn, conn_run. simpl. rewrite lookup_empty. split; [done|by intros ?%newest_open_nil]. }
  pose proof (conn_run_devices_ok (h ++ [op]) Hn) as Hok'.
  rewrite newest_open_snoc, conn_run_snoc in *. rewrite connect_ids_snoc in Hn.
  apply list.NoDup_app in Hn as (Hn1 & Hn2 & _). specialize (IH Hn1).
  pose proof (conn_run_devices_ok h Hn1) as Hok.
  unfold device_conn in *. destruct op as [c' cl'|c']; simpl.
  - destruct (decide (client_kind cl' = Device)) as [Hk|Hk].
    + destruct (decide (client_user_id cl' = d)) as [Hd|Hd].
      * rewrite Hd, lookup_insert_eq. split; [intros; simplify_eq; left; eauto|].
        intros [(cl & ? & _)|(_ & _ & Hx)]; [congruence|]. by destruct (Hx c' cl').
      * rewrite lookup_insert_ne by done. rewrite IH. split.
        -- intros Ho. right. split; [done|]. split; [done|]. intros ? ? [= <- <-]. done.
        -- intros [(cl & ? & ? & ?)|(? & _)]; [congruence|done].
    + rewrite IH. split.
      * intros Ho. right. split; [done|]. split; [done|]. intros ? ? [= <- <-]. done.
      * intros [(cl & ? & ? & ?)|(? & _)]; [congruence|done].
  - rewrite (remove_connection_devices _ _ _ _ Hok), IH. split.
    + intros [? ?]. right. split; [done|]. split; [congruence|done].
    + intros [(cl & ? & _)|(? & Hne & _)]; [done|]. split; [done|congruence].
Qed.

(** A device reconnects before its old connection is closed. *)
Lemma device_index_follows_newest_witness :
  let d := uuid_from_u128 9 in
  let cl s := {| client_user_id := d; client_org_id := uuid_from_u128 1;
                 client_kind := Device; client_sender := s |} in
  let h := [Connect (uuid_from_u128 1) (cl 1%N); Connect (uuid_from_u128 2) (cl 2%N);
            Disconnect (uuid_from_u128 1)] in
  newest_open d (uuid_from_u128 2) h.
Proof.
  intros d cl h. apply (device_index_follows_newest h d (uuid_from_u128 2)).
  - apply (bool_decide_unpack _). vm_compute. exact I.
  - vm_compute. reflexivity.
Defined.
