(* ===== verification/Sessions.v ===== *)
(** * Relay sessions

    rivetlink-server/src/sessions/manager.rs: which two connections a relay
    session joins, and how many sessions a principal may have. *)
From Stdlib Require Import NArith Lia.
From S2P Require Import Prelude.

Definition MAX_SESSIONS_PER_USER : nat := 4.
Definition MAX_SESSIONS_PER_DEVICE : nat := 16.

Record ActiveSession := {
  session_id : Uuid;
  session_org_id : Uuid;
  device_id : Uuid;
  session_device_conn : Uuid;
  initiator_id : Uuid;
  initiator_conn : Uuid;
  tunnel : bool;
  started_at : N;
}.

Record SessionManager := { sessions : gmap Uuid ActiveSession }.
Definition session_manager_new : SessionManager := {| sessions := ∅ |}.

(** How many sessions [p] holds of, as the loops of [create_session] count. *)
Definition count_sessions (m : SessionManager) (p : ActiveSession -> bool) : nat :=
  length (filter (fun s => p s = true) (map snd (map_to_list (sessions m)))).

Definition create_session (m : SessionManager) (session : ActiveSession)
  : SessionManager * Result unit string :=
  let by_user := count_sessions m (fun s => bool_decide (initiator_id s = initiator_id session)) in
  let by_device := count_sessions m (fun s => bool_decide (device_id s = device_id session)) in
  if (MAX_SESSIONS_PER_USER <=? by_user)%nat
  then (m, Err "too many open sessions for this account")
  else if (MAX_SESSIONS_PER_DEVICE <=? by_device)%nat
  then (m, Err "device is busy")
  else ({| sessions := <[session_id session := session]> (sessions m) |}, Ok tt).

(** The other end, if [sender_conn] is one of the two. *)
Definition other_end (s : ActiveSession) (sender_conn : Uuid) : option Uuid :=
  if decide (initiator_conn s = sender_conn) then Some (session_device_conn s)
  else if decide (session_device_conn s = sender_conn) then Some (initiator_conn s)
  else None.
Definition peer_conn (m : SessionManager) (sid sender_conn : Uuid) : option Uuid :=
  s ← sessions m !! sid; other_end s sender_conn.
Definition tunnel_peer_conn (m : SessionManager) (sid sender_conn : Uuid) : option Uuid :=
  s ← sessions m !! sid;
  if negb (tunnel s) then None else peer_conn m sid sender_conn.
Definition get_session_org (m : SessionManager) (sid : Uuid) : option Uuid :=
  session_org_id <$> sessions m !! sid.
Definition remove_session (m : SessionManager) (sid : Uuid)
  : SessionManager * option ActiveSession :=
  ({| sessions := delete sid (sessions m) |}, sessions m !! sid).

Definition uses_conn (c : Uuid) (s : ActiveSession) : bool :=
  bool_decide (initiator_conn s = c) || bool_decide (session_device_conn s = c).
(** The ids collected by [remove_for_conn]: the values' own ids. *)
Definition conn_session_ids (m : SessionManager) (c : Uuid) : list Uuid :=
  map session_id
    (filter (fun s => uses_conn c s = true) (map snd (map_to_list (sessions m)))).
Fixpoint remove_sessions (m : SessionManager) (ids : list Uuid)
  : SessionManager * list ActiveSession :=
  match ids with
  | [] => (m, [])
  | i :: ids' =>
      let '(m1, o) := remove_session m i in
      let '(m2, l) := remove_sessions m1 ids' in
      (m2, match o with Some s => s :: l | None => l end)
  end.
Definition remove_for_conn (m : SessionManager) (c : Uuid)
  : SessionManager * list ActiveSession :=
  remove_sessions m (conn_session_ids m c).
Definition active_count (m : SessionManager) : nat := size (sessions m).

(** ** Lemmas *)

(** Sessions are stored under their own id. *)
Definition keyed (m : SessionManager) : Prop :=
  forall i s, sessions m !! i = Some s -> session_id s = i.

(** No user and no device is over its limit. *)
Definition limits_ok (m : SessionManager) : Prop :=
  (forall u, count_sessions m (fun s => bool_decide (initiator_id s = u)) <= MAX_SESSIONS_PER_USER) /\
  (forall d, count_sessions m (fun s => bool_decide (device_id s = d)) <= MAX_SESSIONS_PER_DEVICE).

Lemma count_sessions_insert m p i s :
  sessions m !! i = None ->
  count_sessions {| sessions := <[i := s]> (sessions m) |} p =
    (if p s then 1 else 0) + count_sessions m p.
Proof.
  intros Hi. unfold count_sessions. simpl.
  rewrite (map_to_list_insert (sessions m) i s Hi). simpl.
  rewrite filter_cons. destruct (decide (p s = true)) as [Hp|Hp]; [by rewrite Hp|].
  apply not_true_is_false in Hp. by rewrite Hp.
Qed.

Lemma count_sessions_delete m p i :
  count_sessions {| sessions := delete i (sessions m) |} p <= count_sessions m p.
Proof.
  destruct (sessions m !! i) as [s|] eqn:E.
  - set (m' := {| sessions := delete i (sessions m) |}).
    assert (count_sessions m p = count_sessions {| sessions := <[i := s]> (sessions m') |} p) as ->.
    { f_equal. destruct m as [ss]. simpl in *. by rewrite insert_delete_id. }
    rewrite count_sessions_insert by apply lookup_delete_eq. destruct (p s); lia.
  - rewrite delete_id by done. by destruct m.
Qed.

Lemma limits_ok_delete m i :
  limits_ok m -> limits_ok {| sessions := delete i (sessions m) |}.
Proof.
  intros [Hu Hd]; split; intros x; (etrans; [apply count_sessions_delete|auto]).
Qed.

Lemma limits_ok_create m s :
  limits_ok m -> sessions m !! session_id s = None -> limits_ok (create_session m s).1.
Proof.
  intros [Hu Hd] Hf. unfold create_session.
  destruct (Nat.leb_spec MAX_SESSIONS_PER_USER
    (count_sessions m (fun x => bool_decide (initiator_id x = initiator_id s)))); [done|].
  destruct (Nat.leb_spec MAX_SESSIONS_PER_DEVICE
    (count_sessions m (fun x => bool_decide (device_id x = device_id s)))); [done|].
  simpl. split; intros x; rewrite count_sessions_insert by done;
    case_bool_decide; subst; rewrite ?Nat.add_0_l; auto; lia.
Qed.

Lemma lookup_remove_sessions m ids i :
  sessions (remove_sessions m ids).1 !! i = if decide (i ∈ ids) then None else sessions m !! i.
Proof.
  revert m. induction ids as [|j ids IH]; intros m; cbn [remove_sessions].
  { destruct (decide (i ∈ [])) as [H|H]; [by apply elem_of_nil in H|done]. }
  unfold remove_session. specialize (IH {| sessions := delete j (sessions m) |}).
  destruct (remove_sessions _ ids) as [m2 l]. simpl in *. rewrite IH.
  destruct (decide (i ∈ ids)) as [Hin|Hin].
  { rewrite decide_True by by right. done. }
  destruct (decide (i = j)) as [->|Hne].
  - rewrite lookup_delete_eq, decide_True by by left. done.
  - rewrite lookup_delete_ne, decide_False by (done || by intros [?|?]%elem_of_cons). done.
Qed.

Lemma elem_of_conn_session_ids m c i :
  keyed m ->
  i ∈ conn_session_ids m c <-> exists s, sessions m !! i = Some s /\ uses_conn c s = true.
Proof.
  intros Hk. unfold conn_session_ids. rewrite list_elem_of_fmap. split.
  - intros (s & -> & [Hu Hs]%list_elem_of_filter).
    apply list_elem_of_fmap in Hs as ([j s'] & -> & Hj). apply elem_of_map_to_list in Hj.
    simpl in *. rewrite (Hk _ _ Hj). eauto.
  - intros (s & Hs & Hu). exists s. split; [by rewrite (Hk _ _ Hs)|].
    apply list_elem_of_filter. split; [done|]. apply list_elem_of_fmap. exists (i, s).
    split; [done|]. by apply elem_of_map_to_list.
Qed.

(** [remove_for_conn] removes exactly the sessions of the connection. *)
Lemma lookup_remove_for_conn m c i :
  keyed m ->
  sessions (remove_for_conn m c).1 !! i =
    match sessions m !! i with
    | Some s => if uses_conn c s then None else Some s
    | None => None
    end.
Proof.
  intros Hk. unfold remove_for_conn. rewrite lookup_remove_sessions.
  destruct decide as [Hin|Hin]; rewrite elem_of_conn_session_ids in Hin by done.
  - destruct Hin as (s & -> & ->). done.
  - destruct (sessions m !! i) as [s|] eqn:E; [|done].
    destruct (uses_conn c s) eqn:Eu; [|done]. destruct Hin. eauto.
Qed.

(** A history of the manager's operations. *)
Inductive session_op :=
| CreateSession (s : ActiveSession)
| RemoveSession (i : Uuid)
| RemoveForConn (c : Uuid).
Definition session_step (m : SessionManager) (op : session_op) : SessionManager :=
  match op with
  | CreateSession s => (create_session m s).1
  | RemoveSession i => (remove_session m i).1
  | RemoveForConn c => (remove_for_conn m c).1
  end.
Definition session_run (h : list session_op) : SessionManager :=
  fold_left session_step h session_manager_new.
Definition created_ids (h : list session_op) : list Uuid :=
  omap (fun op => match op with CreateSession s => Some (session_id s) | _ => None end) h.

Lemma session_run_snoc h op : session_run (h ++ [op]) = session_step (session_run h) op.
Proof. unfold session_run. by rewrite fold_left_app. Qed.

Lemma create_session_lookup m s i s' :
  sessions (create_session m s).1 !! i = Some s' ->
  sessions m !! i = Some s' \/ (i = session_id s /\ s' = s).
Proof.
  unfold create_session. repeat case_goal; simpl; [by left..|].
  intros [[-> ->]|[_ H]]%lookup_insert_Some; auto.
Qed.

Lemma remove_sessions_lookup m ids i s :
  sessions (remove_sessions m ids).1 !! i = Some s -> sessions m !! i = Some s.
Proof. rewrite lookup_remove_sessions. by destruct decide. Qed.

Lemma session_run_lookup h i s :
  sessions (session_run h) !! i = Some s -> session_id s = i /\ i ∈ created_ids h.
Proof.
  induction h as [|op h IH] using rev_ind.
  { unfold session_run. simpl. by rewrite lookup_empty. }
  rewrite session_run_snoc. unfold created_ids. rewrite omap_app, elem_of_app.
  fold (created_ids h). destruct op as [s0|j|c]; simpl.
  - intros [H|[-> ->]]%create_session_lookup.
    + destruct (IH H). auto.
    + split; [done|]. right. by left.
  - intros [_ H]%lookup_delete_Some. destruct (IH H). auto.
  - intros H%remove_sessions_lookup. destruct (IH H). auto.
Qed.

Lemma limits_ok_remove_sessions m ids : limits_ok m -> limits_ok (remove_sessions m ids).1.
Proof.
  revert m. induction ids as [|i ids IH]; intros m Hm; [done|]. simpl.
  pose proof (IH _ (limits_ok_delete m i Hm)) as H. by destruct remove_sessions.
Qed.

Lemma limits_ok_run h : NoDup (created_ids h) -> limits_ok (session_run h).
Proof.
  induction h as [|op h IH] using rev_ind; intros Hn.
  { split; intros x; apply Nat.le_0_l. }
  rewrite session_run_snoc. unfold created_ids in Hn. rewrite omap_app in Hn.
  apply list.NoDup_app in Hn as (Hn1 & Hn2 & _). specialize (IH Hn1).
  destruct op as [s|i|c]; simpl.
  - apply limits_ok_create; [done|].
    destruct (sessions (session_run h) !! session_id s) eqn:E; [|done].
    apply session_run_lookup in E as [_ E]. destruct (Hn2 _ E). by left.
  - by apply limits_ok_delete.
  - by apply limits_ok_remove_sessions.
Qed.

(** Session limits. Whatever sequence of creations (with fresh ids),
    removals and closed connections the relay goes through, no user ever has more
    than [MAX_SESSIONS_PER_USER] sessions and no device more than
    [MAX_SESSIONS_PER_DEVICE]; and a creation is refused only at one of these two
    limits, the user's being reported first. *)
Theorem session_limits_hold h s :
  NoDup (created_ids h) ->
  let m := session_run h in
  let users := count_sessions m (fun x => bool_decide (initiator_id x = initiator_id s)) in
  let devs := count_sessions m (fun x => bool_decide (device_id x = device_id s)) in
  users <= MAX_SESSIONS_PER_USER /\ devs <= MAX_SESSIONS_PER_DEVICE /\
  ((create_session m s).2 = Err "too many open sessions for this account" <->
     users = MAX_SESSIONS_PER_USER) /\
  ((create_session m s).2 = Err "device is busy" <->
     users < MAX_SESSIONS_PER_USER /\ devs = MAX_SESSIONS_PER_DEVICE) /\
  ((create_session m s).2 = Ok tt <->
     users < MAX_SESSIONS_PER_USER /\ devs < MAX_SESSIONS_PER_DEVICE).
Proof.
  intros Hn m users devs. destruct (limits_ok_run h Hn) as [Hu Hd].
  specialize (Hu (initiator_id s) : users <= _). specialize (Hd (device_id s) : devs <= _).
  unfold create_session. fold users devs. clearbody users devs.
  destruct (Nat.leb_spec MAX_SESSIONS_PER_USER users); cbn [snd]; [|
    destruct (Nat.leb_spec MAX_SESSIONS_PER_DEVICE devs); cbn [snd]];
    repeat split; intros; destruct_and?; try discriminate; try done; try lia; try (exfalso; lia).
Qed.

(** A user's fifth session, and one after a session ends. *)
Definition witness_session (n : N) : ActiveSession :=
  {| session_id := uuid_from_u128 n; session_org_id := uuid_from_u128 1;
     device_id := uuid_from_u128 (100 + n); session_device_conn := uuid_from_u128 (200 + n);
     initiator_id := uuid_from_u128 7; initiator_conn := uuid_from_u128 300;
     tunnel := true; started_at := 0 |}.
Lemma session_limits_hold_witness :
  let h := map (fun n => CreateSession (witness_session n)) [1; 2; 3; 4]%N in
  (create_session (session_run h) (witness_session 5)).2
    = Err "too many open sessions for this account" /\
  (create_session (session_run (h ++ [RemoveSession (uuid_from_u128 2)])) (witness_session 5)).2
    = Ok tt.
Proof.
  intros h. split.
  - refine (proj2 (proj1 (proj2 (proj2 (session_limits_hold h (witness_session 5) _)))) _).
    + apply (bool_decide_unpack _). vm_compute. exact I.
    + vm_compute. reflexivity.
  - refine (proj2 (proj2 (proj2 (proj2 (proj2
      (session_limits_hold (h ++ [RemoveSession (uuid_from_u128 2)]) (witness_session 5) _))))) _).
    + apply (bool_decide_unpack _). vm_compute. exact I.
    + split; apply Nat.ltb_lt; vm_compute; reflexivity.
Defined.
