(* ===== verification/Router.v ===== *)
(** * The signaling router

    rivetlink-server/src/signaling/router.rs: routing of signaling packets
    between the two connections of a session. [state.rs] declares the message
    the gateway hands to the router. Fresh session ids and the clock reading
    are arguments. *)
From Stdlib Require Import NArith Lia.
From S2P Require Import Prelude Interfaces Protocol Connections Sessions.

Record SignalingMessage := {
  msg_conn_id : Uuid;
  msg_principal_id : Uuid;
  msg_org_id : Uuid;
  msg_kind : PrincipalKind;
  msg_text : string;
}.

(** The shared state the router works on. *)
Record Relay (Q : Type) := {
  connections : ConnectionMap;
  manager : SessionManager;
  queues : Queues Q;
}.
Arguments connections {Q} _.
Arguments manager {Q} _.
Arguments queues {Q} _.

Definition with_connections {Q} (c : ConnectionMap) (st : Relay Q) : Relay Q :=
  {| connections := c; manager := manager st; queues := queues st |}.
Definition with_manager {Q} (m : SessionManager) (st : Relay Q) : Relay Q :=
  {| connections := connections st; manager := m; queues := queues st |}.
Definition with_queues {Q} (q : Queues Q) (st : Relay Q) : Relay Q :=
  {| connections := connections st; manager := manager st; queues := q |}.

Section Router.
Context {Q : Type} `{MpscSender Q Message} `{Serde SignalPacket}.

(** [connections.send_to] on the shared state. *)
Definition relay_send (st : Relay Q) (conn : Uuid) (text : string) : Relay Q * bool :=
  let '(qs, sent) := send_to (connections st) (queues st) conn text in
  (with_queues qs st, sent).

(** The [reject] closure of [route_packet]. *)
Definition reject (st : Relay Q) (message : SignalingMessage) (sid : Uuid) (reason : string)
  : Relay Q :=
  match to_json (SessionRejected sid reason) with
  | Ok text => (relay_send st (msg_conn_id message) text).1
  | Err _ => st
  end.

Definition forward (st : Relay Q) (message : SignalingMessage) (sid : SessionId)
  : Relay Q * bool :=
  match peer_conn (manager st) sid (msg_conn_id message) with
  | None => (st, false)
  | Some peer => ((relay_send st peer (msg_text message)).1, true)
  end.

(** The device's live connection, if it belongs to the sender's organisation. *)
Definition routable_device (st : Relay Q) (message : SignalingMessage) (dev : DeviceId)
  : option Uuid :=
  conn ← device_conn (connections st) dev;
  device ← get_client (connections st) conn;
  if decide (client_org_id device = msg_org_id message) then Some conn else None.

Definition requested_session (message : SignalingMessage) (dev : DeviceId) (conn sid : Uuid)
    (version now : N) : ActiveSession :=
  {| session_id := sid; session_org_id := msg_org_id message; device_id := dev;
     session_device_conn := conn; initiator_id := msg_principal_id message;
     initiator_conn := msg_conn_id message;
     tunnel := (version =? RELAY_TUNNEL_VERSION)%N; started_at := now |}.

Definition route_session_request (st : Relay Q) (message : SignalingMessage)
    (dev : DeviceId) (key : string) (version : N) (cap : SessionCapability)
    (sid : Uuid) (now : N) : Relay Q :=
  if negb (bool_decide (msg_kind message = User))
  then reject st message sid "only users can open sessions"
  else
    let_some dconn := routable_device st message dev
      else reject st message sid "device is offline or unknown" in
    match create_session (manager st) (requested_session message dev dconn sid version now) with
    | (_, Err reason) => reject st message sid reason
    | (m, Ok _) =>
        let st1 := with_manager m st in
        let '(st2, delivered) :=
          match to_json (SessionRequest dev key version cap (Some sid)) with
          | Ok text => relay_send st1 dconn text
          | Err _ => (st1, false)
          end in
        if negb delivered || negb (bool_decide (is_Some (get_sender (connections st2) (msg_conn_id message))))
        then reject (with_manager (remove_session (manager st2) sid).1 st2) message sid
               "device is offline or unknown"
        else st2
    end.

Definition route_packet (st : Relay Q) (message : SignalingMessage) (packet : SignalPacket)
    (fresh : Uuid) (now : N) : Relay Q :=
  match packet with
  | SessionRequest dev key version cap _ =>
      route_session_request st message dev key version cap fresh now
  | SessionRejected sid _ | SessionClosed sid =>
      let '(st', forwarded) := forward st message sid in
      if forwarded then with_manager (remove_session (manager st') sid).1 st' else st'
  | AuthChallenge sid _ | AuthResponse sid _ | SessionAccepted sid _ | IceCandidate sid _
  | SessionKeyExchange sid _ _ _ | ScreenshotRequest sid | ScreenshotData sid _ _ _ _
  | HostConsoleStatePacket sid _ _ | ConsoleInput sid _ => (forward st message sid).1
  | Heartbeat => st
  end.

(** One turn of [run_signaling_router]'s loop. *)
Definition router_turn (st : Relay Q) (message : SignalingMessage) (fresh : Uuid) (now : N)
  : Relay Q :=
  match from_json (msg_text message) with
  | Ok packet => route_packet st message packet fresh now
  | Err _ => st
  end.
End Router.
