(* ===== verification/Auth.v ===== *)
(** * Authentication and authorisation

    rivetlink-server/src/auth/ (jwt.rs, rbac.rs, middleware.rs, password.rs),
    error.rs and the secret check of config.rs. Times are nanoseconds since the
    epoch, as integers. jsonwebtoken and argon2 are parameters. *)
From Stdlib Require Import NArith ZArith Lia Strings.String.
From S2P Require Import Prelude Text Interfaces Instances.

(** ** Errors *)

Inductive ServerError :=
| AuthError (message : string)
| InvalidCredentials
| AccountLocked (locked_until : Z)
| TokenExpired
| InvalidToken (message : string)
| NotFound (message : string)
| Validation (message : string)
| Forbidden (message : string)
| RateLimited
| Conflict (message : string)
| Database (error : string)
| Config (message : string)
| Internal (message : string).
#[export] Instance ServerError_eq_dec : EqDecision ServerError.
Proof. solve_decision. Defined.

Definition status_code (e : ServerError) : N :=
  match e with
  | AuthError _ | InvalidCredentials | TokenExpired | InvalidToken _ => 401
  | AccountLocked _ | RateLimited => 429
  | NotFound _ => 404
  | Validation _ => 400
  | Forbidden _ => 403
  | Conflict _ => 409
  | Database _ | Config _ | Internal _ => 500
  end.

Definition client_message (e : ServerError) : string :=
  match e with
  | AuthError msg | InvalidToken msg | NotFound msg | Validation msg | Forbidden msg
  | Conflict msg => msg
  | InvalidCredentials => "invalid credentials"
  | AccountLocked _ => "account locked"
  | TokenExpired => "token expired"
  | RateLimited => "rate limited"
  | Database _ | Config _ | Internal _ => "internal error"
  end.

(** The [Display] of an error, given that of a timestamp. *)
Definition display (show_time : Z -> string) (e : ServerError) : string :=
  match e with
  | AuthError m => "authentication failed: " +:+ m
  | InvalidCredentials => "invalid credentials"
  | AccountLocked t => "account locked until " +:+ show_time t
  | TokenExpired => "token expired"
  | InvalidToken m => "invalid token: " +:+ m
  | NotFound m => "not found: " +:+ m
  | Validation m => "validation error: " +:+ m
  | Forbidden m => "forbidden: " +:+ m
  | RateLimited => "rate limited"
  | Conflict m => "conflict: " +:+ m
  | Database m => "database error: " +:+ m
  | Config m => "configuration error: " +:+ m
  | Internal m => "internal error: " +:+ m
  end.

(** ** Permissions *)

Inductive Permission :=
| DevicesList | DevicesRegister | SessionsList | SessionsCreate | AuditRead | OrgAdmin.
#[export] Instance Permission_eq_dec : EqDecision Permission.
Proof. solve_decision. Defined.
Definition permission_index (p : Permission) : nat :=
  match p with
  | DevicesList => 0 | DevicesRegister => 1 | SessionsList => 2
  | SessionsCreate => 3 | AuditRead => 4 | OrgAdmin => 5
  end.
#[export] Instance Permission_countable : Countable Permission.
Proof.
  refine (inj_countable permission_index
    (fun n : nat => match n with 0 => Some DevicesList | 1 => Some DevicesRegister
              | 2 => Some SessionsList | 3 => Some SessionsCreate
              | 4 => Some AuditRead | _ => Some OrgAdmin end)%nat _).
  by intros [].
Defined.

Definition permission_as_str (p : Permission) : string :=
  match p with
  | DevicesList => "devices:list"
  | DevicesRegister => "devices:register"
  | SessionsList => "sessions:list"
  | SessionsCreate => "sessions:create"
  | AuditRead => "audit:read"
  | OrgAdmin => "org:admin"
  end.

(** The insertions one role makes. *)
Definition role_permissions (role : string) (perms : gset Permission) : gset Permission :=
  if (role =? "owner")%string
  then {[DevicesList; DevicesRegister; SessionsList; SessionsCreate; AuditRead; OrgAdmin]} ∪ perms
  else if (role =? "admin")%string
  then {[DevicesList; DevicesRegister; SessionsList; SessionsCreate; AuditRead]} ∪ perms
  else if (role =? "operator")%string
  then {[DevicesList; DevicesRegister; SessionsList; SessionsCreate]} ∪ perms
  else if (role =? "viewer")%string
  then {[DevicesList; SessionsList]} ∪ perms
  else perms.
Definition permissions_for_roles (roles : list string) : gset Permission :=
  fold_left (fun perms role => role_permissions role perms) roles ∅.

(** ** Tokens *)

Inductive TokenType := Access | Refresh.
#[export] Instance TokenType_eq_dec : EqDecision TokenType.
Proof. solve_decision. Defined.

Record Claims := {
  sub : Uuid;
  org : Uuid;
  roles : list string;
  token_type : TokenType;
  jti : Uuid;
  family : Uuid;
  exp : Z;
  iat : Z;
}.

Record TokenPair := {
  access_token : string;
  refresh_token : string;
  refresh_jti : Uuid;
  refresh_family : Uuid;
}.

(** jsonwebtoken with [Header::default()] (HS256) and [Validation::default()]:
    expiry is checked with a leeway of 60 seconds. *)
Inductive JwtError := ExpiredSignature | JwtOther (display : string).
Class Jwt := {
  jwt_encode : Claims -> string -> Result string string;
  jwt_decode : string -> string -> Z -> Result Claims JwtError;
}.
Definition JWT_LEEWAY : Z := 60.
Class JwtLaws `{Jwt} := {
  jwt_decode_encode : forall claims secret token now,
    jwt_encode claims secret = Ok token ->
    jwt_decode token secret now =
      if (exp claims <? now - JWT_LEEWAY)%Z then Err ExpiredSignature else Ok claims;
}.

Definition timestamp (now : Z) : Z := (now / 1000000000)%Z.

Section Tokens.
Context `{Jwt}.

Definition encode_token (user_id org_id : Uuid) (rs : list string) (ty : TokenType)
    (id fam : Uuid) (secret : string) (expiry_secs now : Z) : Result string ServerError :=
  let n := timestamp now in
  map_err (fun e => Internal ("jwt encoding failed: " +:+ e))
    (jwt_encode {| sub := user_id; org := org_id; roles := rs; token_type := ty; jti := id;
                   family := fam; exp := (n + expiry_secs)%Z; iat := n |} secret).

(** The two fresh ids are arguments. *)
Definition create_token_pair (user_id org_id : Uuid) (rs : list string) (fam : Uuid)
    (secret : string) (access_expiry refresh_expiry : Z) (access_jti refresh_jti : Uuid)
    (now : Z) : Result TokenPair ServerError :=
  let? a := encode_token user_id org_id rs Access access_jti fam secret access_expiry now in
  let? r := encode_token user_id org_id rs Refresh refresh_jti fam secret refresh_expiry now in
  Ok {| access_token := a; refresh_token := r; refresh_jti := refresh_jti;
        refresh_family := fam |}.

Definition decode_token (token secret : string) (now : Z) : Result Claims ServerError :=
  map_err (fun e => match e with
                    | ExpiredSignature => TokenExpired
                    | JwtOther m => InvalidToken ("jwt decode failed: " +:+ m)
                    end)
    (jwt_decode token secret (timestamp now)).
Definition decode_access_token (token secret : string) (now : Z) : Result Claims ServerError :=
  let? claims := decode_token token secret now in
  if negb (bool_decide (token_type claims = Access))
  then Err (InvalidToken "expected access token") else Ok claims.
Definition decode_refresh_token (token secret : string) (now : Z) : Result Claims ServerError :=
  let? claims := decode_token token secret now in
  if negb (bool_decide (token_type claims = Refresh))
  then Err (InvalidToken "expected refresh token") else Ok claims.
End Tokens.

(** ** The bearer-token extractor *)

Record AuthUser := {
  auth_user_id : Uuid;
  auth_org_id : Uuid;
  auth_roles : list string;
}.
Definition has_permission (u : AuthUser) (p : Permission) : bool :=
  bool_decide (p ∈ permissions_for_roles (auth_roles u)).
Definition require (u : AuthUser) (p : Permission) : Result unit ServerError :=
  if has_permission u p then Ok tt
  else Err (Forbidden ("missing permission: " +:+ permission_as_str p)).

(** [header] is the [authorization] header when it is present and text. *)
Definition from_request_parts `{Jwt} (header : option string) (secret : string) (now : Z)
  : Result AuthUser ServerError :=
  let? auth_header := ok_or header (AuthError "missing authorization header") in
  let? token := ok_or (strip_prefix "Bearer " auth_header)
                  (AuthError "invalid authorization format") in
  let? claims := decode_access_token token secret now in
  Ok {| auth_user_id := sub claims; auth_org_id := org claims; auth_roles := roles claims |}.

(** ** Passwords *)

(** argon2: hashing with a salt, parsing of a stored hash, verification. *)
Class Argon2 := {
  argon2_hash : string -> bytes -> Result string string;
  argon2_parse : string -> Result unit string;
  argon2_verify : string -> string -> bool;
}.
Class Argon2Laws `{Argon2} := {
  argon2_hash_verifies : forall pw salt h,
    argon2_hash pw salt = Ok h -> argon2_parse h = Ok tt /\ argon2_verify pw h = true;
}.
Definition hash_password `{Argon2} (password : string) (salt : bytes)
  : Result string ServerError :=
  map_err (fun e => Internal ("password hashing failed: " +:+ e)) (argon2_hash password salt).
Definition verify_password `{Argon2} (password hash : string) : Result bool ServerError :=
  let? _ := map_err (fun e => Internal ("invalid password hash: " +:+ e)) (argon2_parse hash) in
  Ok (argon2_verify password hash).

(** ** The signing secret *)

Definition PUBLISHED_JWT_SECRETS : list string :=
  ["change-this-to-a-random-32-character-secret"; "e2e-demo-secret-key-at-least-32-chars-long"].
Definition check_jwt_secret (secret : string) : Result string ServerError :=
  if (slen secret <? 32)%N
  then Err (Config "JWT_SECRET must be at least 32 characters")
  else if bool_decide (trim secret ∈ PUBLISHED_JWT_SECRETS)
  then Err (Config "JWT_SECRET is the published example value; generate one with `rivet-relay init`")
  else Ok secret.

(** ** Lemmas *)

(** The permission table, one role at a time. *)
Definition grants (role : string) (p : Permission) : bool :=
  match p with
  | OrgAdmin => (role =? "owner")%string
  | AuditRead => (role =? "owner")%string || (role =? "admin")%string
  | DevicesRegister | SessionsCreate =>
      (role =? "owner")%string || (role =? "admin")%string || (role =? "operator")%string
  | DevicesList | SessionsList =>
      (role =? "owner")%string || (role =? "admin")%string || (role =? "operator")%string
      || (role =? "viewer")%string
  end.

Lemma elem_of_role_permissions role perms p :
  p ∈ role_permissions role perms <-> grants role p = true \/ p ∈ perms.
Proof.
  unfold role_permissions, grants.
  destruct (String.eqb role "owner"); [destruct p; set_solver|].
  destruct (String.eqb role "admin"); [destruct p; set_solver|].
  destruct (String.eqb role "operator"); [destruct p; set_solver|].
  destruct (String.eqb role "viewer"); destruct p; set_solver.
Qed.

Lemma elem_of_permissions rs perms p :
  p ∈ fold_left (fun perms role => role_permissions role perms) rs perms <->
  (exists role, role ∈ rs /\ grants role p = true) \/ p ∈ perms.
Proof.
  revert perms. induction rs as [|r rs IH]; intros perms; simpl; [set_solver|].
  rewrite IH, elem_of_role_permissions. set_solver.
Qed.

Lemma decode_encode_token `{JwtLaws} u o rs ty i f secret expiry now token now' :
  encode_token u o rs ty i f secret expiry now = Ok token ->
  decode_token token secret now' =
    if (timestamp now + expiry <? timestamp now' - JWT_LEEWAY)%Z then Err TokenExpired
    else Ok {| sub := u; org := o; roles := rs; token_type := ty; jti := i; family := f;
               exp := (timestamp now + expiry)%Z; iat := timestamp now |}.
Proof.
  unfold encode_token, decode_token. intros E.
  destruct (jwt_encode _ secret) as [t|] eqn:Et; simpl in E; simplify_eq.
  rewrite (jwt_decode_encode _ _ _ _ Et). simpl. by destruct Z.ltb.
Qed.

(** ** Properties *)

(** Role-based access. A request is let through to an operation exactly when
    one of the token's roles grants its permission, whatever the order and the
    repetitions of the roles; unknown roles grant nothing; and a refusal is a
    [403] that names the missing permission. *)
Theorem require_iff_granted u p :
  (require u p = Ok tt <-> exists role, role ∈ auth_roles u /\ grants role p = true) /\
  (require u p <> Ok tt ->
   require u p = Err (Forbidden ("missing permission: " +:+ permission_as_str p))).
Proof.
  unfold require, has_permission, permissions_for_roles.
  pose proof (elem_of_permissions (auth_roles u) ∅ p) as E.
  case_bool_decide as Hp; rewrite E in Hp; (split; [split|]); try done.
  - intros _. destruct Hp as [?|?%elem_of_empty]; done.
  - intros ?. destruct Hp. by left.
Qed.

(** Token lifetimes and kinds. Both tokens of an issued pair decode, until
    their own expiry plus the leeway, to the identity and roles they were issued
    for; afterwards they are reported as expired; and neither is ever accepted in
    the other's place: a refresh token is no bearer token for the API, an access
    token cannot be rotated. *)
Theorem token_pair_round_trip `{JwtLaws} u o rs f secret aexp rexp aj rj now pair now' :
  create_token_pair u o rs f secret aexp rexp aj rj now = Ok pair ->
  decode_access_token (access_token pair) secret now' =
    (if (timestamp now + aexp <? timestamp now' - JWT_LEEWAY)%Z then Err TokenExpired
     else Ok {| sub := u; org := o; roles := rs; token_type := Access; jti := aj; family := f;
                exp := (timestamp now + aexp)%Z; iat := timestamp now |}) /\
  decode_refresh_token (refresh_token pair) secret now' =
    (if (timestamp now + rexp <? timestamp now' - JWT_LEEWAY)%Z then Err TokenExpired
     else Ok {| sub := u; org := o; roles := rs; token_type := Refresh; jti := rj; family := f;
                exp := (timestamp now + rexp)%Z; iat := timestamp now |}) /\
  is_ok (decode_access_token (refresh_token pair) secret now') = false /\
  is_ok (decode_refresh_token (access_token pair) secret now') = false /\
  refresh_jti pair = rj /\ refresh_family pair = f.
Proof.
  unfold create_token_pair. intros E.
  destruct (encode_token _ _ _ Access _ _ _ _ _) as [a|] eqn:Ea; [|done].
  destruct (encode_token _ _ _ Refresh _ _ _ _ _) as [r|] eqn:Er; [|done].
  simplify_eq. unfold decode_access_token, decode_refresh_token. simpl.
  rewrite (decode_encode_token _ _ _ _ _ _ _ _ _ _ now' Ea).
  rewrite (decode_encode_token _ _ _ _ _ _ _ _ _ _ now' Er).
  repeat split; by destruct Z.ltb.
Qed.

(** Bearer authentication. The extractor authenticates a request as user [u]
    exactly when the header is [Bearer] followed by a token that decodes under
    the server's secret to an unexpired access token for [u]. *)
Theorem bearer_authenticates_iff `{Jwt} header secret now u :
  from_request_parts header secret now = Ok u <->
  exists h token claims, header = Some h /\ strip_prefix "Bearer " h = Some token /\
    jwt_decode token secret (timestamp now) = Ok claims /\ token_type claims = Access /\
    u = {| auth_user_id := sub claims; auth_org_id := org claims; auth_roles := roles claims |}.
Proof.
  unfold from_request_parts, decode_access_token, decode_token. split.
  - intros E. destruct header as [h|]; [|done]. simpl in E.
    destruct (strip_prefix "Bearer " h) as [token|] eqn:Ep; [|done]. simpl in E.
    destruct (jwt_decode token secret (timestamp now)) as [claims|] eqn:Ed; [|done].
    simpl in E. case_bool_decide; [|done]. simpl in E. simplify_eq. eauto 10.
  - intros (h & token & claims & -> & Ep & Ed & Ht & ->). simpl. rewrite Ep. simpl.
    rewrite Ed. simpl. by rewrite bool_decide_true.
Qed.

(** Weak signing secrets: the server starts only with a secret of at least 32
    bytes that is none of the published example values, also when whitespace
    surrounds them. *)
Theorem check_jwt_secret_iff secret :
  check_jwt_secret secret = Ok secret <->
  (32 <= slen secret)%N /\ trim secret ∉ PUBLISHED_JWT_SECRETS.
Proof.
  unfold check_jwt_secret. destruct (N.ltb_spec (slen secret) 32).
  - split; [done|]. lia.
  - case_bool_decide; split; naive_solver.
Qed.

(** ** An executable token format *)

Definition claims_tuple (c : Claims) :=
  (sub c, org c, roles c, bool_decide (token_type c = Access), jti c, (family c, exp c, iat c)).
#[export] Instance Claims_eq_dec : EqDecision Claims.
Proof. solve_decision. Defined.
#[export] Instance Claims_countable : Countable Claims.
Proof.
  refine (inj_countable' claims_tuple
    (fun t => let '(s, o, r, a, j, (f, e, i)) := t in
       {| sub := s; org := o; roles := r; token_type := if a : bool then Access else Refresh;
          jti := j; family := f; exp := e; iat := i |}) _).
  by intros [? ? ? [] ? ? ? ?].
Defined.
#[export] Instance toy_jwt : Jwt := {
  jwt_encode c secret := Ok (bits_text (encode (secret, c)));
  jwt_decode token secret now :=
    match p ← text_bits token; decode (A := (string * Claims)%type) p with
    | Some (s, c) =>
        if negb (String.eqb s secret) then Err (JwtOther "InvalidSignature")
        else if (exp c <? now - JWT_LEEWAY)%Z then Err ExpiredSignature else Ok c
    | None => Err (JwtOther "InvalidToken")
    end;
}.
#[export] Instance toy_jwt_laws : JwtLaws.
Proof.
  split. intros c secret token now E. cbn in E. injection E as <-.
  cbn [jwt_decode toy_jwt]. rewrite text_bits_text. cbn [mbind option_bind].
  rewrite decode_encode. by rewrite String.eqb_refl.
Qed.

Lemma token_pair_round_trip_witness :
  let u := uuid_from_u128 1 in let o := uuid_from_u128 2 in let f := uuid_from_u128 3 in
  match create_token_pair u o ["owner"] f "k" 900 604800 f u 0 with
  | Ok tp => is_ok (decode_access_token (refresh_token tp) "k" 5) = false
  | Err _ => False
  end.
Proof.
  intros u o f.
  destruct (create_token_pair u o ["owner"] f "k" 900 604800 f u 0) as [tp|e] eqn:E.
  - apply (token_pair_round_trip u o ["owner"] f "k" 900 604800 f u 0 tp 5 E).
  - unfold create_token_pair, encode_token in E. cbn [jwt_encode toy_jwt map_err] in E.
    discriminate E.
Defined.

#[export] Instance toy_argon2 : Argon2 := {
  argon2_hash pw _ := Ok pw;
  argon2_parse _ := Ok tt;
  argon2_verify pw h := String.eqb pw h;
}.
#[export] Instance toy_argon2_laws : Argon2Laws.
Proof. split. intros pw salt h E. injection E as <-. split; [done|apply String.eqb_refl]. Qed.
