(* ===== verification/Database.v ===== *)
(** * The relay's database

    rivetlink-server/src/db/: the tables as finite maps from primary keys and
    each query as one atomic step of a state and error monad. The queries' SQL
    text and the table constraints of migrations/ are what the maps implement.
    [db_faults] scripts the failures of the connection: every query takes its
    head, and a query that fails changes nothing. Fresh ids and the clock are
    arguments; a row's [created_at] is the time of its insertion. *)
From Stdlib Require Import NArith ZArith Lia Strings.String.
From stdpp Require Import sorting.
From S2P Require Import Prelude Interfaces Auth.

(** ** Rows *)

Record Organization := {
  org_id : Uuid;
  org_name : string;
  org_created_at : Z;
  org_deleted_at : option Z;
}.
Record UserRow := {
  user_id : Uuid;
  user_organization_id : Uuid;
  email : string;
  display_name : string;
  password_hash : string;
  failed_login_count : Z;
  locked_until : option Z;
  user_created_at : Z;
  user_deleted_at : option Z;
}.
Record DeviceRow := {
  dev_id : Uuid;
  dev_organization_id : Uuid;
  hostname : option string;
  platform : option string;
  public_key : string;
  dev_created_at : Z;
  last_seen : option Z;
  dev_deleted_at : option Z;
}.
Record SessionRow := {
  ses_id : Uuid;
  ses_device_id : Uuid;
  ses_started_at : Z;
  ended_at : option Z;
  relay_used : bool;
}.
Record ParticipantRow := {
  par_id : Uuid;
  par_session_id : Uuid;
  par_user_id : Uuid;
  par_role : string;
  joined_at : Z;
  left_at : option Z;
}.
Record AuditLog := {
  audit_id : Uuid;
  audit_organization_id : Uuid;
  actor_user_id : option Uuid;
  target_device_id : option Uuid;
  action : string;
  metadata : option Json;
  audit_created_at : Z;
}.
Record RefreshTokenRow := {
  rt_jti : Uuid;
  rt_user_id : Uuid;
  family_id : Uuid;
  expires_at : Z;
  revoked_at : option Z;
  replaced_by_jti : option Uuid;
  rt_created_at : Z;
}.

Record Db := {
  organizations : gmap Uuid Organization;
  users : gmap Uuid UserRow;
  device_rows : gmap Uuid DeviceRow;
  session_rows : gmap Uuid SessionRow;
  participants : gmap Uuid ParticipantRow;
  audit_logs : gmap Uuid AuditLog;
  refresh_tokens : gmap Uuid RefreshTokenRow;
  db_faults : list (option string);
}.
Definition db_empty : Db :=
  {| organizations := ∅; users := ∅; device_rows := ∅; session_rows := ∅; participants := ∅;
     audit_logs := ∅; refresh_tokens := ∅; db_faults := [] |}.

Definition set_organizations v (d : Db) : Db :=
  {| organizations := v; users := users d; device_rows := device_rows d;
     session_rows := session_rows d; participants := participants d;
     audit_logs := audit_logs d; refresh_tokens := refresh_tokens d; db_faults := db_faults d |}.
Definition set_users v (d : Db) : Db :=
  {| organizations := organizations d; users := v; device_rows := device_rows d;
     session_rows := session_rows d; participants := participants d;
     audit_logs := audit_logs d; refresh_tokens := refresh_tokens d; db_faults := db_faults d |}.
Definition set_device_rows v (d : Db) : Db :=
  {| organizations := organizations d; users := users d; device_rows := v;
     session_rows := session_rows d; participants := participants d;
     audit_logs := audit_logs d; refresh_tokens := refresh_tokens d; db_faults := db_faults d |}.
Definition set_session_rows v (d : Db) : Db :=
  {| organizations := organizations d; users := users d; device_rows := device_rows d;
     session_rows := v; participants := participants d;
     audit_logs := audit_logs d; refresh_tokens := refresh_tokens d; db_faults := db_faults d |}.
Definition set_participants v (d : Db) : Db :=
  {| organizations := organizations d; users := users d; device_rows := device_rows d;
     session_rows := session_rows d; participants := v;
     audit_logs := audit_logs d; refresh_tokens := refresh_tokens d; db_faults := db_faults d |}.
Definition set_audit_logs v (d : Db) : Db :=
  {| organizations := organizations d; users := users d; device_rows := device_rows d;
     session_rows := session_rows d; participants := participants d;
     audit_logs := v; refresh_tokens := refresh_tokens d; db_faults := db_faults d |}.
Definition set_refresh_tokens v (d : Db) : Db :=
  {| organizations := organizations d; users := users d; device_rows := device_rows d;
     session_rows := session_rows d; participants := participants d;
     audit_logs := audit_logs d; refresh_tokens := v; db_faults := db_faults d |}.
Definition set_db_faults v (d : Db) : Db :=
  {| organizations := organizations d; users := users d; device_rows := device_rows d;
     session_rows := session_rows d; participants := participants d;
     audit_logs := audit_logs d; refresh_tokens := refresh_tokens d; db_faults := v |}.

(** ** Queries *)

Definition DbM (A : Type) : Type := Db -> Db * Result A ServerError.
Definition db_ret {A} (a : A) : DbM A := fun d => (d, Ok a).
Definition db_err {A} (e : ServerError) : DbM A := fun d => (d, Err e).
Definition db_lift {A} (r : Result A ServerError) : DbM A := fun d => (d, r).
Definition db_bind {A B} (m : DbM A) (k : A -> DbM B) : DbM B :=
  fun d => match m d with (d', Ok a) => k a d' | (d', Err e) => (d', Err e) end.
Notation "'let*' x ':=' m 'in' k" := (db_bind m (fun x => k))
  (at level 10, x pattern, m at level 200, k at level 200) : rust_scope.

(** One statement: the scripted fault, or its effect. *)
Definition query {A} (f : Db -> Db * Result A ServerError) : DbM A :=
  fun d =>
    match db_faults d with
    | Some e :: rest => (set_db_faults rest d, Err (Database e))
    | None :: rest => f (set_db_faults rest d)
    | [] => f d
    end.

(** The primary-key constraint. *)
Definition duplicate_key {A} : Result A ServerError :=
  Err (Database "duplicate key value violates unique constraint").

(** *** organizations.rs *)

Definition create_organization (id : Uuid) (name : string) (now : Z) : DbM Organization :=
  query (fun d =>
    match organizations d !! id with
    | Some _ => (d, duplicate_key)
    | None =>
        let o := {| org_id := id; org_name := name; org_created_at := now; org_deleted_at := None |} in
        (set_organizations (<[id := o]> (organizations d)) d, Ok o)
    end).
Definition get_organization (id : Uuid) : DbM Organization :=
  query (fun d =>
    match organizations d !! id with
    | Some o => match org_deleted_at o with
                | None => (d, Ok o)
                | Some _ => (d, Err (NotFound "organization not found"))
                end
    | None => (d, Err (NotFound "organization not found"))
    end).

(** *** users.rs *)

(** The rows of a table, in some order. *)
Definition rows {V} (t : gmap Uuid V) : list V := map snd (map_to_list t).

Definition create_user (id organization : Uuid) (mail display hash : string) (now : Z)
  : DbM UserRow :=
  query (fun d =>
    if bool_decide (mail ∈ map email (rows (users d)))
    then (d, Err (Conflict "email already exists"))
    else match users d !! id with
    | Some _ => (d, duplicate_key)
    | None =>
        let u := {| user_id := id; user_organization_id := organization; email := mail;
                    display_name := display; password_hash := hash; failed_login_count := 0;
                    locked_until := None; user_created_at := now; user_deleted_at := None |} in
        (set_users (<[id := u]> (users d)) d, Ok u)
    end).

Definition live_user (u : UserRow) : bool := bool_decide (user_deleted_at u = None).
Definition get_user_by_email (mail : string) : DbM UserRow :=
  query (fun d =>
    (d, ok_or (head (filter (fun u => email u = mail /\ live_user u = true) (rows (users d))))
          InvalidCredentials)).
Definition get_user_by_id (id : Uuid) : DbM UserRow :=
  query (fun d =>
    match users d !! id with
    | Some u => if live_user u then (d, Ok u) else (d, Err (NotFound "user not found"))
    | None => (d, Err (NotFound "user not found"))
    end).

Definition with_login_state (count : Z) (locked : option Z) (u : UserRow) : UserRow :=
  {| user_id := user_id u; user_organization_id := user_organization_id u; email := email u;
     display_name := display_name u; password_hash := password_hash u;
     failed_login_count := count; locked_until := locked;
     user_created_at := user_created_at u; user_deleted_at := user_deleted_at u |}.
Definition i32_max : Z := 2147483647.
Definition seconds (s : Z) : Z := (s * 1000000000)%Z.

(** [locked_until IS NULL OR locked_until <= now()]. *)
Definition unlocked (u : UserRow) (now : Z) : bool :=
  match locked_until u with None => true | Some t => (t <=? now)%Z end.
Definition reserve_login_attempt (id : Uuid) (max_attempts lockout_secs now : Z)
  : DbM (option Z) :=
  let until := (now + seconds lockout_secs)%Z in
  query (fun d =>
    match users d !! id with
    | Some u =>
        if unlocked u now
        then
          let count := (failed_login_count u + 1)%Z in
          if (i32_max <? count)%Z then (d, Err (Database "integer out of range"))
          else
            let locked := if (max_attempts <=? count)%Z then Some until else locked_until u in
            (set_users (<[id := with_login_state count locked u]> (users d)) d, Ok (Some count))
        else (d, Ok None)
    | None => (d, Ok None)
    end).
Definition reset_failed_logins (id : Uuid) : DbM unit :=
  query (fun d => (set_users (alter (with_login_state 0 None) id (users d)) d, Ok tt)).

(** *** devices.rs *)

Definition MAX_DEVICES_PER_ORG : nat := 500.
Definition active_devices (d : Db) (organization : Uuid) : list DeviceRow :=
  filter (fun r => dev_organization_id r = organization /\ dev_deleted_at r = None)
    (rows (device_rows d)).
Definition register_device_row (id organization : Uuid) (key : string)
    (host plat : option string) (now : Z) : DbM DeviceRow :=
  query (fun d =>
    if (length (active_devices d organization) <? MAX_DEVICES_PER_ORG)%nat
    then match device_rows d !! id with
    | Some _ => (d, duplicate_key)
    | None =>
        let r := {| dev_id := id; dev_organization_id := organization; hostname := host;
                    platform := plat; public_key := key; dev_created_at := now;
                    last_seen := None; dev_deleted_at := None |} in
        (set_device_rows (<[id := r]> (device_rows d)) d, Ok r)
    end
    else (d, Err (Conflict "device limit reached"))).
Definition newer_device (a b : DeviceRow) : Prop := (dev_created_at b <= dev_created_at a)%Z.
#[export] Instance newer_device_dec a b : Decision (newer_device a b).
Proof. unfold newer_device. apply _. Defined.
Definition list_devices_by_org (organization : Uuid) : DbM (list DeviceRow) :=
  query (fun d =>
    (d, Ok (take MAX_DEVICES_PER_ORG (merge_sort newer_device (active_devices d organization))))).
Definition get_device (id : Uuid) : DbM DeviceRow :=
  query (fun d =>
    match device_rows d !! id with
    | Some r => if decide (dev_deleted_at r = None) then (d, Ok r)
                else (d, Err (NotFound "device not found"))
    | None => (d, Err (NotFound "device not found"))
    end).
Definition update_last_seen (id : Uuid) (now : Z) : DbM unit :=
  query (fun d =>
    (set_device_rows
       (alter (fun r => {| dev_id := dev_id r; dev_organization_id := dev_organization_id r;
                           hostname := hostname r; platform := platform r;
                           public_key := public_key r; dev_created_at := dev_created_at r;
                           last_seen := Some now; dev_deleted_at := dev_deleted_at r |})
          id (device_rows d)) d, Ok tt)).

(** *** sessions.rs *)

Definition create_session_row (id dev : Uuid) (relay : bool) (now : Z) : DbM SessionRow :=
  query (fun d =>
    match device_rows d !! dev, session_rows d !! id with
    | None, _ => (d, Err (Database "insert violates foreign key constraint"))
    | _, Some _ => (d, duplicate_key)
    | Some _, None =>
        let r := {| ses_id := id; ses_device_id := dev; ses_started_at := now;
                    ended_at := None; relay_used := relay |} in
        (set_session_rows (<[id := r]> (session_rows d)) d, Ok r)
    end).
Definition end_session (id : Uuid) (now : Z) : DbM unit :=
  query (fun d =>
    (set_session_rows
       (alter (fun r => {| ses_id := ses_id r; ses_device_id := ses_device_id r;
                           ses_started_at := ses_started_at r; ended_at := Some now;
                           relay_used := relay_used r |}) id (session_rows d)) d, Ok tt)).
Definition add_participant (id session user : Uuid) (role : string) (now : Z)
  : DbM ParticipantRow :=
  query (fun d =>
    match session_rows d !! session, users d !! user, participants d !! id with
    | Some _, Some _, None =>
        if bool_decide (role ∈ ["viewer"; "controller"; "admin"])
        then
          let r := {| par_id := id; par_session_id := session; par_user_id := user;
                      par_role := role; joined_at := now; left_at := None |} in
          (set_participants (<[id := r]> (participants d)) d, Ok r)
        else (d, Err (Database "new row violates check constraint"))
    | _, _, Some _ => (d, duplicate_key)
    | _, _, _ => (d, Err (Database "insert violates foreign key constraint"))
    end).
Definition later_session (a b : SessionRow) : Prop := (ses_started_at b <= ses_started_at a)%Z.
#[export] Instance later_session_dec a b : Decision (later_session a b).
Proof. unfold later_session. apply _. Defined.
Definition session_in_org (d : Db) (organization : Uuid) (s : SessionRow) : bool :=
  match device_rows d !! ses_device_id s with
  | Some r => bool_decide (dev_organization_id r = organization)
  | None => false
  end.
Definition list_sessions_by_org (organization : Uuid) (limit : nat) : DbM (list SessionRow) :=
  query (fun d =>
    (d, Ok (take limit (merge_sort later_session
       (filter (fun s => session_in_org d organization s = true) (rows (session_rows d))))))).

(** *** audit.rs *)

Definition create_audit_log (id organization : Uuid) (actor target : option Uuid)
    (act : string) (meta : option Json) (now : Z) : DbM AuditLog :=
  query (fun d =>
    match audit_logs d !! id with
    | Some _ => (d, duplicate_key)
    | None =>
        let a := {| audit_id := id; audit_organization_id := organization;
                    actor_user_id := actor; target_device_id := target; action := act;
                    metadata := meta; audit_created_at := now |} in
        (set_audit_logs (<[id := a]> (audit_logs d)) d, Ok a)
    end).
Definition day : Z := seconds 86400.
(** [i32::try_from(days).unwrap_or(i32::MAX)]. *)
Definition days_i32 (days : Z) : Z :=
  if (days <? - i32_max - 1)%Z || (i32_max <? days)%Z then i32_max else days.
Definition delete_older_than (days now : Z) : DbM nat :=
  query (fun d =>
    let keep := filter (fun kv => (now - days_i32 days * day <= audit_created_at kv.2)%Z)
                  (audit_logs d) in
    (set_audit_logs keep d, Ok (size (audit_logs d) - size keep)%nat)).
Definition later_audit (a b : AuditLog) : Prop := (audit_created_at b <= audit_created_at a)%Z.
#[export] Instance later_audit_dec a b : Decision (later_audit a b).
Proof. unfold later_audit. apply _. Defined.
Definition list_audit_logs (organization : Uuid) (limit : nat) : DbM (list AuditLog) :=
  query (fun d =>
    (d, Ok (take limit (merge_sort later_audit
       (filter (fun a => audit_organization_id a = organization) (rows (audit_logs d))))))).

(** *** refresh_tokens.rs *)

Definition is_revoked (r : RefreshTokenRow) : bool := bool_decide (is_Some (revoked_at r)).
Definition is_expired (r : RefreshTokenRow) (now : Z) : bool := (expires_at r <=? now)%Z.
Definition insert_token (id user fam : Uuid) (expires_in_secs now : Z) : DbM unit :=
  query (fun d =>
    match refresh_tokens d !! id with
    | Some _ => (d, duplicate_key)
    | None =>
        let r := {| rt_jti := id; rt_user_id := user; family_id := fam;
                    expires_at := (now + seconds expires_in_secs)%Z; revoked_at := None;
                    replaced_by_jti := None; rt_created_at := now |} in
        (set_refresh_tokens (<[id := r]> (refresh_tokens d)) d, Ok tt)
    end).
Definition get_by_jti (id : Uuid) : DbM (option RefreshTokenRow) :=
  query (fun d => (d, Ok (refresh_tokens d !! id))).

Definition revoke (now : Z) (successor : option Uuid) (r : RefreshTokenRow) : RefreshTokenRow :=
  {| rt_jti := rt_jti r; rt_user_id := rt_user_id r; family_id := family_id r;
     expires_at := expires_at r; revoked_at := Some now; replaced_by_jti := successor;
     rt_created_at := rt_created_at r |}.
Definition mark_revoked (id : Uuid) (replaced_by : option Uuid) (now : Z) : DbM unit :=
  query (fun d =>
    (set_refresh_tokens
       (alter (fun r => if is_revoked r then r else revoke now replaced_by r) id
          (refresh_tokens d)) d, Ok tt)).
(** [UPDATE ... SET revoked_at WHERE p AND revoked_at IS NULL], with the number of
    rows affected. *)
Definition revoke_where (p : RefreshTokenRow -> bool) (now : Z) : DbM nat :=
  query (fun d =>
    let hit r := p r && negb (is_revoked r) in
    (set_refresh_tokens
       ((fun r => if hit r then revoke now (replaced_by_jti r) r else r) <$> refresh_tokens d) d,
     Ok (length (filter (fun r => hit r = true) (rows (refresh_tokens d)))))).
Definition revoke_family (fam : Uuid) (now : Z) : DbM nat :=
  revoke_where (fun r => bool_decide (family_id r = fam)) now.
Definition revoke_all_for_user (user : Uuid) (now : Z) : DbM nat :=
  revoke_where (fun r => bool_decide (rt_user_id r = user)) now.
Definition delete_expired (now : Z) : DbM nat :=
  query (fun d =>
    let keep := filter (fun kv => (now - day <= expires_at kv.2)%Z) (refresh_tokens d) in
    (set_refresh_tokens keep d, Ok (size (refresh_tokens d) - size keep)%nat)).

Inductive RotationError :=
| Unknown
| Expired
| Reused (family_id : Uuid).
Definition rotation_error (e : RotationError) : ServerError :=
  match e with
  | Unknown => InvalidToken "unknown refresh token"
  | Expired => TokenExpired
  | Reused _ => InvalidToken "refresh token reused — family revoked"
  end.
(** Its error type is [RotationError]: a failed query counts as [Unknown]. *)
Definition validate_for_rotation (id : Uuid) (now : Z) (d : Db)
  : Db * Result RefreshTokenRow RotationError :=
  match get_by_jti id d with
  | (d', Err _) => (d', Err Unknown)
  | (d', Ok None) => (d', Err Unknown)
  | (d', Ok (Some row)) =>
      (d', if is_revoked row then Err (Reused (family_id row))
           else if is_expired row now then Err Expired else Ok row)
  end.

(** main.rs: one turn of the hourly pruning. Failures are logged and ignored. *)
Definition prune_old_rows (audit_retention_days now : Z) (d : Db) : Db :=
  let d1 := (delete_expired now d).1 in
  if (0 <? audit_retention_days)%Z then (delete_older_than audit_retention_days now d1).1 else d1.
