(* ===== verification/Accounts.v ===== *)
(** * Accounts and API handlers

    rivetlink-server/src/handlers/ (auth.rs, devices.rs, sessions.rs, audit.rs)
    over the database: registration, login with lockout, refresh-token rotation
    with theft detection, and the organisation-scoped listings. One request reads
    the clock once; its fresh ids are the values of [fresh]. *)
From Stdlib Require Import NArith ZArith Lia Strings.String.
From S2P Require Import Prelude Interfaces Instances Auth Database Connections.

(** config.rs, the fields the handlers read. *)
Record ServerConfig := {
  jwt_secret : string;
  access_token_expiry_secs : Z;
  refresh_token_expiry_secs : Z;
  max_failed_logins : Z;
  lockout_duration_secs : Z;
}.

Record RegisterRequest := {
  reg_email : string;
  reg_password : string;
  reg_display_name : string;
  reg_organization_name : string;
}.
Record AuthResponse := {
  res_access_token : string;
  res_refresh_token : string;
  res_user_id : string;
  res_organization_id : string;
}.
Record LoginRequest := { login_email : string; login_password : string }.

(** [str::contains] of one ASCII character. *)
Fixpoint contains_char (c : N) (s : string) : bool :=
  match s with
  | EmptyString => false
  | String a s' => (Ascii.N_of_ascii a =? c)%N || contains_char c s'
  end.

Definition validate_register_request (req : RegisterRequest) : Result unit ServerError :=
  if (reg_email req =? "")%string || negb (contains_char 64 (reg_email req))
     || (254 <? slen (reg_email req))%N
  then Err (Validation "invalid email")
  else if (slen (reg_password req) <? 8)%N || (128 <? slen (reg_password req))%N
  then Err (Validation "password must be 8-128 characters")
  else if (reg_display_name req =? "")%string
  then Err (Validation "display_name is required")
  else if (reg_organization_name req =? "")%string
  then Err (Validation "organization_name is required")
  else Ok tt.

Section Handlers.
Context `{Jwt} `{Argon2} `{UuidText}.
Context (config : ServerConfig).

Definition auth_response (p : TokenPair) (user organization : Uuid) : AuthResponse :=
  {| res_access_token := access_token p; res_refresh_token := refresh_token p;
     res_user_id := uuid_to_string user; res_organization_id := uuid_to_string organization |}.

(** [fresh 0] is the family, [fresh 1] and [fresh 2] the tokens' ids. *)
Definition issue_new_family (user organization : Uuid) (rs : list string)
    (fresh : nat -> Uuid) (now : Z) : DbM AuthResponse :=
  let* p := db_lift (create_token_pair user organization rs (fresh 0) (jwt_secret config)
      (access_token_expiry_secs config) (refresh_token_expiry_secs config)
      (fresh 1) (fresh 2) now) in
  let* _ := insert_token (refresh_jti p) user (fresh 0) (refresh_token_expiry_secs config) now in
  db_ret (auth_response p user organization).

Definition register (req : RegisterRequest) (salt : bytes) (fresh : nat -> Uuid) (now : Z)
  : DbM AuthResponse :=
  let* _ := db_lift (validate_register_request req) in
  let* hash := db_lift (hash_password (reg_password req) salt) in
  let* o := create_organization (fresh 3) (reg_organization_name req) now in
  let* user := create_user (fresh 4) (org_id o) (reg_email req) (reg_display_name req) hash now in
  let* resp := issue_new_family (user_id user) (org_id o) ["owner"] fresh now in
  let* _ := create_audit_log (fresh 5) (org_id o) (Some (user_id user)) None
              "user.registered" None now in
  db_ret resp.

(** What a locked account reports: the lock it was read with if that is still
    ahead, else a full lockout period. *)
Definition reported_lock (user : UserRow) (now : Z) : Z :=
  match locked_until user with
  | Some t => if (now <? t)%Z then t else (now + seconds (lockout_duration_secs config))%Z
  | None => (now + seconds (lockout_duration_secs config))%Z
  end.

Definition login (req : LoginRequest) (fresh : nat -> Uuid) (now : Z) : DbM AuthResponse :=
  let* user := get_user_by_email (login_email req) in
  let* reserved := reserve_login_attempt (user_id user) (max_failed_logins config)
                     (lockout_duration_secs config) now in
  match reserved with
  | None => db_err (AccountLocked (reported_lock user now))
  | Some count =>
      let* valid := db_lift (verify_password (login_password req) (password_hash user)) in
      if negb valid
      then
        let* _ :=
          if (max_failed_logins config <=? count)%Z
          then let* _ := create_audit_log (fresh 5) (user_organization_id user)
                 (Some (user_id user)) None "auth.account_locked"
                 (Some (JObject [("failed_attempts"%string, JNumber count)])) now in db_ret tt
          else db_ret tt in
        let* _ := create_audit_log (fresh 6) (user_organization_id user) (Some (user_id user))
                    None "auth.failed" None now in
        db_err InvalidCredentials
      else
        let* _ := reset_failed_logins (user_id user) in
        let* resp := issue_new_family (user_id user) (user_organization_id user) ["operator"]
                       fresh now in
        let* _ := create_audit_log (fresh 5) (user_organization_id user) (Some (user_id user))
                    None "auth.login" None now in
        db_ret resp
  end.

(** A revoked token was presented: revoke its family, and audit that once. *)
Definition theft_response {A} (claims : Claims) (fam : Uuid) (fresh : nat -> Uuid) (now : Z)
  : DbM A :=
  let* count := revoke_family fam now in
  let* _ :=
    if (0 <? count)%nat
    then let* _ := create_audit_log (fresh 5) (org claims) (Some (sub claims)) None
           "auth.refresh_token_theft_detected"
           (Some (JObject [("family_id"%string, JString (uuid_to_string fam));
                           ("revoked_count"%string, JNumber (Z.of_nat count))])) now in
         db_ret tt
    else db_ret tt in
  db_err (InvalidToken "refresh token reused — family revoked").
(** The [match] on [validate_for_rotation]. *)
Definition presented_row (claims : Claims) (fresh : nat -> Uuid) (now : Z)
  : DbM RefreshTokenRow := fun d =>
  match validate_for_rotation (jti claims) now d with
  | (d1, Ok row) => (d1, Ok row)
  | (d1, Err (Reused fam)) => theft_response claims fam fresh now d1
  | (d1, Err other) => (d1, Err (rotation_error other))
  end.

(** [refresh] in its three parts, which concurrent requests interleave: *)

(** decoding, the check of the presented token and the new pair; *)
Definition refresh_check (token : string) (fresh : nat -> Uuid) (now : Z)
  : DbM (RefreshTokenRow * UserRow * TokenPair) :=
  let* claims := db_lift (decode_refresh_token token (jwt_secret config) now) in
  let* row := presented_row claims fresh now in
  let* user := get_user_by_id (rt_user_id row) in
  let* p := db_lift (create_token_pair (user_id user) (user_organization_id user) (roles claims)
      (family_id row) (jwt_secret config) (access_token_expiry_secs config)
      (refresh_token_expiry_secs config) (fresh 1) (fresh 2) now) in
  db_ret (row, user, p).
(** storing the new token; *)
Definition refresh_store (row : RefreshTokenRow) (user : UserRow) (p : TokenPair) (now : Z)
  : DbM unit :=
  insert_token (refresh_jti p) (user_id user) (family_id row) (refresh_token_expiry_secs config) now.
(** and retiring the presented one. *)
Definition refresh_retire (row : RefreshTokenRow) (user : UserRow) (p : TokenPair) (now : Z)
  : DbM AuthResponse :=
  let* _ := mark_revoked (rt_jti row) (Some (refresh_jti p)) now in
  db_ret (auth_response p (user_id user) (user_organization_id user)).

Definition refresh (token : string) (fresh : nat -> Uuid) (now : Z) : DbM AuthResponse :=
  let* x := refresh_check token fresh now in
  let '(row, user, p) := x in
  let* _ := refresh_store row user p now in
  refresh_retire row user p now.
End Handlers.

(** ** devices.rs, sessions.rs and audit.rs *)

Record RegisterDeviceRequest := {
  req_public_key : string;
  req_hostname : option string;
  req_platform : option string;
}.
Record DeviceResponse := {
  dr_id : string;
  dr_organization_id : string;
  dr_hostname : option string;
  dr_platform : option string;
  dr_public_key : string;
  dr_created_at : string;
  dr_last_seen : option string;
  dr_online : bool;
}.
Record SessionResponse := {
  sr_id : string;
  sr_device_id : string;
  sr_started_at : string;
  sr_ended_at : option string;
  sr_relay_used : bool;
}.
Record AuditLogResponse := {
  al_id : string;
  al_action : string;
  al_actor_user_id : option string;
  al_target_device_id : option string;
  al_metadata : option Json;
  al_created_at : string;
}.

Definition validate_device_request (req : RegisterDeviceRequest) : Result unit ServerError :=
  let too_long o := match o with Some s => (255 <? slen s)%N | None => false end in
  if (req_public_key req =? "")%string then Err (Validation "public_key is required")
  else if (4096 <? slen (req_public_key req))%N then Err (Validation "public_key too long")
  else if too_long (req_hostname req) then Err (Validation "hostname too long")
  else if too_long (req_platform req) then Err (Validation "platform too long")
  else Ok tt.

Section Listings.
Context `{UuidText}.
(** [DateTime::to_rfc3339]. *)
Context (to_rfc3339 : Z -> string).

Definition from_device (r : DeviceRow) (online : bool) : DeviceResponse :=
  {| dr_id := uuid_to_string (dev_id r);
     dr_organization_id := uuid_to_string (dev_organization_id r);
     dr_hostname := hostname r; dr_platform := platform r; dr_public_key := public_key r;
     dr_created_at := to_rfc3339 (dev_created_at r);
     dr_last_seen := to_rfc3339 <$> last_seen r; dr_online := online |}.
Definition from_session (s : SessionRow) : SessionResponse :=
  {| sr_id := uuid_to_string (ses_id s); sr_device_id := uuid_to_string (ses_device_id s);
     sr_started_at := to_rfc3339 (ses_started_at s); sr_ended_at := to_rfc3339 <$> ended_at s;
     sr_relay_used := relay_used s |}.
Definition from_audit (a : AuditLog) : AuditLogResponse :=
  {| al_id := uuid_to_string (audit_id a); al_action := action a;
     al_actor_user_id := uuid_to_string <$> actor_user_id a;
     al_target_device_id := uuid_to_string <$> target_device_id a;
     al_metadata := metadata a; al_created_at := to_rfc3339 (audit_created_at a) |}.

(** [fresh 0] is the device's id, [fresh 1] the audit row's. *)
Definition register_device (auth : AuthUser) (req : RegisterDeviceRequest)
    (fresh : nat -> Uuid) (now : Z) : DbM DeviceResponse :=
  let* _ := db_lift (require auth DevicesRegister) in
  let* _ := db_lift (validate_device_request req) in
  let* r := register_device_row (fresh 0) (auth_org_id auth) (req_public_key req)
              (req_hostname req) (req_platform req) now in
  let* _ := create_audit_log (fresh 1) (auth_org_id auth) (Some (auth_user_id auth))
              (Some (dev_id r)) "device.registered" None now in
  db_ret (from_device r false).
Definition list_devices (connections : ConnectionMap) (auth : AuthUser)
  : DbM (list DeviceResponse) :=
  let* _ := db_lift (require auth DevicesList) in
  let* l := list_devices_by_org (auth_org_id auth) in
  db_ret (map (fun r => from_device r (device_is_connected connections (dev_id r))) l).
Definition list_sessions (auth : AuthUser) : DbM (list SessionResponse) :=
  let* _ := db_lift (require auth SessionsList) in
  let* l := list_sessions_by_org (auth_org_id auth) 100 in
  db_ret (map from_session l).
Definition list_audit (auth : AuthUser) : DbM (list AuditLogResponse) :=
  let* _ := db_lift (require auth AuditRead) in
  let* l := list_audit_logs (auth_org_id auth) 100 in
  db_ret (map from_audit l).
End Listings.

(** ** Lockout *)

(** The times, out of [ts], at which an attempt on account [id] is let through to
    the password check, when no login succeeds. *)
Fixpoint granted_attempts (id : Uuid) (max lockout : Z) (d : Db) (ts : list Z) : list Z :=
  match ts with
  | [] => []
  | t :: ts' =>
      match reserve_login_attempt id max lockout t d with
      | (d', Ok (Some _)) => t :: granted_attempts id max lockout d' ts'
      | (d', _) => granted_attempts id max lockout d' ts'
      end
  end.

Lemma query_users {A} (f : Db -> Db * Result A ServerError) d :
  (exists e rest, db_faults d = Some e :: rest /\
     query f d = (set_db_faults rest d, Err (Database e))) \/
  (exists rest, query f d = f (set_db_faults rest d)) \/ query f d = f d.
Proof.
  unfold query. destruct (db_faults d) as [|[e|] rest]; eauto 6.
Qed.

(** One attempt, whatever the connection does. *)
Lemma reserve_cases id max lockout t d u :
  users d !! id = Some u ->
  let '(d', r) := reserve_login_attempt id max lockout t d in
  (users d' !! id = Some u /\ (forall c, r <> Ok (Some c))) \/
  (unlocked u t = true /\
   users d' !! id = Some (with_login_state (failed_login_count u + 1)
     (if (max <=? failed_login_count u + 1)%Z then Some (t + seconds lockout)%Z
      else locked_until u) u) /\
   r = Ok (Some (failed_login_count u + 1)%Z)).
Proof.
  intros Hu. unfold reserve_login_attempt.
  match goal with |- context [query ?g d] => set (f := g) end.
  assert (forall d0, users d0 = users d -> let '(d', r) := f d0 in
    (users d' !! id = Some u /\ (forall c, r <> Ok (Some c))) \/
    (unlocked u t = true /\
     users d' !! id = Some (with_login_state (failed_login_count u + 1)
       (if (max <=? failed_login_count u + 1)%Z then Some (t + seconds lockout)%Z
        else locked_until u) u) /\
     r = Ok (Some (failed_login_count u + 1)%Z))) as Hf.
  { intros d0 E. subst f. cbv beta. rewrite E, Hu. destruct (unlocked u t) eqn:Eu.
    - destruct Z.ltb; [left; rewrite E; done|]. right. simpl.
      rewrite lookup_insert_eq. done.
    - left. by rewrite E. }
  destruct (query_users f d) as [(e & rest & _ & ->)|[(rest & ->)| -> ]].
  - left. done.
  - by apply Hf.
  - by apply Hf.
Qed.

Lemma granted_spaced id max lockout ts : forall d u,
  users d !! id = Some u ->
  (forall t, head (granted_attempts id max lockout d ts) = Some t -> unlocked u t = true) /\
  (forall i t t', (max <= failed_login_count u + Z.of_nat i + 1)%Z ->
     granted_attempts id max lockout d ts !! i = Some t ->
     granted_attempts id max lockout d ts !! S i = Some t' -> (t + seconds lockout <= t')%Z).
Proof.
  induction ts as [|t ts IH]; intros d u Hu; [done|]. cbn [granted_attempts].
  pose proof (reserve_cases id max lockout t d u Hu) as Hc.
  destruct (reserve_login_attempt id max lockout t d) as [d' r].
  destruct Hc as [[Hu' Hr]|(Hun & Hu' & ->)].
  - specialize (IH d' u Hu'). destruct r as [[c|]|]; [by destruct (Hr c)|exact IH|exact IH].
  - destruct (IH d' _ Hu') as [Hhead Hnext]. simpl in Hhead, Hnext. split.
    { intros t' [= <-]. done. }
    intros [|i] t1 t2 Hi H1 H2.
    + injection H1 as <-. cbn [lookup list_lookup] in H2.
      destruct (granted_attempts id max lockout d' ts) as [|t' g] eqn:Eg; [done|].
      simpl in H2. injection H2 as ->.
      specialize (Hhead t2 eq_refl). unfold unlocked in Hhead. simpl in Hhead.
      assert (max <=? failed_login_count u + 1 = true)%Z as E by lia.
      rewrite E in Hhead. lia.
    + apply (Hnext i t1 t2); [lia|exact H1|exact H2].
Qed.

(** Lockout. Whatever the times of the login attempts on an account with a
    clear counter, and whatever queries fail, as long as no login succeeds: from
    the [max]-th password that is let through to the check on, the next one is let
    through only after a full lockout period. So at most [max] passwords are
    tried before the first lock and one per lockout period after it. *)
Theorem lockout_spaces_attempts id max lockout d u ts i t t' :
  users d !! id = Some u -> failed_login_count u = 0%Z ->
  (max <= Z.of_nat (S i))%Z ->
  granted_attempts id max lockout d ts !! i = Some t ->
  granted_attempts id max lockout d ts !! S i = Some t' ->
  (t + seconds lockout <= t')%Z.
Proof.
  intros Hu Hc Hi. apply (proj2 (granted_spaced id max lockout ts d u Hu)). lia.
Qed.

Definition witness_user : UserRow :=
  {| user_id := uuid_from_u128 1; user_organization_id := uuid_from_u128 2;
     email := "a@b"; display_name := "a"; password_hash := "h"; failed_login_count := 0;
     locked_until := None; user_created_at := 0; user_deleted_at := None |}.
(** Five attempts at once, then one a second later and one after the lock. *)
Lemma lockout_spaces_attempts_witness :
  let d := set_users {[uuid_from_u128 1 := witness_user]} db_empty in
  let ts := [0; 0; 0; 0; seconds 1; seconds 2]%Z in
  let g := granted_attempts (uuid_from_u128 1) 3 2 d ts in
  g = [0; 0; 0; seconds 2]%Z /\ (0 + seconds 2 <= seconds 2)%Z.
Proof.
  intros d ts g. assert (g = [0; 0; 0; seconds 2]%Z) as E by (vm_compute; reflexivity).
  split; [exact E|].
  apply (lockout_spaces_attempts (uuid_from_u128 1) 3 2 d witness_user ts 2 0 (seconds 2));
    vm_compute; done.
Defined.

(** ** The token table *)

Abbreviation Tokens := (gmap Uuid RefreshTokenRow).
Definition live (r : RefreshTokenRow) : Prop := revoked_at r = None.

(** What the handlers may do to the table. *)
Inductive token_step (t : Tokens) : Tokens -> Prop :=
| token_keep : token_step t t
| token_issue j r :
    t !! j = None -> live r -> rt_jti r = j ->
    (forall i s, t !! i = Some s -> family_id s <> family_id r) ->
    token_step t (<[j := r]> t)
| token_rotate j r j' r' now :
    t !! j = Some r -> live r -> t !! j' = None -> live r' -> rt_jti r' = j' ->
    family_id r' = family_id r ->
    token_step t (<[j := revoke now (Some j') r]> (<[j' := r']> t))
| token_theft fam now :
    token_step t ((fun r => if bool_decide (family_id r = fam) && negb (is_revoked r)
                            then revoke now (replaced_by_jti r) r else r) <$> t)
| token_prune (p : Uuid * RefreshTokenRow -> Prop) `{!forall x, Decision (p x)} :
    token_step t (filter p t).

(** Rows are stored under their own id, and a family has one live token. *)
Record tokens_ok (t : Tokens) : Prop := {
  tokens_keyed : forall j r, t !! j = Some r -> rt_jti r = j;
  tokens_single : forall j1 j2 r1 r2, t !! j1 = Some r1 -> t !! j2 = Some r2 ->
    family_id r1 = family_id r2 -> live r1 -> live r2 -> j1 = j2;
}.

Lemma revoke_not_live now s r : ~ live (revoke now s r).
Proof. done. Qed.

Lemma tokens_ok_step t t' : token_step t t' -> tokens_ok t -> tokens_ok t'.
Proof.
  intros Hstep [Hk Hs]. destruct Hstep as [|j r Hj Hl Hr Hf|j r j' r' now Hj Hl Hj' Hl' Hr' Hf|fam now|p Hp].
  - done.
  - split.
    + intros i s [[<- <-]|[_ ?]]%lookup_insert_Some; eauto.
    + intros j1 j2 r1 r2 [[<- <-]|[_ H1]]%lookup_insert_Some [[<- <-]|[_ H2]]%lookup_insert_Some E;
        [done|by destruct (Hf _ _ H2)|by destruct (Hf _ _ H1)|eauto].
  - assert (j <> j') as Hne by congruence. split.
    + intros i s [[<- <-]|[_ [[<- <-]|[_ ?]]%lookup_insert_Some]]%lookup_insert_Some; simpl; eauto.
    + intros j1 j2 r1 r2 [[<- <-]|[N1 [[<- <-]|[_ H1]]%lookup_insert_Some]]%lookup_insert_Some
        [[<- <-]|[N2 [[<- <-]|[_ H2]]%lookup_insert_Some]]%lookup_insert_Some E L1 L2;
        try done; try (by destruct (revoke_not_live _ _ _ L1));
        try (by destruct (revoke_not_live _ _ _ L2)).
      * destruct N2. eapply Hs; [exact Hj|exact H2| |done|done]. congruence.
      * destruct N1. eapply Hs; [exact Hj|exact H1| |done|done]. congruence.
      * eauto.
  - assert (forall i s, ((fun r => if bool_decide (family_id r = fam) && negb (is_revoked r)
                then revoke now (replaced_by_jti r) r else r) <$> t) !! i = Some s ->
              exists r, t !! i = Some r /\ rt_jti s = rt_jti r /\ family_id s = family_id r /\
                        (live s -> live r)) as Hback.
    { intros i s. rewrite lookup_fmap_Some. intros (r & <- & Hr). exists r.
      split; [done|]. by destruct (_ && _). }
    split.
    + intros i s (r & Hr & -> & _)%Hback. eauto.
    + intros j1 j2 s1 s2 (r1 & H1 & _ & E1 & L1)%Hback (r2 & H2 & _ & E2 & L2)%Hback E Ls1 Ls2.
      eapply Hs; [exact H1|exact H2|congruence|auto|auto].
  - split.
    + intros i s [? _]%map_lookup_filter_Some. eauto.
    + intros j1 j2 r1 r2 [? _]%map_lookup_filter_Some [? _]%map_lookup_filter_Some. eauto.
Qed.

(** A computation that leaves the token table alone, and keeps a healthy
    connection healthy. *)
Definition frames {A} (m : DbM A) : Prop :=
  forall d, db_faults d = [] ->
  refresh_tokens (m d).1 = refresh_tokens d /\ db_faults (m d).1 = [].

Lemma frames_ret {A} (a : A) : frames (db_ret a).
Proof. done. Qed.
Lemma frames_err {A} e : frames (@db_err A e).
Proof. done. Qed.
Lemma frames_lift {A} (r : Result A ServerError) : frames (db_lift r).
Proof. done. Qed.
Lemma frames_bind {A B} (m : DbM A) (k : A -> DbM B) :
  frames m -> (forall a, frames (k a)) -> frames (db_bind m k).
Proof.
  intros Hm Hk d Hd. unfold db_bind. destruct (Hm d Hd) as [E1 E2].
  destruct (m d) as [d' [a|e]]; simpl in *; [|done]. destruct (Hk a d' E2). split; congruence.
Qed.
Lemma frames_query {A} (f : Db -> Db * Result A ServerError) :
  (forall d, refresh_tokens (f d).1 = refresh_tokens d /\ db_faults (f d).1 = db_faults d) ->
  frames (query f).
Proof. intros Hf d Hd. unfold query. rewrite Hd. destruct (Hf d). split; congruence. Qed.

Ltac frame_query := apply frames_query; intros; cbv zeta; repeat case_goal; done.
Lemma frames_create_user i o m n h t : frames (create_user i o m n h t).
Proof. frame_query. Qed.
Lemma frames_create_organization i n t : frames (create_organization i n t).
Proof. frame_query. Qed.
Lemma frames_get_user_by_email m : frames (get_user_by_email m).
Proof. frame_query. Qed.
Lemma frames_get_user_by_id i : frames (get_user_by_id i).
Proof. frame_query. Qed.
Lemma frames_reserve i m l t : frames (reserve_login_attempt i m l t).
Proof. frame_query. Qed.
Lemma frames_reset i : frames (reset_failed_logins i).
Proof. frame_query. Qed.
Lemma frames_audit i o a t ac m n : frames (create_audit_log i o a t ac m n).
Proof. frame_query. Qed.
#[export] Hint Resolve frames_ret frames_err frames_lift frames_bind frames_create_user
  frames_create_organization frames_get_user_by_email frames_get_user_by_id frames_reserve
  frames_reset frames_audit : rivet.

(** The ids a request draws are new: none is in the table, as a token or as a
    family. A request draws at most eight. *)
Definition fresh_ok (fresh : nat -> Uuid) (t : Tokens) : Prop :=
  Forall (fun n => t !! fresh n = None /\ map_Forall (fun _ r => family_id r <> fresh n) t)
    (seq 0 8).
#[export] Instance fresh_ok_dec fresh t : Decision (fresh_ok fresh t).
Proof. unfold fresh_ok. apply _. Defined.

Lemma fresh_ok_lookup fresh t n : fresh_ok fresh t -> n < 8 -> t !! fresh n = None.
Proof.
  intros Hf Hn. unfold fresh_ok in Hf. rewrite list.Forall_forall in Hf.
  apply (Hf n). apply elem_of_seq. lia.
Qed.
Lemma fresh_ok_family fresh t n i r :
  fresh_ok fresh t -> n < 8 -> t !! i = Some r -> family_id r <> fresh n.
Proof.
  intros Hf Hn. unfold fresh_ok in Hf. rewrite list.Forall_forall in Hf.
  apply (Hf n). apply elem_of_seq. lia.
Qed.

Section TokenHistory.
Context `{Jwt} `{Argon2} `{UuidText}.
Context (config : ServerConfig).

(** A computation that takes one step of the token table. *)
Definition steps {A} (fresh : nat -> Uuid) (m : DbM A) : Prop :=
  forall d, db_faults d = [] -> fresh_ok fresh (refresh_tokens d) ->
  token_step (refresh_tokens d) (refresh_tokens (m d).1) /\ db_faults (m d).1 = [].

Lemma steps_frames {A} fresh (m : DbM A) : frames m -> steps fresh m.
Proof. intros Hm d Hd _. destruct (Hm d Hd) as [-> ?]. split; [constructor|done]. Qed.

Lemma steps_bind_frames_l {A B} fresh (m : DbM A) (k : A -> DbM B) :
  frames m -> (forall a, steps fresh (k a)) -> steps fresh (db_bind m k).
Proof.
  intros Hm Hk d Hd Hf. unfold db_bind. destruct (Hm d Hd) as [E1 E2].
  destruct (m d) as [d' [a|e]]; simpl in *.
  - rewrite <-E1 in *. by apply Hk.
  - rewrite E1. split; [constructor|done].
Qed.

Lemma steps_bind_frames_r {A B} fresh (m : DbM A) (k : A -> DbM B) :
  steps fresh m -> (forall a, frames (k a)) -> steps fresh (db_bind m k).
Proof.
  intros Hm Hk d Hd Hf. unfold db_bind. destruct (Hm d Hd Hf) as [E1 E2].
  destruct (m d) as [d' [a|e]]; simpl in *; [|done].
  destruct (Hk a d' E2) as [-> ->]. done.
Qed.

Lemma issue_new_family_steps user organization rs fresh now :
  steps fresh (issue_new_family config user organization rs fresh now).
Proof.
  apply steps_bind_frames_l; [auto with rivet|]. intros p.
  apply steps_bind_frames_r; [|auto with rivet].
  intros d Hd Hf. unfold insert_token, query. rewrite Hd.
  destruct (refresh_tokens d !! refresh_jti p) eqn:E; simpl; [split; [constructor|done]|].
  split; [|done]. apply token_issue; try done. simpl. intros i s Hs.
  eapply fresh_ok_family; [done|lia|done].
Qed.

Lemma login_steps req fresh now : steps fresh (login config req fresh now).
Proof.
  unfold login. apply steps_bind_frames_l; [auto with rivet|]. intros user.
  apply steps_bind_frames_l; [auto with rivet|]. intros [count|]; [|apply steps_frames; auto with rivet].
  apply steps_bind_frames_l; [auto with rivet|]. intros [].
  - apply steps_bind_frames_l; [auto with rivet|]. intros _.
    apply steps_bind_frames_r; [apply issue_new_family_steps|]. auto with rivet.
  - apply steps_frames. apply frames_bind; [|auto with rivet]. destruct Z.leb; auto with rivet.
Qed.

Lemma register_steps req salt fresh now : steps fresh (register config req salt fresh now).
Proof.
  unfold register. do 4 (apply steps_bind_frames_l; [auto with rivet|]; intros ?).
  apply steps_bind_frames_r; [apply issue_new_family_steps|]. auto with rivet.
Qed.

(** The table after a theft response. *)
Definition revoked_family (fam : Uuid) (now : Z) (t : Tokens) : Tokens :=
  (fun r => if bool_decide (family_id r = fam) && negb (is_revoked r)
            then revoke now (replaced_by_jti r) r else r) <$> t.

Lemma theft_response_effect {A} claims fam fresh now d :
  db_faults d = [] ->
  let '(d', r) := theft_response (A := A) claims fam fresh now d in
  refresh_tokens d' = revoked_family fam now (refresh_tokens d) /\ db_faults d' = [] /\
  is_ok r = false.
Proof.
  intros Hd. unfold theft_response, revoke_family, revoke_where, query.
  unfold db_bind at 1. rewrite Hd.
  set (d1 := set_refresh_tokens _ d). set (count := length _).
  set (m := if (0 <? count)%nat then _ else _).
  assert (frames m) as Hm by (unfold m; destruct Nat.ltb; auto 10 with rivet).
  destruct (Hm d1 Hd) as [E1 E2]. unfold db_bind. unfold d1 in E1 at 2. simpl in E1.
  by destruct (m d1) as [d2 [[]|e]].
Qed.

Lemma presented_row_cases claims fresh now d :
  db_faults d = [] ->
  match refresh_tokens d !! jti claims with
  | Some row =>
      if is_revoked row then
        let '(d', r) := presented_row claims fresh now d in
        refresh_tokens d' = revoked_family (family_id row) now (refresh_tokens d) /\
        db_faults d' = [] /\ is_ok r = false
      else presented_row claims fresh now d =
        (d, if is_expired row now then Err TokenExpired else Ok row)
  | None => presented_row claims fresh now d = (d, Err (rotation_error Unknown))
  end.
Proof.
  intros Hd. unfold presented_row, validate_for_rotation, get_by_jti, query. rewrite Hd.
  destruct (refresh_tokens d !! jti claims) as [row|]; [|done].
  destruct (is_revoked row); [by apply theft_response_effect|]. by destruct is_expired.
Qed.

(** The check either finds the presented token live and changes nothing, or
    fails after at most a theft response. *)
Lemma refresh_check_cases token fresh now d :
  db_faults d = [] -> tokens_ok (refresh_tokens d) ->
  let '(d', r) := refresh_check config token fresh now d in
  db_faults d' = [] /\
  match r with
  | Ok (row, user, p) =>
      refresh_tokens d' = refresh_tokens d /\
      refresh_tokens d !! rt_jti row = Some row /\ live row /\ refresh_jti p = fresh 2
  | Err e => token_step (refresh_tokens d) (refresh_tokens d')
  end.
Proof.
  intros Hd Hok. unfold refresh_check. unfold db_bind at 1. unfold db_lift at 1.
  destruct (decode_refresh_token token (jwt_secret config) now) as [claims|e];
    [|split; [done|constructor]].
  unfold db_bind at 1. pose proof (presented_row_cases claims fresh now d Hd) as Hp.
  destruct (refresh_tokens d !! jti claims) as [row|] eqn:Erow;
    [|rewrite Hp; split; [done|constructor]].
  destruct (is_revoked row) eqn:Er.
  { destruct (presented_row claims fresh now d) as [d1 [row1|e1]]; destruct Hp as (E1 & E2 & E3);
      [done|]. split; [done|]. rewrite E1. apply token_theft. }
  rewrite Hp. destruct (is_expired row now); [split; [done|constructor]|].
  unfold db_bind at 1. destruct (frames_get_user_by_id (rt_user_id row) d Hd) as [E1 E2].
  destruct (get_user_by_id (rt_user_id row) d) as [d2 [user|e]]; simpl in E1, E2;
    [|rewrite E1; split; [done|constructor]].
  unfold db_bind, db_lift, db_ret.
  destruct (create_token_pair _ _ _ _ _ _ _ _ _ _) as [p|e] eqn:Ep;
    [|rewrite E1; split; [done|constructor]].
  split; [done|]. split; [done|].
  assert (rt_jti row = jti claims) as -> by (by eapply tokens_keyed).
  split; [done|]. split.
  - unfold is_revoked in Er. apply bool_decide_eq_false in Er. unfold live.
    destruct (revoked_at row); [|done]. destruct Er. done.
  - revert Ep. unfold create_token_pair. repeat case_goal; intros; simplify_eq. done.
Qed.

Lemma refresh_steps token fresh now d :
  db_faults d = [] -> tokens_ok (refresh_tokens d) -> fresh_ok fresh (refresh_tokens d) ->
  token_step (refresh_tokens d) (refresh_tokens (refresh config token fresh now d).1) /\
  db_faults (refresh config token fresh now d).1 = [].
Proof.
  intros Hd Hok Hf. pose proof (fresh_ok_lookup _ _ 2 Hf ltac:(lia)) as Hf1. unfold refresh. unfold db_bind at 1 3.
  pose proof (refresh_check_cases token fresh now d Hd Hok) as Hc.
  destruct (refresh_check config token fresh now d) as [d1 [[[row user] p]|e]];
    [|destruct Hc; done].
  destruct Hc as (Hd1 & E1 & Erow & Hl & Ej).
  unfold refresh_store, refresh_retire, insert_token, mark_revoked, db_bind, query, db_ret.
  rewrite Hd1, E1, Ej, Hf1. cbn [refresh_tokens set_refresh_tokens set_db_faults db_faults fst].
  rewrite Hd1. split; [|done].
  assert (rt_jti row <> fresh 2) as Hne by (intros E; rewrite E, Hf1 in Erow; done).
  set (r' := {| rt_jti := fresh 2; rt_user_id := _ |}).
  cbn [refresh_tokens set_refresh_tokens fst].
  assert (<[fresh 2 := r']> (refresh_tokens d) !! rt_jti row = Some row) as Hlook
    by (by rewrite lookup_insert_ne).
  assert (alter (fun r => if is_revoked r then r else revoke now (Some (fresh 2)) r) (rt_jti row)
            (<[fresh 2 := r']> (refresh_tokens d)) =
          <[rt_jti row := revoke now (Some (fresh 2)) row]> (<[fresh 2 := r']> (refresh_tokens d)))
    as ->.
  { apply map_eq. intros i. destruct (decide (i = rt_jti row)) as [->|Hi].
    - rewrite lookup_alter_eq, Hlook, lookup_insert_eq. simpl.
      unfold is_revoked, live in *. by rewrite Hl.
    - by rewrite lookup_alter_ne, (lookup_insert_ne _ (rt_jti row)). }
  by apply token_rotate.
Qed.

End TokenHistory.

(** ** Properties *)

Section AccountProperties.
Context `{Jwt} `{Argon2} `{UuidText}.
Context (config : ServerConfig).

(** Requests one after the other on a working database. *)
Inductive account_step (d : Db) : Db -> Prop :=
| account_register req salt fresh now :
    fresh_ok fresh (refresh_tokens d) -> account_step d (register config req salt fresh now d).1
| account_login req fresh now :
    fresh_ok fresh (refresh_tokens d) -> account_step d (login config req fresh now d).1
| account_refresh token fresh now :
    fresh_ok fresh (refresh_tokens d) -> account_step d (refresh config token fresh now d).1
| account_prune days now : account_step d (prune_old_rows days now d).

Lemma prune_steps days now d :
  db_faults d = [] ->
  token_step (refresh_tokens d) (refresh_tokens (prune_old_rows days now d)) /\
  db_faults (prune_old_rows days now d) = [].
Proof.
  intros Hd. unfold prune_old_rows, delete_expired, delete_older_than, query. rewrite Hd.
  cbn [fst set_refresh_tokens db_faults]. rewrite Hd.
  destruct (0 <? days)%Z; simpl; (split; [apply token_prune|done]).
Qed.

Lemma account_history_ok d :
  rtc account_step db_empty d -> tokens_ok (refresh_tokens d) /\ db_faults d = [].
Proof.
  intros Hr. refine (invariant_rtc account_step
    (fun d => tokens_ok (refresh_tokens d) /\ db_faults d = []) _ db_empty d Hr _).
  - intros x y Hstep [Hok Hd].
    assert (token_step (refresh_tokens x) (refresh_tokens y) /\ db_faults y = []) as [Hs Hy];
      [|split; [by eapply tokens_ok_step|done]].
    destruct Hstep as [req salt fresh now Hf|req fresh now Hf|token fresh now Hf|days now].
    + by apply register_steps.
    + by apply login_steps.
    + by apply refresh_steps.
    + by apply prune_steps.
  - split; [|done]. split; simpl; intros; simplify_map_eq.
Qed.

(** C10. Refresh-token rotation. After any sequence of registrations, logins,
    refreshes and prunings, one request at a time on a working database, each
    token family has at most one live token; and presenting a token that has
    already been rotated is refused and leaves no live token in its family. *)
Theorem rotation_single_live_token d :
  rtc account_step db_empty d ->
  (forall j1 j2 r1 r2, refresh_tokens d !! j1 = Some r1 -> refresh_tokens d !! j2 = Some r2 ->
     family_id r1 = family_id r2 -> live r1 -> live r2 -> j1 = j2) /\
  (forall token fresh now claims row,
     decode_refresh_token token (jwt_secret config) now = Ok claims ->
     refresh_tokens d !! jti claims = Some row -> is_revoked row = true ->
     let '(d', r) := refresh config token fresh now d in
     is_ok r = false /\
     forall j s, refresh_tokens d' !! j = Some s -> family_id s = family_id row -> ~ live s).
Proof.
  intros Hr. destruct (account_history_ok d Hr) as [Hok Hd]. split; [apply Hok|].
  intros token fresh now claims row Hdec Hrow Hrev.
  pose proof (presented_row_cases claims fresh now d Hd) as Hp. rewrite Hrow, Hrev in Hp.
  unfold refresh, refresh_check, db_bind, db_lift. rewrite Hdec.
  destruct (presented_row claims fresh now d) as [d1 [x|e]]; destruct Hp as (E1 & E2 & E3); [done|].
  split; [done|]. intros j s. rewrite E1. unfold revoked_family.
  rewrite lookup_fmap_Some. intros (r & <- & Hr'). destruct (is_revoked r) eqn:Er.
  - rewrite andb_false_r. intros _ Hl. unfold is_revoked, live in *. by rewrite Hl in Er.
  - rewrite andb_true_r. case_bool_decide; [|done]. intros _ Hl. done.
Qed.

(** Passwords guard logins. Whatever queries fail: a login that returns tokens
    was for a live account with that address, unlocked at that time, whose stored
    hash the password verifies against; and a login that does not succeed in
    verifying the password leaves the token table as it was. *)
Theorem login_needs_password req fresh now d :
  let '(d', r) := login config req fresh now d in
  (is_ok r = true \/ refresh_tokens d' <> refresh_tokens d) ->
  exists u, u ∈ rows (users d) /\ email u = login_email req /\ live_user u = true /\
    verify_password (login_password req) (password_hash u) = Ok true.
Proof.
  unfold login, db_bind at 1.
  assert (match get_user_by_email (login_email req) d with
          | (d', Ok u) => refresh_tokens d' = refresh_tokens d /\
              u ∈ rows (users d) /\ email u = login_email req /\ live_user u = true
          | (d', Err _) => refresh_tokens d' = refresh_tokens d
          end) as Hu.
  { unfold get_user_by_email, query.
    assert (forall l : list UserRow, match ok_or (head (filter (fun u => email u = login_email req /\ live_user u = true) l)) InvalidCredentials with
            | Ok u => u ∈ l /\ email u = login_email req /\ live_user u = true
            | Err _ => True end) as Hl.
    { intros l. destruct (filter _ l) as [|u l'] eqn:E; simpl; [done|].
      assert (u ∈ u :: l') as Hin by left. rewrite <-E in Hin.
      apply list_elem_of_filter in Hin as [[? ?] ?]. done. }
    specialize (Hl (rows (users d))).
    destruct (db_faults d) as [|[e|] rest]; simpl; [| done |]; destruct ok_or; done. }
  destruct (get_user_by_email _ d) as [d1 [u|e]]; [|intros [?|?]; done].
  destruct Hu as (E1 & Hin & He & Hl).
  unfold db_bind at 1.
  assert (refresh_tokens (reserve_login_attempt (user_id u) (max_failed_logins config)
            (lockout_duration_secs config) now d1).1 = refresh_tokens d1) as E2.
  { unfold reserve_login_attempt, query. cbv zeta. repeat case_goal; done. }
  destruct (reserve_login_attempt _ _ _ _ d1) as [d2 [[count|]|e]]; simpl in E2;
    [|intros [?|?]; [done|congruence]..].
  unfold db_bind at 1, db_lift.
  destruct (verify_password _ _) as [[]|e] eqn:Ev; [| |intros [?|?]; [done|congruence]].
  { match goal with |- let '(_, _) := ?x in _ => destruct x end. intros _. exists u. done. }
  cbn [negb].
  assert (forall i o a t ac m n d0, refresh_tokens (create_audit_log i o a t ac m n d0).1
            = refresh_tokens d0) as Haudit.
  { intros. unfold create_audit_log, query. repeat case_goal; done. }
  unfold db_bind, db_ret, db_err.
  repeat match goal with
  | |- context [create_audit_log ?i ?o ?a ?t ?ac ?m ?n ?d0] =>
      let E := fresh "E" in pose proof (Haudit i o a t ac m n d0) as E;
      destruct (create_audit_log i o a t ac m n d0) as [? [?|?]]; simpl in E
  | |- context [(?a <=? ?b)%Z] => destruct (a <=? b)%Z
  end; intros [?|Hne]; try done; exfalso; apply Hne; congruence.
Qed.

(** Registration is not atomic. Registering with an address that is already
    taken is refused as a conflict, yet the organisation the request named has
    been created and stays, with no user in it. *)
Theorem register_conflict_keeps_organization req salt hash fresh now d :
  db_faults d = [] ->
  validate_register_request req = Ok tt -> hash_password (reg_password req) salt = Ok hash ->
  organizations d !! fresh 3 = None -> reg_email req ∈ map email (rows (users d)) ->
  let '(d', r) := register config req salt fresh now d in
  r = Err (Conflict "email already exists") /\ users d' = users d /\
  organizations d' =
    <[fresh 3 := {| org_id := fresh 3; org_name := reg_organization_name req;
                    org_created_at := now; org_deleted_at := None |}]> (organizations d).
Proof.
  intros Hd Hv Hh Ho He. unfold register, db_bind, db_lift. rewrite Hv, Hh.
  unfold create_organization, create_user, query. rewrite Hd, Ho.
  cbn [set_organizations db_faults users]. rewrite Hd, bool_decide_true by done. done.
Qed.
End AccountProperties.

(** ** Witnesses and the concurrent case *)

Definition witness_config : ServerConfig :=
  {| jwt_secret := "k"; access_token_expiry_secs := 900; refresh_token_expiry_secs := 604800;
     max_failed_logins := 5; lockout_duration_secs := 900 |}.
Definition ids (base : N) (n : nat) : Uuid := uuid_from_u128 (base + N.of_nat n).
Definition witness_register : RegisterRequest :=
  {| reg_email := "a@b"; reg_password := "password"; reg_display_name := "a";
     reg_organization_name := "o" |}.
Definition witness_registered : Db * Result AuthResponse ServerError :=
  register witness_config witness_register [] (ids 100) 0 db_empty.
Definition witness_token : string :=
  match witness_registered.2 with Ok r => res_refresh_token r | Err _ => "" end.
Definition witness_rotated : Db * Result AuthResponse ServerError :=
  refresh witness_config witness_token (ids 200) 1 witness_registered.1.

Lemma rotation_single_live_token_witness :
  rtc (account_step witness_config) db_empty witness_rotated.1 /\ is_ok witness_rotated.2 = true /\
  let '(d', r) := refresh witness_config witness_token (ids 300) 2 witness_rotated.1 in
  is_ok r = false /\ exists fam, forall j s,
    refresh_tokens d' !! j = Some s -> family_id s = fam -> ~ live s.
Proof.
  assert (rtc (account_step witness_config) db_empty witness_rotated.1) as Hr.
  { eapply rtc_l; [apply (account_register witness_config _ witness_register [] (ids 100) 0)|].
    { apply (bool_decide_unpack _). vm_compute. exact I. }
    eapply rtc_l; [apply (account_refresh witness_config _ witness_token (ids 200) 1)|apply rtc_refl].
    apply (bool_decide_unpack _). vm_compute. exact I. }
  split; [exact Hr|]. split; [vm_compute; reflexivity|].
  destruct (decode_refresh_token witness_token "k" 2) as [claims|e] eqn:Ec;
    [|vm_compute in Ec; discriminate Ec].
  destruct (refresh_tokens witness_rotated.1 !! jti claims) as [row|] eqn:Erow.
  2: { vm_compute in Ec. injection Ec as <-. vm_compute in Erow. discriminate Erow. }
  pose proof (proj2 (rotation_single_live_token witness_config witness_rotated.1 Hr)
    witness_token (ids 300) 2%Z claims row Ec Erow) as Hreuse.
  destruct (refresh witness_config witness_token (ids 300) 2 witness_rotated.1) as [d' r].
  assert (is_revoked row = true) as Hrev.
  { vm_compute in Ec. injection Ec as <-. vm_compute in Erow. injection Erow as <-.
    vm_compute. reflexivity. }
  destruct (Hreuse Hrev) as [H1 H2]. split; [exact H1|]. exists (family_id row). exact H2.
Defined.

Lemma login_needs_password_witness :
  let req := {| login_email := "a@b"; login_password := "password" |} in
  let '(d', r) := login witness_config req (ids 200) 1 witness_registered.1 in
  is_ok r = true /\ exists u, u ∈ rows (users witness_registered.1) /\ email u = "a@b".
Proof.
  intros req. pose proof (login_needs_password witness_config req (ids 200) 1 witness_registered.1) as L.
  destruct (login witness_config req (ids 200) 1 witness_registered.1) as [d' r] eqn:E.
  assert (is_ok r = true) as Hr.
  { change r with (d', r).2. rewrite <-E. vm_compute. reflexivity. }
  split; [exact Hr|]. destruct (L (or_introl Hr)) as (u & H1 & H2 & _). exists u. split; assumption.
Defined.

Lemma register_conflict_keeps_organization_witness :
  let '(d', r) := register witness_config witness_register [] (ids 200) 1 witness_registered.1 in
  r = Err (Conflict "email already exists") /\ is_Some (organizations d' !! ids 200 3).
Proof.
  pose proof (register_conflict_keeps_organization witness_config witness_register [] "password"
    (ids 200) 1 witness_registered.1) as R.
  destruct (register witness_config witness_register [] (ids 200) 1 witness_registered.1) as [d' r].
  destruct R as (H1 & _ & H2); try (vm_compute; reflexivity).
  - apply (bool_decide_unpack _). vm_compute. exact I.
  - split; [exact H1|]. rewrite H2, lookup_insert_eq. eexists. reflexivity.
Defined.

(** Two requests presenting the same token, their parts interleaved. *)
Definition concurrent_refresh (config : ServerConfig) (token : string)
    (freshA freshB : nat -> Uuid) (now : Z) (d : Db)
  : Db * Result (AuthResponse * AuthResponse) ServerError :=
  (let* a := refresh_check config token freshA now in
   let* b := refresh_check config token freshB now in
   let '(rowA, userA, pA) := a in
   let '(rowB, userB, pB) := b in
   let* _ := refresh_store config rowA userA pA now in
   let* _ := refresh_store config rowB userB pB now in
   let* ra := refresh_retire rowA userA pA now in
   let* rb := refresh_retire rowB userB pB now in
   db_ret (ra, rb)) d.

(** Rotation is not atomic. The check of the presented token and its
    retirement are separate statements, so two concurrent refreshes presenting
    one token can both succeed: both callers hold a working successor, the family
    has two live tokens, and no theft is detected. *)
Theorem concurrent_refresh_doubles_family :
  exists config token d freshA freshB now,
    rtc (account_step config) db_empty d /\
    let '(d', r) := concurrent_refresh config token freshA freshB now d in
    is_ok r = true /\
    exists j1 j2 r1 r2, j1 <> j2 /\ refresh_tokens d' !! j1 = Some r1 /\
      refresh_tokens d' !! j2 = Some r2 /\ family_id r1 = family_id r2 /\ live r1 /\ live r2.
Proof.
  exists witness_config, witness_token, witness_registered.1, (ids 200), (ids 300), 1%Z. split.
  - eapply rtc_l; [apply (account_register witness_config _ witness_register [] (ids 100) 0)|apply rtc_refl].
    apply (bool_decide_unpack _). vm_compute. exact I.
  - destruct (concurrent_refresh _ _ _ _ _ _) as [d' r] eqn:E.
    assert (E1 : d' = (d', r).1) by done. assert (E2 : r = (d', r).2) by done.
    rewrite <-E in E1, E2. split; [rewrite E2; vm_compute; reflexivity|].
    destruct (refresh_tokens d' !! ids 200 2) as [r1|] eqn:L1;
      [|rewrite E1 in L1; vm_compute in L1; discriminate L1].
    destruct (refresh_tokens d' !! ids 300 2) as [r2|] eqn:L2;
      [|rewrite E1 in L2; vm_compute in L2; discriminate L2].
    exists (ids 200 2), (ids 300 2), r1, r2.
    split; [intros Ei; apply (f_equal uuid_as_bytes) in Ei; vm_compute in Ei; discriminate Ei|].
    split; [done|]. split; [done|].
    rewrite E1 in L1, L2. vm_compute in L1, L2. injection L1 as <-. injection L2 as <-.
    split; [vm_compute; reflexivity|]. split; vm_compute; reflexivity.
Qed.
