(* ===== verification/Gateway.v ===== *)
(** * The WebSocket gateway

    rivetlink-server/src/websocket/gateway.rs and heartbeat.rs: authentication of
    a socket (user token or device challenge), the forwarding of tunnel frames and
    the end of a connection. [authenticate_device] reads what the device sends
    after the challenge from the same list of frames; the random challenge and
    the outcome of sending it are arguments. *)
From Stdlib Require Import NArith ZArith Lia Strings.String Strings.Byte.
From S2P Require Import Prelude Interfaces Instances Protocol Connections Sessions Router.
From S2P Require Import Auth Database.

(** ** Heartbeats *)

Record HeartbeatTracker := { last_activity : N; timeout : N }.
Definition heartbeat_new (timeout_secs now : N) : HeartbeatTracker :=
  {| last_activity := now; timeout := from_secs timeout_secs |}.
Definition touch (h : HeartbeatTracker) (now : N) : HeartbeatTracker :=
  {| last_activity := now; timeout := timeout h |}.
Definition heartbeat_expired (h : HeartbeatTracker) (now : N) : bool :=
  (timeout h <? duration_since now (last_activity h))%N.

(** ** Authentication *)

Definition SESSION_ID_LEN : nat := 16.
Definition DEVICE_CHALLENGE_SIZE : nat := 32.
Definition DEVICE_AUTH_PROTOCOL_VERSION : N := 2.
Definition DEVICE_AUTH_DOMAIN : bytes := as_bytes "rivetlink-relay-device-auth-v2".

Inductive WsHandshakeMessage :=
| UserAuth (token : string)
| DeviceHello (device_id : Uuid) (protocol_version : N).
Inductive WsDeviceFollowup := DeviceAuth (signature : string).

Record AuthOutcome := {
  out_principal_id : Uuid;
  out_org_id : Uuid;
  out_kind : PrincipalKind;
}.

Section Authentication.
Context `{Base64} `{UuidText} `{JsonText} `{Ed25519} `{Jwt}.
Context `{Serde WsHandshakeMessage} `{Serde WsDeviceFollowup}.
(** The display text of a timestamp, of a number, and of the error of
    [VerifyingKey::from_bytes]. *)
Context (show_time : Z -> string) (show_nat : nat -> string) (vk_error : bytes -> string).

Definition authenticated_message (kind : PrincipalKind) (principal : Uuid) (stun : option string)
  : string :=
  let payload :=
    match kind with
    | User => [("type"%string, JString "AUTHENTICATED");
               ("user_id"%string, JString (uuid_to_string principal))]
    | Device => [("type"%string, JString "AUTHENTICATED");
                 ("device_id"%string, JString (uuid_to_string principal))]
    end in
  json_text (JObject (payload ++ match stun with
                                 | Some s => [("stun"%string, JString s)]
                                 | None => [] end)).

(** Frames of a socket: a message, or a transport error. Returns the text and
    the frames that follow it. *)
Fixpoint read_text (frames : list (Result Message string))
  : Result (string * list (Result Message string)) string :=
  match frames with
  | Ok (Text t) :: rest => Ok (t, rest)
  | Ok Close :: _ => Err "connection closed"
  | Err e :: _ => Err ("ws error: " +:+ e)
  | _ :: rest => read_text rest
  | [] => Err "connection closed before handshake completed"
  end.

Definition parse_public_key (encoded : string) : Result bytes string :=
  let? raw := map_err (fun e => "invalid stored public_key: " +:+ e) (b64_decode (trim encoded)) in
  if negb (length raw =? 32)%nat
  then Err ("stored public_key must be 32 bytes, got " +:+ show_nat (length raw))
  else if vk_valid raw then Ok raw else Err ("invalid public_key: " +:+ vk_error raw).

Definition device_challenge_binding (device_id : Uuid) (nonce : bytes) : bytes :=
  DEVICE_AUTH_DOMAIN ++ be_bytes 2 DEVICE_AUTH_PROTOCOL_VERSION ++
  uuid_as_bytes device_id ++ nonce.

Definition device_challenge (nonce : bytes) : string :=
  json_text (JObject [("type"%string, JString "DEVICE_CHALLENGE");
                      ("protocol_version"%string, JNumber (Z.of_N DEVICE_AUTH_PROTOCOL_VERSION));
                      ("nonce"%string, JString (b64_encode nonce))]).

(** Returns what was sent to the device as well. [send] is the outcome of writing
    a frame to the socket. *)
Definition authenticate_device (device_id : Uuid) (rest : list (Result Message string))
    (nonce : bytes) (send : string -> Result unit string) (db : Db)
  : list string * Result AuthOutcome string :=
  match get_device device_id db with
  | (_, Err _) => ([], Err "unknown device")
  | (_, Ok device) =>
      match parse_public_key (public_key device) with
      | Err e => ([], Err e)
      | Ok verifying_key =>
          let challenge := device_challenge nonce in
          ([challenge],
           let? _ := map_err (fun e => "send DEVICE_CHALLENGE failed: " +:+ e) (send challenge) in
           let? t := read_text rest in
           let? followup := map_err (fun e => "invalid DEVICE_AUTH frame: " +:+ e)
                              (from_json t.1) in
           let 'DeviceAuth signature := followup in
           let? sig := map_err (fun e => "invalid base64 signature: " +:+ e) (b64_decode signature) in
           if negb (length sig =? 64)%nat
           then Err ("signature must be 64 bytes, got " +:+ show_nat (length sig))
           else if ed_verify verifying_key (device_challenge_binding device_id nonce) sig
           then Ok {| out_principal_id := dev_id device; out_org_id := dev_organization_id device;
                      out_kind := Device |}
           else Err "invalid signature")
      end
  end.

Definition authenticate_user (token secret : string) (now : Z) : Result AuthOutcome string :=
  let? claims := map_err (fun e => "auth failed: " +:+ display show_time e)
                   (decode_access_token token secret now) in
  Ok {| out_principal_id := sub claims; out_org_id := org claims; out_kind := User |}.

Definition wait_for_auth (frames : list (Result Message string)) (nonce : bytes)
    (send : string -> Result unit string) (secret : string) (now : Z) (db : Db)
  : list string * Result AuthOutcome string :=
  match read_text frames with
  | Err e => ([], Err e)
  | Ok (text, rest) =>
      match map_err (fun e => "invalid auth message: " +:+ e) (from_json text) with
      | Err e => ([], Err e)
      | Ok (UserAuth token) => ([], authenticate_user token secret now)
      | Ok (DeviceHello device_id version) =>
          if negb (version =? DEVICE_AUTH_PROTOCOL_VERSION)%N
          then ([], Err "unsupported secure device-auth protocol")
          else authenticate_device device_id rest nonce send db
      end
  end.
End Authentication.

(** ** A connection's life *)

Section Sockets.
Context {Q : Type} `{MpscSender Q Message} `{Serde SignalPacket}.

(** An authenticated socket enters the map; its channel is new. *)
Definition open_connection (st : Relay Q) (out : AuthOutcome) (conn_id : Uuid)
    (handle : WsSender) (channel : Q) : Relay Q :=
  {| connections := insert_connection (connections st) conn_id
       {| client_user_id := out_principal_id out; client_org_id := out_org_id out;
          client_kind := out_kind out; client_sender := handle |};
     manager := manager st; queues := <[handle := channel]> (queues st) |}.

(** What the reader does with one frame: text goes to the router under the
    authenticated identity, binary is a tunnel frame, anything else is at most a
    sign of life; [None] ends the reader. *)
Inductive ReaderAction :=
| ToRouter (message : SignalingMessage)
| TunnelFrame (frame : bytes)
| Nothing.
Definition reader_message (out : AuthOutcome) (conn_id : Uuid)
    (frame : option (Result Message string)) (h : HeartbeatTracker) (now : N)
  : option (HeartbeatTracker * ReaderAction) :=
  match frame with
  | Some (Ok (Text text)) =>
      Some (touch h now,
            ToRouter {| msg_conn_id := conn_id; msg_principal_id := out_principal_id out;
                        msg_org_id := out_org_id out; msg_kind := out_kind out;
                        msg_text := text |})
  | Some (Ok (Binary data)) => Some (touch h now, TunnelFrame data)
  | Some (Ok (Ping _)) => Some (touch h now, Nothing)
  | Some (Ok Close) | None => None
  | _ => Some (h, Nothing)
  end.

(** The notices [notify_closed] spawns: each waits on its own for room in a
    queue. *)
Definition notify_closed (st : Relay Q) (session : ActiveSession) : list (WsSender * Message) :=
  match to_json (SessionClosed (session_id session)) with
  | Err _ => []
  | Ok text =>
      omap (fun conn => s ← get_sender (connections st) conn; Some (s, Text text))
        [initiator_conn session; session_device_conn session]
  end.

Definition forget_connection (st : Relay Q) (conn_id : Uuid)
  : Relay Q * list (WsSender * Message) :=
  let st1 := with_connections (remove_connection (connections st) conn_id) st in
  let '(m, ended) := remove_for_conn (manager st1) conn_id in
  let st2 := with_manager m st1 in
  (st2, flat_map (notify_closed st2) ended).

Definition forward_tunnel_frame (st : Relay Q) (conn_id : Uuid) (frame : bytes)
  : Relay Q * list (WsSender * Message) :=
  if (len frame <=? N.of_nat SESSION_ID_LEN)%N
     || (N.of_nat SESSION_ID_LEN + MAX_TUNNEL_PAYLOAD <? len frame)%N
  then (st, [])
  else
    let_some sid := uuid_from_slice (take SESSION_ID_LEN frame) else (st, []) in
    let_some peer := tunnel_peer_conn (manager st) sid conn_id else (st, []) in
    let_some client := get_client (connections st) peer else (st, []) in
    let '(qs, delivered) := Connections.send_message (queues st) (client_sender client) (Binary frame) in
    let st1 := with_queues qs st in
    if delivered then (st1, [])
    else
      let '(m, removed) := remove_session (manager st1) sid in
      let st2 := with_manager m st1 in
      let notices := match removed with Some s => notify_closed st2 s | None => [] end in
      (if decide (client_kind client = User)
       then with_connections (remove_connection (connections st2) peer) st2 else st2, notices).
End Sockets.

(** ** The relay as a whole *)

(** The shared state with, for the statements, every connection there has been
    and the notices still waiting for room. *)
Record World (Q : Type) := {
  relay : Relay Q;
  known : gmap Uuid ConnectedClient;
  pending_notices : list (WsSender * Message);
}.
Arguments relay {Q} _.
Arguments known {Q} _.
Arguments pending_notices {Q} _.

Section World.
Context {Q : Type} `{MpscSender Q Message} `{Serde SignalPacket}.

(** A message of an authenticated connection, as [reader_message] builds it. *)
Definition authentic (w : World Q) (m : SignalingMessage) : Prop :=
  exists cl, known w !! msg_conn_id m = Some cl /\ client_user_id cl = msg_principal_id m /\
    client_org_id cl = msg_org_id m /\ client_kind cl = msg_kind m.

Inductive world_step (w : World Q) : World Q -> Prop :=
| world_open out conn_id handle channel :
    known w !! conn_id = None ->
    (forall c cl, known w !! c = Some cl -> client_sender cl <> handle) ->
    world_step w
      {| relay := open_connection (relay w) out conn_id handle channel;
         known := <[conn_id := {| client_user_id := out_principal_id out;
                                  client_org_id := out_org_id out; client_kind := out_kind out;
                                  client_sender := handle |}]> (known w);
         pending_notices := pending_notices w |}
| world_route m fresh now :
    authentic w m -> sessions (manager (relay w)) !! fresh = None ->
    world_step w {| relay := router_turn (relay w) m fresh now; known := known w;
                    pending_notices := pending_notices w |}
| world_frame conn_id frame :
    is_Some (known w !! conn_id) ->
    world_step w
      {| relay := (forward_tunnel_frame (relay w) conn_id frame).1; known := known w;
         pending_notices := pending_notices w ++ (forward_tunnel_frame (relay w) conn_id frame).2 |}
| world_forget conn_id :
    world_step w
      {| relay := (forget_connection (relay w) conn_id).1; known := known w;
         pending_notices := pending_notices w ++ (forget_connection (relay w) conn_id).2 |}
| world_notice l1 s m l2 :
    pending_notices w = l1 ++ (s, m) :: l2 ->
    world_step w
      {| relay := with_queues (Connections.send_message (queues (relay w)) s m).1 (relay w);
         known := known w; pending_notices := l1 ++ l2 |}
| world_drain handle q :
    world_step w {| relay := with_queues (<[handle := q]> (queues (relay w))) (relay w);
                    known := known w; pending_notices := pending_notices w |}.

Definition world_start : World Q :=
  {| relay := {| connections := connection_map_new; manager := session_manager_new;
                 queues := ∅ |}; known := ∅; pending_notices := [] |}.

(** A session joins a user and a device of one organisation, by the connections
    it was set up on. *)
Definition session_ok (known : gmap Uuid ConnectedClient) (s : ActiveSession) : Prop :=
  (exists cl, known !! initiator_conn s = Some cl /\ client_kind cl = User /\
     client_user_id cl = initiator_id s /\ client_org_id cl = session_org_id s) /\
  (exists cl, known !! session_device_conn s = Some cl /\ client_kind cl = Device /\
     client_user_id cl = device_id s /\ client_org_id cl = session_org_id s).

Record world_ok (w : World Q) : Prop := {
  world_inner : forall c cl, inner (connections (relay w)) !! c = Some cl -> known w !! c = Some cl;
  world_handles : forall c1 c2 cl1 cl2, known w !! c1 = Some cl1 -> known w !! c2 = Some cl2 ->
    client_sender cl1 = client_sender cl2 -> c1 = c2;
  world_devices : devices_ok (connections (relay w));
  world_keyed : keyed (manager (relay w));
  world_sessions : forall i s, sessions (manager (relay w)) !! i = Some s -> session_ok (known w) s;
  world_notices : forall h m, (h, m) ∈ pending_notices w ->
    exists c cl, known w !! c = Some cl /\ client_sender cl = h;
}.

Context `{!MpscLaws Q Message}.

(** From [st] to [st'] only the queues in [P] may have grown. *)
Definition grows_only (P : WsSender -> Prop) (st st' : Relay Q) : Prop :=
  connections st' = connections st /\
  forall h, waiting (queues st') h = waiting (queues st) h \/ P h.

Lemma grows_only_refl P st : grows_only P st st.
Proof. split; [done|]. by left. Qed.
Lemma grows_only_trans P st1 st2 st3 :
  grows_only P st1 st2 -> grows_only P st2 st3 -> grows_only P st1 st3.
Proof. intros [E1 H1] [E2 H2]. split; [congruence|]. intros h. destruct (H2 h) as [->|]; auto. Qed.
Lemma grows_only_manager P st st' m :
  grows_only P st st' -> grows_only P st (with_manager m st').
Proof. done. Qed.

Definition handle_of (st : Relay Q) (conn : Uuid) (h : WsSender) : Prop :=
  exists cl, inner (connections st) !! conn = Some cl /\ client_sender cl = h.

Lemma relay_send_grows st conn text P :
  (forall h, handle_of st conn h -> P h) -> grows_only P st (relay_send st conn text).1.
Proof.
  intros HP. unfold relay_send. destruct send_to as [qs ok] eqn:E. split; [done|].
  intros h. simpl. destruct (send_to_inv _ _ _ _ _ _ h E) as [[-> _]|(cl & H1 & H2 & _)]; [by left|].
  right. apply HP. by exists cl.
Qed.
Lemma relay_send_manager st conn text : manager (relay_send st conn text).1 = manager st.
Proof. unfold relay_send. by destruct send_to. Qed.

Lemma reject_grows st m sid reason P :
  (forall h, handle_of st (msg_conn_id m) h -> P h) -> grows_only P st (reject st m sid reason).
Proof. intros HP. unfold reject. destruct to_json; [by apply relay_send_grows|apply grows_only_refl]. Qed.
Lemma reject_manager st m sid reason : manager (reject st m sid reason) = manager st.
Proof. unfold reject. destruct to_json; [apply relay_send_manager|done]. Qed.

Lemma forward_grows st m sid P :
  (forall peer h, peer_conn (manager st) sid (msg_conn_id m) = Some peer ->
     handle_of st peer h -> P h) ->
  grows_only P st (forward st m sid).1.
Proof.
  intros HP. unfold forward. destruct peer_conn as [peer|] eqn:E; [|apply grows_only_refl].
  apply relay_send_grows. eauto.
Qed.
Lemma forward_manager st m sid : manager (forward st m sid).1 = manager st.
Proof. unfold forward. destruct peer_conn; [apply relay_send_manager|done]. Qed.

(** Sessions after an operation: old ones, or the requested one. *)
Definition new_session_only (st st' : Relay Q) (P : Uuid -> ActiveSession -> Prop) : Prop :=
  forall i s, sessions (manager st') !! i = Some s ->
  sessions (manager st) !! i = Some s \/ P i s.

Lemma route_session_request_effect st m dev key version cap sid now :
  grows_only (fun h => handle_of st (msg_conn_id m) h \/
                exists d, routable_device st m dev = Some d /\ handle_of st d h)
    st (route_session_request st m dev key version cap sid now) /\
  new_session_only st (route_session_request st m dev key version cap sid now)
    (fun i s => msg_kind m = User /\ i = sid /\
       exists d, routable_device st m dev = Some d /\ s = requested_session m dev d sid version now).
Proof.
  unfold route_session_request. set (P := fun h : WsSender => _).
  assert (forall r, grows_only P st (reject st m sid r)) as Hrej.
  { intros r. apply reject_grows. intros h Hh. by left. }
  assert (forall r Pn, new_session_only st (reject st m sid r) Pn) as Hrejm.
  { intros r Pn i s. rewrite reject_manager. auto. }
  assert (forall r Pn, grows_only P st (reject st m sid r) /\ new_session_only st (reject st m sid r) Pn)
    as Hr by auto.
  case_bool_decide as Hk; simpl; [|apply Hr].
  destruct (routable_device st m dev) as [d|] eqn:Ed; [|apply Hr].
  pose proof (create_session_lookup (manager st) (requested_session m dev d sid version now)) as Hc.
  destruct (Sessions.create_session _ _) as [mgr [[]|reason]]; simpl in Hc; [|apply Hr].
  set (st1 := with_manager mgr st).
  assert (forall text, grows_only P st (relay_send st1 d text).1) as Hsend.
  { intros text. eapply grows_only_trans; [apply (grows_only_manager P st st mgr), grows_only_refl|].
    apply relay_send_grows. intros h Hh. right. exists d. split; [done|exact Hh]. }
  assert (exists st2 delivered,
    match to_json (SessionRequest dev key version cap (Some sid)) with
    | Ok text => relay_send st1 d text | Err _ => (st1, false) end = (st2, delivered) /\
    grows_only P st st2 /\ manager st2 = mgr) as (st2 & delivered & -> & Hg & Hm).
  { destruct to_json as [text|];
      [|eexists _, _; split; [done|]; split; [apply grows_only_manager, grows_only_refl|done]].
    specialize (Hsend text). pose proof (relay_send_manager st1 d text) as Hm.
    destruct (relay_send st1 d text) as [st2 del]. eexists _, _. done. }
  assert (forall i s, sessions mgr !! i = Some s -> sessions (manager st) !! i = Some s \/
    (msg_kind m = User /\ i = sid /\ exists d', Some d = Some d' /\
       s = requested_session m dev d' sid version now)) as Hnew.
  { intros i s [Hi|[-> ->]]%Hc; [by left|right]. eauto. }
  destruct (negb delivered || _).
  - split.
    + eapply grows_only_trans; [exact Hg|].
      eapply grows_only_trans; [apply (grows_only_manager P st2 st2), grows_only_refl|].
      apply reject_grows. intros h (cl & H1 & H2). left. exists cl.
      destruct Hg as [E _]. simpl in H1. by rewrite E in H1.
    + intros i s. rewrite reject_manager. simpl. rewrite Hm.
      intros [_ Hi]%lookup_delete_Some. auto.
  - split; [done|]. intros i s. rewrite Hm. auto.
Qed.

(** The queues a routed message may reach: the sender's own, a peer of one of its
    sessions, and the device of a request. *)
Definition routed_to (st : Relay Q) (m : SignalingMessage) (h : WsSender) : Prop :=
  handle_of st (msg_conn_id m) h \/
  (exists dev d, routable_device st m dev = Some d /\ msg_kind m = User /\ handle_of st d h) \/
  (exists sid peer, peer_conn (manager st) sid (msg_conn_id m) = Some peer /\ handle_of st peer h).

Definition requested (st : Relay Q) (m : SignalingMessage) (fresh : Uuid)
    (i : Uuid) (s : ActiveSession) : Prop :=
  msg_kind m = User /\ i = fresh /\ session_id s = fresh /\
  session_org_id s = msg_org_id m /\ initiator_id s = msg_principal_id m /\
  initiator_conn s = msg_conn_id m /\
  routable_device st m (device_id s) = Some (session_device_conn s).

Lemma grows_only_weaken (P P' : WsSender -> Prop) st st' :
  (forall h, P h -> P' h) -> grows_only P st st' -> grows_only P' st st'.
Proof. intros HP [E H']. split; [done|]. intros h. destruct (H' h); auto. Qed.

Lemma router_turn_effect st m fresh now :
  grows_only (routed_to st m) st (router_turn st m fresh now) /\
  new_session_only st (router_turn st m fresh now) (requested st m fresh).
Proof.
  unfold router_turn.
  destruct (from_json (msg_text m)) as [packet|e];
    [|split; [apply grows_only_refl|by intros i s; left]].
  assert (forall sid, grows_only (routed_to st m) st (forward st m sid).1) as Hf.
  { intros sid. apply forward_grows. intros peer h Hp Hh. right. right. eauto. }
  assert (forall sid, new_session_only st (forward st m sid).1 (requested st m fresh)) as Hfm.
  { intros sid i s. rewrite forward_manager. by left. }
  destruct packet as [dev key version cap osid| | |sid role|sid reason| | | | | | | |sid]; simpl; auto.
  - destruct (bool_decide (msg_kind m = User)) eqn:Ek.
    + apply bool_decide_eq_true in Ek.
      destruct (route_session_request_effect st m dev key version cap fresh now) as [Hg Hn]. split.
      * eapply grows_only_weaken; [|exact Hg]. intros h [Hh|(d & Hd & Hh)]; [by left|].
        right. left. eauto.
      * intros i s Hi. destruct (Hn i s Hi) as [?|(_ & -> & d & Hd & ->)]; [by left|right].
        by repeat split.
    + unfold route_session_request. rewrite Ek. simpl. split.
      * apply reject_grows. intros h Hh. by left.
      * intros i s. rewrite reject_manager. by left.
  - specialize (Hf sid). specialize (Hfm sid).
    destruct (forward st m sid) as [st' []]; simpl in *; [|done]. split; [done|].
    intros i s. simpl. intros [_ Hi]%lookup_delete_Some. by apply Hfm.
  - split; [apply grows_only_refl|]. by intros i s; left.
  - specialize (Hf sid). specialize (Hfm sid).
    destruct (forward st m sid) as [st' []]; simpl in *; [|done]. split; [done|].
    intros i s. simpl. intros [_ Hi]%lookup_delete_Some. by apply Hfm.
Qed.

Lemma notify_closed_handles (st : Relay Q) s h x :
  (h, x) ∈ notify_closed st s ->
  exists c cl, inner (connections st) !! c = Some cl /\ client_sender cl = h.
Proof.
  unfold notify_closed. destruct to_json as [text|]; [|by intros ?%elem_of_nil].
  intros (c & _ & Hc)%list_elem_of_omap. unfold get_sender in Hc.
  destruct (inner (connections st) !! c) as [cl|] eqn:E; simpl in Hc; [|done].
  simplify_eq. eauto.
Qed.

Lemma remove_connection_inner m c i cl :
  inner (remove_connection m c) !! i = Some cl -> inner m !! i = Some cl /\ i <> c.
Proof.
  unfold remove_connection. destruct (inner m !! c) eqn:E; simpl.
  - intros [? ?]%lookup_delete_Some. auto.
  - intros ?. split; [done|]. congruence.
Qed.

(** What forwarding a frame and forgetting a connection may change. *)
Definition shrinks (st st' : Relay Q) (notices : list (WsSender * Message)) : Prop :=
  (forall c cl, inner (connections st') !! c = Some cl -> inner (connections st) !! c = Some cl) /\
  (devices_ok (connections st) -> devices_ok (connections st')) /\
  (forall i s, sessions (manager st') !! i = Some s -> sessions (manager st) !! i = Some s) /\
  (forall h x, (h, x) ∈ notices ->
     exists c cl, inner (connections st) !! c = Some cl /\ client_sender cl = h).

Lemma forget_connection_shrinks (st : Relay Q) c :
  shrinks st (forget_connection st c).1 (forget_connection st c).2.
Proof.
  unfold forget_connection. simpl.
  destruct (remove_for_conn (manager st) c) as [m ended] eqn:E. simpl.
  split; [by intros ? ? [? _]%remove_connection_inner|].
  split; [apply devices_ok_remove|]. split.
  - intros i s Hi. apply (remove_sessions_lookup (manager st) (conn_session_ids (manager st) c)).
    fold (remove_for_conn (manager st) c). by rewrite E.
  - intros h x (s & _ & Hin)%list_elem_of_In%in_flat_map.
    destruct (notify_closed_handles _ _ _ _ (proj2 (list_elem_of_In _ _) Hin)) as (i & cl & Hi & ?).
    simpl in Hi. apply remove_connection_inner in Hi as [? _]. eauto.
Qed.

Lemma forward_tunnel_frame_shrinks (st : Relay Q) c frame :
  shrinks st (forward_tunnel_frame st c frame).1 (forward_tunnel_frame st c frame).2.
Proof.
  assert (shrinks st st []) as Hrefl by (repeat split; auto; by intros ? ? ?%elem_of_nil).
  unfold forward_tunnel_frame. destruct (_ || _); [done|].
  destruct (uuid_from_slice _) as [sid|]; [|done].
  destruct (tunnel_peer_conn _ _ _) as [peer|]; [|done].
  destruct (get_client _ _) as [client|]; [|done].
  destruct (Connections.send_message _ _ _) as [qs []]; [done|]. simpl.
  assert (forall h x, (h, x) ∈ match sessions (manager st) !! sid with
    | Some s => notify_closed (with_manager {| sessions := delete sid (sessions (manager st)) |}
                                 (with_queues qs st)) s
    | None => [] end -> exists c cl, inner (connections st) !! c = Some cl /\ client_sender cl = h) as Hn.
  { intros h x. destruct (sessions (manager st) !! sid); [|by intros ?%elem_of_nil].
    by intros Hx%notify_closed_handles. }
  destruct decide; simpl; (split; [|split; [|split; [by intros i s; simpl; intros [_ ?]%lookup_delete_Some|done]]]); simpl;
    [by intros ? ? [? _]%remove_connection_inner|apply devices_ok_remove|done|done].
Qed.

Lemma world_ok_shrinks w st' notices :
  shrinks (relay w) st' notices -> world_ok w ->
  world_ok {| relay := st'; known := known w; pending_notices := pending_notices w ++ notices |}.
Proof.
  intros (H1 & H2 & H3 & H4) [Wi Wh Wd Wk Ws Wn]. split; simpl; eauto.
  - intros i s Hi. eapply Wk, H3, Hi.
  - intros h x [Hx|Hx]%elem_of_app; [eauto|].
    destruct (H4 _ _ Hx) as (c & cl & ? & ?). eauto.
Qed.

Lemma session_ok_known known known' s :
  (forall c cl, known !! c = Some cl -> known' !! c = Some cl) ->
  session_ok known s -> session_ok known' s.
Proof. intros Hk [(cl & ? & ?) (dl & ? & ?)]. split; eauto. Qed.

Lemma requested_session_ok w m fresh i s :
  world_ok w -> authentic w m -> requested (relay w) m fresh i s -> session_ok (known w) s.
Proof.
  intros Hw (cl & Hcl & Hu & Ho & Hk) (Hm & -> & Hs & Eo & Ei & Ec & Hr).
  split; [exists cl; rewrite Ec, Ei, Eo; repeat split; congruence|].
  unfold routable_device, device_conn, get_client in Hr.
  destruct (devices (connections (relay w)) !! device_id s) as [d|] eqn:Ed; simpl in Hr; [|done].
  destruct (inner (connections (relay w)) !! d) as [dl|] eqn:Ei'; simpl in Hr; [|done].
  destruct decide as [Hd|]; [|done]. simplify_eq.
  destruct (world_devices w Hw _ _ Ed) as (dl' & Hdl & Hkind & Huser). simplify_eq.
  exists dl. rewrite Eo. repeat split; auto. by apply (world_inner w Hw).
Qed.

Lemma world_ok_step w w' : world_step w w' -> world_ok w -> world_ok w'.
Proof.
  intros Hstep Hw. pose proof Hw as [Wi Wh Wd Wk Ws Wn].
  destruct Hstep as [out conn_id handle channel Hnew Hhandle|m fresh now Hauth Hfresh
    |conn_id frame Hconn|conn_id|l1 s m l2 Hpend|handle q].
  - set (cl0 := {| client_user_id := _ |}).
    assert (forall c cl, known w !! c = Some cl -> <[conn_id := cl0]> (known w) !! c = Some cl) as Hk.
    { intros c cl Hc. rewrite lookup_insert_ne; congruence. }
    split; simpl; auto.
    + intros c cl [[<- <-]|[Hne Hc]]%lookup_insert_Some; [apply lookup_insert_eq|]. auto.
    + intros c1 c2 cl1 cl2 [[<- <-]|[_ H1']]%lookup_insert_Some [[<- <-]|[_ H2']]%lookup_insert_Some E;
        [done|by destruct (Hhandle _ _ H2')|by destruct (Hhandle _ _ H1')|eauto].
    + apply devices_ok_insert; [done|]. destruct (inner _ !! conn_id) eqn:E; [|done].
      apply Wi in E. congruence.
    + intros i s Hi. eapply session_ok_known; [exact Hk|eauto].
    + intros h x Hx. destruct (Wn _ _ Hx) as (c & cl & ? & ?). eauto.
  - destruct (router_turn_effect (relay w) m fresh now) as [[Hc Hg] Hn].
    split; simpl; rewrite ?Hc; auto.
    + intros i s Hi. destruct (Hn i s Hi) as [?|(_ & -> & ? & _)]; auto.
    + intros i s Hi. destruct (Hn i s Hi) as [?|?]; [eauto|]. by eapply requested_session_ok.
  - by apply world_ok_shrinks; [apply forward_tunnel_frame_shrinks|].
  - by apply world_ok_shrinks; [apply forget_connection_shrinks|].
  - split; simpl; auto. intros h x Hx. apply (Wn h x). rewrite Hpend. set_solver.
  - by split.
Qed.

Lemma world_start_ok : world_ok world_start.
Proof.
  split; unfold devices_ok, keyed; simpl; intros *; rewrite ?lookup_empty; try done.
  by intros ?%elem_of_nil.
Qed.

(** C8. Tenant isolation. In any history of the relay (connections opening,
    closing and being cut off, queues draining, packets and frames in any order),
    handling a text message of connection [c] adds to no queue but those of
    connections of [c]'s own organisation, and among these only [c]'s own or one
    of the other kind: a user reaches only its organisation's devices, a device
    only users. *)
Theorem tenant_isolation w m cl fresh now h :
  rtc world_step world_start w -> authentic w m ->
  known w !! msg_conn_id m = Some cl ->
  waiting (queues (router_turn (relay w) m fresh now)) h <> waiting (queues (relay w)) h ->
  exists d dl, known w !! d = Some dl /\ client_sender dl = h /\
    client_org_id dl = client_org_id cl /\
    (d = msg_conn_id m \/ client_kind dl <> client_kind cl).
Proof.
  intros Hr Ha Hcl Hgrow.
  assert (world_ok w) as Hw.
  { eapply (invariant_rtc world_step); [apply world_ok_step|done|apply world_start_ok]. }
  destruct (router_turn_effect (relay w) m fresh now) as [[_ Hg] _].
  pose proof Ha as (cl' & Hcl' & Hu & Ho & Hk). simplify_eq.
  destruct (Hg h) as [?|[Hh|[(dev & d & Hd & Huser & Hh)|(sid & peer & Hp & Hh)]]]; [done|..].
  - destruct Hh as (dl & Hdl & Hs). apply (world_inner w Hw) in Hdl.
    exists (msg_conn_id m), dl. simplify_eq. auto.
  - destruct Hh as (dl & Hdl & Hs). unfold routable_device, device_conn, get_client in Hd.
    destruct (devices (connections (relay w)) !! dev) as [d'|] eqn:Ed; simpl in Hd; [|done].
    destruct (inner (connections (relay w)) !! d') as [dl'|] eqn:Ei; simpl in Hd; [|done].
    destruct decide as [Horg|]; [|done]. simplify_eq.
    destruct (world_devices w Hw _ _ Ed) as (dl2 & Hdl2 & Hkind & _). simplify_eq.
    eexists d, _. split; [by apply (world_inner w Hw)|]. split; [done|]. split; [congruence|].
    right. rewrite Hkind. congruence.
  - destruct Hh as (dl & Hdl & Hs). apply (world_inner w Hw) in Hdl.
    exists peer, dl. split; [done|]. split; [done|]. unfold peer_conn in Hp.
    destruct (sessions (manager (relay w)) !! sid) as [s|] eqn:Es; simpl in Hp; [|done].
    destruct (world_sessions w Hw _ _ Es) as [(il & Hi1 & Hi2 & Hi3 & Hi4) (vl & Hv1 & Hv2 & Hv3 & Hv4)].
    unfold other_end in Hp. repeat destruct decide; simplify_eq; (split; [congruence|right; congruence]).
Qed.
End World.

(** ** Device authentication *)

Lemma device_challenge_binding_inj d n d' n' :
  device_challenge_binding d n = device_challenge_binding d' n' -> d = d' /\ n = n'.
Proof.
  unfold device_challenge_binding. intros E.
  apply (app_inv_head DEVICE_AUTH_DOMAIN) in E.
  apply (app_inv_head (be_bytes 2 DEVICE_AUTH_PROTOCOL_VERSION)) in E.
  apply app_inj_length in E as [E ?]; [|by rewrite !uuid_as_bytes_length].
  by apply uuid_as_bytes_inj in E.
Qed.

Section DeviceAuth.
Context `{Base64Laws} `{UuidText} `{JsonText} `{Ed25519Laws}.
Context `{SerdeLaws WsDeviceFollowup}.
Context (show_nat : nat -> string) (vk_error : bytes -> string).

(** A stored public key is read back as the key it was registered with, also when
    whitespace surrounds its text. *)
Lemma parse_public_key_round_trip sk stored :
  trim stored = b64_encode (verifying_key sk) ->
  parse_public_key show_nat vk_error stored = Ok (verifying_key sk).
Proof.
  intros Ht. unfold parse_public_key. rewrite Ht, b64_decode_encode. simpl.
  by rewrite verifying_key_length, verifying_key_valid.
Qed.

(** C29. Device authentication. A socket is authenticated as device [d] exactly
    when the device is stored and not deleted, the challenge went out, and what
    the socket then sent is a DEVICE_AUTH whose own signature is 64 bytes of
    base64 that verify, under the key stored for [d], for the challenge of this
    very handshake; it is then that device, of its organisation. The message
    signed determines both [d] and the random challenge, so an answer to another
    challenge or of another device is not accepted in its place; and a device
    that holds the registered key and signs the challenge is authenticated. *)
Theorem device_auth_complete_and_sound d nonce rest send db :
  db_faults db = [] ->
  (forall out, (authenticate_device show_nat vk_error d rest nonce send db).2 = Ok out <->
     exists row pk text rest' signature sig,
       device_rows db !! d = Some row /\ dev_deleted_at row = None /\
       parse_public_key show_nat vk_error (public_key row) = Ok pk /\
       send (device_challenge nonce) = Ok tt /\
       read_text rest = Ok (text, rest') /\ from_json text = Ok (DeviceAuth signature) /\
       b64_decode signature = Ok sig /\ length sig = 64 /\
       ed_verify pk (device_challenge_binding d nonce) sig = true /\
       out = {| out_principal_id := dev_id row; out_org_id := dev_organization_id row; out_kind := Device |}) /\
  (forall d' n', device_challenge_binding d' n' = device_challenge_binding d nonce -> d' = d /\ n' = nonce) /\
  (forall row sk text rest',
     device_rows db !! d = Some row -> dev_deleted_at row = None -> public_key row = b64_encode (verifying_key sk) ->
     send (device_challenge nonce) = Ok tt ->
     to_json (DeviceAuth (b64_encode (ed_sign sk (device_challenge_binding d nonce)))) = Ok text ->
     rest = Ok (Text text) :: rest' ->
     (authenticate_device show_nat vk_error d rest nonce send db).2 =
       Ok {| out_principal_id := dev_id row; out_org_id := dev_organization_id row; out_kind := Device |}).
Proof.
  intros Hf. unfold authenticate_device, get_device, query. rewrite Hf. split; [|split].
  - intros out. split.
    + destruct (device_rows db !! d) as [row|] eqn:Hrow; cbn; [|done].
      destruct (decide (dev_deleted_at row = None)) as [Hdel|]; cbn; [|done].
      destruct (parse_public_key _ _ _) as [pk|] eqn:Ep; cbn; [|done].
      destruct (send (device_challenge nonce)) as [[]|e] eqn:Hs; cbn; [|done].
      destruct (read_text rest) as [[t rest']|e] eqn:Er; cbn; [|done].
      destruct (from_json t) as [[signature]|e] eqn:Ej; cbn; [|done].
      destruct (b64_decode signature) as [sig|e] eqn:Eb; cbn; [|done].
      destruct (Nat.eqb_spec (length sig) 64) as [Hl|]; cbn; [|done].
      destruct (ed_verify _ _ sig) eqn:Ev; [|done]. intros [= <-]. exists row, pk, t, rest', signature, sig. by split_and!.
    + intros (row & pk & text & rest' & signature & sig & -> & Hdel & Ep & Hs & Er & Ej & Eb & Hl & Ev & ->).
      simpl. rewrite decide_True by done. simpl. rewrite Ep. simpl. rewrite Hs. simpl. rewrite Er. simpl. rewrite Ej. simpl.
      rewrite Eb. simpl. by rewrite Hl, Ev.
  - intros d' n'. apply device_challenge_binding_inj.
  - intros row sk text rest' Hrow Hdel Hkey Hs Hj ->.
    assert (parse_public_key show_nat vk_error (public_key row) = Ok (verifying_key sk)) as Hp.
    { apply parse_public_key_round_trip. rewrite Hkey. apply trim_trimmed, b64_encode_trimmed. }
    rewrite Hrow, decide_True by done. rewrite Hp. cbn. rewrite Hs. cbn.
    rewrite (from_to_json _ _ Hj). cbn. rewrite b64_decode_encode. cbn.
    by rewrite ed_sign_length, ed_verify_sign.
Qed.
End DeviceAuth.

(** ** Witnesses *)

#[export] Instance WsDeviceFollowup_eq_dec : EqDecision WsDeviceFollowup.
Proof. solve_decision. Defined.
#[export] Instance WsDeviceFollowup_countable : Countable WsDeviceFollowup.
Proof.
  refine (inj_countable' (fun f => let 'DeviceAuth s := f in s) DeviceAuth _). by intros [].
Defined.
#[export] Instance toy_followup : Serde WsDeviceFollowup := toy_serde WsDeviceFollowup.
#[export] Instance toy_followup_laws : SerdeLaws WsDeviceFollowup := toy_serde_laws _.
#[export] Instance toy_packets : Serde SignalPacket := toy_serde SignalPacket.
#[export] Instance toy_packets_laws : SerdeLaws SignalPacket := toy_serde_laws _.
#[export] Instance toy_json : JsonText := { json_text _ := "{}"%string }.

Definition witness_device : DeviceRow :=
  {| dev_id := uuid_from_u128 9; dev_organization_id := uuid_from_u128 1; hostname := None;
     platform := None; public_key := b64_encode (verifying_key (Ed25519 := toy_ed25519) 77%N);
     dev_created_at := 0; last_seen := None; dev_deleted_at := None |}.
Lemma device_auth_complete_and_sound_witness :
  let d := uuid_from_u128 9 in
  let nonce := be_bytes 32 5 in
  let db := set_device_rows {[d := witness_device]} db_empty in
  let answer s := Ok (Text (bits_text (encode (DeviceAuth (b64_encode s))))) in
  let run s := (authenticate_device (fun _ => EmptyString) (fun _ => EmptyString) d [answer s] nonce
                 (fun _ => Ok tt) db).2 in
  run (ed_sign (Ed25519 := toy_ed25519) 77%N (device_challenge_binding d nonce)) =
    Ok {| out_principal_id := d; out_org_id := uuid_from_u128 1; out_kind := Device |} /\
  is_ok (run (ed_sign (Ed25519 := toy_ed25519) 77%N (device_challenge_binding d (be_bytes 32 6)))) = false.
Proof.
  intros d nonce db answer run. split; [|vm_compute; reflexivity].
  refine (proj2 (proj2 (device_auth_complete_and_sound (fun _ => EmptyString) (fun _ => EmptyString)
    d nonce [answer (ed_sign (Ed25519 := toy_ed25519) 77%N (device_challenge_binding d nonce))]
    (fun _ => Ok tt) db _)) witness_device 77%N _ [] _ _ _ _ _ _);
    vm_compute; reflexivity.
Defined.

(** A user and a device of organisation 1, and a request for the device. *)
Definition witness_outcome (kind : PrincipalKind) (id : N) : AuthOutcome :=
  {| out_principal_id := uuid_from_u128 id; out_org_id := uuid_from_u128 1; out_kind := kind |}.
Definition witness_queue : BoundedQueue Message :=
  {| capacity := OUTGOING_QUEUE; rx_closed := false; items := [] |}.
Definition witness_open (w : World (BoundedQueue Message)) (kind : PrincipalKind) (id : N)
  : World (BoundedQueue Message) :=
  {| relay := open_connection (relay w) (witness_outcome kind id) (uuid_from_u128 (10 + id)) id witness_queue;
     known := <[uuid_from_u128 (10 + id) :=
       {| client_user_id := uuid_from_u128 id; client_org_id := uuid_from_u128 1;
          client_kind := kind; client_sender := id |}]> (known w);
     pending_notices := pending_notices w |}.
Definition witness_world : World (BoundedQueue Message) :=
  witness_open (witness_open world_start User 1) Device 2.
Definition witness_request : SignalingMessage :=
  {| msg_conn_id := uuid_from_u128 11; msg_principal_id := uuid_from_u128 1;
     msg_org_id := uuid_from_u128 1; msg_kind := User;
     msg_text := bits_text (encode (SessionRequest (uuid_from_u128 2) "key" 3 Screenshot None)) |}.

Lemma tenant_isolation_witness :
  waiting (queues (router_turn (relay witness_world) witness_request (uuid_from_u128 99) 0)) 2%N
    <> waiting (queues (relay witness_world)) 2%N /\
  exists d dl, known witness_world !! d = Some dl /\ client_sender dl = 2%N /\
    client_org_id dl = uuid_from_u128 1.
Proof.
  assert (waiting (queues (router_turn (relay witness_world) witness_request (uuid_from_u128 99) 0)) 2%N
    <> waiting (queues (relay witness_world)) 2%N) as Hg.
  { intros E. apply (f_equal length) in E. vm_compute in E. discriminate E. }
  split; [exact Hg|].
  assert (rtc world_step world_start witness_world) as Hr.
  { apply (rtc_l _ _ (witness_open world_start User 1)).
    - apply (world_open world_start (witness_outcome User 1) (uuid_from_u128 11) 1%N witness_queue).
      + reflexivity.
      + intros c cl Hc. exfalso. revert Hc. cbn [known world_start]. rewrite lookup_empty. discriminate.
    - apply rtc_once.
      apply (world_open (witness_open world_start User 1) (witness_outcome Device 2)
               (uuid_from_u128 12) 2%N witness_queue).
      + vm_compute. reflexivity.
      + intros c cl. cbn [known witness_open world_start].
        intros [[_ <-]|[_ Hc]]%lookup_insert_Some; [discriminate|].
        rewrite lookup_empty in Hc. discriminate. }
  destruct (tenant_isolation witness_world witness_request
    {| client_user_id := uuid_from_u128 1; client_org_id := uuid_from_u128 1;
       client_kind := User; client_sender := 1%N |} (uuid_from_u128 99) 0 2 Hr)
    as (d & dl & H1 & H2 & H3 & _).
  - eexists. split; [vm_compute; reflexivity|]. repeat split; reflexivity.
  - vm_compute. reflexivity.
  - exact Hg.
  - exists d, dl. repeat split; assumption.
Defined.
