(* ===== verification/RelayRace.v ===== *)
(** * The router and closing connections, interleaved

    The signaling router and the task of each socket run concurrently and share
    the connection map and the session manager. This file splits
    [route_session_request] (router.rs) and [forget_connection] (gateway.rs) into
    the accesses to shared maps they make one after the other, interleaves them
    in any order, and shows that no session survives a closed connection.
    [create_session] and the scan of [remove_for_conn] are one access each. *)
From Stdlib Require Import NArith ZArith Lia Strings.String.
From S2P Require Import Prelude Interfaces Instances Protocol Connections Sessions Router Gateway.

(** ** A session request, access by access *)

Record Request := {
  rq_message : SignalingMessage;
  rq_device : DeviceId;
  rq_key : string;
  rq_version : N;
  rq_capability : SessionCapability;
  rq_session : Uuid;
  rq_now : N;
}.
Inductive RouterPc :=
| Idle
| ReqStart (r : Request)
| ReqLooked (r : Request) (dconn : Uuid)
| ReqAllowed (r : Request) (dconn : Uuid)
| ReqCreated (r : Request) (s : ActiveSession)
| ReqSent (r : Request) (s : ActiveSession) (delivered : bool)
| ReqUndo (r : Request) (s : ActiveSession).

Section RequestSteps.
Context {Q : Type} `{MpscSender Q Message} `{Serde SignalPacket}.

Definition request_step (st : Relay Q) (pc : RouterPc) : Relay Q * RouterPc :=
  match pc with
  | Idle => (st, Idle)
  | ReqStart r =>
      if negb (bool_decide (msg_kind (rq_message r) = User))
      then (reject st (rq_message r) (rq_session r) "only users can open sessions", Idle)
      else match device_conn (connections st) (rq_device r) with
           | Some d => (st, ReqLooked r d)
           | None => (reject st (rq_message r) (rq_session r) "device is offline or unknown", Idle)
           end
  | ReqLooked r d =>
      match get_client (connections st) d with
      | Some cl =>
          if decide (client_org_id cl = msg_org_id (rq_message r)) then (st, ReqAllowed r d)
          else (reject st (rq_message r) (rq_session r) "device is offline or unknown", Idle)
      | None => (reject st (rq_message r) (rq_session r) "device is offline or unknown", Idle)
      end
  | ReqAllowed r d =>
      let s := requested_session (rq_message r) (rq_device r) d (rq_session r) (rq_version r) (rq_now r) in
      match Sessions.create_session (manager st) s with
      | (m, Ok _) => (with_manager m st, ReqCreated r s)
      | (_, Err reason) => (reject st (rq_message r) (rq_session r) reason, Idle)
      end
  | ReqCreated r s =>
      match to_json (SessionRequest (rq_device r) (rq_key r) (rq_version r) (rq_capability r)
                       (Some (rq_session r))) with
      | Ok text =>
          let '(st', delivered) := relay_send st (session_device_conn s) text in
          (st', ReqSent r s delivered)
      | Err _ => (st, ReqSent r s false)
      end
  | ReqSent r s delivered =>
      if negb delivered
         || negb (bool_decide (is_Some (get_sender (connections st) (msg_conn_id (rq_message r)))))
      then (st, ReqUndo r s) else (st, Idle)
  | ReqUndo r s =>
      (reject (with_manager (remove_session (manager st) (rq_session r)).1 st)
         (rq_message r) (rq_session r) "device is offline or unknown", Idle)
  end.

Fixpoint request_steps (n : nat) (x : Relay Q * RouterPc) : Relay Q * RouterPc :=
  match n with O => x | S n' => request_steps n' (request_step x.1 x.2) end.

Lemma request_steps_idle n (st : Relay Q) : request_steps n (st, Idle) = (st, Idle).
Proof. by induction n. Qed.

(** ** Sockets that close *)

Inductive SocketStatus :=
| Serving
| ClosingDevices (client : ConnectedClient)
| ClosingCollect
| ClosingRemove (ids : list Uuid)
| Closed.

Record Race := {
  shared : Relay Q;
  status : gmap Uuid SocketStatus;
  router : RouterPc;
}.

Definition forget_inner (st : Relay Q) (c : Uuid) : Relay Q :=
  with_connections {| inner := delete c (inner (connections st));
                      devices := devices (connections st) |} st.
Definition forget_device (st : Relay Q) (c : Uuid) (client : ConnectedClient) : Relay Q :=
  with_connections
    {| inner := inner (connections st);
       devices := if decide (client_kind client = Device)
                  then remove_if (devices (connections st)) (client_user_id client)
                         (fun current => bool_decide (current = c))
                  else devices (connections st) |} st.

Inductive race_step (x : Race) : Race -> Prop :=
| race_open c client :
    status x !! c = None ->
    race_step x
      {| shared := with_connections (insert_connection (connections (shared x)) c client) (shared x);
         status := <[c := Serving]> (status x); router := router x |}
| race_request r :
    router x = Idle -> sessions (manager (shared x)) !! rq_session r = None ->
    race_step x {| shared := shared x; status := status x; router := ReqStart r |}
| race_router :
    race_step x {| shared := (request_step (shared x) (router x)).1; status := status x;
                   router := (request_step (shared x) (router x)).2 |}
| race_forget_inner c client :
    status x !! c = Some Serving -> inner (connections (shared x)) !! c = Some client ->
    race_step x {| shared := forget_inner (shared x) c;
                   status := <[c := ClosingDevices client]> (status x); router := router x |}
| race_forget_gone c :
    status x !! c = Some Serving -> inner (connections (shared x)) !! c = None ->
    race_step x {| shared := shared x; status := <[c := ClosingCollect]> (status x);
                   router := router x |}
| race_forget_device c client :
    status x !! c = Some (ClosingDevices client) ->
    race_step x {| shared := forget_device (shared x) c client;
                   status := <[c := ClosingCollect]> (status x); router := router x |}
| race_collect c :
    status x !! c = Some ClosingCollect ->
    race_step x {| shared := shared x;
                   status := <[c := ClosingRemove (conn_session_ids (manager (shared x)) c)]> (status x);
                   router := router x |}
| race_remove c i ids :
    status x !! c = Some (ClosingRemove (i :: ids)) ->
    race_step x {| shared := with_manager (remove_session (manager (shared x)) i).1 (shared x);
                   status := <[c := ClosingRemove ids]> (status x); router := router x |}
| race_closed c :
    status x !! c = Some (ClosingRemove []) ->
    race_step x {| shared := shared x; status := <[c := Closed]> (status x); router := router x |}
(** a session ended by a packet or a stuck tunnel, *)
| race_end i :
    race_step x {| shared := with_manager (remove_session (manager (shared x)) i).1 (shared x);
                   status := status x; router := router x |}
(** a stuck viewer cut off, *)
| race_cut c :
    race_step x {| shared := with_connections (remove_connection (connections (shared x)) c) (shared x);
                   status := status x; router := router x |}
(** and any traffic in the queues. *)
| race_queues qs :
    race_step x {| shared := with_queues qs (shared x); status := status x; router := router x |}.

Definition race_start : Race :=
  {| shared := {| connections := connection_map_new; manager := session_manager_new; queues := ∅ |};
     status := ∅; router := Idle |}.

(** ** The invariant *)

(** The router still has to check endpoint [c] of session [s], or to remove [s]. *)
Definition unchecked (pc : RouterPc) (s : ActiveSession) (c : Uuid) : Prop :=
  match pc with
  | ReqCreated _ s' | ReqUndo _ s' => s' = s
  | ReqSent _ s' delivered => s' = s /\ (delivered = false \/ c = initiator_conn s)
  | _ => False
  end.
(** The task of connection [c] will still remove session [s] if it closes. *)
Definition swept (o : option SocketStatus) (s : ActiveSession) : Prop :=
  match o with
  | Some Serving | Some (ClosingDevices _) | Some ClosingCollect => True
  | Some (ClosingRemove ids) => session_id s ∈ ids
  | Some Closed | None => False
  end.
Definition endpoint (s : ActiveSession) (c : Uuid) : Prop :=
  c = initiator_conn s \/ c = session_device_conn s.

(** What the router holds on to belongs to its request. *)
Definition router_ok (m : SessionManager) (pc : RouterPc) : Prop :=
  match pc with
  | Idle => True
  | ReqStart r | ReqLooked r _ | ReqAllowed r _ => sessions m !! rq_session r = None
  | ReqCreated r s | ReqSent r s _ | ReqUndo r s =>
      session_id s = rq_session r /\ initiator_conn s = msg_conn_id (rq_message r)
  end.

Record race_ok (x : Race) : Prop := {
  race_inner : forall c cl, inner (connections (shared x)) !! c = Some cl ->
    status x !! c = Some Serving;
  race_keyed : keyed (manager (shared x));
  race_router_ok : router_ok (manager (shared x)) (router x);
  race_covered : forall i s c, sessions (manager (shared x)) !! i = Some s -> endpoint s c ->
    swept (status x !! c) s \/ unchecked (router x) s c;
}.

Lemma reject_connections (st : Relay Q) m sid reason :
  connections (reject st m sid reason) = connections st.
Proof.
  unfold reject. destruct to_json; [|done]. unfold relay_send. by destruct send_to.
Qed.
Lemma relay_send_connections (st : Relay Q) c text :
  connections (relay_send st c text).1 = connections st.
Proof. unfold relay_send. by destruct send_to. Qed.
Lemma relay_send_delivered (st : Relay Q) c text :
  (relay_send st c text).2 = true -> is_Some (inner (connections st) !! c).
Proof.
  unfold relay_send, send_to. destruct (inner (connections st) !! c); [by eexists|done].
Qed.

(** A step that leaves statuses and router alone and removes things. *)
Lemma race_ok_shrink x st' :
  (forall c cl, inner (connections st') !! c = Some cl -> inner (connections (shared x)) !! c = Some cl) ->
  (forall i s, sessions (manager st') !! i = Some s -> sessions (manager (shared x)) !! i = Some s) ->
  race_ok x -> race_ok {| shared := st'; status := status x; router := router x |}.
Proof.
  intros Hi Hs [R1 R2 R3 R4]. split; simpl; eauto.
  - intros i s Hl. by apply R2, Hs.
  - destruct (router x); simpl in *; auto;
      destruct (sessions (manager st') !! _) eqn:E; try done; apply Hs in E; congruence.
Qed.

(** A step of the task of connection [c]. *)
Lemma race_ok_status x st' c new :
  (forall d cl, inner (connections st') !! d = Some cl ->
     inner (connections (shared x)) !! d = Some cl /\ d <> c) ->
  (forall i s, sessions (manager st') !! i = Some s ->
     sessions (manager (shared x)) !! i = Some s) ->
  (forall i s, sessions (manager st') !! i = Some s -> endpoint s c ->
     swept (status x !! c) s -> swept (Some new) s) ->
  race_ok x -> race_ok {| shared := st'; status := <[c := new]> (status x); router := router x |}.
Proof.
  intros Hi Hs Hnew [R1 R2 R3 R4]. split; simpl.
  - intros d cl Hd. destruct (Hi d cl Hd) as [? ?]. rewrite lookup_insert_ne by done. eauto.
  - intros i s Hl. by apply R2, Hs.
  - destruct (router x); simpl in *; auto;
      destruct (sessions (manager st') !! _) eqn:E; try done; apply Hs in E; congruence.
  - intros i s d Hl Hd. destruct (R4 i s d (Hs _ _ Hl) Hd) as [Hsw|]; [|by right].
    destruct (decide (d = c)) as [->|Hne].
    + left. rewrite lookup_insert_eq. eauto.
    + left. by rewrite lookup_insert_ne.
Qed.

(** A router step that does not touch the sessions: what it stops watching must
    be swept. *)
Lemma race_ok_router x st' pc' :
  connections st' = connections (shared x) -> manager st' = manager (shared x) ->
  router_ok (manager (shared x)) pc' ->
  (forall i s c, sessions (manager (shared x)) !! i = Some s -> endpoint s c ->
     unchecked (router x) s c -> swept (status x !! c) s \/ unchecked pc' s c) ->
  race_ok x -> race_ok {| shared := st'; status := status x; router := pc' |}.
Proof.
  intros Hc Hm Hok Hun [R1 R2 R3 R4]. split; simpl; rewrite ?Hc, ?Hm; auto.
  intros i s c Hl He. destruct (R4 i s c Hl He); eauto.
Qed.

(** Endpoint [c] is live, so its task has not yet collected. *)
Lemma race_live_swept x c s :
  race_ok x -> is_Some (inner (connections (shared x)) !! c) -> swept (status x !! c) s.
Proof. intros Hx [cl Hc]. by rewrite (race_inner x Hx c cl Hc). Qed.

Lemma race_ok_create x r d s m :
  race_ok x -> router x = ReqAllowed r d ->
  s = requested_session (rq_message r) (rq_device r) d (rq_session r) (rq_version r) (rq_now r) ->
  Sessions.create_session (manager (shared x)) s = (m, Ok tt) ->
  race_ok {| shared := with_manager m (shared x); status := status x; router := ReqCreated r s |}.
Proof.
  intros [R1 R2 R3 R4] Hpc Es Hc. rewrite Hpc in *.
  pose proof (create_session_lookup (manager (shared x)) s) as Hl. rewrite Hc in Hl. simpl in Hl.
  split; simpl; auto.
  - intros i s' Hi. destruct (Hl i s' Hi) as [?|[-> ->]]; auto.
  - by subst s.
  - intros i s' c Hi He. destruct (Hl i s' Hi) as [Hold|[-> ->]]; [|by right].
    destruct (R4 i s' c Hold He) as [?|[]]. by left.
Qed.

Lemma race_ok_undo x r s :
  race_ok x -> router x = ReqUndo r s ->
  race_ok {| shared := reject (with_manager (remove_session (manager (shared x)) (rq_session r)).1
                                 (shared x))
                         (rq_message r) (rq_session r) "device is offline or unknown";
             status := status x; router := Idle |}.
Proof.
  intros [R1 R2 R3 R4] Hpc. rewrite Hpc in *. destruct R3 as [Hid Hc].
  split; simpl; rewrite ?reject_connections, ?reject_manager; auto.
  - intros i s'. simpl. intros [_ Hi]%lookup_delete_Some. by apply R2.
  - intros i s' c. simpl. intros [Hne Hi]%lookup_delete_Some He.
    destruct (R4 i s' c Hi He) as [?|Hun]; [by left|]. simpl in Hun. subst s'.
    apply R2 in Hi. congruence.
Qed.

Lemma race_ok_request x :
  race_ok x ->
  race_ok {| shared := (request_step (shared x) (router x)).1; status := status x;
             router := (request_step (shared x) (router x)).2 |}.
Proof.
  intros Hx. pose proof Hx as [R1 R2 R3 R4].
  assert (forall m sid reason, (forall s c, ~ unchecked (router x) s c) ->
    race_ok {| shared := reject (shared x) m sid reason; status := status x; router := Idle |}) as Hrej.
  { intros m sid reason Hun. apply race_ok_router; auto using reject_connections, reject_manager; [done|].
    intros i s c _ _ Hu. by destruct (Hun s c). }
  assert (forall pc', router_ok (manager (shared x)) pc' -> (forall s c, ~ unchecked (router x) s c) ->
    race_ok {| shared := shared x; status := status x; router := pc' |}) as Hgo.
  { intros pc' Hok Hun. apply race_ok_router; auto. intros i s c _ _ Hu. by destruct (Hun s c). }
  destruct (router x) as [|r|r d|r d|r s|r s delivered|r s] eqn:Epc; simpl in R3; cbn [request_step].
  - apply Hgo; [done|]. intros ? ? [].
  - case_bool_decide; simpl; [|apply Hrej; by intros ? ? []].
    destruct device_conn; simpl; [apply Hgo; [done|]|apply Hrej]; by intros ? ? [].
  - destruct get_client; [destruct decide|]; simpl; [apply Hgo; [done|]|apply Hrej..]; by intros ? ? [].
  - destruct (Sessions.create_session _ _) as [m [[]|reason]] eqn:Ec; simpl.
    + by eapply race_ok_create.
    + apply Hrej. by intros ? ? [].
  - destruct to_json as [text|e]; simpl.
    + pose proof (relay_send_connections (shared x) (session_device_conn s) text) as Hc.
      pose proof (relay_send_manager (shared x) (session_device_conn s) text) as Hm.
      pose proof (relay_send_delivered (shared x) (session_device_conn s) text) as Hd.
      destruct (relay_send _ _ _) as [st' delivered]; simpl in *.
      apply race_ok_router; auto. rewrite Epc. intros i s' c Hi He <-. simpl.
      destruct delivered; [|right; split; [done|by left]].
      destruct He as [->| ->]; [right; split; [done|by right]|left].
      apply race_live_swept; auto.
    + apply race_ok_router; auto. rewrite Epc. intros i s' c Hi He <-. right. split; [done|by left].
  - destruct (negb delivered || _) eqn:Eb; simpl.
    + apply race_ok_router; auto. rewrite Epc. intros i s' c Hi He [<- _]. by right.
    + apply orb_false_elim in Eb as [Ed Eg]. apply negb_false_iff in Ed, Eg. subst delivered.
      apply bool_decide_eq_true in Eg.
      apply race_ok_router; auto; [done|]. rewrite Epc. intros i s' c Hi He [<- [?| ->]]; [done|]. left.
      destruct R3 as [_ ->]. apply race_live_swept; [done|].
      unfold get_sender in Eg. by rewrite fmap_is_Some in Eg.
  - by eapply race_ok_undo.
Qed.

Lemma race_ok_step x y : race_step x y -> race_ok x -> race_ok y.
Proof.
  intros Hstep Hx. pose proof Hx as [R1 R2 R3 R4]. destruct Hstep.
  - split; simpl; auto.
    + intros d cl [[<- _]|[Hne Hd]]%lookup_insert_Some; [apply lookup_insert_eq|].
      rewrite lookup_insert_ne; eauto.
    + intros i s d Hi He. destruct (R4 i s d Hi He) as [Hs|?]; [left|by right].
      destruct (decide (d = c)) as [->|]; [by rewrite lookup_insert_eq|by rewrite lookup_insert_ne].
  - apply race_ok_router; auto. intros i s c _ _. by rewrite H1.
  - by apply race_ok_request.
  - apply race_ok_status; auto; simpl; [by intros d cl [? ?]%lookup_delete_Some|done].
  - apply race_ok_status; auto; [|done]. intros d cl Hd. split; [done|]. congruence.
  - apply race_ok_status; auto; [|done]. simpl. intros d cl Hd. split; [done|].
    intros ->. apply R1 in Hd. congruence.
  - apply race_ok_status; auto.
    + intros d cl Hd. split; [done|]. intros ->. apply R1 in Hd. congruence.
    + intros i s Hi He _. simpl. rewrite (R2 i s Hi). apply elem_of_conn_session_ids; [done|].
      exists s. split; [done|]. unfold uses_conn.
      apply orb_true_iff. by destruct He as [->| ->]; [left|right]; apply bool_decide_eq_true.
  - apply race_ok_status; auto; simpl.
    + intros d cl Hd. split; [done|]. intros ->. apply R1 in Hd. congruence.
    + by intros j s [_ ?]%lookup_delete_Some.
    + intros j s [Hne Hj]%lookup_delete_Some He. rewrite H1. simpl.
      apply R2 in Hj. rewrite elem_of_cons. intros [?|?]; [congruence|done].
  - apply race_ok_status; auto.
    + intros d cl Hd. split; [done|]. intros ->. apply R1 in Hd. congruence.
    + intros i s _ _. rewrite H1. by intros ?%elem_of_nil.
  - apply race_ok_shrink; auto. simpl. by intros j s [_ ?]%lookup_delete_Some.
  - apply race_ok_shrink; auto. simpl. by intros d cl [? _]%remove_connection_inner.
  - by apply race_ok_shrink.
Qed.

Lemma race_start_ok : race_ok race_start.
Proof.
  split; unfold keyed; simpl; intros *; rewrite ?lookup_empty; done.
Qed.

(** C7. No session outlives its connections. In any interleaving of the router's
    steps through session requests, of sockets opening and closing (each access of
    [forget_connection] on its own), of sessions ending and stuck viewers being
    cut off: once the task of a connection has finished and the router is between
    requests, no session is bound to that connection, so no session holds a slot
    of its user or device for good. *)
Theorem no_session_outlives_connection x c i s :
  rtc race_step race_start x -> router x = Idle -> status x !! c = Some Closed ->
  sessions (manager (shared x)) !! i = Some s ->
  initiator_conn s <> c /\ session_device_conn s <> c.
Proof.
  intros Hr Hidle Hc Hs.
  assert (race_ok x) as [_ _ _ R4].
  { eapply (invariant_rtc race_step); [apply race_ok_step|exact Hr|apply race_start_ok]. }
  assert (forall d, endpoint s d -> d <> c) as Hd.
  { intros d He ->. destruct (R4 i s c Hs He) as [Hw|Hw]; [by rewrite Hc in Hw|by rewrite Hidle in Hw]. }
  split; apply Hd; [by left|by right].
Qed.

(** The accesses compose to the handler. Run without interference, the steps of
    a session request end in [Idle] and have done exactly what
    [route_session_request] does. *)
Theorem request_steps_refine (st : Relay Q) r :
  request_steps 6 (st, ReqStart r) =
    (route_session_request st (rq_message r) (rq_device r) (rq_key r) (rq_version r)
       (rq_capability r) (rq_session r) (rq_now r), Idle).
Proof.
  unfold route_session_request, routable_device. cbn [request_steps request_step fst snd].
  destruct (bool_decide _); simpl; [|done].
  destruct (device_conn _ _) as [d|]; simpl; [|done].
  destruct (get_client _ d) as [cl|] eqn:Eg; simpl; rewrite ?Eg; [|done].
  destruct decide as [Horg|Horg]; simpl; [|done].
  destruct (Sessions.create_session _ _) as [m [[]|reason]]; simpl; [|done].
  destruct to_json as [text|e]; simpl.
  - destruct (relay_send _ d text) as [st' []]; simpl; [|done].
    by destruct (bool_decide _).
  - done.
Qed.
End RequestSteps.

(** ** Witness *)

(** A user and two devices; a session to the second device is set up, then the
    first device's connection closes. *)
Definition race_client (kind : PrincipalKind) (id : N) : ConnectedClient :=
  {| client_user_id := uuid_from_u128 id; client_org_id := uuid_from_u128 1;
     client_kind := kind; client_sender := id |}.
Definition race_conn (id : N) : Uuid := uuid_from_u128 (10 + id).
Definition race_request3 : Request :=
  {| rq_message := witness_request; rq_device := uuid_from_u128 3; rq_key := "key";
     rq_version := 3; rq_capability := Screenshot; rq_session := uuid_from_u128 99; rq_now := 0 |}.
Definition race_queues3 : Queues (BoundedQueue Message) :=
  <[1%N := witness_queue]> (<[2%N := witness_queue]> (<[3%N := witness_queue]> ∅)).

Abbreviation WRace := (Race (Q := BoundedQueue Message)).
Definition race_opened (x : WRace) (kind : PrincipalKind) (id : N) : WRace :=
  {| shared := with_connections
       (insert_connection (connections (shared x)) (race_conn id) (race_client kind id)) (shared x);
     status := <[race_conn id := Serving]> (status x); router := router x |}.
Definition race_routed (x : WRace) : WRace :=
  {| shared := (request_step (shared x) (router x)).1; status := status x;
     router := (request_step (shared x) (router x)).2 |}.
Definition race_w1 : WRace := race_opened race_start User 1.
Definition race_w2 : WRace := race_opened race_w1 Device 2.
Definition race_w3 : WRace := race_opened race_w2 Device 3.
Definition race_w4 : WRace :=
  {| shared := with_queues race_queues3 (shared race_w3); status := status race_w3;
     router := router race_w3 |}.
Definition race_w5 : WRace :=
  {| shared := shared race_w4; status := status race_w4; router := ReqStart race_request3 |}.
Definition race_w6 : WRace := race_routed race_w5.
Definition race_w7 : WRace := race_routed race_w6.
Definition race_w8 : WRace := race_routed race_w7.
Definition race_w9 : WRace := race_routed race_w8.
Definition race_w10 : WRace := race_routed race_w9.
Definition race_w11 : WRace :=
  {| shared := forget_inner (shared race_w10) (race_conn 2);
     status := <[race_conn 2 := ClosingDevices (race_client Device 2)]> (status race_w10);
     router := router race_w10 |}.
Definition race_w12 : WRace :=
  {| shared := forget_device (shared race_w11) (race_conn 2) (race_client Device 2);
     status := <[race_conn 2 := ClosingCollect]> (status race_w11); router := router race_w11 |}.
Definition race_w13 : WRace :=
  {| shared := shared race_w12;
     status := <[race_conn 2 := ClosingRemove (conn_session_ids (manager (shared race_w12)) (race_conn 2))]>
                 (status race_w12);
     router := router race_w12 |}.
Definition race_w14 : WRace :=
  {| shared := shared race_w13; status := <[race_conn 2 := Closed]> (status race_w13);
     router := router race_w13 |}.

Lemma no_session_outlives_connection_witness :
  rtc race_step race_start race_w14 /\ router race_w14 = Idle /\
  exists s, sessions (manager (shared race_w14)) !! uuid_from_u128 99 = Some s /\
    initiator_conn s <> race_conn 2 /\ session_device_conn s <> race_conn 2.
Proof.
  assert (rtc race_step race_start race_w14) as Hr.
  { apply (rtc_l _ _ race_w1); [apply (race_open race_start); reflexivity|].
    apply (rtc_l _ _ race_w2); [apply (race_open race_w1); vm_compute; reflexivity|].
    apply (rtc_l _ _ race_w3); [apply (race_open race_w2); vm_compute; reflexivity|].
    apply (rtc_l _ _ race_w4); [exact (race_queues race_w3 race_queues3)|].
    apply (rtc_l _ _ race_w5); [apply (race_request race_w4); vm_compute; reflexivity|].
    apply (rtc_l _ _ race_w6); [exact (race_router race_w5)|].
    apply (rtc_l _ _ race_w7); [exact (race_router race_w6)|].
    apply (rtc_l _ _ race_w8); [exact (race_router race_w7)|].
    apply (rtc_l _ _ race_w9); [exact (race_router race_w8)|].
    apply (rtc_l _ _ race_w10); [exact (race_router race_w9)|].
    apply (rtc_l _ _ race_w11); [apply (race_forget_inner race_w10); vm_compute; reflexivity|].
    apply (rtc_l _ _ race_w12); [apply (race_forget_device race_w11); vm_compute; reflexivity|].
    apply (rtc_l _ _ race_w13); [apply (race_collect race_w12); vm_compute; reflexivity|].
    apply rtc_once, (race_closed race_w13). vm_compute. reflexivity. }
  assert (router race_w14 = Idle) as Hi by (vm_compute; reflexivity).
  assert (status race_w14 !! race_conn 2 = Some Closed) as Hc by (vm_compute; reflexivity).
  split; [exact Hr|]. split; [exact Hi|].
  destruct (sessions (manager (shared race_w14)) !! uuid_from_u128 99) as [s|] eqn:Hs.
  - exists s. split; [reflexivity|].
    exact (no_session_outlives_connection race_w14 (race_conn 2) (uuid_from_u128 99) s Hr Hi Hc Hs).
  - exfalso. vm_compute in Hs. discriminate Hs.
Defined.
