(* ===== verification/Socket.v ===== *)
(** * The life of one relay socket

    rivetlink-server/src/websocket/gateway.rs, [handle_socket] and [write_loop]:
    the deadline of the handshake, the registration of the connection, the tasks
    that read and write, their heartbeat, and the end of the connection. What the
    reader makes of a frame and what the end does to the shared state are
    [Gateway]'s [reader_message] and [forget_connection]. *)
From Stdlib Require Import NArith ZArith Lia Strings.String.
From S2P Require Import Prelude Interfaces Instances Protocol Connections Sessions Router Gateway.

(** The reader waits for the socket and the interval, or is busy handing on what
    it read; an aborted task runs up to the next point where it waits. *)
Inductive ReaderTask := Selecting | HandingOn | ReaderOver.
Inductive WriterTask := Receiving | Sending (message : Message) | WriterOver.
(** Registered and not yet greeted, with both tasks, and after the end. *)
Inductive SocketPhase := Refused_ | Greeting | Serving_ | Forgotten.
Record Socket := {
  sk_phase : SocketPhase;
  sk_reader : ReaderTask;
  sk_writer : WriterTask;
  sk_heartbeat : HeartbeatTracker;
  sk_queue : list Message;
  sk_wire : list Message;
}.

Inductive SocketEvent :=
(** Another task sends to the connection's queue; the queue's senders are all
    gone. *)
| Enqueue (message : Message)
| SendersGone
(** The write of the greeting returned, at this time; the tasks start, and
    tokio's interval panics in the reader when its period is zero. *)
| Greeted (ok : bool) (now : N)
| ReadFrame (frame : option (Result Message string)) (now : N)
(** The router's queue took the message, or is closed; or the tunnel frame is
    dealt with. *)
| HandedOn (ok : bool)
| HeartbeatTick (now : N)
| TakesMessage
(** The write of the message the writer took returned, or was given up after 30
    seconds. *)
| Wrote (r : option bool)
(** The wait for either task is over; an aborted task stops. *)
| TaskEnded
| ReaderAborted
| WriterAborted.
Inductive SocketOut :=
| Opened (out : AuthOutcome) (conn_id : Uuid)
| Routed (message : SignalingMessage)
| Forwarded (conn_id : Uuid) (frame : bytes)
| Accepted_ (message : Message)
| FullQueue
| Forgot (conn_id : Uuid).

Section Socket.
Context `{UuidText} `{JsonText}.
Context (stun : option string) (disconnect_timeout_secs heartbeat_interval_secs : N) (conn_id : Uuid).

Definition error_frame (e : string) : Message := Text (json_text (JObject [("error"%string, JString e)])).
(** [handle_socket] up to the greeting: [auth] is what [wait_for_auth] sent and
    came to, if it was done within five seconds. *)
Definition open_socket (challenges : list string) (auth : option (Result AuthOutcome string)) (sent : bool) : Socket * list SocketOut :=
  let socket phase queue wire :=
    {| sk_phase := phase; sk_reader := Selecting; sk_writer := Receiving; sk_heartbeat := heartbeat_new disconnect_timeout_secs 0;
       sk_queue := queue; sk_wire := map Text challenges ++ wire |} in
  match auth with
  | Some (Ok out) => (socket Greeting [] [], [Opened out conn_id])
  | Some (Err e) => (socket Refused_ [] (if sent then [error_frame e] else []), [])
  | None => (socket Refused_ [] (if sent then [error_frame "auth timeout"] else []), [])
  end.

Definition with_reader (r : ReaderTask) (h : HeartbeatTracker) (s : Socket) : Socket :=
  {| sk_phase := sk_phase s; sk_reader := r; sk_writer := sk_writer s; sk_heartbeat := h; sk_queue := sk_queue s; sk_wire := sk_wire s |}.
Definition with_writer (w : WriterTask) (queue wire : list Message) (s : Socket) : Socket :=
  {| sk_phase := sk_phase s; sk_reader := sk_reader s; sk_writer := w; sk_heartbeat := sk_heartbeat s; sk_queue := queue; sk_wire := wire |}.
Definition with_phase (p : SocketPhase) (h : HeartbeatTracker) (wire : list Message) (s : Socket) : Socket :=
  {| sk_phase := p; sk_reader := sk_reader s; sk_writer := sk_writer s; sk_heartbeat := h; sk_queue := sk_queue s; sk_wire := wire |}.
(** The tasks are there from the greeting on. *)
Definition tasks_run (s : Socket) : bool := match sk_phase s with Serving_ | Forgotten => true | _ => false end.

(** The reader with one item of its stream. *)
Definition reads_frame (out : AuthOutcome) (frame : option (Result Message string)) (now : N) (s : Socket) : Socket * list SocketOut :=
  match reader_message out conn_id frame (sk_heartbeat s) now with
  | None => (with_reader ReaderOver (sk_heartbeat s) s, [])
  | Some (h, ToRouter message) => (with_reader HandingOn h s, [Routed message])
  | Some (h, TunnelFrame data) => (with_reader HandingOn h s, [Forwarded conn_id data])
  | Some (h, Nothing) => (with_reader Selecting h s, [])
  end.
(** The writer: [write_loop], as far as the write that ended. *)
Definition writer_wrote (r : option bool) (message : Message) (s : Socket) : Socket :=
  match r with
  | Some true => with_writer Receiving (sk_queue s) (sk_wire s ++ [message]) s
  | _ => with_writer WriterOver (sk_queue s) (sk_wire s) s
  end.
Definition socket_step (out : AuthOutcome) (s : Socket) (ev : SocketEvent) : Socket * list SocketOut :=
  match ev with
  | Enqueue message =>
      match sk_phase s, sk_writer s with
      | Refused_, _ | _, WriterOver => (s, [FullQueue])
      | _, w =>
          if (length (sk_queue s) <? OUTGOING_QUEUE)%nat then (with_writer w (sk_queue s ++ [message]) (sk_wire s) s, [Accepted_ message])
          else (s, [FullQueue])
      end
  | SendersGone =>
      match tasks_run s, sk_writer s, sk_queue s with
      | true, Receiving, [] => (with_writer WriterOver [] (sk_wire s) s, [])
      | _, _, _ => (s, [])
      end
  | Greeted ok now =>
      match sk_phase s with
      | Greeting =>
          let h := heartbeat_new disconnect_timeout_secs now in
          (with_reader (if (heartbeat_interval_secs =? 0)%N then ReaderOver else Selecting) h
             (with_phase Serving_ h
                (sk_wire s ++ if ok then [Text (authenticated_message (out_kind out) (out_principal_id out) stun)] else []) s), [])
      | _ => (s, [])
      end
  | ReadFrame frame now =>
      match tasks_run s, sk_reader s with true, Selecting => reads_frame out frame now s | _, _ => (s, []) end
  | HandedOn ok =>
      match sk_reader s with HandingOn => (with_reader (if ok then Selecting else ReaderOver) (sk_heartbeat s) s, []) | _ => (s, []) end
  | HeartbeatTick now =>
      match tasks_run s, sk_reader s with
      | true, Selecting => if heartbeat_expired (sk_heartbeat s) now then (with_reader ReaderOver (sk_heartbeat s) s, []) else (s, [])
      | _, _ => (s, [])
      end
  | TakesMessage =>
      match tasks_run s, sk_writer s, sk_queue s with
      | true, Receiving, message :: rest => (with_writer (Sending message) rest (sk_wire s) s, [])
      | _, _, _ => (s, [])
      end
  | Wrote r => match sk_writer s with Sending message => (writer_wrote r message s, []) | _ => (s, []) end
  | TaskEnded =>
      match sk_phase s, sk_reader s, sk_writer s with
      | Serving_, ReaderOver, _ | Serving_, _, WriterOver => (with_phase Forgotten (sk_heartbeat s) (sk_wire s) s, [Forgot conn_id])
      | _, _, _ => (s, [])
      end
  | ReaderAborted => match sk_phase s with Forgotten => (with_reader ReaderOver (sk_heartbeat s) s, []) | _ => (s, []) end
  | WriterAborted => match sk_phase s with Forgotten => (with_writer WriterOver (sk_queue s) (sk_wire s) s, []) | _ => (s, []) end
  end.
Fixpoint socket_steps (out : AuthOutcome) (s : Socket) (evs : list SocketEvent) : Socket * list SocketOut :=
  match evs with
  | [] => (s, [])
  | ev :: evs => let '(s, o) := socket_step out s ev in let '(s, more) := socket_steps out s evs in (s, o ++ more)
  end.
(** [handle_socket] over everything that happens after the handshake. *)
Definition handle_socket (challenges : list string) (auth : option (Result AuthOutcome string)) (sent : bool) (evs : list SocketEvent)
  : Socket * list SocketOut :=
  let '(s, o) := open_socket challenges auth sent in
  match auth with
  | Some (Ok out) => let '(s, more) := socket_steps out s evs in (s, o ++ more)
  | _ => (s, o)
  end.
(** What its outputs do to the shared state of the relay; a message to the
    router is taken by [router_turn] later. *)
Definition socket_effect {Q : Type} `{MpscSender Q Message} `{Serde SignalPacket} (handle : WsSender) (channel : Q) (st : Relay Q) (o : SocketOut)
  : Relay Q :=
  match o with
  | Opened out conn_id => open_connection st out conn_id handle channel
  | Forwarded conn_id frame => (forward_tunnel_frame st conn_id frame).1
  | Forgot conn_id => (forget_connection st conn_id).1
  | _ => st
  end.

(** ** What a socket does *)

Definition forgot (o : SocketOut) : option Uuid := match o with Forgot c => Some c | _ => None end.
Definition opened (o : SocketOut) : option AuthOutcome := match o with Opened out _ => Some out | _ => None end.
Definition accepted (o : SocketOut) : option Message := match o with Accepted_ m => Some m | _ => None end.
Definition handed (o : SocketOut) : option SocketOut := match o with Routed _ | Forwarded _ _ => Some o | _ => None end.
(** What the reader read, and when. *)
Abbreviation Read := (option (Result Message string) * N)%type.
Definition read_of (s : Socket) (ev : SocketEvent) : list Read :=
  match ev, sk_reader s with ReadFrame frame now, Selecting => if tasks_run s then [(frame, now)] else [] | _, _ => [] end.
Fixpoint frames_read (out : AuthOutcome) (s : Socket) (evs : list SocketEvent) : list Read :=
  match evs with [] => [] | ev :: evs => read_of s ev ++ frames_read out (socket_step out s ev).1 evs end.
(** What is to be handed on for a frame, and when the peer last gave a sign of
    life: with the greeting, or a text, tunnel or ping frame. *)
Definition hands (out : AuthOutcome) (r : Read) : option SocketOut :=
  match r.1 with
  | Some (Ok (Text text)) =>
      Some (Routed {| msg_conn_id := conn_id; msg_principal_id := out_principal_id out; msg_org_id := out_org_id out;
                      msg_kind := out_kind out; msg_text := text |})
  | Some (Ok (Binary data)) => Some (Forwarded conn_id data)
  | _ => None
  end.
Definition life_sign (r : Read) : option N :=
  match r.1 with Some (Ok (Text _ | Binary _ | Ping _)) => Some r.2 | _ => None end.
Definition greeted_at (ev : SocketEvent) : option N := match ev with Greeted _ now => Some now | _ => None end.
Definition last_sign (evs : list SocketEvent) (reads : list Read) : N :=
  default 0%N (last (option_list (head (omap greeted_at evs)) ++ omap life_sign reads)).
Definition in_hand (s : Socket) : list Message := match sk_writer s with Sending m => [m] | _ => [] end.

Record socket_ok (out : AuthOutcome) (before : list Message) (s : Socket) (evs : list SocketEvent) (reads : list Read) (o : list SocketOut) : Prop := {
  so_open : sk_phase s <> Refused_;
  so_opened : omap opened o = [];
  so_forgot : omap forgot o = match sk_phase s with Forgotten => [conn_id] | _ => [] end;
  so_over : sk_phase s = Forgotten -> sk_reader s = ReaderOver \/ sk_writer s = WriterOver;
  so_handed : omap handed o = omap (hands out) reads;
  so_wire : exists greeting written lost,
    sk_wire s = before ++ greeting ++ written /\ omap accepted o = written ++ in_hand s ++ lost /\
    (sk_writer s <> WriterOver -> lost = sk_queue s) /\
    (if tasks_run s then greeting = [] \/ greeting = [Text (authenticated_message (out_kind out) (out_principal_id out) stun)]
     else greeting = [] /\ written = []);
  so_room : length (sk_queue s) <= OUTGOING_QUEUE;
  so_heartbeat : tasks_run s = true ->
    sk_heartbeat s = heartbeat_new disconnect_timeout_secs (last_sign evs reads) /\ omap greeted_at evs <> [];
  so_waits : tasks_run s = false -> sk_reader s = Selecting /\ sk_writer s = Receiving /\ omap greeted_at evs = [] /\ reads = [];
}.

Lemma socket_snoc out s evs ev : let '(s1, o) := socket_steps out s evs in
  socket_steps out s (evs ++ [ev]) = ((socket_step out s1 ev).1, o ++ (socket_step out s1 ev).2) /\
  frames_read out s (evs ++ [ev]) = frames_read out s evs ++ read_of s1 ev.
Proof.
  revert s. induction evs as [|e evs IH]; intros s; cbn [app socket_steps frames_read].
  - destruct (socket_step out s ev) as [s1 o1]. cbn. by rewrite !app_nil_r.
  - specialize (IH (socket_step out s e).1). destruct (socket_step out s e) as [s1 o1]. cbn [fst] in *.
    destruct (socket_steps out s1 evs) as [s2 o2]. destruct IH as [-> ->]. by rewrite !app_assoc.
Qed.
Lemma last_sign_other evs reads ev : greeted_at ev = None -> last_sign (evs ++ [ev]) reads = last_sign evs reads.
Proof. intros E. unfold last_sign. rewrite omap_app. cbn. rewrite E. by rewrite app_nil_r. Qed.
Lemma last_sign_later evs reads ev : omap greeted_at evs <> [] -> last_sign (evs ++ [ev]) reads = last_sign evs reads.
Proof. intros E. unfold last_sign. rewrite omap_app. by destruct (omap greeted_at evs). Qed.
Lemma last_sign_read evs reads r : last_sign evs (reads ++ [r]) = default (last_sign evs reads) (life_sign r).
Proof.
  unfold last_sign. rewrite omap_app. cbn. destruct (life_sign r) as [n|]; [|by rewrite app_nil_r].
  by rewrite app_assoc, last_snoc.
Qed.
(** An event that only lets time pass for the statements: nothing is read, and
    nothing but the acceptance of a message comes out. *)
Lemma socket_quiet out before s s' evs reads o o' ev : socket_ok out before s evs reads o ->
  greeted_at ev = None \/ omap greeted_at evs <> [] ->
  sk_phase s' = sk_phase s -> sk_heartbeat s' = sk_heartbeat s -> (tasks_run s = false -> sk_reader s' = sk_reader s /\ sk_writer s' = sk_writer s) ->
  (sk_reader s = ReaderOver -> sk_reader s' = ReaderOver) -> (sk_writer s = WriterOver -> sk_writer s' = WriterOver) ->
  length (sk_queue s') <= OUTGOING_QUEUE -> omap opened o' = [] -> omap forgot o' = [] -> omap handed o' = [] ->
  (forall greeting written lost, sk_wire s = before ++ greeting ++ written -> omap accepted o = written ++ in_hand s ++ lost ->
     (sk_writer s <> WriterOver -> lost = sk_queue s) -> exists more lost', sk_wire s' = before ++ greeting ++ written ++ more /\
     omap accepted (o ++ o') = (written ++ more) ++ in_hand s' ++ lost' /\ (sk_writer s' <> WriterOver -> lost' = sk_queue s') /\
     (tasks_run s = false -> more = [])) ->
  socket_ok out before s' (evs ++ [ev]) reads (o ++ o').
Proof.
  intros [K1 K2 K3 K4 K5 K6 K7 K8 K9] G P Hb W R1 W1 Q O F Hd Wi.
  assert (tasks_run s' = tasks_run s) as T by (unfold tasks_run; by rewrite P).
  assert (last_sign (evs ++ [ev]) reads = last_sign evs reads) as L.
  { destruct G; [by apply last_sign_other|by apply last_sign_later]. }
  split; rewrite ?omap_app, ?P, ?T, ?Hb, ?L, ?O, ?F, ?Hd, ?app_nil_r; try done.
  - intros E. destruct (K4 E); auto.
  - destruct K6 as (greeting & written & lost & Ew & Ea & El & Eg). destruct (Wi _ _ _ Ew Ea El) as (more & lost' & Mw & Ma & Ml & Mn).
    exists greeting, (written ++ more), lost'. split; [exact Mw|]. split; [by rewrite <-omap_app|]. split; [done|].
    destruct (tasks_run s); [done|]. destruct Eg as [-> ->]. by rewrite (Mn eq_refl).
  - intros E. destruct (K8 E) as [Kh Kg]. split; [done|]. intros N. by apply app_eq_nil in N as [N _].
  - intros E. destruct (K9 E) as (A & B & C & D). destruct (W E) as [-> ->]. split_and!; try done. rewrite C.
    destruct G as [G|G]; [|done]. cbn. by rewrite G.
Qed.
Lemma socket_same out before s evs reads o o' ev : socket_ok out before s evs reads o ->
  greeted_at ev = None \/ omap greeted_at evs <> [] -> o' = [] \/ o' = [FullQueue] -> socket_ok out before s (evs ++ [ev]) reads (o ++ o').
Proof.
  intros K G O. apply socket_quiet with (s := s); try done; try apply K; try (by destruct O as [-> | ->]).
  intros greeting written lost Ew Ea El. exists [], lost. rewrite !app_nil_r, omap_app, Ea.
  split; [done|]. split; [|done]. by destruct O as [-> | ->]; cbn; rewrite app_nil_r.
Qed.
Lemma not_greeting out before s evs reads o : socket_ok out before s evs reads o -> sk_phase s <> Greeting -> omap greeted_at evs <> [].
Proof.
  intros [K1 _ _ _ _ _ _ K8 _] N. apply K8. unfold tasks_run. by destruct (sk_phase s).
Qed.
(** The greeting. *)
Lemma greeted_ok out before s evs reads o ok now : socket_ok out before s evs reads o -> sk_phase s = Greeting ->
  socket_ok out before (socket_step out s (Greeted ok now)).1 (evs ++ [Greeted ok now]) reads o.
Proof.
  intros [K1 K2 K3 K4 K5 K6 K7 K8 K9] P. cbn [socket_step]. rewrite P. cbn [fst].
  assert (tasks_run s = false) as T by (unfold tasks_run; by rewrite P). destruct (K9 T) as (A & B & C & ->).
  split; cbn; rewrite ?P in K3; try done.
  - destruct K6 as (greeting & written & lost & Ew & Ea & El & Eg). rewrite T in Eg. destruct Eg as [-> ->]. rewrite Ew, !app_nil_r.
    exists (if ok then [Text (authenticated_message (out_kind out) (out_principal_id out) stun)] else []), [], lost.
    rewrite app_nil_r. split_and!; try done. destruct ok; [by right|by left].
  - intros _. unfold last_sign. rewrite omap_app, C. done.
Qed.
(** The reader. *)
Lemma reads_ok out before s evs reads o frame now : socket_ok out before s evs reads o -> tasks_run s = true -> sk_reader s = Selecting ->
  socket_ok out before (reads_frame out frame now s).1 (evs ++ [ReadFrame frame now]) (reads ++ [(frame, now)]) (o ++ (reads_frame out frame now s).2).
Proof.
  intros [K1 K2 K3 K4 K5 K6 K7 K8 K9] T R. destruct (K8 T) as [Kh Kg].
  assert (forall r h o', reads_frame out frame now s = (with_reader r h s, o') ->
    omap opened o' = [] -> omap forgot o' = [] -> omap accepted o' = [] -> omap handed o' = option_list (hands out (frame, now)) ->
    h = match life_sign (frame, now) with Some n => touch (sk_heartbeat s) n | None => sk_heartbeat s end ->
    socket_ok out before (with_reader r h s) (evs ++ [ReadFrame frame now]) (reads ++ [(frame, now)]) (o ++ o')) as Do.
  { intros r h o' _ O F A Hd Hh. split; rewrite ?omap_app; cbn; rewrite ?O, ?F, ?A, ?app_nil_r; try done.
    - intros E. destruct (K4 E) as [E'|E']; [congruence|by right].
    - rewrite K5. f_equal. rewrite Hd. cbn. by destruct (hands out (frame, now)).
    - change (tasks_run (with_reader r h s)) with (tasks_run s). intros _. split; [|done].
      rewrite last_sign_other, last_sign_read, Hh, Kh by done. by destruct (life_sign (frame, now)).
    - change (tasks_run (with_reader r h s)) with (tasks_run s). by rewrite T. }
  destruct (reads_frame out frame now s) as [s' o'] eqn:E.
  destruct frame as [[[]|]|]; unfold reads_frame in E; cbn [reader_message] in E; injection E as <- <-; cbn [fst snd]; by apply Do.
Qed.
(** The end. *)
Lemma ended_ok out before s evs reads o : socket_ok out before s evs reads o ->
  socket_ok out before (socket_step out s TaskEnded).1 (evs ++ [TaskEnded]) reads (o ++ (socket_step out s TaskEnded).2).
Proof.
  intros K. cbn [socket_step].
  destruct (sk_phase s) eqn:P; try (apply socket_same; by auto).
  assert (sk_reader s = ReaderOver \/ sk_writer s = WriterOver ->
    socket_ok out before (with_phase Forgotten (sk_heartbeat s) (sk_wire s) s) (evs ++ [TaskEnded]) reads (o ++ [Forgot conn_id])) as Do.
  { intros Ov. destruct K as [K1 K2 K3 K4 K5 K6 K7 K8 K9]. assert (tasks_run s = true) as T by (unfold tasks_run; by rewrite P).
    destruct (K8 T) as [Kh Kg]. rewrite T in K6.
    split; rewrite ?omap_app; cbn; rewrite ?app_nil_r, ?K3, ?P; try done.
    intros _. split; [by rewrite last_sign_other|done]. }
  destruct (sk_reader s) eqn:R, (sk_writer s) eqn:W; first [by apply Do; auto | apply socket_same; by auto].
Qed.
Ltac quiet_step s := apply socket_quiet with (s := s); cbn -[OUTGOING_QUEUE]; rewrite ?length_app; cbn -[OUTGOING_QUEUE];
  try done; try lia; auto; try congruence; try (intros; split; congruence).
Lemma socket_step_ok out before s evs reads o ev : socket_ok out before s evs reads o ->
  socket_ok out before (socket_step out s ev).1 (evs ++ [ev]) (reads ++ read_of s ev) (o ++ (socket_step out s ev).2).
Proof.
  intros K. assert (forall o', o' = [] \/ o' = [FullQueue] -> greeted_at ev = None -> socket_ok out before s (evs ++ [ev]) reads (o ++ o')) as Same.
  { intros o' O G. apply socket_same; auto. }
  pose proof (so_room _ _ _ _ _ _ K) as Room. pose proof (so_waits _ _ _ _ _ _ K) as Wt. pose proof (so_open _ _ _ _ _ _ K) as Op.
  destruct ev as [m| |ok now|frame now|ok|now| |r| | |]; cbn [read_of]; rewrite ?app_nil_r.
  - cbn [socket_step]. destruct (sk_phase s) eqn:P; [done|destruct (sk_writer s) eqn:W..]; cbn [fst snd]; try (apply Same; auto);
      (destruct (Nat.ltb_spec (length (sk_queue s)) OUTGOING_QUEUE); [|apply Same; by auto]);
      (quiet_step s;
       intros greeting written lost Ew Ea El; exists [], (lost ++ [m]); rewrite !app_nil_r, omap_app, Ea, <-!app_assoc; unfold in_hand; rewrite W in *; cbn;
       split_and!; try done; intros _; by rewrite El).
  - cbn [socket_step]. destruct (tasks_run s) eqn:T; [|by apply Same; auto]. destruct (sk_writer s) eqn:W; try (by apply Same; auto).
    destruct (sk_queue s) eqn:Q; [|by apply Same; auto]. quiet_step s.
    intros greeting written lost Ew Ea El. exists [], lost. rewrite !app_nil_r, Ea. unfold in_hand. rewrite W. split_and!; done.
  - destruct (sk_phase s) eqn:P; [done| |cbn [socket_step]; rewrite P; cbn [fst snd]..].
    + pose proof (greeted_ok _ _ _ _ _ _ ok now K P) as G. cbn [socket_step] in *. rewrite P in *. cbn [fst snd] in *. by rewrite app_nil_r.
    + apply socket_same; auto. right. apply (not_greeting _ _ _ _ _ _ K). by rewrite P.
    + apply socket_same; auto. right. apply (not_greeting _ _ _ _ _ _ K). by rewrite P.
  - cbn [socket_step]. destruct (sk_reader s) eqn:R, (tasks_run s) eqn:T; rewrite ?(app_nil_r reads); try (apply Same; by auto). by apply reads_ok.
  - cbn [socket_step]. destruct (sk_reader s) eqn:R; try (apply Same; by auto).
    assert (tasks_run s = true) as T by (destruct (tasks_run s); [done|by destruct (Wt eq_refl) as [W _]]).
    quiet_step s.
    intros greeting written lost Ew Ea El. exists [], lost. rewrite !app_nil_r, Ea. split_and!; done.
  - cbn [socket_step]. destruct (tasks_run s) eqn:T; [|by apply Same; auto]. destruct (sk_reader s) eqn:R; try (apply Same; by auto).
    destruct (heartbeat_expired (sk_heartbeat s) now); [|by apply Same; auto].
    quiet_step s.
    intros greeting written lost Ew Ea El. exists [], lost. rewrite !app_nil_r, Ea. split_and!; done.
  - cbn [socket_step]. destruct (tasks_run s) eqn:T; [|by apply Same; auto]. destruct (sk_writer s) eqn:W; try (by apply Same; auto).
    destruct (sk_queue s) as [|m rest] eqn:Q; [by apply Same; auto|].
    cbn in Room; quiet_step s.
    intros greeting written lost Ew Ea El. exists [], rest. rewrite !app_nil_r, Ea. unfold in_hand. rewrite W in *. cbn. rewrite El, Q by done. split_and!; done.
  - cbn [socket_step]. destruct (sk_writer s) as [|m|] eqn:W; try (by apply Same; auto).
    assert (tasks_run s = true) as T by (destruct (tasks_run s); [done|destruct (Wt eq_refl) as [_ [W' _]]; congruence]).
    unfold writer_wrote. cbn [fst snd]. apply socket_quiet with (s := s); try (by destruct r as [[]|]); try (intros; congruence); [by left|].
    intros greeting written lost Ew Ea El. unfold in_hand in *. rewrite W in *. rewrite app_nil_r, Ea.
    destruct r as [[]|]; [exists [m], lost|exists [], (m :: lost)..]; cbn; rewrite Ew, ?app_nil_r, <-?app_assoc; split_and!; try done; intros; [by apply El|congruence].
  - by apply ended_ok.
  - cbn [socket_step]. destruct (sk_phase s) eqn:P; try (apply Same; by auto).
    quiet_step s; [unfold tasks_run; by rewrite P|].
    intros greeting written lost Ew Ea El. exists [], lost. rewrite !app_nil_r, Ea. split_and!; done.
  - cbn [socket_step]. destruct (sk_phase s) eqn:P; try (apply Same; by auto).
    quiet_step s; [unfold tasks_run; by rewrite P|].
    intros greeting written lost Ew Ea El. exists [], (in_hand s ++ lost). rewrite !app_nil_r, Ea. split_and!; try done.
Qed.

Lemma opened_ok challenges out sent : let '(s, o) := open_socket challenges (Some (Ok out)) sent in
  o = [Opened out conn_id] /\ socket_ok out (map Text challenges) s [] [] [].
Proof.
  split; [done|]. split; cbn; try done; [|lia]. exists [], [], []. by rewrite !app_nil_r.
Qed.

(** C9. The life of a socket. One whose handshake failed or took too long is
    told the error and does nothing else. Any other is registered once, before
    all else it does, and forgotten once, exactly when the end of one of its
    tasks is noticed. The peer gets the greeting (unless its write fails) and
    then the messages that the connection's queue of 128 accepted, in order and
    without a gap; what was accepted and not written is the message in hand and
    the queue. Every text and tunnel frame that was read is handed on in order,
    once and under the identity that authenticated. And a heartbeat ends the
    reader exactly when the peer's last text, tunnel or ping frame, or the
    greeting, is longer ago than the timeout. *)
Theorem socket_life challenges auth sent evs : let '(s, o) := handle_socket challenges auth sent evs in
  match auth with
  | Some (Ok out) =>
      let reads := frames_read out (open_socket challenges auth sent).1 evs in
      (exists rest, o = Opened out conn_id :: rest /\ omap opened rest = [] /\
         (sk_phase s <> Forgotten -> omap forgot rest = []) /\
         (sk_phase s = Forgotten -> omap forgot rest = [conn_id] /\ (sk_reader s = ReaderOver \/ sk_writer s = WriterOver))) /\
      (exists greeting written lost, sk_wire s = map Text challenges ++ greeting ++ written /\
         greeting `prefix_of` [Text (authenticated_message (out_kind out) (out_principal_id out) stun)] /\
         (tasks_run s = false -> greeting = [] /\ written = []) /\
         omap accepted o = written ++ in_hand s ++ lost /\ (sk_writer s <> WriterOver -> lost = sk_queue s) /\ length (sk_queue s) <= 128) /\
      omap handed o = omap (hands out) reads /\
      (tasks_run s = true -> sk_reader s = Selecting -> forall now,
         sk_reader (socket_step out s (HeartbeatTick now)).1 = ReaderOver <->
         (from_secs disconnect_timeout_secs < duration_since now (last_sign evs reads))%N)
  | Some (Err e) => o = [] /\ sk_wire s = map Text challenges ++ (if sent then [error_frame e] else [])
  | None => o = [] /\ sk_wire s = map Text challenges ++ (if sent then [error_frame "auth timeout"] else [])
  end.
Proof.
  destruct auth as [[out|e]|]; [|by split..]. unfold handle_socket. pose proof (opened_ok challenges out sent) as O.
  destruct (open_socket _ _ _) as [s0 o0] eqn:E0. destruct O as [-> O]. cbn [fst].
  assert (let '(s, o) := socket_steps out s0 evs in socket_ok out (map Text challenges) s evs (frames_read out s0 evs) o) as K.
  { induction evs as [|ev evs IH] using rev_ind; [exact O|]. pose proof (socket_snoc out s0 evs ev) as S.
    destruct (socket_steps out s0 evs) as [s o]. destruct S as [-> ->].
    pose proof (socket_step_ok _ _ _ _ _ _ ev IH) as K. by destruct (socket_step out s ev). }
  destruct (socket_steps out s0 evs) as [s o]. destruct K as [K1 K2 K3 K4 K5 (greeting & written & lost & K6 & K7 & K8 & K9) K10 K11 K12].
  split_and!; [|exists greeting, written, lost; split_and!|done|]; try done.
  - exists o. split_and!; [done|done| |]; [|intros P; rewrite P in K3; by auto]. rewrite K3. by destruct (sk_phase s).
  - destruct (tasks_run s); [|destruct K9 as [-> _]; apply prefix_nil]. destruct K9 as [-> | ->]; [apply prefix_nil|done].
  - intros T. rewrite T in K9. exact K9.
  - intros T R now. destruct (K11 T) as [Kh _]. cbn [socket_step]. rewrite T, R, Kh. unfold heartbeat_expired. cbn [timeout last_activity heartbeat_new].
    destruct (N.ltb_spec (from_secs disconnect_timeout_secs) (duration_since now (last_sign evs (frames_read out s0 evs)))) as [L|L]; cbn; [by split|].
    rewrite R. split; [done|lia].
Qed.

(** In the shared state a forgotten connection is gone, and stays gone whatever
    its aborted reader still does. *)
Lemma forgotten_is_gone {Q : Type} `{MpscSender Q Message} `{Serde SignalPacket} handle (channel : Q) (st : Relay Q) o1 o2 :
  omap opened o2 = [] ->
  inner (connections (fold_left (socket_effect handle channel) (o1 ++ Forgot conn_id :: o2) st)) !! conn_id = None.
Proof.
  intros O. rewrite fold_left_app. cbn [fold_left]. set (st1 := fold_left _ o1 st).
  assert (forall (st2 : Relay Q) c, inner (connections (forget_connection st2 c).1) !! c = None) as G.
  { intros st2 c. unfold forget_connection. destruct (remove_for_conn _ c) as [m ended]. cbn.
    destruct (inner (remove_connection (connections st2) c) !! c) eqn:E; [|done]. by apply remove_connection_inner in E as [_ []]. }
  specialize (G st1 conn_id). cbn [socket_effect]. revert G. generalize (forget_connection st1 conn_id).1. clear st1.
  assert (forall (st2 st3 : Relay Q) notices, shrinks st2 st3 notices -> inner (connections st2) !! conn_id = None -> inner (connections st3) !! conn_id = None) as Sh.
  { intros st2 st3 notices [S _] N. destruct (inner (connections st3) !! conn_id) eqn:E; [|done]. apply S in E. congruence. }
  induction o2 as [|x o2 IH]; intros st2 G; [done|]. cbn [fold_left].
  apply IH; [by destruct x|]. destruct x; try done; cbn [socket_effect].
  - eapply Sh; [apply forward_tunnel_frame_shrinks|done].
  - eapply Sh; [apply forget_connection_shrinks|done].
Qed.
End Socket.

(** With an interval of zero seconds, a socket that has just been greeted reads
    nothing and is forgotten. *)
Lemma zero_interval_ends_at_once frame now : let '(s, o) := handle_socket None 30 0 (uuid_from_u128 7) [] (Some (Ok
    {| out_principal_id := uuid_from_u128 9; out_org_id := uuid_from_u128 1; out_kind := Device |})) true
    [Greeted true now; ReadFrame frame now; TaskEnded] in sk_phase s = Forgotten /\ omap handed o = [] /\ length (sk_wire s) = 1.
Proof. by split_and!. Qed.

(** A device reads its greeting and a message, sends a text, a tunnel frame and a
    pong, and is then silent. *)
Definition a_device : AuthOutcome := {| out_principal_id := uuid_from_u128 9; out_org_id := uuid_from_u128 1; out_kind := Device |}.
Definition a_life : list SocketEvent :=
  [Enqueue (Text "one"); Greeted true 100; TakesMessage; ReadFrame (Some (Ok (Text "hello"))) 200; HeartbeatTick 250; Enqueue (Text "two");
   HandedOn true; Wrote (Some true); ReadFrame (Some (Ok (Binary [Byte.x01]))) 300; HandedOn true; ReadFrame (Some (Ok (Pong []))) 400; TakesMessage;
   HeartbeatTick 300; HeartbeatTick (from_secs 30 + 301); TaskEnded; ReadFrame (Some (Ok (Text "late"))) (from_secs 31); Wrote None].
Lemma socket_life_witness : let '(s, o) := handle_socket None 30 10 (uuid_from_u128 7) ["challenge"%string] (Some (Ok a_device)) true a_life in
  (exists rest, o = Opened a_device (uuid_from_u128 7) :: rest /\ omap forgot rest = [uuid_from_u128 7]) /\
  omap accepted o = [Text "one"; Text "two"]%string /\ length (sk_wire s) = 3 /\
  omap handed o = [Routed {| msg_conn_id := uuid_from_u128 7; msg_principal_id := uuid_from_u128 9; msg_org_id := uuid_from_u128 1;
                              msg_kind := Device; msg_text := "hello" |}; Forwarded (uuid_from_u128 7) [Byte.x01]].
Proof.
  pose proof (socket_life None 30 10 (uuid_from_u128 7) ["challenge"%string] (Some (Ok a_device)) true a_life) as L.
  assert (let '(s, o) := handle_socket None 30 10 (uuid_from_u128 7) ["challenge"%string] (Some (Ok a_device)) true a_life in
    sk_phase s = Forgotten /\ omap accepted o = [Text "one"; Text "two"]%string /\ length (sk_wire s) = 3) as C by (vm_compute; done).
  destruct (handle_socket _ _ _ _ _ _ _) as [s o]. destruct C as (P & A & W). destruct L as ((rest & E & _ & _ & F) & _ & Hd & _).
  split; [exists rest; split; [exact E|apply (F P)]|]. split; [exact A|]. split; [exact W|]. rewrite Hd. vm_compute. reflexivity.
Defined.
