(* ===== verification/RateLimit.v ===== *)
(** * The per-client rate limiter

    rivetlink-server/src/middleware/rate_limit.rs: a sliding window of request
    times per client key, a bound on the number of keys, and the key of a
    client. The clock reading is an argument of [check]; calls of [check] are
    taken one after the other. *)
From Stdlib Require Import NArith Lia Sorted.
From stdpp Require Import sorting.
From S2P Require Import Prelude.

Definition MAX_TRACKED_KEYS : N := 100000.
Definition SWEEP_INTERVAL : N := from_secs 1.

Record RateLimiter := {
  buckets : gmap string (list N);
  last_sweep : N;
  max_requests : N;
  window : N;
  max_keys : N;
}.

Definition rate_limiter_new (max_requests window now : N) : RateLimiter :=
  {| buckets := ∅; last_sweep := now; max_requests := max_requests; window := window;
     max_keys := MAX_TRACKED_KEYS |}.

Definition with_buckets (b : gmap string (list N)) (l : RateLimiter) : RateLimiter :=
  {| buckets := b; last_sweep := last_sweep l; max_requests := max_requests l;
     window := window l; max_keys := max_keys l |}.

(** [now.duration_since(t) < self.window]. *)
Definition recent (w now t : N) : bool := (duration_since now t <? w)%N.

Definition has_recent (w now : N) (hits : list N) : bool :=
  match list.last hits with Some t => recent w now t | None => false end.

Definition sweep (l : RateLimiter) (now : N) : RateLimiter :=
  if (duration_since now (last_sweep l) <? SWEEP_INTERVAL)%N then l
  else
    {| buckets := filter (fun kv => has_recent (window l) now kv.2 = true) (buckets l);
       last_sweep := now; max_requests := max_requests l; window := window l;
       max_keys := max_keys l |}.

Definition check_entry (l : RateLimiter) (key : string) (now : N)
  : RateLimiter * Result unit N :=
  let entry := filter (fun t => recent (window l) now t = true) (default [] (buckets l !! key)) in
  if (max_requests l <=? len entry)%N
  then
    let oldest := default now (head entry) in
    let remaining := (window l - duration_since now oldest)%N in
    (with_buckets (<[key := entry]> (buckets l)) l, Err (N.max (as_secs remaining) 1))
  else (with_buckets (<[key := entry ++ [now]]> (buckets l)) l, Ok tt).

Definition tracked_keys (l : RateLimiter) : N := N.of_nat (size (buckets l)).

Definition is_full (l : RateLimiter) : bool := (max_keys l <=? tracked_keys l)%N.

Definition check (l : RateLimiter) (key : string) (now : N) : RateLimiter * Result unit N :=
  if is_full l && negb (bool_decide (is_Some (buckets l !! key)))
  then
    let l' := sweep l now in
    if is_full l' then (l', Err (N.max (as_secs (window l')) 1)) else check_entry l' key now
  else check_entry l key now.

(** ** Client keys *)

(** [IpAddr]: four or eight segments; [to_canonical] maps IPv4-mapped IPv6
    addresses to IPv4. *)
Inductive IpAddr :=
| V4 (a b c d : N)
| V6 (s0 s1 s2 s3 s4 s5 s6 s7 : N).
Definition to_canonical (ip : IpAddr) : IpAddr :=
  match ip with
  | V6 0 0 0 0 0 65535 hi lo => V4 (hi / 256) (hi mod 256) (lo / 256) (lo mod 256)
  | _ => ip
  end.

Section Keys.
(** The text of an IPv4 address, a segment in lower hexadecimal, and the
    address parser of the standard library. *)
Context (ipv4_to_string : N -> N -> N -> N -> string).
Context (lower_hex : N -> string).
Context (parse_ip : string -> option IpAddr).

Definition ip_key (ip : IpAddr) : string :=
  match to_canonical ip with
  | V4 a b c d => ipv4_to_string a b c d
  | V6 s0 s1 s2 s3 _ _ _ _ =>
      lower_hex s0 +:+ ":" +:+ lower_hex s1 +:+ ":" +:+ lower_hex s2 +:+ ":" +:+
      lower_hex s3 +:+ "::/64"
  end.

(** The part of a header before the first comma. *)
Fixpoint before_comma (s : string) : string :=
  match s with
  | EmptyString => EmptyString
  | String c s' => if Ascii.eqb c (Ascii.ascii_of_N 44) then EmptyString else String c (before_comma s')
  end.

(** [forwarded_for] is the value of [x-forwarded-for] when it is text; [peer] the
    address of the TCP connection when known. *)
Definition client_key (forwarded_for : option string) (peer : option IpAddr) : string :=
  let forwarded := s ← forwarded_for; parse_ip (trim (before_comma s)) in
  match (match forwarded with Some ip => Some ip | None => peer end) with
  | Some ip => ip_key ip
  | None => "local"
  end.

(** The middleware: run the request, or answer 429 with a [Retry-After]. *)
Definition layer {Response : Type} (l : RateLimiter) (forwarded_for : option string)
    (peer : option IpAddr) (now : N) (next : Response) (too_many_requests : N -> Response)
  : RateLimiter * Response :=
  match check l (client_key forwarded_for peer) now with
  | (l', Ok _) => (l', next)
  | (l', Err retry_after) => (l', too_many_requests retry_after)
  end.
End Keys.

(** ** A history of requests *)

Definition request : Type := string * N.
Definition outcome : Type := request * Result unit N.
Definition request_step (s : RateLimiter * list outcome) (r : request)
  : RateLimiter * list outcome :=
  let '(l', res) := check s.1 r.1 r.2 in (l', s.2 ++ [(r, res)]).
Definition run_requests (l : RateLimiter) (rs : list request) : RateLimiter * list outcome :=
  fold_left request_step rs (l, []).
(** The clock does not go back. *)
Fixpoint times_ok (from : N) (rs : list request) (upto : N) : bool :=
  match rs with
  | [] => (from <=? upto)%N
  | (_, t) :: rs' => (from <=? t)%N && times_ok t rs' upto
  end.

(** The times of the accepted requests of a key, oldest first. *)
Definition accepted (k : string) (out : list outcome) : list N :=
  omap (fun e => if bool_decide (e.1.1 = k) && is_ok e.2 then Some e.1.2 else None) out.
Definition in_window (w now : N) (ts : list N) : list N :=
  filter (fun t => recent w now t = true) ts.

(** ** Lemmas *)

Lemma recent_later w now now' t :
  (now <= now')%N -> recent w now' t = true -> (t <= now)%N -> recent w now t = true.
Proof. unfold recent, duration_since. rewrite !N.ltb_lt. lia. Qed.

Lemma in_window_later w now now' ts :
  (now <= now')%N -> Forall (fun t => t <= now)%N ts ->
  in_window w now' ts = in_window w now' (in_window w now ts).
Proof.
  intros Hle Hts. unfold in_window. rewrite list_filter_filter.
  induction Hts as [|t ts Ht _ IH]; [done|]. rewrite !list.filter_cons, IH.
  destruct (decide (recent w now' t = true)) as [Hr|Hr].
  - rewrite decide_True; [done|]. split; [done|]. by eapply recent_later.
  - rewrite decide_False; [done|]. tauto.
Qed.

(** In a sorted list nothing is recent once the last time is not. *)
Lemma in_window_last w now ts :
  StronglySorted N.le ts -> Forall (fun t => t <= now)%N ts ->
  has_recent w now ts = false ->
  in_window w now ts = [].
Proof.
  intros Hs Hle Hl. unfold in_window, has_recent in *.
  destruct (filter (fun t => recent w now t = true) ts) as [|t l] eqn:E; [done|].
  assert (t ∈ filter (fun t => recent w now t = true) ts) as Hin by (rewrite E; left).
  apply list_elem_of_filter in Hin as [Hr Hin].
  destruct (list.last ts) as [u|] eqn:El; [|apply list.last_None in El; subst; by apply elem_of_nil in Hin].
  assert (t <= u)%N as Htu.
  { apply list.last_Some in El as [ts' ->]. apply elem_of_app in Hin as [Hin|Hin%list_elem_of_singleton]; [|lia].
    apply StronglySorted_app_1_elem_of with (x1 := t) (x2 := u) in Hs; [done|done|by left]. }
  revert Hr Hl. unfold recent, duration_since. rewrite N.ltb_lt, N.ltb_ge. lia.
Qed.

(** The buckets hold the accepted requests of the window. *)
Record limiter_ok (l : RateLimiter) (out : list outcome) (now : N) : Prop := {
  hits_sorted : forall k, StronglySorted N.le (default [] (buckets l !! k));
  hits_past : forall k, Forall (fun t => t <= now)%N (default [] (buckets l !! k));
  accepted_past : forall k, Forall (fun t => t <= now)%N (accepted k out);
  hits_accepted : forall k,
    in_window (window l) now (default [] (buckets l !! k)) =
    in_window (window l) now (accepted k out);
  keys_bounded : (tracked_keys l <= max_keys l)%N;
}.

Lemma limiter_ok_later l out now now' :
  (now <= now')%N -> limiter_ok l out now -> limiter_ok l out now'.
Proof.
  intros Hle [Hs Hp Ha Hh Hk]. split; try done.
  - intros k. eapply list.Forall_impl; [apply Hp|]. simpl. lia.
  - intros k. eapply list.Forall_impl; [apply Ha|]. simpl. lia.
  - intros k. by rewrite (in_window_later _ now), Hh, <-in_window_later.
Qed.

Lemma limiter_ok_sweep l out now : limiter_ok l out now -> limiter_ok (sweep l now) out now.
Proof.
  intros Hok. unfold sweep. destruct N.ltb; [done|]. destruct Hok as [Hs Hp Ha Hh Hk].
  set (b := filter _ _).
  assert (forall k, default [] (b !! k) = default [] (buckets l !! k) \/
          (b !! k = None /\ in_window (window l) now (default [] (buckets l !! k)) = [])) as Hb.
  { intros k. destruct (b !! k) as [hits|] eqn:E.
    - apply map_lookup_filter_Some in E as [E _]. left. by rewrite E.
    - destruct (buckets l !! k) as [hits|] eqn:El; [|left; done]. right. split; [done|].
      specialize (Hs k). specialize (Hp k). rewrite El in Hs, Hp.
      apply in_window_last; [done..|]. simpl in *.
      apply map_lookup_filter_None in E as [E|E]; [congruence|].
      apply E in El. simpl in El. by apply not_true_is_false. }
  split; simpl; try done.
  - intros k. destruct (Hb k) as [->|[-> _]]; [done|constructor].
  - intros k. destruct (Hb k) as [->|[-> _]]; [done|constructor].
  - intros k. destruct (Hb k) as [->|[-> E]]; [done|]. by rewrite <-Hh, E.
  - etrans; [|exact Hk]. unfold tracked_keys. simpl.
    pose proof (map_subseteq_size _ _ (map_filter_subseteq
      (fun kv => has_recent (window l) now kv.2 = true) (buckets l))) as Hb'. unfold b. lia.
Qed.

Lemma sweep_config l now :
  window (sweep l now) = window l /\ max_requests (sweep l now) = max_requests l /\
  max_keys (sweep l now) = max_keys l.
Proof. unfold sweep. by destruct N.ltb. Qed.

Lemma accepted_snoc k out r res :
  accepted k (out ++ [(r, res)]) =
  accepted k out ++ (if bool_decide (r.1 = k) && is_ok res then [r.2] else []).
Proof.
  unfold accepted. rewrite omap_app. f_equal. simpl. by destruct (_ && _).
Qed.

Lemma StronglySorted_filter (f : N -> bool) ts :
  StronglySorted N.le ts -> StronglySorted N.le (filter (fun t => f t = true) ts).
Proof.
  induction 1 as [|t ts Hs IH Ht]; [constructor|]. rewrite list.filter_cons.
  destruct decide; [|done]. constructor; [done|].
  apply list.Forall_forall. intros x [_ Hx]%list_elem_of_filter.
  rewrite list.Forall_forall in Ht. auto.
Qed.

Lemma Forall_filter_le (f : N -> bool) now ts :
  Forall (fun t => t <= now)%N ts -> Forall (fun t => t <= now)%N (filter (fun t => f t = true) ts).
Proof.
  rewrite !list.Forall_forall. intros H x [_ Hx]%list_elem_of_filter. auto.
Qed.

(** Replacing a bucket by [hits], which agree with the accepted requests. *)
Lemma limiter_ok_insert l out out' k hits now :
  limiter_ok l out now ->
  (is_full l = false \/ is_Some (buckets l !! k)) ->
  (forall k', k' <> k -> accepted k' out' = accepted k' out) ->
  StronglySorted N.le hits -> Forall (fun t => t <= now)%N hits ->
  Forall (fun t => t <= now)%N (accepted k out') ->
  in_window (window l) now hits = in_window (window l) now (accepted k out') ->
  limiter_ok (with_buckets (<[k := hits]> (buckets l)) l) out' now.
Proof.
  intros [Hs Hp Ha Hh Hk] Hfull Hother H1 H2 H3 H4.
  split; simpl; [intros k'; destruct (decide (k' = k)) as [->|Hne];
    rewrite ?lookup_insert_eq, ?lookup_insert_ne, ?Hother by done; simpl; done..|].
  unfold tracked_keys in *. simpl.
  destruct (buckets l !! k) as [old|] eqn:E.
  - rewrite map_size_insert_Some by done. done.
  - rewrite map_size_insert_None by done. destruct Hfull as [Hf|[? ?]]; [|done].
    unfold is_full, tracked_keys in Hf. apply N.leb_gt in Hf. lia.
Qed.

Lemma check_entry_ok l out k now :
  limiter_ok l out now -> (is_full l = false \/ is_Some (buckets l !! k)) ->
  let '(l', res) := check_entry l k now in
  limiter_ok l' (out ++ [((k, now), res)]) now /\
  (res = Ok tt <-> (len (in_window (window l) now (accepted k out)) < max_requests l)%N).
Proof.
  intros Hok Hfull. unfold check_entry.
  change (filter _ (default [] (buckets l !! k)))
    with (in_window (window l) now (default [] (buckets l !! k))).
  rewrite (hits_accepted _ _ _ Hok).
  set (entry := in_window (window l) now (accepted k out)).
  assert (Forall (fun t => t <= now)%N entry) as He.
  { apply Forall_filter_le, (accepted_past _ _ _ Hok). }
  assert (StronglySorted N.le entry) as Hse.
  { unfold entry. rewrite <-(hits_accepted _ _ _ Hok).
    apply StronglySorted_filter, (hits_sorted _ _ _ Hok). }
  assert (in_window (window l) now entry = entry) as Hidem.
  { unfold entry, in_window. apply list_filter_filter_l. done. }
  destruct (N.leb_spec (max_requests l) (len entry)) as [Hm|Hm].
  - split; [|split; [done|lia]].
    apply (limiter_ok_insert l out); try done; intros; rewrite ?accepted_snoc; simpl;
      rewrite ?andb_false_r, app_nil_r; [done|apply (accepted_past _ _ _ Hok)|by rewrite Hidem].
  - split; [|done].
    apply (limiter_ok_insert l out); try done.
    + intros k' Hne. rewrite accepted_snoc. simpl. rewrite bool_decide_false by done.
      by rewrite app_nil_r.
    + apply StronglySorted_app. split; [|split; [done|repeat constructor]].
      intros x y Hx ->%list_elem_of_singleton. rewrite list.Forall_forall in He. auto.
    + apply list.Forall_app. split; [done|]. repeat constructor. done.
    + rewrite accepted_snoc. simpl. rewrite bool_decide_true by done.
      apply list.Forall_app. split; [apply (accepted_past _ _ _ Hok)|]. repeat constructor. done.
    + rewrite accepted_snoc. simpl. rewrite bool_decide_true by done.
      unfold in_window. rewrite !list.filter_app. f_equal. exact Hidem.
Qed.

(** What one [check] does. *)
Definition refused_full (l : RateLimiter) (k : string) (now : N) : Prop :=
  is_full (sweep l now) = true /\ buckets l !! k = None.

Lemma check_ok l out k now :
  limiter_ok l out now ->
  let '(l', res) := check l k now in
  limiter_ok l' (out ++ [((k, now), res)]) now /\
  (res = Ok tt <->
     (len (in_window (window l) now (accepted k out)) < max_requests l)%N /\
     ~ refused_full l k now).
Proof.
  intros Hok. unfold check, refused_full.
  destruct (sweep_config l now) as (Ew & Em & Ek).
  pose proof (limiter_ok_sweep _ _ _ Hok) as Hsw.
  destruct (buckets l !! k) as [hits|] eqn:Eb.
  { rewrite bool_decide_true, andb_false_r by done.
    pose proof (check_entry_ok l out k now Hok) as H. rewrite Eb in H.
    specialize (H ltac:(right; done)). destruct (check_entry l k now) as [l' res].
    destruct H as [H ->]. split; [done|]. naive_solver. }
  rewrite bool_decide_false, andb_true_r by (by intros [? ?]).
  destruct (is_full l) eqn:Ef.
  - destruct (is_full (sweep l now)) eqn:Efs.
    + split; [|split; [done|tauto]].
      destruct Hsw as [? ? Ha Hh ?].
      split; try done; intros k'; rewrite accepted_snoc; simpl;
        by rewrite andb_false_r, app_nil_r.
    + pose proof (check_entry_ok _ out k now Hsw (or_introl Efs)) as H.
      destruct (check_entry (sweep l now) k now) as [l' res]. rewrite Ew, Em in H.
      destruct H as [H ->]. split; [done|]. naive_solver.
  - pose proof (check_entry_ok l out k now Hok (or_introl Ef)) as H.
    destruct (check_entry l k now) as [l' res]. destruct H as [H ->]. split; [done|].
    assert (is_full (sweep l now) = false) as ->;
      [|split; [intros Ha; split; [done|by intros [? _]]|by intros [? _]]].
    unfold is_full in *. rewrite Ek. apply N.leb_gt in Ef. apply N.leb_gt.
    eapply N.le_lt_trans; [|exact Ef]. unfold sweep. destruct N.ltb; [done|].
    unfold tracked_keys. simpl.
    pose proof (map_subseteq_size _ _ (map_filter_subseteq
      (fun kv => has_recent (window l) now kv.2 = true) (buckets l))). lia.
Qed.

Lemma check_config l k now :
  window (check l k now).1 = window l /\ max_requests (check l k now).1 = max_requests l /\
  max_keys (check l k now).1 = max_keys l.
Proof.
  destruct (sweep_config l now) as (Ew & Em & Ek).
  unfold check, check_entry. repeat case_goal; simpl; auto.
Qed.

Lemma run_requests_snoc l rs r :
  run_requests l (rs ++ [r]) = request_step (run_requests l rs) r.
Proof. unfold run_requests. by rewrite fold_left_app. Qed.

Lemma times_ok_snoc from rs r upto :
  times_ok from (rs ++ [r]) upto = times_ok from rs r.2 && (r.2 <=? upto)%N.
Proof.
  revert from. induction rs as [|[k t] rs IH]; intros from; destruct r as [k' t']; simpl; [done|].
  by rewrite IH, andb_assoc.
Qed.

Lemma run_requests_ok max w start rs upto :
  times_ok start rs upto = true ->
  let '(l, out) := run_requests (rate_limiter_new max w start) rs in
  limiter_ok l out upto /\ window l = w /\ max_requests l = max /\ max_keys l = MAX_TRACKED_KEYS.
Proof.
  revert upto. induction rs as [|r rs IH] using rev_ind; intros upto Ht.
  - unfold run_requests; simpl. split; [|done]. apply N.leb_le in Ht.
    split; simpl; intros; rewrite ?lookup_empty; simpl; try constructor.
    unfold tracked_keys. simpl. rewrite map_size_empty. done.
  - rewrite times_ok_snoc in Ht. apply andb_prop in Ht as [Ht Hu%N.leb_le].
    specialize (IH _ Ht). rewrite run_requests_snoc. unfold request_step.
    destruct (run_requests _ rs) as [l out]. destruct IH as (Hok & Hw & Hm & Hk). simpl.
    pose proof (check_ok l out r.1 r.2 Hok) as Hc. pose proof (check_config l r.1 r.2) as Hcf.
    destruct (check l r.1 r.2) as [l' res]. destruct Hc as [Hc _], Hcf as (E1 & E2 & E3).
    simpl in *. destruct r as [k t]. split; [by eapply limiter_ok_later|].
    by rewrite E1, E2, E3.
Qed.

(** ** Properties *)

(** C28. The quota. After any requests of any clients at non-decreasing times,
    with every sweep they cause, a request of client [k] at time [now] is accepted
    exactly when fewer than [max] requests of [k] were accepted in the window
    before it and [k] is not a new key on a map still full after sweeping. So no
    window ever holds more than [max] accepted requests of a client, sweeping
    never resets a quota, and the map never outgrows [MAX_TRACKED_KEYS]. *)
Theorem rate_limit_quota max w start rs k now :
  times_ok start rs now = true ->
  let '(l, out) := run_requests (rate_limiter_new max w start) rs in
  ((check l k now).2 = Ok tt <->
     (len (in_window w now (accepted k out)) < max)%N /\ ~ refused_full l k now) /\
  (tracked_keys l <= MAX_TRACKED_KEYS)%N /\ (tracked_keys (check l k now).1 <= MAX_TRACKED_KEYS)%N.
Proof.
  intros Ht. pose proof (run_requests_ok max w start rs now Ht) as H.
  destruct (run_requests _ rs) as [l out]. destruct H as (Hok & <- & <- & <-).
  pose proof (check_ok l out k now Hok) as Hc. pose proof (check_config l k now) as Hcf.
  destruct (check l k now) as [l' res]. destruct Hc as [Hc ->], Hcf as (_ & _ & E).
  split; [done|]. split; [apply Hok|]. rewrite <-E. apply Hc.
Qed.

Lemma rate_limit_quota_witness :
  let rs := [("a", 1%N); ("b", 1%N); ("a", 2%N)] in
  let '(l, out) := run_requests (rate_limiter_new 2 10 0) rs in
  (check l "a" 10).2 <> Ok tt /\ (check l "a" 11).2 = Ok tt.
Proof.
  intros rs.
  assert (times_ok 0 rs 10 = true) as H10 by reflexivity.
  assert (times_ok 0 rs 11 = true) as H11 by reflexivity.
  pose proof (rate_limit_quota 2 10 0 rs "a" 10 H10) as Q10.
  pose proof (rate_limit_quota 2 10 0 rs "a" 11 H11) as Q11.
  destruct (run_requests (rate_limiter_new 2 10 0) rs) as [l out] eqn:E.
  vm_compute in E. apply pair_eq in E as [<- <-].
  destruct Q10 as [Q10 _], Q11 as [Q11 _]. rewrite Q10, Q11. split.
  - intros [Hlt _]. vm_compute in Hlt. discriminate Hlt.
  - split; [vm_compute; reflexivity|]. intros [_ Hb]. vm_compute in Hb. discriminate Hb.
Defined.

(** The advertised retry time can be too early. The remaining time is rounded
    down to whole seconds, so a client that waits exactly the advertised
    [Retry-After] can be refused again, although the limiter's documentation
    calls it the time the caller should wait. *)
Theorem retry_after_can_be_early :
  exists l now retry,
    (check l "k" now).2 = Err retry /\
    is_ok (check (check l "k" now).1 "k" (now + from_secs retry)).2 = false.
Proof.
  exists (run_requests (rate_limiter_new 1 (from_secs 60) 0) [("k", 0%N)]).1,
    (from_secs 1 / 2)%N, 59%N.
  split; vm_compute; reflexivity.
Qed.
