(* ===== verification/Trusted.v ===== *)
(** * The trusted-client store and the console state machine

    rivetlink-agent/src/error.rs, trusted.rs and console/state.rs, with the
    file writes of rivetlink-core/src/secure_file.rs. A disk is a map from
    paths to contents; an operation on it takes the fault it meets. *)
From Stdlib Require Import NArith Lia Strings.String Strings.Byte.
From S2P Require Import Prelude Interfaces Instances Protocol.

Inductive AgentError :=
| Config (message : string)
| Keystore (message : string)
| Relay (message : string)
| Io (message : string)
| SerdeError (message : string)
| Base64Error (message : string)
| WebSocket (message : string)
| Lan (message : string)
| Input (message : string)
| Share (message : string).
#[export] Instance AgentError_eq_dec : EqDecision AgentError.
Proof. solve_decision. Defined.
Definition AgentError_display (e : AgentError) : string :=
  (match e with
  | Config m => "config error: " ++ m
  | Keystore m => "keystore error: " ++ m
  | Relay m => "relay connection error: " ++ m
  | Io m => "io error: " ++ m
  | SerdeError m => "serialization error: " ++ m
  | Base64Error m => "invalid base64: " ++ m
  | WebSocket m => "websocket error: " ++ m
  | Lan m => "direct-LAN error: " ++ m
  | Input m => "input injection error: " ++ m
  | Share m => m
  end)%string.

(** ** Files *)

Abbreviation Disk := (gmap string bytes).

(** What goes wrong in one [write_secret]: creating the directories or opening
    the file, or writing after some bytes already landed. *)
Inductive WriteFault :=
| NoFault
| OpenFails (message : string)
| WriteFails (written : nat) (message : string).

(** The file is truncated when it is opened. *)
Definition write_secret (fault : WriteFault) (path : string) (contents : bytes) (disk : Disk)
  : Disk * Result unit string :=
  match fault with
  | NoFault => (<[path := contents]> disk, Ok tt)
  | OpenFails m => (disk, Err m)
  | WriteFails n m => (<[path := take n contents]> disk, Err m)
  end.

(** [std::fs::read_to_string], with an error for a file that is not UTF-8 left
    to [from_json]. *)
Definition read_to_string (fault : option string) (path : string) (disk : Disk)
  : Result string string :=
  match fault with
  | Some m => Err m
  | None => ok_or (from_utf8 <$> disk !! path) "No such file or directory"
  end.

(** ** The store *)

Record TrustedEntry := {
  name : string;
  can_view : bool;
  can_control : bool;
  can_unattended_console : bool;
}.
#[export] Instance TrustedEntry_eq_dec : EqDecision TrustedEntry.
Proof. solve_decision. Defined.
#[export] Instance TrustedEntry_countable : Countable TrustedEntry.
Proof.
  refine (inj_countable' (fun e => (name e, can_view e, can_control e, can_unattended_console e))
    (fun '(n, v, c, u) => {| name := n; can_view := v; can_control := c;
                             can_unattended_console := u |}) _).
  by intros [].
Defined.

Abbreviation StoredFile := (gmap string TrustedEntry).
Record TrustedClients := { path : string; entries : StoredFile }.

(** [serde_json::to_string_pretty]. *)
Class SerdePretty (A : Type) := { to_json_pretty : A -> Result string string }.
Class SerdePrettyLaws (A : Type) `{Serde A} `{SerdePretty A} := {
  from_to_json_pretty : forall (a : A) s, to_json_pretty a = Ok s -> from_json s = Ok a;
}.

Section Store.
Context `{Serde StoredFile} `{SerdePretty StoredFile}.

Definition load_or_empty (fault : option string) (p : string) (disk : Disk)
  : Result TrustedClients AgentError :=
  match disk !! p with
  | Some _ =>
      let? body := map_err Io (read_to_string fault p disk) in
      let? stored := map_err SerdeError (from_json body) in
      Ok {| path := p; entries := stored |}
  | None => Ok {| path := p; entries := ∅ |}
  end.

Definition get (t : TrustedClients) (public_key_b64 : string) : option TrustedEntry :=
  entries t !! trim public_key_b64.
Definition is_trusted (t : TrustedClients) (public_key_b64 : string) : bool :=
  bool_decide (is_Some (entries t !! trim public_key_b64)).

Definition save (fault : WriteFault) (t : TrustedClients) (disk : Disk)
  : Disk * Result unit AgentError :=
  match to_json_pretty (entries t) with
  | Err e => (disk, Err (SerdeError e))
  | Ok s =>
      let '(disk', r) := write_secret fault (path t) (as_bytes s) disk in
      (disk', map_err Io r)
  end.

(** The entry is in memory even when it cannot be saved. *)
Definition trust (fault : WriteFault) (public_key_b64 : string) (entry : TrustedEntry)
  (t : TrustedClients) (disk : Disk) : TrustedClients * Disk * Result unit AgentError :=
  let t' := {| path := path t; entries := <[trim public_key_b64 := entry]> (entries t) |} in
  let '(disk', r) := save fault t' disk in (t', disk', r).
Definition revoke (fault : WriteFault) (public_key_b64 : string)
  (t : TrustedClients) (disk : Disk) : TrustedClients * Disk * Result unit AgentError :=
  let t' := {| path := path t; entries := delete (trim public_key_b64) (entries t) |} in
  let '(disk', r) := save fault t' disk in (t', disk', r).

Definition trusted_len (t : TrustedClients) : nat := size (entries t).
Definition trusted_is_empty (t : TrustedClients) : bool := bool_decide (entries t = ∅).

Definition may_control_unattended_console (t : TrustedClients) (public_key_b64 : string) : bool :=
  match get t public_key_b64 with
  | Some entry => can_view entry && can_control entry && can_unattended_console entry
  | None => false
  end.
Definition may_view_unattended_console (t : TrustedClients) (public_key_b64 : string) : bool :=
  match get t public_key_b64 with
  | Some entry => can_view entry && can_unattended_console entry
  | None => false
  end.

(** ** Histories of the owner's changes *)

Inductive StoreOp :=
| Trust (key : string) (entry : TrustedEntry)
| Revoke (key : string).
Definition run_op (fault : WriteFault) (op : StoreOp) (s : TrustedClients * Disk)
  : TrustedClients * Disk * Result unit AgentError :=
  match op with
  | Trust key entry => trust fault key entry s.1 s.2
  | Revoke key => revoke fault key s.1 s.2
  end.
Fixpoint run_ops (ops : list (WriteFault * StoreOp)) (s : TrustedClients * Disk)
  : TrustedClients * Disk :=
  match ops with
  | [] => s
  | (fault, op) :: ops' => run_ops ops' (run_op fault op s).1
  end.

(** What the owner last said about a key. *)
Definition op_key (op : StoreOp) : string :=
  match op with Trust key _ => trim key | Revoke key => trim key end.
Definition op_entry (op : StoreOp) : option TrustedEntry :=
  match op with Trust _ entry => Some entry | Revoke _ => None end.
Fixpoint last_word (ops : list (WriteFault * StoreOp)) (key : string)
  (before : option TrustedEntry) : option TrustedEntry :=
  match ops with
  | [] => before
  | (_, op) :: ops' =>
      last_word ops' key
        (if decide (op_key op = trim key) then op_entry op else before)
  end.

Lemma run_op_entries fault op s :
  path (run_op fault op s).1.1 = path s.1 /\
  entries (run_op fault op s).1.1 =
    match op_entry op with
    | Some e => <[op_key op := e]> (entries s.1)
    | None => delete (op_key op) (entries s.1)
    end.
Proof.
  destruct op as [key e|key]; simpl; unfold trust, revoke;
    destruct save as [disk' r]; done.
Qed.

Lemma run_ops_get ops s key :
  entries (run_ops ops s).1 !! trim key = last_word ops key (entries s.1 !! trim key) /\
  path (run_ops ops s).1 = path s.1.
Proof.
  revert s. induction ops as [|[fault op] ops IH]; intros s; simpl; [done|].
  destruct (run_op_entries fault op s) as [P E].
  destruct (IH (run_op fault op s).1) as [-> ->]. rewrite E, P. split; [|done]. f_equal.
  destruct (decide (op_key op = trim key)) as [<-|Hne]; destruct (op_entry op);
    rewrite ?lookup_insert_eq, ?lookup_delete_eq, ?lookup_insert_ne, ?lookup_delete_ne; done.
Qed.
End Store.

Section Properties.
Context `{Serde StoredFile} `{SerdePretty StoredFile} `{!SerdePrettyLaws StoredFile}.

(** The trust store answers with the owner's last word, and keeps it. After
    any history of [trust] and [revoke] calls, failed saves included, the entry
    of a key (however padded with white space) is the one last given for it;
    console viewing and control need exactly the flags of that entry; and when
    the last call succeeded, loading the file gives the same store. *)
Theorem trust_store_last_word ops fault op t disk key t' disk' r :
  run_op fault op (run_ops ops (t, disk)) = (t', disk', r) ->
  let entry := last_word (ops ++ [(fault, op)]) key (get t key) in
  get t' key = entry /\
  is_trusted t' key = bool_decide (is_Some entry) /\
  may_view_unattended_console t' key =
    match entry with Some e => can_view e && can_unattended_console e | None => false end /\
  may_control_unattended_console t' key =
    match entry with
    | Some e => can_view e && can_control e && can_unattended_console e | None => false end /\
  (r = Ok tt -> load_or_empty None (path t) disk' = Ok t').
Proof.
  intros E entry.
  assert (run_ops (ops ++ [(fault, op)]) (t, disk) = (t', disk')) as R.
  { clear entry. revert E. generalize (t, disk). induction ops as [|[f o] ops IH]; intros s E; simpl in *.
    - by rewrite E.
    - by apply IH. }
  destruct (run_ops_get (ops ++ [(fault, op)]) (t, disk) key) as [G P]. rewrite R in G, P.
  simpl in G, P. assert (get t' key = entry) as Ge by done.
  unfold may_view_unattended_console, may_control_unattended_console, is_trusted.
  unfold get in Ge. fold (get t' key) in *. rewrite Ge. do 4 (split; [done|]).
  intros ->. clear entry Ge G R.
  assert (save fault t' (run_ops ops (t, disk)).2 = (disk', Ok tt)) as S.
  { destruct op; simpl in E; unfold trust, revoke in E;
      destruct save as [d [[]|]] eqn:Es; simplify_eq; done. }
  unfold save in S. destruct to_json_pretty as [s|] eqn:J; [|done].
  destruct fault; simpl in S; simplify_eq.
  unfold load_or_empty, read_to_string. rewrite <-P, lookup_insert_eq. simpl.
  rewrite from_utf8_as_bytes, (from_to_json_pretty _ _ J). by destruct t'.
Qed.
End Properties.

(** ** The console state machine *)

Record ConsoleObservation := {
  broker_online : bool;
  gdm_active : bool;
  desktop_active : bool;
  desktop_locked : bool;
}.
Definition switching : ConsoleObservation :=
  {| broker_online := true; gdm_active := false; desktop_active := false;
     desktop_locked := false |}.

Record ConsoleStateMachine := { state : HostConsoleState; generation : N }.
Definition console_default : ConsoleStateMachine := {| state := Booting; generation := 0 |}.

Definition state_for (observation : ConsoleObservation) (previous : HostConsoleState)
  : HostConsoleState :=
  if negb (broker_online observation) then Offline
  else if gdm_active observation then GdmLogin
  else if desktop_active observation then
    if desktop_locked observation then SessionLocked else DesktopReady
  else match previous with
       | Booting | Offline => Booting
       | GdmLogin => SessionStarting
       | DesktopReady | SessionLocked => SessionSwitching
       | SessionStarting | SessionSwitching => SessionSwitching
       end.

Definition observe (observation : ConsoleObservation) (m : ConsoleStateMachine)
  : ConsoleStateMachine * option (HostConsoleState * N) :=
  let next := state_for observation (state m) in
  if decide (next = state m) then (m, None)
  else
    let m' := {| state := next; generation := N.min (generation m + 1) u64_max |} in
    (m', Some (next, generation m')).
Definition current (m : ConsoleStateMachine) : HostConsoleState * N := (state m, generation m).

(** Observe in turn; the reports made. *)
Fixpoint observe_all (os : list ConsoleObservation) (m : ConsoleStateMachine)
  : ConsoleStateMachine * list (HostConsoleState * N) :=
  match os with
  | [] => (m, [])
  | o :: os' =>
      let '(m', r) := observe o m in
      let '(m'', rs) := observe_all os' m' in
      (m'', match r with Some x => x :: rs | None => rs end)
  end.

(** The reports number the changes: consecutive generations after [g], every
    report a state other than the one before it. *)
Fixpoint reports_follow (s : HostConsoleState) (g : N) (rs : list (HostConsoleState * N)) : Prop :=
  match rs with
  | [] => True
  | (s', g') :: rs' => s' <> s /\ g' = (g + 1)%N /\ reports_follow s' g' rs'
  end.

Lemma observe_state o m : state (observe o m).1 = state_for o (state m).
Proof. unfold observe. by case_decide as E; simpl; rewrite ?E. Qed.

Lemma observe_quiet o m : state_for o (state m) = state m -> (observe o m).2 = None.
Proof. unfold observe. intros E. by rewrite decide_True. Qed.

Lemma last_cons_default {A} (x : A) l d : List.last (x :: l) d = List.last l x.
Proof. revert x d. induction l as [|y l IH]; intros x d; [done|].
  change (List.last (x :: y :: l) d) with (List.last (y :: l) d). by rewrite !IH.
Qed.

Lemma observe_all_reports os s g m rs :
  observe_all os {| state := s; generation := g |} = (m, rs) ->
  (g + len os < u64_max)%N ->
  reports_follow s g rs /\ current m = List.last rs (s, g) /\ generation m = (g + len rs)%N.
Proof.
  revert s g m rs. induction os as [|o os IH]; intros s g m rs E Hb; cbn [observe_all] in E.
  { simplify_eq. unfold len. simpl. split; [done|]. split; [done|]. lia. }
  unfold len in *. cbn [length] in Hb. unfold observe in E. cbn [state generation] in E.
  case_decide as Hn.
  - destruct observe_all as [m'' rs''] eqn:Er. simplify_eq. eapply IH; [done|]. lia.
  - destruct (observe_all os _) as [m'' rs''] eqn:Er. simplify_eq.
    rewrite N.min_l in * by (unfold u64_max in *; lia).
    apply IH in Er as (R & C & G); [|lia]. cbn [length reports_follow].
    split; [done|]. split; [|lia]. by rewrite C, last_cons_default.
Qed.

(** The console lifecycle seen by clients. Whatever the seat discovery
    observes, the reports are exactly the changes of state: each differs from
    the one before and carries the next generation (until u64::MAX changes),
    the last one is the current state, and a greeter or desktop on the screen
    is reported as such at once, whatever came before; an unchanged
    observation is reported once, or twice while a login hands over. *)
Theorem console_reports_changes os o s g m rs :
  observe_all os {| state := s; generation := g |} = (m, rs) ->
  (g + len os < u64_max)%N ->
  reports_follow s g rs /\
  current m = List.last rs (s, g) /\
  generation m = (g + len rs)%N /\
  (broker_online o = true -> gdm_active o = true -> state (observe o m).1 = GdmLogin) /\
  (broker_online o = true -> gdm_active o = false -> desktop_active o = true ->
    state (observe o m).1 = if desktop_locked o then SessionLocked else DesktopReady) /\
  (broker_online o = false -> state (observe o m).1 = Offline) /\
  (observe o (observe o (observe o m).1).1).2 = None.
Proof.
  intros E Hb. destruct (observe_all_reports os s g m rs E Hb) as (R & C & G).
  split; [done|]. split; [done|]. split; [done|].
  rewrite !observe_state. unfold state_for.
  repeat split; intros; repeat match goal with H : _ = _ |- _ => rewrite H end; try done.
  apply observe_quiet. rewrite !observe_state. generalize (state m). destruct o as [[] [] [] []]; intros []; reflexivity.
Qed.

(** ** Witnesses *)

#[local] Existing Instance toy_serde.
#[local] Instance toy_pretty : SerdePretty StoredFile := {| to_json_pretty := to_json |}.
#[local] Instance toy_pretty_laws : SerdePrettyLaws StoredFile.
Proof. split. intros a s E. by apply (@from_to_json _ _ (toy_serde_laws StoredFile)). Qed.

Definition witness_entry : TrustedEntry :=
  {| name := "laptop"; can_view := true; can_control := false; can_unattended_console := true |}.
Definition witness_store : TrustedClients * Disk := ({| path := "t.json"; entries := ∅ |}, ∅).
Definition witness_ops : list (WriteFault * StoreOp) :=
  [(OpenFails "full", Trust "KEY " witness_entry); (WriteFails 1 "full", Revoke "OTHER")].

Lemma trust_store_last_word_witness :
  let w := run_op NoFault (Trust "K2" witness_entry) (run_ops witness_ops witness_store) in
  may_view_unattended_console w.1.1 " KEY" = true /\
  may_control_unattended_console w.1.1 " KEY" = false /\
  load_or_empty None "t.json" w.1.2 = Ok w.1.1.
Proof.
  intros w. subst w.
  destruct (run_op NoFault (Trust "K2" witness_entry) (run_ops witness_ops witness_store))
    as [[t' disk'] r] eqn:E.
  assert (r = Ok tt) as Hr by (vm_compute in E; by inversion E).
  destruct (trust_store_last_word witness_ops NoFault (Trust "K2" witness_entry)
    witness_store.1 witness_store.2 " KEY" t' disk' r E) as (_ & _ & V & C & L).
  cbn [fst snd]. split; [rewrite V; vm_compute; reflexivity|].
  split; [rewrite C; vm_compute; reflexivity|by apply L].
Defined.

Definition witness_observations : list ConsoleObservation :=
  [{| broker_online := true; gdm_active := true; desktop_active := false; desktop_locked := false |};
   switching; switching;
   {| broker_online := true; gdm_active := false; desktop_active := true; desktop_locked := false |}].

Lemma console_reports_changes_witness :
  current (observe_all witness_observations console_default).1 = (DesktopReady, 4%N) /\
  (observe_all witness_observations console_default).2 =
    [(GdmLogin, 1%N); (SessionStarting, 2%N); (SessionSwitching, 3%N); (DesktopReady, 4%N)].
Proof.
  destruct (console_reports_changes witness_observations switching Booting 0
    (observe_all witness_observations console_default).1
    (observe_all witness_observations console_default).2) as (_ & C & _).
  - reflexivity.
  - reflexivity.
  - split; [rewrite C; reflexivity|reflexivity].
Defined.
