(* ===== verification/Host.v ===== *)
(** * The host's session state machine

    rivetlink-agent/src/session/host.rs. [ScreenshotHost] is a record; a
    handler is a state-and-error computation over the host, its disk and a log
    of what it did to the outside world (prompts, captures, injected input).
    What one call meets outside is an argument [HostEnv]: the operator's
    answer, the fault of a save, the ephemeral key, the capture, the outcome of
    an injection and the clock. *)
From Stdlib Require Import NArith Lia Strings.String Strings.Byte.
From S2P Require Import Prelude Interfaces Instances Protocol Sealed Handshake Trusted.

(** Base64 characters per chunk. *)
Definition CHUNK_CHARS : N := 48 * 1024.

Inductive ConsentPolicy :=
| Prompt
| HeadlessTrustedOnly (min_capture_interval capture_timeout max_capture_bytes : N)
| UnattendedConsole (min_capture_interval capture_timeout max_capture_bytes : N).

Definition is_unattended (p : ConsentPolicy) : bool :=
  match p with UnattendedConsole _ _ _ => true | _ => false end.
Definition capture_limits (p : ConsentPolicy) : option (N * N) :=
  match p with
  | HeadlessTrustedOnly interval _ max_bytes | UnattendedConsole interval _ max_bytes =>
      Some (interval, max_bytes)
  | Prompt => None
  end.

(** [Iterator::collect] into a [Result]. *)
Fixpoint try_map {A B E} (f : A -> Result B E) (l : list A) : Result (list B) E :=
  match l with
  | [] => Ok []
  | x :: l' => let? y := f x in let? ys := try_map f l' in Ok (y :: ys)
  end.
(** [slice::chunks]: at most [length l] chunks of a positive size. *)
Fixpoint chunks_fuel {A} (fuel n : nat) (l : list A) : list (list A) :=
  match fuel, l with
  | S fuel', _ :: _ => take n l :: chunks_fuel fuel' n (drop n l)
  | _, _ => []
  end.
Definition chunks {A} (n : nat) (l : list A) : list (list A) := chunks_fuel (length l) n l.
(** [usize::div_ceil]. *)
Definition div_ceil (a b : N) : N := (a / b + if (a mod b =? 0)%N then 0 else 1)%N.

(** The answer to the consent prompt; [None] is a failed read. Only ASCII
    letters lower to the letters of the accepted answers. *)
Definition to_lowercase (s : string) : string :=
  from_utf8 (map (fun b => if between 65 90 b then byte_of_N (Byte.to_N b + 32) else b) (as_bytes s)).
Definition prompt_operator (line : option string) : bool :=
  match line with
  | None => false
  | Some line =>
      let answer := to_lowercase (trim line) in
      bool_decide (answer = "y") || bool_decide (answer = "yes")
  end.

Definition is_ascii_alphanumeric (b : byte) : bool :=
  between 48 57 b || between 65 90 b || between 97 122 b.
Definition validate_console_input (event : ConsoleInputPacket) : Result unit AgentError :=
  match event with
  | Key code _ =>
      if (slen code =? 0)%N || (64 <? slen code)%N ||
         negb (forallb (fun b => is_ascii_alphanumeric b || Byte.eqb b Byte.x2d) (as_bytes code))
      then Err (Relay "invalid console key code")
      else Ok tt
  | _ => Ok tt
  end.

Section Encodings.
Context `{Ed25519} `{Base64} `{UuidText} `{!Serde SignalPacket}.

Definition expected_length (n : nat) (raw : bytes) : string :=
  ("expected " ++ pretty n ++ " bytes, got " ++ pretty (len raw))%string.
Definition decode_32 (b64 : string) : Result bytes AgentError :=
  let? raw := map_err Base64Error (b64_decode (trim b64)) in
  if negb (length raw =? 32)%nat then Err (Relay (expected_length 32 raw)) else Ok raw.
Definition decode_64 (b64 : string) : Result bytes AgentError :=
  let? raw := map_err Base64Error (b64_decode (trim b64)) in
  if negb (length raw =? 64)%nat then Err (Relay (expected_length 64 raw)) else Ok raw.
Definition parse_identity (b64 : string) : Result bytes AgentError :=
  let? raw := decode_32 b64 in
  if vk_valid raw then Ok raw else Err (Relay ("bad identity key: " ++ vk_error raw)).

Definition relay_domain : bytes := as_bytes "rivetlink-relay-v2".
Definition relay_kex_binding (session_id : SessionId) (role : bytes) (identity_b64 : string)
  : bytes :=
  relay_domain ++ as_bytes (uuid_to_string session_id) ++ role ++ as_bytes (trim identity_b64).

Definition packet_json (p : SignalPacket) : Result string AgentError :=
  map_err SerdeError (to_json p).
Definition relay_transcript (session_id : SessionId) (client_identity host_identity : string)
  (client_kex host_kex : SignalPacket) : Result bytes AgentError :=
  let? c := packet_json client_kex in
  let? h := packet_json host_kex in
  Ok (relay_domain ++ as_bytes (uuid_to_string session_id) ++
      as_bytes (trim client_identity) ++ as_bytes (trim host_identity) ++
      as_bytes c ++ as_bytes h).

Definition reject (session_id : SessionId) (reason : string) : Result string AgentError :=
  packet_json (SessionRejected session_id reason).

(** The [idx]-th frame of a capture. *)
Definition chunk_frame (session_id : SessionId) (total : N) (ic : nat * bytes)
  : Result string AgentError :=
  let sequence := N.min (N.of_nat ic.1) u32_max in
  packet_json (ScreenshotData session_id sequence total (sequence + 1 =? total)%N
                 (from_utf8_lossy ic.2)).
Definition chunk_payload (session_id : SessionId) (b64 : string)
  : Result (list string) AgentError :=
  let bytes := as_bytes b64 in
  let chunk_count := N.max (div_ceil (len bytes) CHUNK_CHARS) 1 in
  if (u32_max <? chunk_count)%N then Err (Relay "screenshot too large to chunk")
  else
    let cs := chunks (N.to_nat CHUNK_CHARS) bytes in
    try_map (chunk_frame session_id chunk_count) (zip (seq 0 (length cs)) cs).
End Encodings.

(** ** The host and its surroundings *)

(** What a host does to the outside. *)
Inductive HostEvent :=
| Received (packet : SignalPacket)
| Prompted (client_key : string) (approved : bool)
| Captured
| Injected (event : ConsoleInputPacket).

Section Host.
Context `{Ed25519} `{X25519} `{Hash} `{Aead} `{Base64} `{UuidText}.
Context `{!Serde SignalPacket} `{!Serde ConsoleInputPacket}.
Context `{!Serde StoredFile} `{!SerdePretty StoredFile}.

(** [input_sink] and [console_state_provider] say whether one is attached; what
    they answer is in [HostEnv]. *)
Record ScreenshotHost := {
  host_key : SigningKey;
  identity_b64 : string;
  trusted : TrustedClients;
  policy : ConsentPolicy;
  input_sink : bool;
  console_state_provider : bool;
  session_id : option SessionId;
  capability : option SessionCapability;
  client_identity : option bytes;
  local_kex : option LocalKeyExchange;
  channel : option SealedChannel;
  last_capture : option N;
}.

Record HostEnv := {
  prompt_reply : Result (option string) string;
  save_fault : WriteFault;
  new_ephemeral : EphemeralSecret;
  provider_reply : option (HostConsoleState * N);
  capture_reply : ConsentPolicy -> Result bytes AgentError;
  inject_reply : ConsoleInputPacket -> Result unit AgentError;
  now : N;
  now_captured : N;
}.

(** The log has the newest event first. *)
Record HostWorld := { host : ScreenshotHost; disk : Disk; log : list HostEvent }.

Definition host_new (key : SigningKey) (trusted : TrustedClients) (policy : ConsentPolicy)
  : ScreenshotHost :=
  {| host_key := key; identity_b64 := b64_encode (verifying_key key);
     trusted := trusted; policy := policy; input_sink := false;
     console_state_provider := false; session_id := None; capability := None;
     client_identity := None; local_kex := None; channel := None; last_capture := None |}.
Definition with_console_input_sink (h : ScreenshotHost) : ScreenshotHost :=
  {| host_key := host_key h; identity_b64 := identity_b64 h; trusted := trusted h;
     policy := policy h; input_sink := true;
     console_state_provider := console_state_provider h; session_id := session_id h;
     capability := capability h; client_identity := client_identity h;
     local_kex := local_kex h; channel := channel h; last_capture := last_capture h |}.
Definition with_console_state_provider (h : ScreenshotHost) : ScreenshotHost :=
  {| host_key := host_key h; identity_b64 := identity_b64 h; trusted := trusted h;
     policy := policy h; input_sink := input_sink h; console_state_provider := true;
     session_id := session_id h; capability := capability h;
     client_identity := client_identity h; local_kex := local_kex h;
     channel := channel h; last_capture := last_capture h |}.

(** The session fields, replaced together. *)
Definition set_session (sid : option SessionId) (cap : option SessionCapability)
  (client : option bytes) (kex : option LocalKeyExchange) (ch : option SealedChannel)
  (last : option N) (h : ScreenshotHost) : ScreenshotHost :=
  {| host_key := host_key h; identity_b64 := identity_b64 h; trusted := trusted h;
     policy := policy h; input_sink := input_sink h;
     console_state_provider := console_state_provider h; session_id := sid;
     capability := cap; client_identity := client; local_kex := kex; channel := ch;
     last_capture := last |}.
Definition reset (h : ScreenshotHost) : ScreenshotHost :=
  set_session None None None None None None h.
Definition begin_session (sid : SessionId) (cap : SessionCapability) (client : bytes)
  (h : ScreenshotHost) : ScreenshotHost :=
  set_session (Some sid) (Some cap) (Some client) None None None h.
Definition set_local_kex (kex : option LocalKeyExchange) (h : ScreenshotHost) : ScreenshotHost :=
  set_session (session_id h) (capability h) (client_identity h) kex (channel h) (last_capture h) h.
Definition set_channel (ch : SealedChannel) (h : ScreenshotHost) : ScreenshotHost :=
  set_session (session_id h) (capability h) (client_identity h) (local_kex h) (Some ch)
    (last_capture h) h.
Definition set_last_capture (t : N) (h : ScreenshotHost) : ScreenshotHost :=
  set_session (session_id h) (capability h) (client_identity h) (local_kex h) (channel h)
    (Some t) h.
Definition set_trusted (t : TrustedClients) (h : ScreenshotHost) : ScreenshotHost :=
  {| host_key := host_key h; identity_b64 := identity_b64 h; trusted := t;
     policy := policy h; input_sink := input_sink h;
     console_state_provider := console_state_provider h; session_id := session_id h;
     capability := capability h; client_identity := client_identity h;
     local_kex := local_kex h; channel := channel h; last_capture := last_capture h |}.

(** ** Computations *)

Definition HostM (A : Type) : Type := HostWorld -> HostWorld * Result A AgentError.
Definition ret {A} (a : A) : HostM A := fun w => (w, Ok a).
Definition fail {A} (e : AgentError) : HostM A := fun w => (w, Err e).
Definition lift {A} (r : Result A AgentError) : HostM A := fun w => (w, r).
Definition bind {A B} (m : HostM A) (k : A -> HostM B) : HostM B :=
  fun w => match m w with
           | (w', Ok a) => k a w'
           | (w', Err e) => (w', Err e)
           end.
Definition get_host : HostM ScreenshotHost := fun w => (w, Ok (host w)).
Definition modify (f : ScreenshotHost -> ScreenshotHost) : HostM unit :=
  fun w => ({| host := f (host w); disk := disk w; log := log w |}, Ok tt).
Definition emit (ev : HostEvent) : HostM unit :=
  fun w => ({| host := host w; disk := disk w; log := ev :: log w |}, Ok tt).
Local Notation "'let!' x ':=' m 'in' k" := (bind m (fun x => k))
  (at level 10, x pattern, m at level 200, k at level 200).

(** Record an approval in the trusted store. *)
Definition trust_approved (fault : WriteFault) (key : string) : HostM unit :=
  fun w =>
    let '(t, d, r) :=
      trust fault key {| name := "approved-on-connect"; can_view := true; can_control := false;
                         can_unattended_console := false |} (trusted (host w)) (disk w) in
    ({| host := set_trusted t (host w); disk := d; log := log w |}, r).

(** ** Handlers *)

Definition consent (env : HostEnv) (client_key_b64 : string) : HostM bool :=
  let! h := get_host in
  match get (trusted h) client_key_b64 with
  | Some entry =>
      if is_unattended (policy h)
      then ret (may_view_unattended_console (trusted h) client_key_b64)
      else ret (can_view entry)
  | None =>
      match policy h with
      | HeadlessTrustedOnly _ _ _ | UnattendedConsole _ _ _ => ret false
      | Prompt =>
          let! line := lift (map_err (fun e => Config ("consent prompt join error: " ++ e)%string)
                               (prompt_reply env)) in
          let approved := prompt_operator line in
          let! _ := emit (Prompted client_key_b64 approved) in
          if approved
          then let! _ := trust_approved (save_fault env) client_key_b64 in ret approved
          else ret approved
      end
  end.

Definition key_exchange_packet (identity_b64 : string) (sid : SessionId) (kex : LocalKeyExchange)
  : SignalPacket :=
  SessionKeyExchange sid (b64_encode (ephemeral_public kex)) identity_b64
    (b64_encode (signature kex)).
Definition key_exchange_frame (h : ScreenshotHost) (sid : SessionId) (kex : LocalKeyExchange)
  : Result string AgentError :=
  packet_json (key_exchange_packet (identity_b64 h) sid kex).

(** One [SessionRejected] frame. *)
Definition refuse (sid : SessionId) (reason : string) : HostM (list string) :=
  let! f := lift (reject sid reason) in ret [f].

Definition on_session_request (env : HostEnv) (client_public_key : string)
  (protocol_version : N) (requested_capability : SessionCapability)
  (session : option SessionId) : HostM (list string) :=
  let_some sid := session else ret [] in
  if negb (protocol_version =? RELAY_PROTOCOL_VERSION)%N
  then refuse sid "unsupported secure protocol version"
  else
    let! h := get_host in
    if bool_decide (requested_capability = ConsoleControl) && negb (is_unattended (policy h))
    then refuse sid "this host only permits screenshot sessions"
    else
      match parse_identity client_public_key with
      | Err _ => refuse sid "invalid client identity key"
      | Ok client =>
          if bool_decide (requested_capability = ConsoleControl) &&
             negb (may_control_unattended_console (trusted h) client_public_key)
          then refuse sid "local console-control permission is required"
          else
            let! admitted := consent env client_public_key in
            if negb admitted then refuse sid "host operator denied the connection"
            else
              let! _ := modify reset in
              let! _ := modify (begin_session sid requested_capability client) in
              let! h := get_host in
              let kex := start (host_key h) (relay_kex_binding sid (as_bytes "host") (identity_b64 h))
                           (new_ephemeral env) in
              let! kex_frame := lift (key_exchange_frame h sid kex) in
              let! _ := modify (set_local_kex (Some kex)) in
              let! accept := lift (packet_json (SessionAccepted sid Controller)) in
              match console_state_provider h, provider_reply env with
              | true, Some (st, gen) =>
                  let! f := lift (packet_json (HostConsoleStatePacket sid st gen)) in
                  ret [accept; kex_frame; f]
              | _, _ => ret [accept; kex_frame]
              end
      end.

Definition on_key_exchange (sid : SessionId)
  (ephemeral_public_key identity_public_key signature_b64 : string) : HostM (list string) :=
  let! h := get_host in
  if negb (bool_decide (session_id h = Some sid))
  then fail (Relay "client key exchange does not match the active session")
  else
    let! client := lift (ok_or (client_identity h) (Relay "key exchange before session request")) in
    let! asserted := lift (parse_identity identity_public_key) in
    if negb (bool_decide (asserted = client))
    then fail (Relay "client identity changed mid-handshake")
    else
      let! peer_eph := lift (decode_32 ephemeral_public_key) in
      let! peer_sig := lift (decode_64 signature_b64) in
      let! _ := lift (map_err (fun e => Relay ("client key exchange invalid: " ++ CryptoError_display e)%string)
                  (verify_peer client peer_eph peer_sig
                     (relay_kex_binding sid (as_bytes "client") identity_public_key))) in
      let! _ := modify (set_local_kex None) in
      let! kex := lift (ok_or (local_kex h) (Relay "missing local key exchange")) in
      let host_packet := key_exchange_packet (identity_b64 h) sid kex in
      let client_packet :=
        SessionKeyExchange sid ephemeral_public_key identity_public_key signature_b64 in
      let! transcript :=
        lift (relay_transcript sid identity_public_key (identity_b64 h) client_packet host_packet) in
      let! ch := lift (map_err (fun e => Relay ("session key derivation failed: " ++ CryptoError_display e)%string)
                   (into_channel kex peer_eph None transcript Responder)) in
      let! _ := modify (set_channel ch) in
      ret [].

(** One capture, with its bounds in unattended modes. *)
Definition capture (env : HostEnv) : HostM bytes :=
  let! h := get_host in
  let! _ := emit Captured in
  lift (capture_reply env (policy h)).
Definition bounded_capture (env : HostEnv) : HostM bytes :=
  let! h := get_host in
  match capture_limits (policy h) with
  | Some (min_capture_interval, max_capture_bytes) =>
      if negb (bool_decide (capability h = Some ConsoleControl)) &&
         match last_capture h with
         | Some last => (duration_since (now env) last <? min_capture_interval)%N
         | None => false
         end
      then fail (Relay "screenshot rate limited; wait before requesting another capture")
      else
        let! image := capture env in
        if (max_capture_bytes <? len image)%N
        then fail (Relay "captured screenshot exceeds configured size limit")
        else let! _ := modify (set_last_capture (now_captured env)) in ret image
  | None => capture env
  end.

(** [SealedChannel::seal] and [open] on the session's channel. *)
Definition seal_with (ch : SealedChannel) (m : bytes) : HostM (Result bytes CryptoError) :=
  let '(ch', r) := seal ch m in
  let! _ := modify (set_channel ch') in ret r.
Definition open_with (ch : SealedChannel) (m : bytes) : HostM (Result bytes CryptoError) :=
  let '(ch', r) := open ch m in
  let! _ := modify (set_channel ch') in ret r.

Definition on_screenshot_request (env : HostEnv) (sid : SessionId) : HostM (list string) :=
  let! h := get_host in
  if negb (bool_decide (session_id h = Some sid))
  then fail (Relay "screenshot request does not match active session")
  else
    let! ch := lift (ok_or (channel h) (Relay "screenshot requested before key exchange")) in
    let! image := bounded_capture env in
    let! r := seal_with ch image in
    let! sealed := lift (map_err (fun e => Relay ("seal failed: " ++ CryptoError_display e)%string) r) in
    lift (chunk_payload sid (b64_encode sealed)).

Definition on_console_input (env : HostEnv) (sid : SessionId) (payload : string) : HostM unit :=
  let! h := get_host in
  if negb (bool_decide (session_id h = Some sid)) ||
     negb (bool_decide (capability h = Some ConsoleControl))
  then fail (Relay "console input does not match an active control session")
  else if negb (is_unattended (policy h))
  then fail (Relay "console input is unavailable for this host")
  else if (8 * 1024 <? slen payload)%N
  then fail (Relay "console input exceeds size limit")
  else
    let! ch := lift (ok_or (channel h) (Relay "console input arrived before key exchange")) in
    let! sealed := lift (map_err Base64Error (b64_decode payload)) in
    let! r := open_with ch sealed in
    let! plaintext :=
      lift (map_err (fun e => Relay ("console input decrypt failed: " ++ CryptoError_display e)%string) r) in
    let! event := lift (map_err SerdeError (from_json (from_utf8 plaintext))) in
    let! _ := lift (validate_console_input event) in
    if negb (input_sink h) then fail (Relay "console input sink is unavailable")
    else
      let! _ := emit (Injected event) in
      lift (inject_reply env event).

(** [HostHandler::handle]. *)
Definition dispatch (env : HostEnv) (packet : SignalPacket) : HostM (list string) :=
  match packet with
  | SessionRequest _ client_public_key protocol_version requested_capability sid =>
      on_session_request env client_public_key protocol_version requested_capability sid
  | SessionKeyExchange sid ephemeral_public_key identity_public_key signature_b64 =>
      on_key_exchange sid ephemeral_public_key identity_public_key signature_b64
  | ScreenshotRequest sid =>
      fun w =>
        match on_screenshot_request env sid w with
        | (w', Ok frames) => (w', Ok frames)
        | (w', Err error) =>
            (let! _ := modify reset in
             refuse sid ("screenshot unavailable: " ++ AgentError_display error)%string) w'
        end
  | ConsoleInput sid payload =>
      fun w => ((on_console_input env sid payload w).1, Ok [])
  | SessionClosed _ => let! _ := modify reset in ret []
  | _ => ret []
  end.
Definition handle (env : HostEnv) (packet : SignalPacket) : HostM (list string) :=
  let! _ := emit (Received packet) in dispatch env packet.

(** Packets handled one after the other; the loop of [run_host] ends at the
    first error. *)
Inductive host_step : HostWorld -> HostWorld -> Prop :=
| host_step_intro env packet w : host_step w (handle env packet w).1.

(** ** Who may be served *)

(** The owner's word on a client: an entry of the trusted store as loaded, or,
    where the policy is to prompt, an approval logged by the operator. *)
Definition authorized (p : ConsentPolicy) (t : TrustedClients) (log : list HostEvent)
  (key : string) (cap : SessionCapability) : Prop :=
  match p with
  | Prompt =>
      cap = Screenshot /\
      ((exists e, get t key = Some e /\ can_view e = true) \/
       (exists key', trim key' = trim key /\ Prompted key' true ∈ log))
  | HeadlessTrustedOnly _ _ _ =>
      cap = Screenshot /\ exists e, get t key = Some e /\ can_view e = true
  | UnattendedConsole _ _ _ =>
      may_view_unattended_console t key = true /\
      (cap = ConsoleControl -> may_control_unattended_console t key = true)
  end.

(** A client of identity [vk] asked for the session, with authority for [cap]. *)
Definition requested (p : ConsentPolicy) (t : TrustedClients) (log : list HostEvent)
  (sid : SessionId) (vk : bytes) (cap : SessionCapability) : Prop :=
  exists device key,
    Received (SessionRequest device key RELAY_PROTOCOL_VERSION cap (Some sid)) ∈ log /\
    parse_identity key = Ok vk /\ authorized p t log key cap.

Definition same_keys (ch ch0 : SealedChannel) : Prop :=
  send_key ch = send_key ch0 /\ recv_key ch = recv_key ch0 /\ binding_hash ch = binding_hash ch0.

(** The channel's keys come from a Diffie-Hellman with an ephemeral key that
    the client signed for this session. *)
Definition keyed (log : list HostEvent) (sid : SessionId) (vk : bytes) (ch : SealedChannel)
  : Prop :=
  exists e id sg eph sig secret transcript ch0,
    Received (SessionKeyExchange sid e id sg) ∈ log /\
    parse_identity id = Ok vk /\ decode_32 e = Ok eph /\ decode_64 sg = Ok sig /\
    verify_peer vk eph sig (relay_kex_binding sid (as_bytes "client") id) = Ok tt /\
    from_handshake_secret (diffie_hellman secret eph) transcript Responder = Ok ch0 /\
    same_keys ch ch0.

(** What must hold of the log when a screen is captured or input injected. *)
Definition served (p : ConsentPolicy) (t : TrustedClients) (ev : HostEvent)
  (log : list HostEvent) : Prop :=
  match ev with
  | Captured =>
      exists sid vk cap ch, head log = Some (Received (ScreenshotRequest sid)) /\
        requested p t log sid vk cap /\ keyed log sid vk ch
  | Injected event =>
      exists sid payload vk ch sealed plaintext,
        head log = Some (Received (ConsoleInput sid payload)) /\
        requested p t log sid vk ConsoleControl /\ keyed log sid vk ch /\
        b64_decode payload = Ok sealed /\ (open ch sealed).2 = Ok plaintext /\
        from_json (from_utf8 plaintext) = Ok event /\ validate_console_input event = Ok tt
  | _ => True
  end.
Fixpoint all_served (p : ConsentPolicy) (t : TrustedClients) (log : list HostEvent) : Prop :=
  match log with
  | [] => True
  | ev :: log' => served p t ev log' /\ all_served p t log'
  end.

Lemma authorized_mono p t log log' key cap :
  log ⊆ log' -> authorized p t log key cap -> authorized p t log' key cap.
Proof. destruct p; simpl; naive_solver. Qed.
Lemma requested_mono p t log log' sid vk cap :
  log ⊆ log' -> requested p t log sid vk cap -> requested p t log' sid vk cap.
Proof. intros S (d & key & R & P & A). exists d, key. eauto using authorized_mono. Qed.
Lemma keyed_mono log log' sid vk ch : log ⊆ log' -> keyed log sid vk ch -> keyed log' sid vk ch.
Proof.
  intros S (e & id & sg & eph & sig & sec & tr & ch0 & R & K).
  exists e, id, sg, eph, sig, sec, tr, ch0. eauto.
Qed.
Lemma keyed_counters log sid vk ch ch' :
  same_keys ch' ch -> keyed log sid vk ch -> keyed log sid vk ch'.
Proof.
  intros S (e & id & sg & eph & sig & sec & tr & ch0 & R & P & D1 & D2 & V & F & K).
  exists e, id, sg, eph, sig, sec, tr, ch0. do 6 (split; [done|]).
  destruct S as (? & ? & ?), K as (? & ? & ?). repeat split; congruence.
Qed.
Lemma log_grows {A} (x : A) l : l ⊆ x :: l.
Proof. intros y Hy. by right. Qed.

(** ** The invariant of a host *)

Section Invariant.
Variables (p0 : ConsentPolicy) (t0 : TrustedClients).

Definition trusted_ok (w : HostWorld) : Prop :=
  match p0 with
  | Prompt => forall k e, entries (trusted (host w)) !! k = Some e ->
      entries t0 !! k = Some e \/ exists key, trim key = k /\ Prompted key true ∈ log w
  | _ => trusted (host w) = t0
  end.

Record host_ok (w : HostWorld) : Prop := {
  ok_policy : policy (host w) = p0;
  ok_trusted : trusted_ok w;
  ok_session : forall sid, session_id (host w) = Some sid ->
    exists vk cap, capability (host w) = Some cap /\ client_identity (host w) = Some vk /\
      requested p0 t0 (log w) sid vk cap;
  ok_channel : forall ch, channel (host w) = Some ch ->
    exists sid vk, session_id (host w) = Some sid /\ client_identity (host w) = Some vk /\
      keyed (log w) sid vk ch;
  ok_served : all_served p0 t0 (log w);
}.

(** A triple: the invariant holds after an error. *)
Definition triple {A} (P : HostWorld -> Prop) (m : HostM A) (Q : A -> HostWorld -> Prop) : Prop :=
  forall w, P w -> match m w with (w', Ok a) => Q a w' | (w', Err _) => host_ok w' end.

Lemma triple_ret {A} (P : HostWorld -> Prop) (a : A) Q :
  (forall w, P w -> Q a w) -> triple P (ret a) Q.
Proof. intros H' w. apply H'. Qed.
Lemma triple_fail {A} P e (Q : A -> HostWorld -> Prop) :
  (forall w, P w -> host_ok w) -> triple P (fail e) Q.
Proof. intros H' w. apply H'. Qed.
Lemma triple_lift {A} P (r : Result A AgentError) :
  (forall w, P w -> host_ok w) -> triple P (lift r) (fun a w => P w /\ r = Ok a).
Proof. intros H' w Hw. unfold lift. destruct r; eauto. Qed.
Lemma triple_bind {A B} P m (k : A -> HostM B) R Q :
  triple P m R -> (forall a, triple (R a) (k a) Q) -> triple P (bind m k) Q.
Proof.
  intros Hm Hk w Hw. unfold bind. specialize (Hm w Hw). destruct (m w) as [w' [a|e]]; [|done].
  by apply Hk.
Qed.
Lemma triple_get P : triple P get_host (fun h w => P w /\ h = host w).
Proof. intros w Hw. done. Qed.
Lemma triple_modify (P Q : HostWorld -> Prop) f :
  (forall w, P w -> Q {| host := f (host w); disk := disk w; log := log w |}) ->
  triple P (modify f) (fun _ => Q).
Proof. intros H' w. apply H'. Qed.
Lemma triple_emit (P Q : HostWorld -> Prop) ev :
  (forall w, P w -> Q {| host := host w; disk := disk w; log := ev :: log w |}) ->
  triple P (emit ev) (fun _ => Q).
Proof. intros H' w. apply H'. Qed.
Lemma triple_weaken {A} (P P' : HostWorld -> Prop) (m : HostM A) (Q Q' : A -> HostWorld -> Prop) :
  (forall w, P w -> P' w) -> triple P' m Q' -> (forall a w, Q' a w -> Q a w) -> triple P m Q.
Proof.
  intros HP Hm HQ w Hw. specialize (Hm w (HP w Hw)). destruct (m w) as [w' [a|e]]; eauto.
Qed.

Definition kept {A} (_ : A) (w : HostWorld) : Prop := host_ok w.

Lemma host_ok_emit ev w :
  host_ok w -> served p0 t0 ev (log w) ->
  host_ok {| host := host w; disk := disk w; log := ev :: log w |}.
Proof.
  intros [Hp Ht Hs Hc Ha] Hev. pose proof (log_grows ev (log w)) as G.
  split; simpl; [done| | | |done].
  - unfold trusted_ok in *. destruct p0; simpl in *; [|done..].
    intros k e [|(key & ? & ?)]%Ht; [by left|]. right. exists key. auto.
  - intros sid (vk & cap & ? & ? & ?)%Hs. exists vk, cap. eauto using requested_mono.
  - intros ch (sid & vk & ? & ? & ?)%Hc. exists sid, vk. eauto using keyed_mono.
Qed.

(** Session fields emptied or advanced. *)
Lemma host_ok_reset w :
  host_ok w -> host_ok {| host := reset (host w); disk := disk w; log := log w |}.
Proof. intros [Hp Ht Hs Hc Ha]. by split. Qed.
Lemma host_ok_local_kex kex w :
  host_ok w -> host_ok {| host := set_local_kex kex (host w); disk := disk w; log := log w |}.
Proof. intros [Hp Ht Hs Hc Ha]. by split. Qed.
Lemma host_ok_last_capture t w :
  host_ok w -> host_ok {| host := set_last_capture t (host w); disk := disk w; log := log w |}.
Proof. intros [Hp Ht Hs Hc Ha]. by split. Qed.
Lemma host_ok_channel sid vk ch w :
  host_ok w -> session_id (host w) = Some sid -> client_identity (host w) = Some vk ->
  keyed (log w) sid vk ch ->
  host_ok {| host := set_channel ch (host w); disk := disk w; log := log w |}.
Proof.
  intros [Hp Ht Hs Hc Ha] Es Ev K. split; simpl; try done.
  intros ch' [= <-]. eauto.
Qed.
Lemma host_ok_begin sid cap vk w :
  host_ok w -> requested p0 t0 (log w) sid vk cap ->
  host_ok {| host := begin_session sid cap vk (host w); disk := disk w; log := log w |}.
Proof.
  intros [Hp Ht Hs Hc Ha] R. split; simpl; try done.
  intros sid' [= <-]. eauto.
Qed.

(** ** Every handler keeps it *)

Lemma trust_approved_ok fault key l :
  triple (fun w => (host_ok w /\ p0 = Prompt) /\ log w = l /\ Prompted key true ∈ l)
    (trust_approved fault key) (fun _ w => host_ok w /\ log w = l).
Proof.
  intros w [[[Hp Ht Hs Hc Ha] E] [<- Hin]]. unfold trust_approved, trust.
  destruct save as [d r]. cbv zeta.
  set (w' := {| host := _; disk := _; log := _ |}).
  assert (host_ok w') as Hok; [|by destruct r].
  split; simpl; [done| |done..].
  unfold trusted_ok in *. rewrite E in *. simpl. intros k e Hk.
  apply lookup_insert_Some in Hk as [[<- _]|[_ Hk]]; [|by apply Ht].
  right. by exists key.
Qed.

(** A granted consent is authority, for screenshots or, with the control
    permission checked before, for control. *)
Lemma consent_ok env key cap x :
  triple (fun w => host_ok w /\ x ∈ log w /\
                   (cap = ConsoleControl -> is_unattended p0 = true /\
                      may_control_unattended_console (trusted (host w)) key = true))
    (consent env key)
    (fun b w => host_ok w /\ x ∈ log w /\ (b = true -> authorized p0 t0 (log w) key cap)).
Proof.
  intros w (Hok & Hx & Hcap). pose proof Hok as [Hp Ht _ _ _].
  unfold consent, bind, get_host. rewrite Hp.
  assert (cap = ConsoleControl \/ cap = Screenshot) as Hc by (destruct cap; auto).
  destruct (get (trusted (host w)) key) as [entry|] eqn:G.
  - unfold trusted_ok in Ht. destruct p0 as [|i t m|i t m]; cbn [is_unattended].
    + cbn. split; [done|]. split; [done|]. intros V. split.
      { destruct Hc as [Hc|Hc]; [|done]. by destruct (Hcap Hc). }
      unfold get in *. apply Ht in G as [G|(key' & K & G)]; eauto.
    + cbn. split; [done|]. split; [done|]. intros V. rewrite Ht in G. split; [|by exists entry].
      destruct Hc as [Hc|Hc]; [|done]. by destruct (Hcap Hc).
    + cbn. split; [done|]. split; [done|]. rewrite Ht in *. intros V. split; [done|].
      intros Hq. by destruct (Hcap Hq).
  - destruct p0 as [|i t m|i t m] eqn:E; [|by cbn..].
    assert (cap = Screenshot) as -> by (destruct Hc as [Hc|Hc]; [by destruct (Hcap Hc)|done]).
    unfold lift. destruct (prompt_reply env) as [line|err]; cbn; [|done].
    assert (host_ok {| host := host w; disk := disk w;
                       log := Prompted key (prompt_operator line) :: log w |}) as Hok'.
    { by apply host_ok_emit. }
    destruct (prompt_operator line) eqn:Ep; cbn.
    + assert (Prompted key true ∈ Prompted key true :: log w) as Hin by (by left).
      pose proof (trust_approved_ok (save_fault env) key _ _
        (conj (conj Hok' E) (conj eq_refl Hin))) as T.
      destruct trust_approved as [w' [u|e]]; [|exact T]. destruct T as [Hok2 Hl].
      cbn. rewrite Hl. split; [done|]. split; [by right|]. intros _. split; [done|].
      right. by exists key.
    + split; [done|]. split; [by right|done].
Qed.

Lemma refuse_ok (P : HostWorld -> Prop) sid reason :
  (forall w, P w -> host_ok w) -> triple P (refuse sid reason) kept.
Proof.
  intros HP. eapply triple_bind; [by apply triple_lift|]. intros f.
  apply triple_ret. intros w [Hw _]. by apply HP.
Qed.

(** The end of an admission: frames from a host in order. *)
Lemma frames_ok {A} (r : Result A AgentError) (k : A -> HostM (list string)) :
  (forall a, triple host_ok (k a) kept) -> triple host_ok (bind (lift r) k) kept.
Proof.
  intros Hk. eapply triple_bind; [by apply triple_lift|]. intros a.
  eapply triple_weaken; [|apply Hk|done]. by intros w [Hw _].
Qed.

Lemma admitted_ok env sid cap vk :
  triple (fun w => host_ok w /\ requested p0 t0 (log w) sid vk cap)
    (let! _ := modify reset in
     let! _ := modify (begin_session sid cap vk) in
     let! h := get_host in
     let kex := start (host_key h) (relay_kex_binding sid (as_bytes "host") (identity_b64 h))
                  (new_ephemeral env) in
     let! kex_frame := lift (key_exchange_frame h sid kex) in
     let! _ := modify (set_local_kex (Some kex)) in
     let! accept := lift (packet_json (SessionAccepted sid Controller)) in
     match console_state_provider h, provider_reply env with
     | true, Some (st, gen) =>
         let! f := lift (packet_json (HostConsoleStatePacket sid st gen)) in
         ret [accept; kex_frame; f]
     | _, _ => ret [accept; kex_frame]
     end) kept.
Proof.
  eapply triple_bind.
  { apply (triple_modify _ (fun w => host_ok w /\ requested p0 t0 (log w) sid vk cap)).
    intros w [Hw R]. split; [by apply host_ok_reset|done]. }
  intros []. eapply triple_bind.
  { apply (triple_modify _ host_ok). intros w [Hw R]. by apply host_ok_begin. }
  intros []. eapply triple_bind; [apply triple_get|]. intros h. cbv zeta.
  eapply triple_weaken; [intros w [Hw _]; exact Hw| |done].
  apply frames_ok. intros f. eapply triple_bind.
  { apply (triple_modify _ host_ok). intros w. apply host_ok_local_kex. }
  intros []. apply frames_ok. intros a.
  destruct (console_state_provider h), (provider_reply env) as [[st gen]|];
    [apply frames_ok; intros|..]; by apply triple_ret.
Qed.

Lemma on_session_request_ok env device key v cap session :
  triple (fun w => host_ok w /\ Received (SessionRequest device key v cap session) ∈ log w)
    (on_session_request env key v cap session) kept.
Proof.
  unfold on_session_request. destruct session as [sid|]; [|by apply triple_ret; intros w []].
  destruct (N.eqb_spec v RELAY_PROTOCOL_VERSION) as [->|]; cbn [negb];
    [|apply refuse_ok; by intros w []].
  eapply triple_bind; [apply triple_get|]. intros h.
  destruct (bool_decide (cap = ConsoleControl) && negb (is_unattended (policy h))) eqn:E1;
    [apply refuse_ok; by intros w [[] _]|].
  destruct (parse_identity key) as [vk|] eqn:Ek; [|apply refuse_ok; by intros w [[] _]].
  destruct (bool_decide (cap = ConsoleControl) &&
    negb (may_control_unattended_console (trusted h) key)) eqn:E2;
    [apply refuse_ok; by intros w [[] _]|].
  eapply triple_bind.
  { eapply triple_weaken; [|apply (consent_ok env key cap)|intros a w Ha; exact Ha].
    intros w [[Hw Hr] ->]. split; [done|]. split; [exact Hr|]. intros ->.
    rewrite bool_decide_true in E1, E2 by done. rewrite <-(ok_policy _ Hw). cbn in E1, E2.
    by apply negb_false_iff in E1, E2. }
  intros []; cbn [negb]; [|apply refuse_ok; by intros w []].
  eapply triple_weaken; [|apply (admitted_ok env sid cap vk)|done].
  intros w (Hw & Hr & Ha). split; [done|]. exists device, key. auto.
Qed.

Lemma on_key_exchange_ok sid e id sg :
  triple (fun w => host_ok w /\ Received (SessionKeyExchange sid e id sg) ∈ log w)
    (on_key_exchange sid e id sg) kept.
Proof.
  intros w [Hw Hin]. pose proof Hw as [Hp Ht Hs Hc Ha].
  unfold on_key_exchange, bind, get_host, lift, fail, modify, ret.
  case_bool_decide as Es; cbn [negb]; [|done].
  destruct (Hs _ Es) as (vk & cap & Ecap & Evk & R). rewrite Evk. cbn [ok_or].
  destruct (parse_identity id) as [vk'|] eqn:Eid; [|done].
  case_bool_decide as Eeq; cbn [negb]; [subst vk'|done].
  destruct (decode_32 e) as [eph|] eqn:Ee; [|done].
  destruct (decode_64 sg) as [sig|] eqn:Esg; [|done].
  destruct (verify_peer _ _ _ _) as [[]|] eqn:Ev; cbn [map_err]; [|done].
  destruct (local_kex (host w)) as [kex|]; cbn [ok_or]; [|by apply host_ok_local_kex].
  destruct relay_transcript as [tr|]; [|by apply host_ok_local_kex].
  destruct into_channel as [ch|] eqn:Ei; cbn [map_err]; [|by apply host_ok_local_kex].
  apply (host_ok_channel sid vk ch (Build_HostWorld (set_local_kex None (host w)) (disk w) (log w)));
    [by apply host_ok_local_kex|done|done|].
  rewrite into_channel_secret in Ei. cbn in Ei.
  exists e, id, sg, eph, sig, (kp_secret (keypair kex)), tr, ch. by repeat split.
Qed.

(** What a session with a channel has; its capture is served. *)
Lemma capture_ok env sid ch :
  triple (fun w => host_ok w /\ session_id (host w) = Some sid /\ channel (host w) = Some ch /\
                   head (log w) = Some (Received (ScreenshotRequest sid)))
    (bounded_capture env)
    (fun _ w => host_ok w /\ session_id (host w) = Some sid /\ channel (host w) = Some ch).
Proof.
  intros w (Hw & Es & Ec & El). pose proof Hw as [Hp Ht Hs Hc Ha].
  assert (host_ok {| host := host w; disk := disk w; log := Captured :: log w |}) as Hw'.
  { apply host_ok_emit; [done|]. destruct (Hs _ Es) as (vk & cap & _ & Ev & R).
    destruct (Hc _ Ec) as (sid' & vk' & Es' & Ev' & K).
    assert (sid' = sid) as -> by congruence. assert (vk' = vk) as -> by congruence.
    exists sid, vk, cap, ch. auto. }
  unfold bounded_capture, capture, bind, get_host, emit, lift, fail, modify, ret.
  destruct (capture_limits _) as [[interval max_bytes]|].
  - destruct (_ && _); [done|]. destruct (capture_reply _ _) as [image|]; [|done].
    cbn. destruct (_ <? _)%N; [done|]. split; [by apply (host_ok_last_capture _ _ Hw')|done].
  - cbn. by destruct (capture_reply _ _).
Qed.

Lemma keyed_seal log sid vk ch m : keyed log sid vk ch -> keyed log sid vk (seal ch m).1.
Proof.
  apply keyed_counters. unfold seal, claim. by destruct (_ =? _)%N.
Qed.
Lemma keyed_open log sid vk ch m : keyed log sid vk ch -> keyed log sid vk (open ch m).1.
Proof.
  apply keyed_counters. destruct (open_state ch m) as [->|[-> _]]; done.
Qed.

Lemma on_screenshot_request_ok env sid :
  triple (fun w => host_ok w /\ head (log w) = Some (Received (ScreenshotRequest sid)))
    (on_screenshot_request env sid) kept.
Proof.
  intros w [Hw El]. pose proof Hw as [Hp Ht Hs Hc Ha].
  unfold on_screenshot_request, bind at 1, get_host.
  case_bool_decide as Es; cbn [negb]; [|done].
  unfold bind at 1, lift at 1. destruct (channel (host w)) as [ch|] eqn:Ec; [|done]. cbn [ok_or].
  unfold bind at 1. pose proof (capture_ok env sid ch w (conj Hw (conj Es (conj Ec El)))) as T.
  destruct bounded_capture as [w1 [image|]]; [|done]. destruct T as (Hw1 & Es1 & Ec1).
  destruct (ok_channel _ Hw1 _ Ec1) as (sid' & vk & Es' & Ev & K).
  pose proof (host_ok_channel _ _ _ w1 Hw1 Es' Ev (keyed_seal _ _ _ _ image K)) as Hw2.
  unfold bind, seal_with, lift, modify, ret. destruct (seal ch image) as [ch' r]. cbn in *.
  destruct r; cbn; [|done]. by destruct chunk_payload.
Qed.

Lemma on_console_input_ok env sid payload w :
  host_ok w -> head (log w) = Some (Received (ConsoleInput sid payload)) ->
  host_ok (on_console_input env sid payload w).1.
Proof.
  intros Hw El. pose proof Hw as [Hp Ht Hs Hc Ha].
  unfold on_console_input, bind at 1, get_host.
  case_bool_decide as Es; cbn [negb orb]; [|done].
  case_bool_decide as Ecap; cbn [negb]; [|done].
  destruct (negb _); [done|]. destruct (_ <? _)%N; [done|].
  unfold bind at 1, lift at 1. destruct (channel (host w)) as [ch|] eqn:Ec; [|done]. cbn [ok_or].
  unfold bind at 1, lift at 1. destruct (b64_decode payload) as [sealed|] eqn:Eb; [|done]. cbn [map_err].
  destruct (Hs _ Es) as (vk & cap & Ecap' & Ev & R). assert (cap = ConsoleControl) as -> by congruence.
  destruct (Hc _ eq_refl) as (sid' & vk' & Es' & Ev' & K).
  assert (sid' = sid) as -> by congruence. assert (vk' = vk) as -> by congruence.
  pose proof (host_ok_channel _ _ _ w Hw Es Ev (keyed_open _ _ _ _ sealed K)) as Hw2.
  unfold bind, open_with, lift, modify, ret, fail, emit.
  destruct (open ch sealed) as [ch' r] eqn:Eo. cbn in *.
  destruct r as [plaintext|]; cbn; [|done].
  destruct (from_json _) as [event|] eqn:Ej; cbn; [|done].
  destruct validate_console_input as [[]|] eqn:Eval; [|done].
  destruct (negb _); cbn; [done|].
  apply (host_ok_emit (Injected event) _ Hw2).
  exists sid, payload, vk, ch, sealed, plaintext. rewrite Eo. by repeat split.
Qed.

Lemma handle_ok env p w : host_ok w -> host_ok (handle env p w).1.
Proof.
  intros Hw. unfold handle, bind at 1, emit.
  pose proof (host_ok_emit (Received p) w Hw I) as Hr.
  set (w1 := {| host := _; disk := _; log := _ |}) in *.
  assert (forall A (P : HostWorld -> Prop) (m : HostM A), P w1 -> triple P m kept ->
            host_ok (m w1).1) as run.
  { intros A P m HP T. specialize (T w1 HP). by destruct (m w1) as [w2 []]. }
  destruct p; cbn [dispatch]; try done.
  - eapply run; [|apply on_session_request_ok]. split; [done|by left].
  - eapply run; [|apply on_key_exchange_ok]. split; [done|by left].
  - pose proof (on_screenshot_request_ok env session_id0 w1 (conj Hr eq_refl)) as T.
    destruct on_screenshot_request as [w2 [frames|e]]; [done|].
    unfold bind at 1, modify. apply host_ok_reset in T.
    pose proof (refuse_ok host_ok session_id0
      ("screenshot unavailable: " ++ AgentError_display e)%string (fun _ H => H) _ T) as T'.
    by destruct refuse as [w3 []].
  - by apply on_console_input_ok.
  - unfold bind, modify, ret. by apply host_ok_reset.
Qed.
End Invariant.
End Host.

Arguments HostEnv {_}.

(** ** Encodings *)

Section EncodingLemmas.
Context `{Ed25519Laws} `{Base64Laws} `{UuidTextLaws}.

Lemma decode_32_encode b : length b = 32 -> decode_32 (b64_encode b) = Ok b.
Proof.
  intros L. unfold decode_32. rewrite trim_trimmed by apply b64_encode_trimmed.
  rewrite b64_decode_encode. simpl. by rewrite L.
Qed.
Lemma decode_64_encode b : length b = 64 -> decode_64 (b64_encode b) = Ok b.
Proof.
  intros L. unfold decode_64. rewrite trim_trimmed by apply b64_encode_trimmed.
  rewrite b64_decode_encode. simpl. by rewrite L.
Qed.
Lemma parse_identity_encode sk : parse_identity (b64_encode (verifying_key sk)) = Ok (verifying_key sk).
Proof.
  unfold parse_identity. rewrite decode_32_encode by apply verifying_key_length.
  by rewrite verifying_key_valid.
Qed.

(** A binding determines session, role and identity. *)
Lemma relay_kex_binding_inj sid1 sid2 r1 r2 id1 id2 :
  (r1 = as_bytes "host" \/ r1 = as_bytes "client") ->
  (r2 = as_bytes "host" \/ r2 = as_bytes "client") ->
  relay_kex_binding sid1 r1 id1 = relay_kex_binding sid2 r2 id2 ->
  sid1 = sid2 /\ r1 = r2 /\ trim id1 = trim id2.
Proof.
  intros R1 R2 E. unfold relay_kex_binding in E. apply app_inv_head in E.
  apply app_inj_length in E as [E1 E]; [|by rewrite !uuid_to_string_length].
  apply as_bytes_inj, uuid_to_string_inj in E1. split; [done|].
  destruct R1 as [->| ->], R2 as [->| ->]; simpl in E; try discriminate;
    (split; [done|]); apply as_bytes_inj; congruence.
Qed.
End EncodingLemmas.

(** ** Properties *)

Section Properties.
Context `{Ed25519} `{X25519} `{Hash} `{Aead} `{Base64} `{UuidText}.
Context `{!Serde SignalPacket} `{!Serde ConsoleInputPacket}.
Context `{!Serde StoredFile} `{!SerdePretty StoredFile}.

Lemma reached_ok h d w :
  session_id h = None -> channel h = None ->
  rtc host_step {| host := h; disk := d; log := [] |} w ->
  host_ok (policy h) (trusted h) w.
Proof.
  intros Es Ec R. eapply (invariant_rtc host_step); [|exact R|].
  - intros x y [env p x']. apply handle_ok.
  - split; simpl; try done; [|intros ? ?; congruence..].
    unfold trusted_ok. destruct policy; simpl; auto.
Qed.

Lemma all_served_split p t post ev pre :
  all_served p t (post ++ ev :: pre) -> served p t ev pre.
Proof. induction post as [|x post IH]; simpl; [by intros []|]. intros [_ S]. auto. Qed.

(** The screen is captured only for an authorised client. In every history
    of packets from the relay and of surroundings, when a fresh host captures
    its screen, it is answering a [ScreenshotRequest] of a session that a client
    key requested (with the current protocol version), the owner's trusted
    store as loaded, or the operator at the prompt, allowed that key for the
    capability requested under the host's policy, and the session's channel was
    keyed by an ephemeral key which that client signed for this session. *)
Theorem host_captures_for_authorized h d w post pre :
  session_id h = None -> channel h = None ->
  rtc host_step {| host := h; disk := d; log := [] |} w ->
  log w = post ++ Captured :: pre ->
  exists sid vk cap ch device key,
    head pre = Some (Received (ScreenshotRequest sid)) /\
    Received (SessionRequest device key RELAY_PROTOCOL_VERSION cap (Some sid)) ∈ pre /\
    parse_identity key = Ok vk /\ authorized (policy h) (trusted h) pre key cap /\
    keyed pre sid vk ch.
Proof.
  intros Es Ec R E. pose proof (ok_served _ _ _ (reached_ok _ _ _ Es Ec R)) as S.
  rewrite E in S. apply all_served_split in S.
  destruct S as (sid & vk & cap & ch & Hh & (device & key & Hr & Hk & Ha) & K).
  by exists sid, vk, cap, ch, device, key.
Qed.

(** Console input is injected only for an authorised controller. In every
    such history, an event is injected only under the unattended-console policy,
    while answering a [ConsoleInput] packet of a session requested for console
    control by a client whose entry in the trusted store grants viewing, control
    and unattended access; the event is the decoded plaintext that the
    session's channel, keyed by that client's signed ephemeral key, opened from
    this packet, and its key code is well formed. *)
Theorem host_injects_for_controllers h d w post event pre :
  session_id h = None -> channel h = None ->
  rtc host_step {| host := h; disk := d; log := [] |} w ->
  log w = post ++ Injected event :: pre ->
  is_unattended (policy h) = true /\
  exists sid payload vk ch sealed plaintext device key,
    head pre = Some (Received (ConsoleInput sid payload)) /\
    Received (SessionRequest device key RELAY_PROTOCOL_VERSION ConsoleControl (Some sid)) ∈ pre /\
    parse_identity key = Ok vk /\ may_control_unattended_console (trusted h) key = true /\
    keyed pre sid vk ch /\
    b64_decode payload = Ok sealed /\ (open ch sealed).2 = Ok plaintext /\
    from_json (from_utf8 plaintext) = Ok event /\ validate_console_input event = Ok tt.
Proof.
  intros Es Ec R E. pose proof (ok_served _ _ _ (reached_ok _ _ _ Es Ec R)) as S.
  rewrite E in S. apply all_served_split in S.
  destruct S as (sid & payload & vk & ch & sealed & plaintext & Hh & (device & key & Hr & Hk & Ha) & S).
  destruct (policy h); [by destruct Ha as [? _]..|]. split; [done|].
  destruct Ha as [_ Ha]. exists sid, payload, vk, ch, sealed, plaintext, device, key. auto 10.
Qed.

(** A capture failure stays within its session. Whatever the capture, its
    size, the rate limit, the cipher or the state of the session, the handler of
    a [ScreenshotRequest] returns frames and never an error; when the capture
    cannot be served the frames are one [SessionRejected] and the host has no
    session any more. *)
Theorem screenshot_failure_is_contained `{!SerdeLaws SignalPacket} env sid w :
  exists w' frames, handle env (ScreenshotRequest sid) w = (w', Ok frames) /\
    forall e w1,
      on_screenshot_request env sid
        {| host := host w; disk := disk w; log := Received (ScreenshotRequest sid) :: log w |}
      = (w1, Err e) ->
      session_id (host w') = None /\ channel (host w') = None /\ local_kex (host w') = None /\
      to_json (SessionRejected sid ("screenshot unavailable: " ++ AgentError_display e)%string)
        = Ok (default "" (head frames)) /\ length frames = 1.
Proof.
  unfold handle, bind at 1, emit. cbn [dispatch].
  destruct on_screenshot_request as [w1 [frames|e]]; [by exists w1, frames|].
  unfold bind, modify, refuse, lift, reject, packet_json, ret, bind.
  pose proof (to_json_ok (SessionRejected sid ("screenshot unavailable: " ++ AgentError_display e)%string)) as J.
  destruct (to_json _) as [f|] eqn:Ef; [|done]. cbn.
  do 2 eexists. split; [done|]. intros e' w1' [= <- <-]. repeat split; done.
Qed.
End Properties.

Section Bindings.
Context `{Ed25519Laws} `{Base64Laws} `{UuidTextLaws}.

(** A key-exchange signature serves one session and one role. When one
    identity's signature verifies for two key exchanges of relay sessions, they
    are of the same session, the same side and the same ephemeral key, or
    ed25519 accepted one signature for two different messages. *)
Theorem relay_signature_one_session vk s e1 e2 sid1 sid2 role1 role2 id1 id2 :
  (role1 = as_bytes "host" \/ role1 = as_bytes "client") ->
  (role2 = as_bytes "host" \/ role2 = as_bytes "client") ->
  slice_ok (relay_kex_binding sid1 role1 id1) -> slice_ok (relay_kex_binding sid2 role2 id2) ->
  verify_peer vk e1 s (relay_kex_binding sid1 role1 id1) = Ok tt ->
  verify_peer vk e2 s (relay_kex_binding sid2 role2 id2) = Ok tt ->
  (sid1 = sid2 /\ role1 = role2 /\ trim id1 = trim id2 /\ e1 = e2) \/
  exists m1 m2, m1 <> m2 /\ ed_verify vk m1 s = true /\ ed_verify vk m2 s = true.
Proof.
  intros R1 R2 S1 S2 V1%verify_peer_ok V2%verify_peer_ok.
  destruct (decide (signature_message (relay_kex_binding sid1 role1 id1) e1 =
                    signature_message (relay_kex_binding sid2 role2 id2) e2)) as [E|E]; eauto 6.
  left. destruct (signature_message_inj _ _ _ _ S1 S2 E) as [E' Ee]. clear V1 V2 E.
  destruct (relay_kex_binding_inj _ _ _ _ _ _ R1 R2 E') as (Es & Er & Ei). by repeat split.
Qed.
End Bindings.

(** ** Witnesses

    A trusted controller on an unattended console: its session, one key press
    and one capture. *)
#[local] Instance packet_serde : Serde SignalPacket := toy_serde SignalPacket.
#[local] Instance input_serde : Serde ConsoleInputPacket := toy_serde ConsoleInputPacket.
#[local] Instance store_serde : Serde StoredFile := toy_serde StoredFile.
#[local] Instance store_pretty : SerdePretty StoredFile := {| to_json_pretty := to_json |}.

Definition w_sid : SessionId := uuid_from_u128 7.
Definition w_client_key : @SigningKey toy_ed25519 := 11%N.
Definition w_host_key : @SigningKey toy_ed25519 := 12%N.
Definition w_client_id : string := b64_encode (verifying_key w_client_key).
Definition w_store : TrustedClients :=
  {| path := "trusted.json";
     entries := {[ w_client_id := {| name := "laptop"; can_view := true; can_control := true;
                                     can_unattended_console := true |} ]} |}.
Definition w_host : ScreenshotHost :=
  with_console_input_sink (host_new w_host_key w_store (UnattendedConsole 0 0 1000)).
Definition w_env : @HostEnv toy_x25519 :=
  @Build_HostEnv toy_x25519 (Err "no terminal") NoFault 21%N None
    (fun _ => Ok (as_bytes "png")) (fun _ => Ok tt) 5 6.
Definition w_world0 : HostWorld := {| host := w_host; disk := ∅; log := [] |}.
Definition w_request : SignalPacket :=
  SessionRequest w_sid w_client_id RELAY_PROTOCOL_VERSION ConsoleControl (Some w_sid).
Definition w_world1 : HostWorld := (handle w_env w_request w_world0).1.
Definition w_client_eph : @EphemeralSecret toy_x25519 := 22%N.
Definition w_client_kex : LocalKeyExchange :=
  start w_client_key (relay_kex_binding w_sid (as_bytes "client") w_client_id) w_client_eph.
Definition w_host_kex : LocalKeyExchange :=
  start w_host_key (relay_kex_binding w_sid (as_bytes "host") (identity_b64 w_host))
    (new_ephemeral w_env).
Definition w_client_packet : SignalPacket := key_exchange_packet w_client_id w_sid w_client_kex.
Definition w_world2 : HostWorld := (handle w_env w_client_packet w_world1).1.
Definition w_event : ConsoleInputPacket := Key "KeyA" true.
Definition w_payload : string :=
  match relay_transcript w_sid w_client_id (identity_b64 w_host) w_client_packet
          (key_exchange_packet (identity_b64 w_host) w_sid w_host_kex) with
  | Ok transcript =>
      match into_channel w_client_kex (ephemeral_public w_host_kex) None transcript Initiator,
            to_json w_event with
      | Ok ch, Ok plaintext =>
          match (seal ch (as_bytes plaintext)).2 with Ok c => b64_encode c | Err _ => "" end
      | _, _ => ""
      end
  | Err _ => ""
  end.
Definition w_world3 : HostWorld := (handle w_env (ConsoleInput w_sid w_payload) w_world2).1.
Definition w_world4 : HostWorld := (handle w_env (ScreenshotRequest w_sid) w_world3).1.

Lemma w_reach3 : rtc host_step w_world0 w_world3.
Proof.
  apply (rtc_l _ _ w_world1); [apply host_step_intro|].
  apply (rtc_l _ _ w_world2); [apply host_step_intro|].
  apply (rtc_l _ _ w_world3); [apply host_step_intro|apply rtc_refl].
Qed.
Lemma w_reach4 : rtc host_step w_world0 w_world4.
Proof. eapply rtc_r; [apply w_reach3|apply host_step_intro]. Qed.

Lemma head_cons {A} (l : list A) x : head l = Some x -> l = [] ++ x :: tail l.
Proof. destruct l; simpl; congruence. Qed.

Lemma host_captures_for_authorized_witness :
  exists sid vk cap ch device key,
    head (tail (log w_world4)) = Some (Received (ScreenshotRequest sid)) /\
    Received (SessionRequest device key RELAY_PROTOCOL_VERSION cap (Some sid)) ∈ tail (log w_world4) /\
    parse_identity key = Ok vk /\
    authorized (policy w_host) (trusted w_host) (tail (log w_world4)) key cap /\
    keyed (tail (log w_world4)) sid vk ch.
Proof.
  apply (host_captures_for_authorized w_host ∅ w_world4 []); [reflexivity..|apply w_reach4|].
  apply head_cons. vm_compute. reflexivity.
Defined.

Lemma host_injects_for_controllers_witness : is_unattended (policy w_host) = true.
Proof.
  apply (host_injects_for_controllers w_host ∅ w_world3 [] w_event (tail (log w_world3)));
    [reflexivity..|apply w_reach3|].
  apply head_cons. vm_compute. reflexivity.
Defined.

Definition w_stranger : SessionId := uuid_from_u128 8.
Lemma screenshot_failure_is_contained_witness :
  session_id (host (handle w_env (ScreenshotRequest w_stranger) w_world3).1) = None.
Proof.
  destruct (@screenshot_failure_is_contained _ _ _ _ _ _ packet_serde input_serde
    store_pretty (toy_serde_laws SignalPacket) w_env w_stranger w_world3) as (w' & frames & E & F).
  rewrite E. eapply F. erewrite surjective_pairing at 1. apply (f_equal (pair _)).
  instantiate (1 := Relay "screenshot request does not match active session").
  vm_compute. reflexivity.
Defined.

Lemma relay_signature_one_session_witness :
  let b := relay_kex_binding w_sid (as_bytes "client") w_client_id in
  (w_sid = w_sid /\ as_bytes "client" = as_bytes "client" /\ trim w_client_id = trim w_client_id /\
   ephemeral_public w_client_kex = ephemeral_public w_client_kex) \/
  exists m1 m2, m1 <> m2 /\
    ed_verify (verifying_key w_client_key) m1 (signature w_client_kex) = true /\
    ed_verify (verifying_key w_client_key) m2 (signature w_client_kex) = true.
Proof.
  intros b. apply relay_signature_one_session; try (right; reflexivity);
    vm_compute; reflexivity.
Defined.
