(* ===== verification/ClientSession.v ===== *)
(** * The client of a screenshot session

    rivetlink-sdk/src/session.rs (and the accessors of identity.rs): connect,
    request, key exchange, reassembly of the capture. The loop of
    [capture_screenshot] runs over the frames the relay delivers; sending takes
    the next outcome of a script. The theorems run it against the host of
    [Host.v]. *)
From Stdlib Require Import NArith Lia Strings.String Strings.Byte.
From stdpp Require Import sorting.
From S2P Require Import Prelude Interfaces Instances Protocol Sealed Handshake Trusted Host.

(** rivetlink-sdk/src/error.rs. *)
Module Sdk.
Inductive SdkError :=
| Config (message : string)
| Identity (message : string)
| Http (message : string)
| NotAuthenticated
| Auth (message : string)
| Relay (message : string)
| Lan (message : string)
| WebSocket (message : string)
| SessionRejected (reason : string)
| Crypto (message : string)
| Discovery (message : string)
| Io (error : io.Error)
| SerdeError (message : string)
| Base64Error (message : string).
End Sdk.

(** [slice::sort_by_key]: stable. *)
Fixpoint insert_by_key {A} (key : A -> N) (x : A) (l : list A) : list A :=
  match l with
  | [] => [x]
  | y :: l' => if (key x <=? key y)%N then x :: l else y :: insert_by_key key x l'
  end.
Definition sort_by_key {A} (key : A -> N) (l : list A) : list A :=
  foldr (insert_by_key key) [] l.

(** [str::starts_with]. *)
Fixpoint starts_with (p s : string) : bool :=
  match p, s with
  | EmptyString, _ => true
  | String a p', String b s' => Ascii.eqb a b && starts_with p' s'
  | String _ _, EmptyString => false
  end.

(** What a WebSocket delivers. *)
Inductive WsFrame :=
| WsText (text : string)
| WsClose
| WsOther
| WsError (message : string).

(** The [type] of a JSON object, as [serde_json::Value] gives it. *)
Class JsonType := { json_type : string -> Result (option string) string }.

Section Client.
Context `{Ed25519} `{X25519} `{Hash} `{Aead} `{Base64} `{UuidText} `{JsonText} `{JsonType}.
Context `{!Serde SignalPacket} `{!Serde ConsoleInputPacket}.

(** [Identity::public_key_b64]. *)
Definition public_key_b64 (signing_key : SigningKey) : string :=
  b64_encode (verifying_key signing_key).

Record CaptureParams := {
  relay_ws_url : string;
  token : string;
  identity : SigningKey;
  device_id : DeviceId;
  host_public_key_b64 : string;
  requested_capability : SessionCapability;
  console_input : option ConsoleInputPacket;
}.

(** The locals of [capture_screenshot], the script of its sends (an error or,
    when exhausted, success) and the frames it sent. *)
Record ClientState := {
  c_local_kex : option LocalKeyExchange;
  c_channel : option SealedChannel;
  c_session_id : option SessionId;
  c_chunks : list (N * string);
  c_console_state : option (HostConsoleState * N);
  c_link : list (option string);
  c_sent : list string;
}.
Definition client_start (link : list (option string)) : ClientState :=
  {| c_local_kex := None; c_channel := None; c_session_id := None; c_chunks := [];
     c_console_state := None; c_link := link; c_sent := [] |}.

Definition with_session (kex : option LocalKeyExchange) (ch : option SealedChannel)
  (sid : option SessionId) (s : ClientState) : ClientState :=
  {| c_local_kex := kex; c_channel := ch; c_session_id := sid; c_chunks := c_chunks s;
     c_console_state := c_console_state s; c_link := c_link s; c_sent := c_sent s |}.
Definition with_chunks (chunks : list (N * string)) (s : ClientState) : ClientState :=
  {| c_local_kex := c_local_kex s; c_channel := c_channel s; c_session_id := c_session_id s;
     c_chunks := chunks; c_console_state := c_console_state s; c_link := c_link s;
     c_sent := c_sent s |}.
Definition with_console_state (cs : option (HostConsoleState * N)) (s : ClientState)
  : ClientState :=
  {| c_local_kex := c_local_kex s; c_channel := c_channel s; c_session_id := c_session_id s;
     c_chunks := c_chunks s; c_console_state := cs; c_link := c_link s; c_sent := c_sent s |}.

Definition send_text (text : string) (s : ClientState) : ClientState * Result unit Sdk.SdkError :=
  match c_link s with
  | Some e :: link =>
      ({| c_local_kex := c_local_kex s; c_channel := c_channel s; c_session_id := c_session_id s;
          c_chunks := c_chunks s; c_console_state := c_console_state s; c_link := link;
          c_sent := c_sent s |}, Err (Sdk.WebSocket e))
  | link =>
      ({| c_local_kex := c_local_kex s; c_channel := c_channel s; c_session_id := c_session_id s;
          c_chunks := c_chunks s; c_console_state := c_console_state s; c_link := tail link;
          c_sent := c_sent s ++ [text] |}, Ok tt)
  end.
Definition send_packet (packet : SignalPacket) (s : ClientState)
  : ClientState * Result unit Sdk.SdkError :=
  match to_json packet with
  | Err e => (s, Err (Sdk.SerdeError e))
  | Ok json => send_text json s
  end.

Definition sdk_decode_32 (b64 : string) : Result bytes Sdk.SdkError :=
  let? raw := map_err Sdk.Base64Error (b64_decode (trim b64)) in
  if negb (length raw =? 32)%nat then Err (Sdk.Crypto (expected_length 32 raw)) else Ok raw.
Definition sdk_decode_64 (b64 : string) : Result bytes Sdk.SdkError :=
  let? raw := map_err Sdk.Base64Error (b64_decode (trim b64)) in
  if negb (length raw =? 64)%nat then Err (Sdk.Crypto (expected_length 64 raw)) else Ok raw.
Definition sdk_parse_identity (b64 : string) : Result bytes Sdk.SdkError :=
  let? raw := sdk_decode_32 b64 in
  if vk_valid raw then Ok raw else Err (Sdk.Crypto ("bad host key: " ++ vk_error raw)).

Definition sdk_relay_kex_binding (session_id : SessionId) (role : bytes) (identity_b64 : string)
  : bytes :=
  as_bytes "rivetlink-relay-v2" ++ as_bytes (uuid_to_string session_id) ++ role ++
  as_bytes (trim identity_b64).
Definition sdk_relay_transcript (session_id : SessionId) (client_identity host_identity : string)
  (client_kex host_kex : SignalPacket) : Result bytes Sdk.SdkError :=
  let? c := map_err Sdk.SerdeError (to_json client_kex) in
  let? h := map_err Sdk.SerdeError (to_json host_kex) in
  Ok (as_bytes "rivetlink-relay-v2" ++ as_bytes (uuid_to_string session_id) ++
      as_bytes (trim client_identity) ++ as_bytes (trim host_identity) ++ as_bytes c ++ as_bytes h).
Definition sdk_key_exchange_packet (session_id : SessionId) (identity : SigningKey)
  (kex : LocalKeyExchange) : SignalPacket :=
  SessionKeyExchange session_id (b64_encode (ephemeral_public kex)) (public_key_b64 identity)
    (b64_encode (signature kex)).
Definition host_identity_b64 (host_identity : bytes) : string := b64_encode host_identity.

(** Reassemble and decrypt; [write] is the outcome of writing the file. *)
Definition finalize (chunks : list (N * string)) (total : option N) (ch : SealedChannel)
  (write : Result unit io.Error) : Result bytes Sdk.SdkError :=
  let incomplete :=
    match total with Some total => negb (len chunks =? total)%N | None => false end in
  if incomplete
  then Err (Sdk.Relay ("incomplete capture: " ++ pretty (len chunks) ++ " of " ++
                       pretty (default 0%N total) ++ " chunks")%string)
  else
    let b64 := String.concat "" (map snd (sort_by_key fst chunks)) in
    let? sealed := map_err Sdk.Base64Error (b64_decode b64) in
    let? image :=
      map_err (fun e => Sdk.Crypto ("decrypt failed: " ++ CryptoError_display e)%string)
        (open ch sealed).2 in
    let? _ := map_err Sdk.Io write in
    Ok image.

(** ** The packets of the loop *)

Inductive ClientOutcome :=
| Continue
| Captured_image (image : bytes) (console_state : option (HostConsoleState * N))
| Failed (error : Sdk.SdkError).

(** [?] in the loop. *)
Definition and_then {A} (r : ClientState * Result A Sdk.SdkError)
  (k : A -> ClientState -> ClientState * ClientOutcome) : ClientState * ClientOutcome :=
  match r with
  | (s, Ok a) => k a s
  | (s, Err e) => (s, Failed e)
  end.
Local Notation "'try!' x 'from' s ':=' r 'in' k" := (and_then r (fun x s => k))
  (at level 10, x pattern, s name, r at level 200, k at level 200).

Definition on_accepted (p : CaptureParams) (secret : EphemeralSecret) (sid : SessionId)
  (s : ClientState) : ClientState * ClientOutcome :=
  let s := with_session (c_local_kex s) (c_channel s) (Some sid) s in
  let kex := start (identity p)
               (sdk_relay_kex_binding sid (as_bytes "client") (public_key_b64 (identity p))) secret in
  try! _ from s := send_packet (sdk_key_exchange_packet sid (identity p) kex) s in
  (with_session (Some kex) (c_channel s) (c_session_id s) s, Continue).

(** The sealed console input of the parameters, if any; the channel advances. *)
Definition send_console_input (p : CaptureParams) (sid : SessionId) (ch : SealedChannel)
  (s : ClientState) : ClientState * Result unit Sdk.SdkError :=
  match console_input p with
  | None => (s, Ok tt)
  | Some event =>
      if negb (bool_decide (requested_capability p = ConsoleControl))
      then (s, Err (Sdk.Config "console input requires the console-control capability"))
      else
        match to_json event with
        | Err e => (s, Err (Sdk.SerdeError e))
        | Ok plaintext =>
            let '(ch', r) := seal ch (as_bytes plaintext) in
            let s := with_session (c_local_kex s) (Some ch') (c_session_id s) s in
            match r with
            | Err e => (s, Err (Sdk.Crypto ("seal console input failed: " ++ CryptoError_display e)%string))
            | Ok sealed => send_packet (ConsoleInput sid (b64_encode sealed)) s
            end
        end
  end.

Definition on_host_key_exchange (p : CaptureParams) (host_identity : bytes) (sid : SessionId)
  (ephemeral_public_key identity_public_key signature_b64 : string)
  (s : ClientState) : ClientState * ClientOutcome :=
  if negb (bool_decide (c_session_id s = Some sid))
  then (s, Failed (Sdk.Crypto "host key exchange does not match the active session"))
  else if negb (bool_decide (trim identity_public_key = trim (host_public_key_b64 p)))
  then (s, Failed (Sdk.Crypto "host identity key mismatch — possible MITM"))
  else
    try! peer_eph from s := (s, sdk_decode_32 ephemeral_public_key) in
    try! peer_sig from s := (s, sdk_decode_64 signature_b64) in
    try! _ from s :=
      (s, map_err (fun e => Sdk.Crypto ("host key exchange invalid: " ++ CryptoError_display e)%string)
            (verify_peer host_identity peer_eph peer_sig
               (sdk_relay_kex_binding sid (as_bytes "host") identity_public_key))) in
    let local_kex := c_local_kex s in
    let s := with_session None (c_channel s) (c_session_id s) s in
    try! kex from s := (s, ok_or local_kex (Sdk.Crypto "host key exchange arrived before accept")) in
    let client_packet := sdk_key_exchange_packet sid (identity p) kex in
    let host_packet :=
      SessionKeyExchange sid ephemeral_public_key identity_public_key signature_b64 in
    try! transcript from s :=
      (s, sdk_relay_transcript sid (public_key_b64 (identity p)) (host_identity_b64 host_identity)
            client_packet host_packet) in
    try! ch from s :=
      (s, map_err (fun e => Sdk.Crypto (CryptoError_display e))
            (into_channel kex peer_eph None transcript Initiator)) in
    let s := with_session (c_local_kex s) (Some ch) (Some sid) s in
    try! _ from s := send_console_input p sid ch s in
    try! _ from s := send_packet (ScreenshotRequest sid) s in
    (s, Continue).

(** The chunk that completes the capture; the close is sent at best effort. *)
Definition on_screenshot_data (write : Result unit io.Error) (sequence total : N) (last : bool)
  (payload : string) (s : ClientState) : ClientState * ClientOutcome :=
  let s := with_chunks (c_chunks s ++ [(sequence, payload)]) s in
  if last || (total <=? len (c_chunks s))%N then
    try! ch from s := (s, ok_or (c_channel s) (Sdk.Crypto "data before key exchange")) in
    try! image from s := (s, finalize (c_chunks s) (Some total) ch write) in
    let s :=
      match c_session_id s with
      | Some sid => (send_packet (SessionClosed sid) s).1
      | None => s
      end in
    (s, Captured_image image (c_console_state s))
  else (s, Continue).

Definition on_packet (p : CaptureParams) (host_identity : bytes) (secret : EphemeralSecret)
  (write : Result unit io.Error) (packet : SignalPacket) (s : ClientState)
  : ClientState * ClientOutcome :=
  match packet with
  | SessionAccepted sid _ => on_accepted p secret sid s
  | SessionRejected _ reason => (s, Failed (Sdk.SessionRejected reason))
  | SessionKeyExchange sid e i g => on_host_key_exchange p host_identity sid e i g s
  | ScreenshotData _ sequence total last payload =>
      on_screenshot_data write sequence total last payload s
  | HostConsoleStatePacket _ st gen =>
      (match c_console_state s with
       | Some (_, newest) => if (newest <=? gen)%N then with_console_state (Some (st, gen)) s else s
       | None => with_console_state (Some (st, gen)) s
       end, Continue)
  | SessionClosed _ => (s, Failed (Sdk.Relay "host closed the session"))
  | _ => (s, Continue)
  end.

(** The loop, over the frames still to come: [recv_text] skips what is not
    text. [Continue] is a loop that waits for another frame. *)
Fixpoint client_loop (p : CaptureParams) (host_identity : bytes) (secret : EphemeralSecret)
  (write : Result unit io.Error) (frames : list WsFrame) (s : ClientState)
  : ClientState * ClientOutcome :=
  match frames with
  | [] => (s, Continue)
  | WsText text :: frames' =>
      match from_json text with
      | Err _ => client_loop p host_identity secret write frames' s
      | Ok packet =>
          match on_packet p host_identity secret write packet s with
          | (s', Continue) => client_loop p host_identity secret write frames' s'
          | done => done
          end
      end
  | WsClose :: _ => (s, Failed (Sdk.Relay "connection closed"))
  | WsOther :: frames' => client_loop p host_identity secret write frames' s
  | WsError e :: _ => (s, Failed (Sdk.WebSocket e))
  end.

(** [recv_text] and the frames after it. *)
Fixpoint recv_text (frames : list WsFrame) : Result (string * list WsFrame) Sdk.SdkError :=
  match frames with
  | [] => Err (Sdk.Relay "stream ended")
  | WsText t :: frames' => Ok (t, frames')
  | WsClose :: _ => Err (Sdk.Relay "connection closed")
  | WsOther :: frames' => recv_text frames'
  | WsError e :: _ => Err (Sdk.WebSocket e)
  end.

(** The whole of [capture_screenshot] against a relay that delivers [frames]
    and then ends the stream. *)
Definition capture_screenshot (p : CaptureParams) (connect : Result unit string)
  (secret : EphemeralSecret) (write : Result unit io.Error) (link : list (option string))
  (frames : list WsFrame) : ClientState * ClientOutcome :=
  let s := client_start link in
  if negb (starts_with "wss://" (relay_ws_url p))
  then (s, Failed (Sdk.Config "relay_ws_url must use wss://; plaintext relay WebSockets are unsafe"))
  else
    try! host_identity from s := (s, sdk_parse_identity (host_public_key_b64 p)) in
    try! _ from s := (s, map_err (fun e => Sdk.Relay ("connect failed: " ++ e)%string) connect) in
    try! _ from s :=
      send_text (json_text (JObject [("type"%string, JString "AUTH");
                                     ("token"%string, JString (token p))])) s in
    try! ack_frames from s := (s, recv_text frames) in
    let '(ack, frames) := ack_frames in
    try! ty from s := (s, map_err Sdk.SerdeError (json_type ack)) in
    if negb (bool_decide (ty = Some "AUTHENTICATED"))
    then (s, Failed (Sdk.Auth ("unexpected auth response: " ++ ack)%string))
    else
      try! _ from s :=
        send_packet (SessionRequest (device_id p) (public_key_b64 (identity p))
                       RELAY_PROTOCOL_VERSION (requested_capability p) None) s in
      match client_loop p host_identity secret write frames s with
      | (s, Continue) => (s, Failed (Sdk.Relay "stream ended"))
      | done => done
      end.
End Client.

(** ** Sorting and cutting *)

Lemma insert_by_key_permutation {A} (key : A -> N) x l : insert_by_key key x l ≡ₚ x :: l.
Proof.
  induction l as [|y l IH]; simpl; [done|]. destruct (_ <=? _)%N; [done|].
  rewrite IH. by constructor.
Qed.
Lemma sort_by_key_permutation {A} (key : A -> N) l : sort_by_key key l ≡ₚ l.
Proof. induction l as [|x l IH]; simpl; [done|]. by rewrite insert_by_key_permutation, IH. Qed.

Lemma insert_by_key_sorted {A} (key : A -> N) x l :
  StronglySorted (fun a b => (key a <= key b)%N) l ->
  StronglySorted (fun a b => (key a <= key b)%N) (insert_by_key key x l).
Proof.
  induction 1 as [|y l Hl IH Hy]; simpl; [repeat constructor|].
  destruct (N.leb_spec (key x) (key y)) as [L|L].
  - constructor; [by constructor|]. constructor; [done|].
    eapply list.Forall_impl; [exact Hy|]. simpl. intros; lia.
  - constructor; [done|]. rewrite insert_by_key_permutation. constructor; [lia|done].
Qed.
Lemma sort_by_key_sorted {A} (key : A -> N) l :
  StronglySorted (fun a b => (key a <= key b)%N) (sort_by_key key l).
Proof. induction l; simpl; [constructor|]. by apply insert_by_key_sorted. Qed.

(** Sorting any permutation of a strictly increasing list gives the list. *)
Lemma sort_by_key_unique {A} (key : A -> N) l ps :
  StronglySorted (fun a b => (key a < key b)%N) ps -> l ≡ₚ ps -> sort_by_key key l = ps.
Proof.
  intros S P. apply (StronglySorted_unique_strong (fun a b => (key a <= key b)%N)).
  - intros x y Hx Hy H1 H2. rewrite sort_by_key_permutation, P in Hx.
    assert (key x = key y) as E by lia. clear H1 H2 P l.
    induction S as [|z ps S IH Hz]; [by apply elem_of_nil in Hx|].
    rewrite list.Forall_forall in Hz.
    apply elem_of_cons in Hx as [->|Hx], Hy as [->|Hy]; auto;
      match goal with H : _ ∈ ps |- _ => apply Hz in H; lia end.
  - apply sort_by_key_sorted.
  - clear P. induction S as [|z ps S IH Hz]; constructor; [done|].
    eapply list.Forall_impl; [exact Hz|]. simpl. intros; lia.
  - by rewrite sort_by_key_permutation.
Qed.

Lemma concat_chunks_fuel {A} fuel n (l : list A) :
  (0 < n)%nat -> (length l <= fuel)%nat -> List.concat (chunks_fuel fuel n l) = l.
Proof.
  intros Hn. revert l. induction fuel as [|fuel IH]; intros [|x l] Hl; simpl in *; try done; [lia|].
  rewrite IH, take_drop; [done|]. rewrite length_drop. simpl. lia.
Qed.
Lemma div_ceil_0 k : div_ceil 0 k = 0%N.
Proof. by destruct k. Qed.
Lemma length_chunks_fuel {A} fuel n (l : list A) :
  (0 < n)%nat -> (length l <= fuel)%nat ->
  N.of_nat (length (chunks_fuel fuel n l)) = div_ceil (len l) (N.of_nat n).
Proof.
  intros Hn. revert l. induction fuel as [|fuel IH]; intros l Hl.
  { destruct l; [by rewrite div_ceil_0|simpl in Hl; lia]. }
  destruct l as [|x l]; [by rewrite div_ceil_0|].
  cbn [chunks_fuel length]. rewrite Nat2N.inj_succ, IH by (rewrite length_drop; simpl in *; lia).
  unfold div_ceil, len. rewrite length_drop. cbn [length] in *.
  set (k := N.of_nat n). set (m := N.of_nat (S (length l))).
  assert (0 < k)%N by lia.
  assert (N.of_nat (S (length l) - n) = (m - k)%N) as -> by lia.
  destruct (N.le_gt_cases k m) as [Hk|Hk].
  - assert (m = (m - k) + 1 * k)%N as Em by lia. rewrite Em at 3 4.
    rewrite N.div_add, N.Div0.mod_add by lia. lia.
  - replace (m - k)%N with 0%N by lia.
    rewrite N.Div0.div_0_l, N.Div0.mod_0_l, N.div_small, N.mod_small by lia.
    destruct (N.eqb_spec m 0); [lia|]. done.
Qed.
Lemma chunks_fuel_parts {A} fuel n (l c : list A) :
  c ∈ chunks_fuel fuel n l -> forall x, x ∈ c -> x ∈ l.
Proof.
  revert l. induction fuel as [|fuel IH]; intros [|y l] Hc x Hx; simpl in Hc;
    try (by apply elem_of_nil in Hc).
  apply elem_of_cons in Hc as [->|Hc].
  - rewrite <-(take_drop n (y :: l)). apply elem_of_app. by left.
  - rewrite <-(take_drop n (y :: l)). apply elem_of_app. right. by eapply IH.
Qed.

Lemma as_bytes_concat l : as_bytes (String.concat "" l) = List.concat (map as_bytes l).
Proof.
  induction l as [|s [|t l] IH]; simpl; [done|by rewrite app_nil_r|].
  rewrite as_bytes_app. f_equal. exact IH.
Qed.

Lemma try_map_Forall2 {A B E} (f : A -> Result B E) l ys :
  try_map f l = Ok ys -> Forall2 (fun x y => f x = Ok y) l ys.
Proof.
  revert ys. induction l as [|x l IH]; intros ys Eq; simpl in Eq; [by simplify_eq; constructor|].
  destruct (f x) eqn:?; [|done]. destruct (try_map f l) eqn:?; [|done]. simplify_eq.
  constructor; auto.
Qed.

(** ** The frames of a capture *)

Section Reassembly.
Context `{Ed25519} `{X25519} `{Hash} `{Aead} `{Base64Laws} `{UuidText}.
Context `{!Serde SignalPacket} `{!SerdeLaws SignalPacket} `{!Serde ConsoleInputPacket}.

(** The chunk a frame carries. *)
Definition frame_chunk (f : string) : option (N * string) :=
  match from_json f with
  | Ok (ScreenshotData _ sequence _ _ payload) => Some (sequence, payload)
  | _ => None
  end.

(** A frame at position [sequence] of [total]. *)
Definition is_frame (sid : SessionId) (total sequence : N) (f : string) : Prop :=
  exists payload,
    from_json f = Ok (ScreenshotData sid sequence total (sequence + 1 =? total)%N payload).

Lemma Forall2_omap {A B} (f : A -> option B) l ys :
  Forall2 (fun x y => f x = Some y) l ys -> omap f l = ys.
Proof. induction 1 as [|x y l ys E _ IH]; cbn; [done|].
  rewrite E. by f_equal. Qed.

(** The chunks as numbered pairs. *)
Definition numbered (start : nat) (cs : list bytes) : list (N * string) :=
  map (fun ic => (N.of_nat ic.1, from_utf8_lossy ic.2)) (zip (seq start (length cs)) cs).

Lemma numbered_sorted start cs :
  StronglySorted (fun a b => (a.1 < b.1)%N) (numbered start cs) /\
  Forall (fun q => (N.of_nat start <= q.1)%N) (numbered start cs).
Proof.
  revert start. induction cs as [|c cs IH]; intros start; [by repeat constructor|].
  unfold numbered in *. cbn [length seq zip map zip_with fst snd]. destruct (IH (S start)) as [S F].
  split; constructor; simpl; try done; try lia;
    (eapply list.Forall_impl; [exact F|]; simpl; intros; lia).
Qed.
Lemma numbered_lookup start cs i q :
  numbered start cs !! i = Some q -> q.1 = N.of_nat (start + i).
Proof.
  revert start i. induction cs as [|c cs IH]; intros start i Hq; [done|].
  unfold numbered in *. cbn [length seq zip map zip_with fst snd] in Hq.
  destruct i as [|i]; cbn in Hq; [simplify_eq; by rewrite Nat.add_0_r|].
  apply IH in Hq. rewrite Hq. f_equal. lia.
Qed.
Lemma numbered_concat start cs :
  Forall (fun c => is_ascii c = true) cs ->
  String.concat "" (map snd (numbered start cs)) = from_utf8 (List.concat cs).
Proof.
  intros F. apply as_bytes_inj. rewrite as_bytes_concat, as_bytes_from_utf8. f_equal.
  revert start. induction F as [|c cs Hc F IH]; intros start; [done|].
  unfold numbered in *. cbn [length seq zip map zip_with fst snd].
  rewrite IH, from_utf8_lossy_ascii, as_bytes_from_utf8 by done. done.
Qed.

Lemma chunk_frame_chunk sid total i c f :
  (N.of_nat i < total)%N -> (total <= u32_max)%N -> chunk_frame sid total (i, c) = Ok f ->
  is_frame sid total (N.of_nat i) f /\ frame_chunk f = Some (N.of_nat i, from_utf8_lossy c).
Proof.
  intros Hi Ht E. unfold chunk_frame, packet_json in E. cbn [fst snd] in E.
  rewrite N.min_l in E by lia. destruct to_json eqn:J; [|done].
  apply from_to_json in J. cbn in E. simplify_eq. unfold is_frame, frame_chunk. rewrite J. eauto.
Qed.

Lemma try_map_frames sid total start cs frames :
  (N.of_nat (start + length cs) <= total)%N -> (total <= u32_max)%N ->
  try_map (chunk_frame sid total) (zip (seq start (length cs)) cs) = Ok frames ->
  Forall2 (fun f q => is_frame sid total q.1 f /\ frame_chunk f = Some q) frames (numbered start cs).
Proof.
  revert start frames. induction cs as [|c cs IH]; intros start frames Hb Ht E.
  { simpl in E. simplify_eq. constructor. }
  unfold numbered in *. cbn [length seq zip map zip_with fst snd try_map] in *.
  destruct (chunk_frame _ _ _) as [f|] eqn:Ef; [|done].
  destruct (try_map _ _) as [fs|] eqn:Efs; [|done]. simplify_eq.
  constructor; [|eapply IH; [|done..]; lia].
  eapply chunk_frame_chunk; [|done..]. lia.
Qed.

Lemma chunk_size_pos : (0 < N.to_nat CHUNK_CHARS)%nat.
Proof. unfold CHUNK_CHARS. lia. Qed.

(** What [chunk_payload] produces for ASCII text. *)
Lemma chunk_payload_frames sid b64 frames :
  is_ascii (as_bytes b64) = true -> frames <> [] -> chunk_payload sid b64 = Ok frames ->
  exists ps,
    Forall2 (fun f q => is_frame sid (len frames) q.1 f /\ frame_chunk f = Some q) frames ps /\
    StronglySorted (fun a b => (a.1 < b.1)%N) ps /\
    (forall i q, ps !! i = Some q -> q.1 = N.of_nat i) /\
    String.concat "" (map snd ps) = b64.
Proof.
  intros Ha Hne E. unfold chunk_payload in E.
  set (cs := chunks (N.to_nat CHUNK_CHARS) (as_bytes b64)) in *.
  assert (N.of_nat (length cs) = div_ceil (len (as_bytes b64)) CHUNK_CHARS) as L.
  { unfold cs, chunks. rewrite length_chunks_fuel, N2Nat.id; [done|apply chunk_size_pos|lia]. }
  assert ((u32_max <? N.max (N.of_nat (length cs)) 1)%N = false) as Eu.
  { rewrite L. by destruct (_ <? _)%N. }
  rewrite <-L, Eu in E. apply N.ltb_ge in Eu.
  assert (length frames = length cs) as Lf.
  { apply try_map_Forall2, Forall2_length in E. rewrite <-E, length_zip, length_seq. lia. }
  assert (length frames <> 0) as Hnz by (by destruct frames).
  rewrite N.max_l in E by lia.
  apply try_map_frames in E; [|lia..]. unfold len. rewrite Lf.
  exists (numbered 0 cs). split; [done|]. split; [apply numbered_sorted|].
  split; [intros i q Hq; by apply numbered_lookup in Hq|]. rewrite numbered_concat.
  - unfold cs, chunks. rewrite concat_chunks_fuel, from_utf8_as_bytes; [done|apply chunk_size_pos|lia].
  - apply list.Forall_forall. intros c Hc. unfold is_ascii in *.
    apply forallb_forall. intros x Hx. rewrite forallb_forall in Ha. apply Ha.
    apply list_elem_of_In. eapply chunks_fuel_parts; [exact Hc|]. by apply list_elem_of_In.
Qed.

(** Frames before the last one are collected. *)
Lemma client_loop_collect p hid sec wr sid total ini rest s :
  (len (c_chunks s) + len ini < total)%N ->
  Forall (fun f => exists q, is_frame sid total q f /\ (q + 1 <> total)%N) ini ->
  client_loop p hid sec wr (map WsText ini ++ rest) s =
  client_loop p hid sec wr rest (with_chunks (c_chunks s ++ omap frame_chunk ini) s).
Proof.
  intros Hl F. revert s Hl. induction F as [|f ini (q & [payload Hf] & Hq) F IH]; intros s Hl.
  { simpl. rewrite app_nil_r. by destruct s. }
  cbn [map app client_loop]. rewrite Hf. cbn [on_packet]. unfold on_screenshot_data.
  rewrite (proj2 (N.eqb_neq _ _) Hq). cbn [orb c_chunks with_chunks].
  unfold len in *. rewrite length_app. cbn [length] in *.
  destruct (N.leb_spec total (N.of_nat (length (c_chunks s) + 1))) as [|_]; [lia|].
  rewrite IH by (cbn [c_chunks with_chunks]; rewrite length_app; cbn [length]; lia).
  cbn [c_chunks with_chunks omap list_omap]. unfold frame_chunk at 2. rewrite Hf.
  by rewrite <-app_assoc.
Qed.

Lemma reassemble p hid sec sid sealed ini lst ini' ch image s :
  chunk_payload sid (b64_encode sealed) = Ok (ini ++ [lst]) ->
  ini' ≡ₚ ini ->
  c_chunks s = [] -> c_channel s = Some ch -> (open ch sealed).2 = Ok image ->
  exists s', client_loop p hid sec (Ok tt) (map WsText (ini' ++ [lst])) s =
    (s', Captured_image image (c_console_state s)).
Proof.
  intros E P Hc Hch Ho.
  destruct (chunk_payload_frames sid (b64_encode sealed) (ini ++ [lst])) as (ps & F & S & I & C);
    [apply b64_encode_ascii|by destruct ini|done|].
  pose proof (Forall2_length _ _ _ F) as L. rewrite length_app in L. cbn [length] in L.
  apply Forall2_app_inv_l in F as (ps1 & ps2 & F1 & F2 & ->).
  apply Forall2_cons_inv_l in F2 as (q & [|? ?] & [Hf Hq] & F2 & ->); [|by inversion F2].
  pose proof (Forall2_length _ _ _ F1) as L1.
  assert (q.1 = N.of_nat (length ini)) as Eq.
  { rewrite L1. apply I. by rewrite lookup_app_r, Nat.sub_diag. }
  assert (len (ini ++ [lst]) = N.of_nat (length ini) + 1)%N as Et.
  { unfold len. rewrite length_app. cbn [length]. lia. }
  rewrite Et in *. rewrite map_app, (client_loop_collect _ _ _ _ sid (N.of_nat (length ini) + 1)).
  - rewrite Hc. cbn [map client_loop app]. destruct Hf as [payload Hf]. rewrite Hf.
    cbn [on_packet]. unfold on_screenshot_data. rewrite Eq, N.eqb_refl.
    cbn [orb c_channel c_chunks with_chunks]. rewrite Hch. cbn [ok_or and_then].
    assert (q = (N.of_nat (length ini), payload)) as ->.
    { unfold frame_chunk in Hq. rewrite Hf in Hq. rewrite <-Eq. congruence. }
    set (cs := omap frame_chunk ini' ++ _).
    assert (cs ≡ₚ ps1 ++ [(N.of_nat (length ini), payload)]) as Pcs.
    { unfold cs. apply Permutation_app_tail. rewrite P.
      erewrite Forall2_omap; [done|]. eapply Forall2_impl; [exact F1|]. by intros ? ? []. }
    unfold finalize. cbn [c_chunks with_chunks]. rewrite (sort_by_key_unique fst cs _ S Pcs), C, b64_decode_encode.
    unfold len. rewrite (Permutation_length Pcs), length_app, <-L1. cbn [length].
    replace (N.of_nat (length ini + 1)) with (N.of_nat (length ini) + 1)%N by lia.
    rewrite N.eqb_refl. cbn [negb map_err]. rewrite Ho. cbn [map_err and_then].
    eexists. f_equal. f_equal. cbn [c_session_id with_chunks].
    destruct (c_session_id s); [|done]. unfold send_packet.
    destruct to_json; [|done]. unfold send_text. by destruct (c_link _) as [|[]].
  - rewrite Hc. unfold len. rewrite (Permutation_length P). cbn [length]. lia.
  - rewrite P. apply list.Forall_forall. intros f Hin.
    apply list_elem_of_lookup in Hin as [i Hi].
    destruct (Forall2_lookup_l _ _ _ _ _ F1 Hi) as (q' & Hq' & Hf' & _).
    exists q'.1. split; [done|].
    pose proof (lookup_lt_Some _ _ _ Hi). assert (q'.1 = N.of_nat i) as ->; [|lia].
    apply I. by apply lookup_app_l_Some.
Qed.

Lemma chunk_payload_nonempty sid b frames :
  b <> [] -> chunk_payload sid (b64_encode b) = Ok frames -> frames <> [].
Proof.
  intros Hb E ->. unfold chunk_payload in E. destruct (_ <? _)%N; [done|].
  apply try_map_Forall2, Forall2_length in E. rewrite length_zip, length_seq, Nat.min_id in E.
  apply Hb, b64_encode_empty. destruct (as_bytes (b64_encode b)); [done|discriminate].
Qed.
End Reassembly.

(** ** The session of a host and a client *)

Section Session.
Context `{Ed25519Laws} `{X25519Laws} `{HashLaws} `{AeadLaws} `{Base64Laws} `{UuidText}.
Context `{JsonText} `{JsonType}.
Context `{!Serde SignalPacket} `{!SerdeLaws SignalPacket} `{!Serde ConsoleInputPacket}.
Context `{!Serde StoredFile} `{!SerdePretty StoredFile}.

(** What an accepted request leaves in the host and sends to the client. *)
Record accepted (env : HostEnv) (sid : SessionId) (vk : bytes) (w0 w1 : HostWorld)
  (frames : list string) : Prop := {
  accepted_session : session_id (host w1) = Some sid;
  accepted_client : client_identity (host w1) = Some vk;
  accepted_key : identity_b64 (host w1) = identity_b64 (host w0);
  accepted_policy : policy (host w1) = policy (host w0);
  accepted_kex : local_kex (host w1) =
    Some (start (host_key (host w0))
            (relay_kex_binding sid (as_bytes "host") (identity_b64 (host w0))) (new_ephemeral env));
  accepted_frames : exists accept kex rest, frames = accept :: kex :: rest /\
    from_json accept = Ok (SessionAccepted sid Controller) /\
    from_json kex = Ok (key_exchange_packet (identity_b64 (host w0)) sid
      (start (host_key (host w0))
         (relay_kex_binding sid (as_bytes "host") (identity_b64 (host w0))) (new_ephemeral env))) /\
    Forall (fun f => exists st gen, from_json f = Ok (HostConsoleStatePacket sid st gen)) rest;
}.

Lemma consent_keeps env key w w' r :
  consent env key w = (w', r) ->
  host_key (host w') = host_key (host w) /\ identity_b64 (host w') = identity_b64 (host w) /\
  policy (host w') = policy (host w).
Proof.
  unfold consent, bind, get_host, lift, ret, emit, trust_approved. intros E.
  destruct (get _ _); [destruct (is_unattended _); simplify_eq/=; by repeat split|].
  destruct (policy (host w)) eqn:Ep; [|simplify_eq/=; by repeat split..].
  destruct (prompt_reply env); cbn in E; [|simplify_eq/=; by repeat split].
  destruct (prompt_operator _); cbn in E; [|simplify_eq/=; by repeat split].
  destruct trust as [[t d] []]; by simplify_eq/=.
Qed.

Lemma packet_json_ok p f : packet_json p = Ok f -> from_json f = Ok p.
Proof.
  unfold packet_json. destruct (to_json p) eqn:J; [|done]. intros Eq.
  cbn in Eq. simplify_eq. by apply from_to_json.
Qed.

Lemma refuse_single sid reason w w' fs :
  refuse sid reason w = (w', Ok fs) -> exists f, fs = [f].
Proof.
  unfold refuse, bind, lift, ret. destruct reject; [|done]. intros. simplify_eq. eauto.
Qed.

Lemma session_request_accepted env key v cap sid w0 w1 a b rest vk :
  parse_identity key = Ok vk ->
  on_session_request env key v cap (Some sid) w0 = (w1, Ok (a :: b :: rest)) ->
  accepted env sid vk w0 w1 (a :: b :: rest).
Proof.
  intros Hk E. unfold on_session_request in E.
  assert (forall reason w w', refuse sid reason w = (w', Ok (a :: b :: rest)) -> False) as Hno.
  { intros ? ? ? R. by destruct (refuse_single _ _ _ _ _ R). }
  destruct (negb _); [by apply Hno in E|]. unfold bind at 1, get_host in E.
  destruct (_ && _); [by apply Hno in E|]. rewrite Hk in E.
  destruct (_ && _); [by apply Hno in E|].
  unfold bind at 1 in E. destruct consent as [wc [ok|]] eqn:Ec; [|done].
  destruct (consent_keeps _ _ _ _ _ Ec) as (K1 & K2 & K3).
  destruct ok; cbn [negb] in E; [|by apply Hno in E].
  unfold bind, get_host, modify, lift, ret, key_exchange_frame in E. cbn in E.
  rewrite K1, K2 in E.
  destruct packet_json as [kx|] eqn:Ekx; [|done].
  destruct (packet_json (SessionAccepted _ _)) as [ac|] eqn:Eac; [|done]. cbn in E.
  apply packet_json_ok in Ekx, Eac.
  destruct (console_state_provider _), (provider_reply env) as [[st gen]|];
    [destruct (packet_json (HostConsoleStatePacket _ _ _)) as [cs|] eqn:Ecs; [|done];
     apply packet_json_ok in Ecs|..]; simplify_eq; split; simpl; try done;
    exists a, b; eexists; (split; [done|]); (split; [done|]); (split; [done|]);
    repeat constructor; eauto.
Qed.
(** The two sides compute one transcript and one binding. *)
Lemma transcripts_agree sid c h pc ph t :
  sdk_relay_transcript sid c h pc ph = Ok t <-> relay_transcript sid c h pc ph = Ok t.
Proof.
  unfold sdk_relay_transcript, relay_transcript, packet_json.
  destruct (to_json pc), (to_json ph); cbn; split; congruence.
Qed.

Lemma transcript_total sid c h pc ph : exists t, relay_transcript sid c h pc ph = Ok t.
Proof.
  unfold relay_transcript, packet_json. pose proof (to_json_ok pc). pose proof (to_json_ok ph).
  destruct (to_json pc), (to_json ph); try done. by eexists.
Qed.

Lemma sdk_decode_32_encode b : length b = 32 -> sdk_decode_32 (b64_encode b) = Ok b.
Proof.
  intros L. unfold sdk_decode_32. rewrite trim_trimmed by apply b64_encode_trimmed.
  rewrite b64_decode_encode. simpl. by rewrite L.
Qed.
Lemma sdk_decode_64_encode b : length b = 64 -> sdk_decode_64 (b64_encode b) = Ok b.
Proof.
  intros L. unfold sdk_decode_64. rewrite trim_trimmed by apply b64_encode_trimmed.
  rewrite b64_decode_encode. simpl. by rewrite L.
Qed.

Lemma send_packet_json packet s :
  c_link s = [] -> exists json, to_json packet = Ok json /\ from_json json = Ok packet /\
  send_packet packet s =
    ({| c_local_kex := c_local_kex s; c_channel := c_channel s; c_session_id := c_session_id s;
        c_chunks := c_chunks s; c_console_state := c_console_state s; c_link := [];
        c_sent := c_sent s ++ [json] |}, Ok tt).
Proof.
  intros L. pose proof (to_json_ok packet) as J. destruct (to_json packet) as [json|] eqn:E; [|done].
  exists json. split; [done|]. split; [by apply from_to_json|].
  unfold send_packet, send_text. by rewrite E, L.
Qed.

(** The client's state after its side of the exchange. *)
Record ready (p : CaptureParams) (sid : SessionId) (secret : EphemeralSecret) (ch : SealedChannel)
  (s : ClientState) : Prop := {
  ready_channel : c_channel s = Some ch;
  ready_chunks : c_chunks s = [];
  ready_sent : exists kx rq, c_sent s = [kx; rq] /\
    from_json kx = Ok (sdk_key_exchange_packet sid (identity p)
      (start (identity p)
         (sdk_relay_kex_binding sid (as_bytes "client") (public_key_b64 (identity p))) secret)) /\
    from_json rq = Ok (ScreenshotRequest sid);
}.

(** Console states only update the newest one. *)
Lemma client_loop_states p hid secret wr sid frames s ch :
  Forall (fun f => exists st gen, from_json f = Ok (HostConsoleStatePacket sid st gen)) frames ->
  ready p sid secret ch s ->
  exists s', client_loop p hid secret wr (map WsText frames) s = (s', Continue) /\
    ready p sid secret ch s'.
Proof.
  intros F. revert s. induction F as [|f frames (st & gen & Hf) F IH]; intros s R; [by exists s|].
  cbn [map client_loop]. rewrite Hf. cbn [on_packet]. apply IH.
  destruct R as [R1 R2 R3]. destruct (c_console_state s) as [[? newest]|];
    [destruct (newest <=? gen)%N|]; split; done.
Qed.

Lemma client_keys p secret wr sid accept kx rest hk eph :
  console_input p = None -> host_public_key_b64 p = b64_encode (verifying_key hk) ->
  let hkex := start hk (relay_kex_binding sid (as_bytes "host") (host_public_key_b64 p)) eph in
  let ckex := start (identity p)
    (sdk_relay_kex_binding sid (as_bytes "client") (public_key_b64 (identity p))) secret in
  from_json accept = Ok (SessionAccepted sid Controller) ->
  from_json kx = Ok (key_exchange_packet (host_public_key_b64 p) sid hkex) ->
  Forall (fun f => exists st gen, from_json f = Ok (HostConsoleStatePacket sid st gen)) rest ->
  exists s t ch,
    relay_transcript sid (public_key_b64 (identity p)) (host_public_key_b64 p)
      (sdk_key_exchange_packet sid (identity p) ckex)
      (key_exchange_packet (host_public_key_b64 p) sid hkex) = Ok t /\
    into_channel ckex (ephemeral_public hkex) None t Initiator = Ok ch /\
    client_loop p (verifying_key hk) secret wr (map WsText (accept :: kx :: rest)) (client_start [])
      = (s, Continue) /\ ready p sid secret ch s.
Proof.
  intros Hci Hid hkex ckex Ja Jk F.
  destruct (transcript_total sid (public_key_b64 (identity p)) (host_public_key_b64 p)
    (sdk_key_exchange_packet sid (identity p) ckex)
    (key_exchange_packet (host_public_key_b64 p) sid hkex)) as [t Ht].
  destruct (into_channel_paired (identity p) hk
    (sdk_relay_kex_binding sid (as_bytes "client") (public_key_b64 (identity p)))
    (relay_kex_binding sid (as_bytes "host") (host_public_key_b64 p)) secret eph None t)
    as (ch & ch' & Ech & _ & _).
  cbn [map client_loop]. rewrite Ja. cbn [on_packet]. unfold on_accepted. cbv zeta.
  fold ckex.
  match goal with |- context [send_packet ?pk ?s0] =>
    destruct (send_packet_json pk s0 eq_refl) as (j1 & J1 & J1' & ->) end.
  cbn [and_then with_session c_local_kex c_channel c_session_id c_chunks c_console_state c_link c_sent].
  rewrite Jk. unfold key_exchange_packet at 2. cbn [on_packet]. unfold on_host_key_exchange.
  cbn [c_session_id c_local_kex with_session]. rewrite !bool_decide_true by done. cbn [negb].
  rewrite sdk_decode_32_encode by apply x_public_length.
  cbn [and_then]. rewrite sdk_decode_64_encode by apply ed_sign_length. cbn [and_then].
  change (sdk_relay_kex_binding sid (as_bytes "host") (host_public_key_b64 p)) with
    (relay_kex_binding sid (as_bytes "host") (host_public_key_b64 p)).
  rewrite (verify_peer_start hk _ eph : verify_peer _ (ephemeral_public hkex) (signature hkex) _ = _). cbn [map_err and_then]. cbv zeta. cbn [c_local_kex with_session ok_or and_then].
  unfold host_identity_b64. rewrite <-Hid.
  change (SessionKeyExchange sid (b64_encode (ephemeral_public hkex)) (host_public_key_b64 p)
    (b64_encode (signature hkex))) with (key_exchange_packet (host_public_key_b64 p) sid hkex).
  rewrite (proj2 (transcripts_agree _ _ _ _ _ _) Ht). cbn [and_then].
  fold hkex ckex in Ech. rewrite Ech. cbn [map_err and_then]. unfold send_console_input. rewrite Hci.
  cbn [and_then with_session c_local_kex c_channel c_session_id c_chunks c_console_state c_link c_sent].
  match goal with |- context [send_packet ?pk ?s0] =>
    destruct (send_packet_json pk s0 eq_refl) as (j2 & J2 & J2' & ->) end.
  cbn [and_then c_local_kex c_channel c_session_id c_chunks c_console_state c_link c_sent app].
  match goal with |- context [client_loop _ _ _ _ _ ?s0] => set (s1 := s0) end.
  destruct (client_loop_states p (verifying_key hk) secret wr sid rest s1 ch F) as (s & E & R).
  { split; [done|done|]. exists j1, j2. done. }
  by exists s, t, ch.
Qed.

(** The host's side of the exchange. *)
Lemma host_keys env w1 sid ck hk bc eph secret t ch :
  session_id (host w1) = Some sid -> client_identity (host w1) = Some (verifying_key ck) ->
  let hkex := start hk (relay_kex_binding sid (as_bytes "host") (identity_b64 (host w1))) eph in
  let ckex := start ck bc secret in
  bc = relay_kex_binding sid (as_bytes "client") (public_key_b64 ck) ->
  local_kex (host w1) = Some hkex ->
  relay_transcript sid (public_key_b64 ck) (identity_b64 (host w1))
    (sdk_key_exchange_packet sid ck ckex) (key_exchange_packet (identity_b64 (host w1)) sid hkex) = Ok t ->
  into_channel hkex (ephemeral_public ckex) None t Responder = Ok ch ->
  exists w2, handle env (sdk_key_exchange_packet sid ck ckex) w1 = (w2, Ok []) /\
    session_id (host w2) = Some sid /\ channel (host w2) = Some ch /\
    policy (host w2) = policy (host w1).
Proof.
  intros Es Ec hkex ckex -> El Ht Hch.
  unfold handle, bind at 1, emit, sdk_key_exchange_packet at 1. cbn [dispatch].
  unfold on_key_exchange, bind, get_host, lift, modify, ret. cbn [host].
  rewrite Es, bool_decide_true by done. cbn [negb]. rewrite Ec. cbn [ok_or].
  unfold public_key_b64 at 1. rewrite parse_identity_encode, bool_decide_true by done. cbn [negb].
  rewrite decode_32_encode by apply x_public_length.
  rewrite decode_64_encode by apply ed_sign_length.
  rewrite (verify_peer_start ck _ secret : verify_peer _ (ephemeral_public ckex) (signature ckex) _ = _).
  cbn [map_err]. rewrite El. cbn [ok_or]. fold (sdk_key_exchange_packet sid ck ckex).
  change (SessionKeyExchange sid (b64_encode (ephemeral_public ckex)) (public_key_b64 ck)
    (b64_encode (signature ckex))) with (sdk_key_exchange_packet sid ck ckex).
  rewrite Ht, Hch. cbn [map_err]. eexists. split; [done|]. by cbn.
Qed.

(** What a served capture is made of. *)
Lemma screenshot_frames env sid w w' frames ch :
  session_id (host w) = Some sid -> channel (host w) = Some ch ->
  on_screenshot_request env sid w = (w', Ok frames) ->
  exists image sealed, capture_reply env (policy (host w)) = Ok image /\
    (seal ch image).2 = Ok sealed /\ chunk_payload sid (b64_encode sealed) = Ok frames.
Proof.
  intros Es Ec E. unfold on_screenshot_request, bind at 1, get_host in E.
  rewrite Es, bool_decide_true in E by done. cbn [negb] in E.
  unfold bind at 1, lift at 1 in E. rewrite Ec in E. cbn [ok_or] in E.
  unfold bind at 1 in E. destruct bounded_capture as [w1 [image|]] eqn:Eb; [|done].
  assert (capture_reply env (policy (host w)) = Ok image) as Hi.
  { unfold bounded_capture, capture, bind, get_host, emit, lift, fail, modify, ret in Eb.
    destruct capture_limits as [[interval max_bytes]|]; [destruct (_ && _); [done|]|];
      (destruct capture_reply as [im|]; [|done]); cbn in Eb; [destruct (_ <? _)%N; [done|]|];
      congruence. }
  exists image. unfold bind, seal_with, modify, lift, ret in E.
  destruct (seal ch image) as [ch' [sealed|]]; cbn in E; [|done]. exists sealed.
  split; [done|]. split; [done|]. congruence.
Qed.

Lemma sealed_opens c h image sealed :
  paired c h -> (seal h image).2 = Ok sealed -> sealed <> [] /\ (open c sealed).2 = Ok image.
Proof.
  intros [_ D (N1 & N2 & N3 & N4)] E.
  destruct (seal_cases h image) as [[Hm Es]|[(Hm & x & Ex & Es)|(Hm & x & Ex & Es)]];
    rewrite Es in E; try discriminate.
  cbn [snd] in E. assert (sealed = header (next_send h) ++ x) as -> by congruence.
  split; [done|]. rewrite (open_sealed h c (next_send h) image x D); [|by rewrite N3|done].
  by rewrite N2, N3.
Qed.

(** C31. A screenshot crosses the relay. Let the host accept a client's request.
    The client that pins this host's key takes the host's frames, answers with
    its key exchange and a screenshot request, and waits; the host takes that
    key exchange without an error; and when it then serves the request, the
    client finishes with exactly the image the host captured. *)
Theorem relay_screenshot_round_trip env1 p secret device sid w0 w1 accept kx rest :
  identity_b64 (host w0) = b64_encode (verifying_key (host_key (host w0))) ->
  host_public_key_b64 p = identity_b64 (host w0) -> console_input p = None ->
  handle env1 (SessionRequest device (public_key_b64 (identity p)) RELAY_PROTOCOL_VERSION
                 (requested_capability p) (Some sid)) w0 = (w1, Ok (accept :: kx :: rest)) ->
  exists hid s kexchange request pk,
    sdk_parse_identity (host_public_key_b64 p) = Ok hid /\
    client_loop p hid secret (Ok tt) (map WsText (accept :: kx :: rest)) (client_start [])
      = (s, Continue) /\
    c_sent s = [kexchange; request] /\ from_json kexchange = Ok pk /\
    from_json request = Ok (ScreenshotRequest sid) /\
    forall env2, exists w2, handle env2 pk w1 = (w2, Ok []) /\
    forall env3 w3 frames,
      on_screenshot_request env3 sid
        {| host := host w2; disk := disk w2; log := Received (ScreenshotRequest sid) :: log w2 |}
      = (w3, Ok frames) ->
      exists image s', capture_reply env3 (policy (host w0)) = Ok image /\
        client_loop p hid secret (Ok tt) (map WsText frames) s =
          (s', Captured_image image (c_console_state s)).
Proof.
  intros Hid Hp Hci E. unfold handle, bind at 1, emit in E. cbn [dispatch] in E.
  apply (session_request_accepted _ _ _ _ _ _ _ _ _ _ (verifying_key (identity p))) in E;
    [|apply parse_identity_encode].
  destruct E as [A1 A2 A3 A4 A5 (a & k & r & Er & Ja & Jk & F)]. cbn [host] in *.
  injection Er as <- <- <-.
  set (hk := host_key (host w0)) in *.
  rewrite <-Hp in Jk, A5.
  destruct (client_keys p secret (Ok tt) sid accept kx rest hk (new_ephemeral env1))
    as (s & t & ch & Ht & Hch & Hl & [R1 R2 (j1 & j2 & Rs & J1 & J2)]); try done; [congruence|].
  exists (verifying_key hk), s, j1, j2, (sdk_key_exchange_packet sid (identity p)
    (start (identity p) (sdk_relay_kex_binding sid (as_bytes "client") (public_key_b64 (identity p))) secret)).
  split. { rewrite Hp, Hid. unfold sdk_parse_identity.
    rewrite sdk_decode_32_encode by apply verifying_key_length. cbn. by rewrite verifying_key_valid. }
  do 4 (split; [done|]). intros env2.
  destruct (into_channel_paired (identity p) hk
    (sdk_relay_kex_binding sid (as_bytes "client") (public_key_b64 (identity p)))
    (relay_kex_binding sid (as_bytes "host") (host_public_key_b64 p)) secret (new_ephemeral env1) None t)
    as (ch1 & ch' & Ech & Ech' & P).
  assert (ch1 = ch) as -> by congruence.
  destruct (host_keys env2 w1 sid (identity p) hk
    (sdk_relay_kex_binding sid (as_bytes "client") (public_key_b64 (identity p)))
    (new_ephemeral env1) secret t ch') as (w2 & Hh & S2 & C2 & P2);
    rewrite ?A3, <-?Hp; try done.
  exists w2. split; [done|]. intros env3 w3 frames Hs.
  apply (screenshot_frames _ _ _ _ _ ch') in Hs as (image & sealed & Hi & Hse & Hc); [|done..].
  cbn [host] in Hi. rewrite P2, A4 in Hi. exists image.
  destruct (sealed_opens ch ch' image sealed P Hse) as [Hne Ho].
  pose proof (chunk_payload_nonempty _ _ _ Hne Hc) as Hf.
  destruct (exists_last Hf) as (ini & lst & ->).
  destruct (reassemble p (verifying_key hk) secret sid sealed ini lst ini ch image s)
    as [s' Hs']; try done. by exists s'.
Qed.

(** A capture survives any order of its chunks. The frames of a sealed
    image, delivered with the last one last and the others in any order, make
    the client finish with the image that its channel opens from the sealed
    bytes: the base64 text is cut and put together again without loss. *)
Theorem capture_reassembles_any_order p hid sec sid sealed ini lst ini' ch image s :
  chunk_payload sid (b64_encode sealed) = Ok (ini ++ [lst]) ->
  ini' ≡ₚ ini ->
  c_chunks s = [] -> c_channel s = Some ch -> (open ch sealed).2 = Ok image ->
  exists s', client_loop p hid sec (Ok tt) (map WsText (ini' ++ [lst])) s =
    (s', Captured_image image (c_console_state s)).
Proof. apply reassemble. Qed.
End Session.

(** ** Witnesses *)

#[local] Existing Instances packet_serde input_serde store_serde store_pretty.
#[local] Instance packet_serde_laws : SerdeLaws SignalPacket := toy_serde_laws SignalPacket.

Definition w_params : CaptureParams :=
  {| relay_ws_url := "wss://relay"; token := "jwt"; identity := w_client_key; device_id := w_sid;
     host_public_key_b64 := identity_b64 w_host; requested_capability := ConsoleControl;
     console_input := None |}.
Definition w_first_frames : list string :=
  match (handle w_env w_request w_world0).2 with Ok frames => frames | Err _ => [] end.
Definition w_accept : string := default ""%string (w_first_frames !! 0).
Definition w_kx : string := default ""%string (w_first_frames !! 1).

Lemma relay_screenshot_round_trip_witness :
  exists s, client_loop w_params (verifying_key w_host_key) w_client_eph (Ok tt)
    (map WsText [w_accept; w_kx]) (client_start []) = (s, Continue).
Proof.
  assert (sdk_parse_identity (host_public_key_b64 w_params) = Ok (verifying_key w_host_key)) as Hk
    by (vm_compute; reflexivity).
  destruct (relay_screenshot_round_trip w_env w_params w_client_eph w_sid w_sid w_world0
    (handle w_env w_request w_world0).1 w_accept w_kx [])
    as (hid & s & k & r & pk & Hid & Hl & _).
  - reflexivity.
  - reflexivity.
  - reflexivity.
  - change (SessionRequest w_sid (public_key_b64 (identity w_params)) RELAY_PROTOCOL_VERSION
      (requested_capability w_params) (Some w_sid)) with w_request.
    etransitivity; [apply surjective_pairing|]. apply (f_equal (pair _)).
    vm_compute. reflexivity.
  - rewrite Hk in Hid. injection Hid as <-. by exists s.
Defined.

Definition w_channels : SealedChannel * SealedChannel :=
  match from_handshake_secret (as_bytes "secret") (as_bytes "t") Initiator,
        from_handshake_secret (as_bytes "secret") (as_bytes "t") Responder with
  | Ok c, Ok h => (c, h)
  | _, _ => (Build_SealedChannel [] [] [] 0 0, Build_SealedChannel [] [] [] 0 0)
  end.
Definition w_sealed : bytes :=
  match (seal w_channels.2 (as_bytes "png")).2 with Ok c => c | Err _ => [] end.
Definition w_frame : string :=
  match chunk_payload w_sid (b64_encode w_sealed) with
  | Ok frames => default ""%string (frames !! 0) | Err _ => "" end.

Lemma capture_reassembles_any_order_witness :
  exists s', client_loop w_params [] w_client_eph (Ok tt) (map WsText [w_frame])
    (with_session None (Some w_channels.1) (Some w_sid) (client_start [])) =
  (s', Captured_image (as_bytes "png") None).
Proof.
  apply (capture_reassembles_any_order w_params [] w_client_eph w_sid w_sealed [] w_frame []
    w_channels.1); vm_compute; reflexivity.
Defined.
