(* ===== verification/Direct.v ===== *)
(** * Direct LAN handshakes

    rivetlink-sdk/src/direct.rs: the framing, the password and the key
    handshake of both sides, and the host that accepts either. A side is an
    interaction tree of writes and exact reads over a byte stream; its random
    values (x25519 secret, ML-KEM key and encapsulation randomness, SPAKE2
    randomness) are arguments. [sound] runs a side against any network; the
    system of two sides and their byte queues is the relation [pair_step].
    Logging is left out, except for the text it slices ([short]). *)
From Stdlib Require Import NArith Lia Strings.String Strings.Byte.
From S2P Require Import Prelude Interfaces Instances Protocol Sealed Handshake Trusted Host.
From S2P Require Import ClientSession.

Definition MAX_FRAME : N := 16 * 1024.
Definition CLASSIC_VERSION : N := 2.
Definition HYBRID_VERSION : N := 3.
Definition DIRECT_DOMAIN : bytes := as_bytes "rivetlink-direct-v2".
Definition CONFIRM_TOKEN : bytes := as_bytes "rivetlink-direct-confirm-v1".

Inductive Wire :=
| Pake (v : N) (msg : string) (pq : option string)
| Kex (v : N) (eph id sig : string) (pq : option string)
| Confirm (sealed : string)
| Reject (reason : string).

(** ** Programs over a byte stream *)

Inductive Io (A : Type) : Type :=
| Return (r : Result A Sdk.SdkError)
| Write (b : bytes) (k : Result unit io.Error -> Io A)
| Flush (k : Result unit io.Error -> Io A)
| ReadExact (n : N) (k : Result bytes io.Error -> Io A).
Arguments Return {A} r.
Arguments Write {A} b k.
Arguments Flush {A} k.
Arguments ReadExact {A} n k.

Fixpoint io_bind {A B} (m : Io A) (k : A -> Io B) : Io B :=
  match m with
  | Return (Ok a) => k a
  | Return (Err e) => Return (Err e)
  | Write b f => Write b (fun r => io_bind (f r) k)
  | Flush f => Flush (fun r => io_bind (f r) k)
  | ReadExact n f => ReadExact n (fun r => io_bind (f r) k)
  end.
Definition io_ret {A} (a : A) : Io A := Return (Ok a).
Definition io_fail {A} (e : Sdk.SdkError) : Io A := Return (Err e).
Definition io_lift {A} (r : Result A Sdk.SdkError) : Io A := Return r.
(** [Result::map_err] of an operation. *)
Fixpoint io_map_err {A} (g : Sdk.SdkError -> Sdk.SdkError) (m : Io A) : Io A :=
  match m with
  | Return r => Return (map_err g r)
  | Write b f => Write b (fun r => io_map_err g (f r))
  | Flush f => Flush (fun r => io_map_err g (f r))
  | ReadExact n f => ReadExact n (fun r => io_map_err g (f r))
  end.
(** [let _ = m;] *)
Fixpoint io_ignore {A B} (m : Io A) (k : Io B) : Io B :=
  match m with
  | Return _ => k
  | Write b f => Write b (fun r => io_ignore (f r) k)
  | Flush f => Flush (fun r => io_ignore (f r) k)
  | ReadExact n f => ReadExact n (fun r => io_ignore (f r) k)
  end.
Definition write_all (b : bytes) : Io unit := Write b (fun r => Return (map_err Sdk.Io r)).
Definition flush : Io unit := Flush (fun r => Return (map_err Sdk.Io r)).
Definition read_exact (n : N) : Io bytes := ReadExact n (fun r => Return (map_err Sdk.Io r)).

Notation "'do!' x ':=' m 'in' k" := (io_bind m (fun x => k))
  (at level 10, x pattern, m at level 200, k at level 200) : rust_scope.

(** The error of a closed connection after the host has answered. *)
Definition closed_after_reply (error : Sdk.SdkError) : Sdk.SdkError :=
  match error with
  | Sdk.Io e => Sdk.Crypto ("host closed the handshake: " ++ io.text e)%string
  | other => other
  end.

(** A peer's message is v2 without ML-KEM data or v3 with it. *)
Definition require_version (version : N) (pq : option string) : Result unit Sdk.SdkError :=
  match pq with
  | None => if (version =? CLASSIC_VERSION)%N then Ok tt
            else Err (Sdk.Crypto "unsupported direct-LAN protocol version")
  | Some _ => if (version =? HYBRID_VERSION)%N then Ok tt
              else Err (Sdk.Crypto "unsupported direct-LAN protocol version")
  end.

(** A log-safe prefix of a key: [&t[..10]], which panics ([None]) when byte 10 is
    inside a character. *)
Definition is_char_boundary (b : bytes) (i : nat) : bool :=
  match b !! i with
  | Some x => negb (between 128 191 x)
  | None => (i =? length b)%nat
  end.
Definition short (b64 : string) : option string :=
  let t := as_bytes (trim b64) in
  let n := min (length t) 10 in
  if is_char_boundary t n then Some (from_utf8 (take n t)) else None.

Definition append_field (output value : bytes) : bytes :=
  output ++ be_bytes 8 (len value) ++ value.
Definition append_fields (output : bytes) (values : list bytes) : bytes :=
  fold_left append_field values output.
(** [into_iter().flatten()] of optional texts. *)
Definition flatten_texts (values : list (option string)) : list bytes :=
  omap (option_map as_bytes) values.

Record KexFields := {
  f_eph : string;
  f_id : string;
  f_sig : string;
  f_pq : option string;
}.
Definition kex_transcript (version : N) (client host : KexFields) : bytes :=
  append_fields (DIRECT_DOMAIN ++ be_bytes 2 version ++ as_bytes "key")
    (map as_bytes [f_eph client; f_id client; f_sig client; f_eph host; f_id host; f_sig host] ++
     flatten_texts [f_pq client; f_pq host]).
Definition pake_transcript (version : N) (client_message host_message : bytes)
  (client_pq host_pq : option string) : bytes :=
  append_fields (DIRECT_DOMAIN ++ be_bytes 2 version ++ as_bytes "pake")
    ([client_message; host_message] ++ flatten_texts [client_pq; host_pq]).

(** [short] panics exactly on a continuation byte at position 10. *)
Lemma short_none id : short id = None <->
  exists x, as_bytes (trim id) !! 10 = Some x /\ between 128 191 x = true.
Proof.
  unfold short, is_char_boundary. set (t := as_bytes (trim id)).
  destruct (decide (10 < length t)) as [L|L].
  - rewrite Nat.min_r by lia. destruct (lookup_lt_is_Some_2 t 10 L) as [x Ex]. rewrite Ex.
    destruct (between 128 191 x) eqn:Eb; cbn [negb]; split; try done; [eauto|].
    intros (y & [=<-] & Ey). congruence.
  - assert (t !! 10 = None) as -> by (apply lookup_ge_None_2; lia).
    split; [|by intros (x & [=] & _)].
    destruct (decide (length t = 10)) as [E10|N10].
    + rewrite E10. cbn [Nat.min]. by rewrite (lookup_ge_None_2 t 10) by lia.
    + rewrite Nat.min_l by lia. rewrite lookup_ge_None_2, Nat.eqb_refl by lia. done.
Qed.

Section Direct.
Context `{Ed25519} `{X25519} `{Hash} `{Aead} `{MlKem} `{Spake2} `{Base64}.
Context `{!Serde Wire}.

Definition write_msg (msg : Wire) : Io unit :=
  do! text := io_lift (map_err Sdk.SerdeError (to_json msg)) in
  let bytes := as_bytes text in
  if (u32_max <? len bytes)%N then io_fail (Sdk.Crypto "handshake frame too large")
  else
    do! _ := write_all (be_bytes 4 (len bytes)) in
    do! _ := write_all bytes in
    flush.
Definition read_msg : Io Wire :=
  do! len_buf := read_exact 4 in
  let len := be_val len_buf in
  if (MAX_FRAME <? len)%N then io_fail (Sdk.Crypto "handshake frame too large")
  else
    do! buf := read_exact len in
    io_lift (map_err Sdk.SerdeError (from_json (from_utf8 buf))).

Definition decode (b64 : string) : Result bytes Sdk.SdkError :=
  map_err Sdk.Base64Error (b64_decode (trim b64)).
Definition decode_n (n : nat) (b64 : string) : Result bytes Sdk.SdkError :=
  let? raw := decode b64 in
  if (length raw =? n)%nat then Ok raw
  else Err (Sdk.Crypto ("expected " ++ pretty n ++ " bytes")%string).

(** The client's v3 state. *)
Record ClientPq := { keys : PqKeyPair; encapsulation_key : string }.
Definition client_pq_start (hybrid : bool) (k : KemKey) : option ClientPq :=
  if hybrid then
    let keys := {| decaps_key := k |} in
    Some {| keys := keys; encapsulation_key := b64_encode (encapsulation_key_bytes keys) |}
  else None.
Definition client_pq_version (pq : option ClientPq) : N :=
  match pq with Some _ => HYBRID_VERSION | None => CLASSIC_VERSION end.
Definition client_pq_finish (pq : option ClientPq) (version : N) (ciphertext : option string)
  : Result (option bytes) Sdk.SdkError :=
  let? _ := require_version version ciphertext in
  match pq, ciphertext with
  | None, None => Ok None
  | Some pq, Some ciphertext =>
      let? raw := decode ciphertext in
      map_err (fun e => Sdk.Crypto (CryptoError_display e))
        (let? s := decapsulate_bytes (keys pq) raw in Ok (Some s))
  | _, _ => Err (Sdk.Crypto "host answered in another protocol version")
  end.
Definition host_pq (key : option string) (randomness : bytes)
  : Result (option (string * bytes)) Sdk.SdkError :=
  match key with
  | None => Ok None
  | Some key =>
      let? raw := decode key in
      let? p := map_err (fun e => Sdk.Crypto (CryptoError_display e)) (encapsulate_to raw randomness) in
      Ok (Some (b64_encode p.1, p.2))
  end.

Definition hash_fields (fields : list bytes) : bytes :=
  sha256 (append_fields DIRECT_DOMAIN fields).
Definition client_fields_hash (eph id sig : string) (pq : option string) : bytes :=
  match pq with
  | Some pq => hash_fields (map as_bytes [eph; id; sig; pq])
  | None => hash_fields (map as_bytes [eph; id; sig])
  end.

Definition client_kex_binding (version : N) (client_identity_b64 : string)
  (client_pq : option string) : Result bytes Sdk.SdkError :=
  let? id := decode_n 32 client_identity_b64 in
  Ok (append_fields (DIRECT_DOMAIN ++ be_bytes 2 version ++ as_bytes "client-kex")
        (id :: flatten_texts [client_pq])).
Definition host_kex_binding (version : N) (host_identity_b64 : string)
  (client_fields_hash : bytes) (host_pq : option string) : Result bytes Sdk.SdkError :=
  let? id := decode_n 32 host_identity_b64 in
  Ok (append_fields (DIRECT_DOMAIN ++ be_bytes 2 version ++ as_bytes "host-kex")
        (id :: client_fields_hash :: flatten_texts [host_pq])).

Definition direct_parse_identity (b64 : string) : Result bytes Sdk.SdkError :=
  let? raw := decode_n 32 b64 in
  if vk_valid raw then Ok raw else Err (Sdk.Crypto ("bad identity key: " ++ vk_error raw)%string).

(** The channel comes back with its counter advanced. *)
Definition seal_token (ch : SealedChannel) : SealedChannel * Result Wire Sdk.SdkError :=
  let '(ch', r) := seal ch CONFIRM_TOKEN in
  (ch', let? sealed := map_err (fun e => Sdk.Crypto (CryptoError_display e)) r in
        Ok (Confirm (b64_encode sealed))).
Definition open_token (ch : SealedChannel) (msg : Wire) : SealedChannel * Result unit Sdk.SdkError :=
  match msg with
  | Confirm sealed =>
      match decode sealed with
      | Err e => (ch, Err e)
      | Ok raw =>
          let '(ch', r) := open ch raw in
          (ch', let? opened := map_err (fun _ => Sdk.Crypto "authentication failed") r in
                if bool_decide (opened = CONFIRM_TOKEN) then Ok tt
                else Err (Sdk.Crypto "authentication failed"))
      end
  | _ => (ch, Err (Sdk.Crypto "expected confirmation"))
  end.

(** Confirm first, then check: the initiator. *)
Definition confirm_initiator (channel : SealedChannel) : Io SealedChannel :=
  let '(channel, token) := seal_token channel in
  do! token := io_lift token in
  do! _ := io_map_err closed_after_reply (write_msg token) in
  do! confirm := io_map_err closed_after_reply read_msg in
  let '(channel, r) := open_token channel confirm in
  do! _ := io_lift r in
  io_ret channel.
(** Check first, then confirm: the responder. *)
Definition confirm_responder (channel : SealedChannel) : Io SealedChannel :=
  do! confirm := read_msg in
  let '(channel, r) := open_token channel confirm in
  do! _ := io_lift r in
  let '(channel, token) := seal_token channel in
  do! token := io_lift token in
  do! _ := write_msg token in
  io_ret channel.

Definition crypto {A} (r : Result A CryptoError) : Io A :=
  io_lift (map_err (fun e => Sdk.Crypto (CryptoError_display e)) r).

(** ** Password mode *)

Definition client_connect_password (password : string) (hybrid : bool) (k : KemKey)
  (randomness : bytes) : Io SealedChannel :=
  let pq := client_pq_start hybrid k in
  let version := client_pq_version pq in
  let started := pake_start (as_bytes password) randomness in
  do! _ := write_msg (Pake version (b64_encode (message started))
                        (option_map encapsulation_key pq)) in
  do! reply := read_msg in
  match reply with
  | Pake v msg host_ciphertext =>
      do! pq_secret := io_lift (client_pq_finish pq v host_ciphertext) in
      do! peer_message := io_lift (decode msg) in
      let transcript :=
        pake_transcript version (message started) peer_message
          (option_map encapsulation_key pq) host_ciphertext in
      do! channel := crypto (pake_finish (handshake started) peer_message pq_secret transcript Initiator) in
      confirm_initiator channel
  | _ => io_fail (Sdk.Crypto "expected pake message")
  end.

Definition host_password_continue (password : string) (version : N) (peer_msg_b64 : string)
  (client_pq : option string) (kem_randomness randomness : bytes) : Io SealedChannel :=
  do! peer_msg := io_lift (decode peer_msg_b64) in
  do! pq := io_lift (host_pq client_pq kem_randomness) in
  let started := pake_start (as_bytes password) randomness in
  do! _ := write_msg (Pake version (b64_encode (message started)) (option_map fst pq)) in
  do! channel :=
    crypto (pake_finish (handshake started) peer_msg (option_map snd pq)
              (pake_transcript version peer_msg (message started) client_pq (option_map fst pq))
              Responder) in
  confirm_responder channel.

Definition host_accept_password (password : string) (kem_randomness randomness : bytes)
  : Io SealedChannel :=
  do! hello := read_msg in
  match hello with
  | Pake v msg pq =>
      do! _ := io_lift (require_version v pq) in
      host_password_continue password v msg pq kem_randomness randomness
  | _ => io_fail (Sdk.Crypto "expected pake message")
  end.

(** ** Key mode *)

Definition read_host_kex : Io (N * string * string * string * option string) :=
  do! reply := read_msg in
  match reply with
  | Kex v eph id sig pq => io_ret (v, eph, id, sig, pq)
  | Reject reason => io_fail (Sdk.Crypto ("host rejected connection: " ++ reason)%string)
  | _ => io_fail (Sdk.Crypto "expected key exchange")
  end.

Definition client_connect_key (identity : SigningKey) (pinned_host : option bytes)
  (hybrid : bool) (k : KemKey) (secret : EphemeralSecret) : Io SealedChannel :=
  let client_id := public_key_b64 identity in
  do! pinned := io_lift (ok_or pinned_host
    (Sdk.Crypto "host identity is not pinned; complete explicit pairing before connecting")) in
  let pq := client_pq_start hybrid k in
  let version := client_pq_version pq in
  let client_pq := option_map encapsulation_key pq in
  do! binding := io_lift (client_kex_binding version client_id client_pq) in
  let kex := start identity binding secret in
  let client_eph := b64_encode (ephemeral_public kex) in
  let client_sig := b64_encode (signature kex) in
  do! _ := write_msg (Kex version client_eph client_id client_sig client_pq) in
  do! reply := read_host_kex in
  let '(v, eph, id, sig, host_ciphertext) := reply in
  do! _ := io_lift (require_version v host_ciphertext) in
  do! host_id := io_lift (direct_parse_identity id) in
  if negb (bool_decide (pinned = host_id)) then io_fail (Sdk.Crypto "host identity mismatch")
  else
    do! host_eph := io_lift (decode_n 32 eph) in
    do! host_sig := io_lift (decode_n 64 sig) in
    do! binding :=
      io_lift (host_kex_binding v id
        (client_fields_hash client_eph client_id client_sig client_pq) host_ciphertext) in
    do! _ := io_lift (map_err
      (fun e => Sdk.Crypto ("host key exchange invalid: " ++ CryptoError_display e)%string)
      (verify_peer host_id host_eph host_sig binding)) in
    do! pq_secret := io_lift (client_pq_finish pq v host_ciphertext) in
    do! channel :=
      crypto (into_channel kex host_eph pq_secret
        (kex_transcript version
           {| f_eph := client_eph; f_id := client_id; f_sig := client_sig; f_pq := client_pq |}
           {| f_eph := eph; f_id := id; f_sig := sig; f_pq := host_ciphertext |})
        Initiator) in
    confirm_initiator channel.

Definition host_key_continue (identity : SigningKey) (trust : string -> bool) (version : N)
  (client : KexFields) (kem_randomness : bytes) (secret : EphemeralSecret)
  : Io (SealedChannel * string) :=
  do! client_id := io_lift (direct_parse_identity (f_id client)) in
  do! client_eph := io_lift (decode_n 32 (f_eph client)) in
  do! client_sig := io_lift (decode_n 64 (f_sig client)) in
  do! binding := io_lift (client_kex_binding version (f_id client) (f_pq client)) in
  do! _ := io_lift (map_err
    (fun e => Sdk.Crypto ("client key exchange invalid: " ++ CryptoError_display e)%string)
    (verify_peer client_id client_eph client_sig binding)) in
  if negb (trust (f_id client))
  then io_ignore (write_msg (Reject "connection rejected"))
         (io_fail (Sdk.Crypto "client not trusted"))
  else
    do! pq := io_lift (host_pq (f_pq client) kem_randomness) in
    let host_ciphertext := option_map fst pq in
    let host_id := public_key_b64 identity in
    do! binding := io_lift (host_kex_binding version host_id
      (client_fields_hash (f_eph client) (f_id client) (f_sig client) (f_pq client))
      host_ciphertext) in
    let kex := start identity binding secret in
    let host_eph := b64_encode (ephemeral_public kex) in
    let host_sig := b64_encode (signature kex) in
    do! _ := write_msg (Kex version host_eph host_id host_sig host_ciphertext) in
    do! channel :=
      crypto (into_channel kex client_eph (option_map snd pq)
        (kex_transcript version client
           {| f_eph := host_eph; f_id := host_id; f_sig := host_sig; f_pq := host_ciphertext |})
        Responder) in
    do! channel := confirm_responder channel in
    io_ret (channel, f_id client).

Definition host_accept_key (identity : SigningKey) (trust : string -> bool)
  (kem_randomness : bytes) (secret : EphemeralSecret) : Io (SealedChannel * string) :=
  do! hello := read_msg in
  match hello with
  | Kex v eph id sig pq =>
      do! _ := io_lift (require_version v pq) in
      host_key_continue identity trust v
        {| f_eph := eph; f_id := id; f_sig := sig; f_pq := pq |} kem_randomness secret
  | _ => io_fail (Sdk.Crypto "expected key exchange")
  end.

(** Either mode, by the client's first message. *)
Definition host_accept_auto (identity : SigningKey) (password : string) (trust : string -> bool)
  (kem_randomness : bytes) (secret : EphemeralSecret) (randomness : bytes)
  : Io (SealedChannel * option string) :=
  do! hello := read_msg in
  match hello with
  | Pake v msg pq =>
      do! _ := io_lift (require_version v pq) in
      do! channel := host_password_continue password v msg pq kem_randomness randomness in
      io_ret (channel, None)
  | Kex v eph id sig pq =>
      do! _ := io_lift (require_version v pq) in
      do! r := host_key_continue identity trust v
                 {| f_eph := eph; f_id := id; f_sig := sig; f_pq := pq |} kem_randomness secret in
      io_ret (r.1, Some r.2)
  | Confirm _ => io_fail (Sdk.Crypto "unexpected confirmation as first message")
  | Reject _ => io_fail (Sdk.Crypto "unexpected rejection as first message")
  end.
End Direct.

(** ** A side against any network *)

(** [sound P m]: whatever the stream answers, with errors anywhere, a success
    of [m] satisfies [P]. *)
Fixpoint sound {A} (P : A -> Prop) (m : Io A) : Prop :=
  match m with
  | Return r => forall a, r = Ok a -> P a
  | Write _ k | Flush k => forall r, sound P (k r)
  | ReadExact n k => forall r, (forall b, r = Ok b -> len b = n) -> sound P (k r)
  end.

Lemma sound_mono {A} (P Q : A -> Prop) m : (forall a, P a -> Q a) -> sound P m -> sound Q m.
Proof. intros H. induction m; simpl; eauto. Qed.
Lemma sound_any {A} (m : Io A) : sound (fun _ => True) m.
Proof. induction m; simpl; auto. Qed.
Lemma sound_bind {A B} (R : A -> Prop) (P : B -> Prop) m k :
  sound R m -> (forall a, R a -> sound P (k a)) -> sound P (io_bind m k).
Proof.
  intros Hm Hk. induction m as [r| | |]; simpl in *; eauto. destruct r; simpl; [eauto|congruence].
Qed.
Lemma sound_map_err {A} (P : A -> Prop) g m : sound P m -> sound P (io_map_err g m).
Proof.
  induction m as [r| | |]; simpl; eauto. intros H a E. destruct r; simpl in E; [|done]. naive_solver.
Qed.
Lemma sound_ignore {A B} (P : B -> Prop) (m : Io A) k : sound P k -> sound P (io_ignore m k).
Proof. intros H. induction m; simpl; eauto. Qed.
Lemma sound_ret {A} (P : A -> Prop) a : P a -> sound P (io_ret a).
Proof. intros H b [= <-]. done. Qed.
Lemma sound_fail {A} (P : A -> Prop) e : sound P (io_fail e).
Proof. by intros a. Qed.
(** The two forms of a step whose result only matters as an equation. *)
Lemma sound_lift {A B} (P : B -> Prop) (r : Result A Sdk.SdkError) k :
  (forall a, r = Ok a -> sound P (k a)) -> sound P (io_bind (io_lift r) k).
Proof. intros H. eapply (sound_bind (fun a => r = Ok a)); [|done]. by intros a ->. Qed.
Lemma sound_skip {A B} (P : B -> Prop) (m : Io A) k :
  (forall a, sound P (k a)) -> sound P (io_bind m k).
Proof. intros H. eapply sound_bind; [apply sound_any|auto]. Qed.

Lemma map_err_ok {A E F} (f : E -> F) (r : Result A E) a : map_err f r = Ok a -> r = Ok a.
Proof. destruct r; simpl; congruence. Qed.

Section Soundness.
Context `{Ed25519} `{X25519} `{Hash} `{Aead} `{MlKem} `{Spake2} `{Base64}.
Context `{!Serde Wire}.

(** A confirmed channel: the peer's confirmation opened under the keys of
    [ch0], and each side has sent and received its one message. *)
Definition confirmed (ch0 ch : SealedChannel) : Prop :=
  same_keys ch ch0 /\ next_send ch = (next_send ch0 + 1)%N /\ next_recv ch = (next_recv ch0 + 1)%N /\
  exists c raw, same_keys c ch0 /\ next_recv c = next_recv ch0 /\ (open c raw).2 = Ok CONFIRM_TOKEN.

Lemma seal_token_ok ch ch' w : seal_token ch = (ch', Ok w) -> ch' = set_next_send (next_send ch + 1) ch.
Proof.
  unfold seal_token. destruct (seal_cases ch CONFIRM_TOKEN) as [[_ ->]|[(_ & c & _ & ->)|(_ & e & _ & ->)]];
    simpl; congruence.
Qed.
Lemma open_token_ok ch ch' w : open_token ch w = (ch', Ok tt) ->
  ch' = set_next_recv (next_recv ch + 1) ch /\ exists raw, (open ch raw).2 = Ok CONFIRM_TOKEN.
Proof.
  unfold open_token. destruct w as [| |sealed|]; try discriminate.
  destruct (decode sealed) as [raw|]; [|discriminate].
  destruct (open ch raw) as [c [p|]] eqn:E; simpl; [|discriminate].
  case_bool_decide; [|discriminate]. intros Eq. simplify_eq.
  split; [by apply open_ok_iff in E as (_ & -> & _)|]. exists raw. by rewrite E.
Qed.

Lemma confirm_initiator_sound ch : sound (confirmed ch) (confirm_initiator ch).
Proof.
  unfold confirm_initiator. destruct (seal_token ch) as [ch1 token] eqn:Es.
  apply sound_lift. intros w ->. apply seal_token_ok in Es as ->.
  apply sound_skip. intros _. apply sound_skip. intros m.
  destruct (open_token _ m) as [ch2 r] eqn:Eo. apply sound_lift. intros [] ->.
  apply open_token_ok in Eo as [-> [raw Ho]]. apply sound_ret.
  repeat split. by eexists (set_next_send _ _), raw.
Qed.
Lemma confirm_responder_sound ch : sound (confirmed ch) (confirm_responder ch).
Proof.
  unfold confirm_responder. apply sound_skip. intros m.
  destruct (open_token ch m) as [ch1 r] eqn:Eo. apply sound_lift. intros [] ->.
  apply open_token_ok in Eo as [-> [raw Ho]].
  destruct (seal_token _) as [ch2 token] eqn:Es. apply sound_lift. intros w ->.
  apply seal_token_ok in Es as ->. apply sound_skip. intros _. apply sound_ret.
  repeat split. by eexists ch, raw.
Qed.

Definition hybrid_version (hybrid : bool) : N := if hybrid then HYBRID_VERSION else CLASSIC_VERSION.

Lemma require_version_ok v pq u : require_version v pq = Ok u ->
  v = hybrid_version (bool_decide (is_Some pq)).
Proof.
  unfold require_version. destruct pq; case_match eqn:E; try discriminate; intros _;
    by apply N.eqb_eq in E.
Qed.

(** The host answered in the version asked for, with its ciphertext. *)
Lemma client_pq_finish_ok hybrid k v ct s :
  client_pq_finish (client_pq_start hybrid k) v ct = Ok s ->
  v = hybrid_version hybrid /\ bool_decide (is_Some ct) = hybrid /\
  bool_decide (is_Some s) = hybrid /\
  forall c, ct = Some c -> exists raw ss, decode c = Ok raw /\ s = Some ss /\
    decapsulate_bytes {| decaps_key := k |} raw = Ok ss.
Proof.
  unfold client_pq_finish, client_pq_start. intros E.
  destruct (require_version v ct) as [[]|] eqn:Ev; [|done]. apply require_version_ok in Ev as ->.
  destruct hybrid, ct as [c|]; simpl in E; try discriminate.
  - destruct (decode c) as [raw|] eqn:Edc; [|done]. destruct (decapsulate_bytes _ raw) as [a|] eqn:Ed; [|done].
    simpl in E. simplify_eq.
    do 3 (split; [done|]). intros ? [= <-]. by exists raw, a.
  - simplify_eq. do 3 (split; [done|]). done.
Qed.

(** The client's fields of its own hello. *)
Definition client_fields (identity : SigningKey) (hybrid : bool) (k : KemKey)
  (secret : EphemeralSecret) (binding : bytes) : KexFields :=
  let kex := start identity binding secret in
  {| f_eph := b64_encode (ephemeral_public kex); f_id := public_key_b64 identity;
     f_sig := b64_encode (signature kex);
     f_pq := option_map encapsulation_key (client_pq_start hybrid k) |}.

(** The host of [host_key] answered this very hello, and confirmed. *)
Definition host_proved (identity : SigningKey) (hybrid : bool) (k : KemKey) (secret : EphemeralSecret)
  (host_key : bytes) (ch : SealedChannel) : Prop :=
  exists host binding client_binding host_eph host_sig pq ch0,
    client_kex_binding (hybrid_version hybrid) (public_key_b64 identity)
      (option_map encapsulation_key (client_pq_start hybrid k)) = Ok client_binding /\
    let client := client_fields identity hybrid k secret client_binding in
    direct_parse_identity (f_id host) = Ok host_key /\
    decode_n 32 (f_eph host) = Ok host_eph /\ decode_n 64 (f_sig host) = Ok host_sig /\
    bool_decide (is_Some (f_pq host)) = hybrid /\
    host_kex_binding (hybrid_version hybrid) (f_id host)
      (client_fields_hash (f_eph client) (f_id client) (f_sig client) (f_pq client)) (f_pq host)
      = Ok binding /\
    verify_peer host_key host_eph host_sig binding = Ok tt /\
    bool_decide (is_Some pq) = hybrid /\
    client_pq_finish (client_pq_start hybrid k) (hybrid_version hybrid) (f_pq host) = Ok pq /\
    from_handshake_secret (handshake_secret pq (diffie_hellman secret host_eph))
      (kex_transcript (hybrid_version hybrid) client host) Initiator = Ok ch0 /\
    confirmed ch0 ch.
Lemma client_key_sound identity pinned hybrid k secret :
  sound (fun ch => exists host_key, pinned = Some host_key /\ host_proved identity hybrid k secret host_key ch)
    (client_connect_key identity pinned hybrid k secret).
Proof.
  unfold client_connect_key. cbv zeta.
  assert (client_pq_version (client_pq_start hybrid k) = hybrid_version hybrid) as ->
    by (by destruct hybrid).
  apply sound_lift. intros hk Hp. destruct pinned as [pk|]; [|done]. simpl in Hp. simplify_eq.
  apply sound_lift. intros cb Hcb. apply sound_skip. intros _.
  apply sound_skip. intros [[[[v eph] id] sig] ct].
  apply sound_lift. intros [] Hv. apply sound_lift. intros hid Hid.
  case_bool_decide as Hpin; cbn [negb]; [subst hid|apply sound_fail].
  apply sound_lift. intros host_eph He. apply sound_lift. intros host_sig Hs.
  apply sound_lift. intros binding Hb. apply sound_lift. intros [] Hver%map_err_ok.
  apply sound_lift. intros pq Hpq. pose proof Hpq as (-> & Hct & Hss & _)%client_pq_finish_ok.
  unfold crypto. apply sound_lift. intros ch0 Hch%map_err_ok.
  rewrite into_channel_secret in Hch. cbn in Hch.
  eapply sound_mono; [|apply confirm_initiator_sound]. intros ch Hc.
  exists hk. split; [done|]. exists {| f_eph := eph; f_id := id; f_sig := sig; f_pq := ct |}, binding, cb, host_eph,
    host_sig, pq, ch0.
  cbv zeta. do 10 (split; [done|]). done.
Qed.

(** C2. Key mode, seen by the client. Whatever the network does, a client that
    finishes with a channel had a pinned host key; the answer it accepted came
    in the version it asked for, with an ML-KEM ciphertext exactly if it asked
    for the hybrid one, and under a signature of the pinned key over that
    answer and over all of the client's own hello; the channel is keyed by the
    x25519 secret and, if hybrid, the decapsulated secret, over the transcript
    of both messages, and the peer confirmed it. *)
Theorem client_key_mode_sound identity pinned hybrid k secret :
  sound (fun ch => exists host_key host binding client_binding host_eph host_sig pq ch0,
    pinned = Some host_key /\
    client_kex_binding (hybrid_version hybrid) (public_key_b64 identity)
      (option_map encapsulation_key (client_pq_start hybrid k)) = Ok client_binding /\
    let client := client_fields identity hybrid k secret client_binding in
    direct_parse_identity (f_id host) = Ok host_key /\
    decode_n 32 (f_eph host) = Ok host_eph /\ decode_n 64 (f_sig host) = Ok host_sig /\
    bool_decide (is_Some (f_pq host)) = hybrid /\
    host_kex_binding (hybrid_version hybrid) (f_id host)
      (client_fields_hash (f_eph client) (f_id client) (f_sig client) (f_pq client)) (f_pq host)
      = Ok binding /\
    verify_peer host_key host_eph host_sig binding = Ok tt /\
    bool_decide (is_Some pq) = hybrid /\
    client_pq_finish (client_pq_start hybrid k) (hybrid_version hybrid) (f_pq host) = Ok pq /\
    from_handshake_secret (handshake_secret pq (diffie_hellman secret host_eph))
      (kex_transcript (hybrid_version hybrid) client host) Initiator = Ok ch0 /\
    confirmed ch0 ch)
  (client_connect_key identity pinned hybrid k secret).
Proof.
  eapply sound_mono; [|apply client_key_sound].
  intros ch (hk & E & host & binding & cb & he & hs & pq & ch0 & P).
  by exists hk, host, binding, cb, he, hs, pq, ch0.
Qed.

Lemma host_pq_ok key r p : host_pq key r = Ok p ->
  bool_decide (is_Some p) = bool_decide (is_Some key).
Proof.
  unfold host_pq. intros E. destruct key as [key|]; [|by simplify_eq].
  destruct (decode key); [|done]. destruct (encapsulate_to _ r); [|done]. simpl in E. by simplify_eq.
Qed.

Lemma host_password_sound password v msg pq r1 r2 :
  sound (fun ch => exists peer_msg secret ch0,
    decode msg = Ok peer_msg /\ host_pq pq r1 = Ok secret /\
    pake_finish (handshake (pake_start (as_bytes password) r2)) peer_msg (option_map snd secret)
      (pake_transcript v peer_msg (message (pake_start (as_bytes password) r2)) pq
         (option_map fst secret)) Responder = Ok ch0 /\
    confirmed ch0 ch)
  (host_password_continue password v msg pq r1 r2).
Proof.
  unfold host_password_continue. apply sound_lift. intros pm Hpm. apply sound_lift. intros s Hs.
  cbv zeta. apply sound_skip. intros _. unfold crypto. apply sound_lift. intros ch0 Hch%map_err_ok.
  eapply sound_mono; [|apply confirm_responder_sound]. intros ch Hc. by exists pm, s, ch0.
Qed.

(** What a host knows of a client it admitted in key mode. *)
Definition client_proved (identity : SigningKey) (trust : string -> bool) (v : N)
  (client : KexFields) (r1 : bytes) (secret : EphemeralSecret) (ch : SealedChannel) : Prop :=
  exists client_key client_eph client_sig client_binding pq binding ch0,
    trust (f_id client) = true /\
    direct_parse_identity (f_id client) = Ok client_key /\
    decode_n 32 (f_eph client) = Ok client_eph /\ decode_n 64 (f_sig client) = Ok client_sig /\
    client_kex_binding v (f_id client) (f_pq client) = Ok client_binding /\
    verify_peer client_key client_eph client_sig client_binding = Ok tt /\
    host_pq (f_pq client) r1 = Ok pq /\
    host_kex_binding v (public_key_b64 identity)
      (client_fields_hash (f_eph client) (f_id client) (f_sig client) (f_pq client))
      (option_map fst pq) = Ok binding /\
    let kex := start identity binding secret in
    from_handshake_secret (handshake_secret (option_map snd pq) (diffie_hellman secret client_eph))
      (kex_transcript v client
         {| f_eph := b64_encode (ephemeral_public kex); f_id := public_key_b64 identity;
            f_sig := b64_encode (signature kex); f_pq := option_map fst pq |}) Responder = Ok ch0 /\
    confirmed ch0 ch.

Lemma host_key_sound identity trust v client r1 secret :
  sound (fun r => r.2 = f_id client /\ client_proved identity trust v client r1 secret r.1)
    (host_key_continue identity trust v client r1 secret).
Proof.
  unfold host_key_continue. apply sound_lift. intros ck Hck. apply sound_lift. intros ce Hce.
  apply sound_lift. intros cs Hcs. apply sound_lift. intros cb Hcb.
  apply sound_lift. intros [] Hv%map_err_ok.
  destruct (trust (f_id client)) eqn:Ht; cbn [negb]; [|apply sound_ignore, sound_fail].
  apply sound_lift. intros pq Hpq. cbv zeta. apply sound_lift. intros hb Hhb.
  apply sound_skip. intros _. unfold crypto. apply sound_lift. intros ch0 Hch%map_err_ok.
  rewrite into_channel_secret in Hch. cbn in Hch.
  eapply sound_bind; [apply confirm_responder_sound|]. intros ch Hc. apply sound_ret.
  split; [done|]. exists ck, ce, cs, cb, pq, hb, ch0. cbv zeta. do 9 (split; [done|]). done.
Qed.

(** C3. Either mode, seen by the host. Whatever the network does, a host that
    finishes with a channel for a named client has that client's signature,
    under an identity the host trusts, over its ephemeral key, version and
    ML-KEM key; without a name, the channel comes out of the password exchange
    under the host's own password. The first message came in a version that
    fits its ML-KEM part, the host used ML-KEM exactly when the client offered
    a key, and the peer confirmed the channel. *)
Theorem host_accept_sound identity password trust r1 secret r2 :
  sound (fun r => exists v pq,
    v = hybrid_version (bool_decide (is_Some pq)) /\
    match r.2 with
    | Some id => exists client, f_id client = id /\ f_pq client = pq /\
        client_proved identity trust v client r1 secret r.1
    | None => exists msg peer_msg secret ch0,
        decode msg = Ok peer_msg /\ host_pq pq r1 = Ok secret /\
        bool_decide (is_Some secret) = bool_decide (is_Some pq) /\
        pake_finish (handshake (pake_start (as_bytes password) r2)) peer_msg
          (option_map snd secret)
          (pake_transcript v peer_msg (message (pake_start (as_bytes password) r2)) pq
             (option_map fst secret)) Responder = Ok ch0 /\
        confirmed ch0 r.1
    end)
  (host_accept_auto identity password trust r1 secret r2).
Proof.
  unfold host_accept_auto. apply sound_skip. intros [v msg pq|v eph id sig pq|s|s];
    [| |apply sound_fail..]; apply sound_lift; intros [] Hv%require_version_ok.
  - eapply sound_bind; [apply host_password_sound|]. intros ch (pm & s & ch0 & H1' & H2' & H3' & H4').
    apply sound_ret. exists v, pq. split; [done|]. exists msg, pm, s, ch0.
    repeat (split; [done|]). split; [by eapply host_pq_ok|done].
  - eapply sound_bind; [apply host_key_sound|]. intros [ch who] [Hw Hc]. simpl in *.
    apply sound_ret. exists v, pq. split; [done|]. simpl. subst who.
    by exists {| f_eph := eph; f_id := id; f_sig := sig; f_pq := pq |}.
Qed.
End Soundness.

(** ** Two sides and their byte queues *)

Record Pair (A B : Type) := {
  left : Io A;
  right : Io B;
  to_left : bytes;
  to_right : bytes;
}.
Arguments left {A B} _.
Arguments right {A B} _.
Arguments to_left {A B} _.
Arguments to_right {A B} _.
Arguments Build_Pair {A B} _ _ _ _.

Definition early_eof : Result bytes io.Error :=
  Err {| io.kind := io.UnexpectedEof; io.text := "early eof" |}.

(** A reader waits for its bytes, or fails when the writer has returned. *)
Inductive pair_step {A B} : Pair A B -> Pair A B -> Prop :=
| left_write b k h il ir : pair_step (Build_Pair (Write b k) h il ir) (Build_Pair (k (Ok tt)) h il (ir ++ b))
| left_flush k h il ir : pair_step (Build_Pair (Flush k) h il ir) (Build_Pair (k (Ok tt)) h il ir)
| left_read n k h b il ir : len b = n ->
    pair_step (Build_Pair (ReadExact n k) h (b ++ il) ir) (Build_Pair (k (Ok b)) h il ir)
| left_eof n k r il ir : (len il < n)%N ->
    pair_step (Build_Pair (ReadExact n k) (Return r) il ir) (Build_Pair (k early_eof) (Return r) il ir)
| right_write c b k il ir : pair_step (Build_Pair c (Write b k) il ir) (Build_Pair c (k (Ok tt)) (il ++ b) ir)
| right_flush c k il ir : pair_step (Build_Pair c (Flush k) il ir) (Build_Pair c (k (Ok tt)) il ir)
| right_read c n k b il ir : len b = n ->
    pair_step (Build_Pair c (ReadExact n k) il (b ++ ir)) (Build_Pair c (k (Ok b)) il ir)
| right_eof n k r il ir : (len ir < n)%N ->
    pair_step (Build_Pair (Return r) (ReadExact n k) il ir) (Build_Pair (Return r) (k early_eof) il ir).

Lemma app_len_inj (a b c d : bytes) : len a = len c -> a ++ b = c ++ d -> a = c /\ b = d.
Proof. intros L. apply app_inj_length. unfold len in L. lia. Qed.

Lemma weak_diamond_confluent {S : Type} (R : S -> S -> Prop) :
  (forall x y1 y2, R x y1 -> R x y2 -> y1 = y2 \/ exists z, R y1 z /\ R y2 z) -> confluent R.
Proof.
  intros D. set (R' x y := x = y \/ R x y).
  assert (forall x y, rtc R' x y <-> rtc R x y) as E.
  { intros x y. split; induction 1 as [|x y z Hxy _ IH]; try done.
    - destruct Hxy as [->|Hxy]; [done|]. by eapply rtc_l.
    - eapply rtc_l; [by right|done]. }
  assert (diamond R') as D'.
  { intros x y1 y2 [->|H1] [->|H2]; unfold R'; eauto.
    destruct (D x y1 y2 H1 H2) as [->|(z & ? & ?)]; eauto. }
  intros x y1 y2 ?%E ?%E. destruct (diamond_confluent D' x y1 y2) as (z & ?%E & ?%E); try done.
  eauto.
Qed.

(** The order of the sides' steps does not matter. *)
Lemma pair_step_diamond {A B} (x y1 y2 : Pair A B) :
  pair_step x y1 -> pair_step x y2 -> y1 = y2 \/ exists z, pair_step y1 z /\ pair_step y2 z.
Proof.
  intros S1 S2.
  assert (forall (a b : bytes) n, (len (a ++ b) < n)%N -> len a = n -> False) as Hlt.
  { intros a b n. unfold len. rewrite length_app. lia. }
  destruct S1; inversion S2; subst; try (exfalso; by eauto);
    try (left; congruence);
    try (match goal with E : ?a ++ ?b = ?c ++ ?d |- _ =>
           apply app_len_inj in E as [-> ->]; [|congruence]; by left end);
    right; rewrite <-?app_assoc; eexists; (split; [|by constructor]); by constructor.
Qed.

Lemma pair_confluent {A B} (x y z : Pair A B) :
  rtc pair_step x y -> nf pair_step y -> rtc pair_step x z -> rtc pair_step z y.
Proof.
  intros Hy Hn Hz.
  destruct (weak_diamond_confluent _ pair_step_diamond x y z Hy Hz) as (w & Hyw & Hzw).
  inversion Hyw as [|? w' ? S]; subst; [done|]. exfalso. apply Hn. by exists w'.
Qed.

Lemma pair_done_nf {A B} r1 r2 il ir : nf (@pair_step A B) (Build_Pair (Return r1) (Return r2) il ir).
Proof. intros [y S]. inversion S. Qed.

(** [emits m b m']: [m] writes [b] and goes on as [m']. [absorbs]: reads. *)
Inductive emits {A} : Io A -> bytes -> Io A -> Prop :=
| emits_refl m : emits m [] m
| emits_write b k b' m : emits (k (Ok tt)) b' m -> emits (Write b k) (b ++ b') m
| emits_flush k b m : emits (k (Ok tt)) b m -> emits (Flush k) b m.
Inductive absorbs {A} : Io A -> bytes -> Io A -> Prop :=
| absorbs_refl m : absorbs m [] m
| absorbs_read b k b' m : absorbs (k (Ok b)) b' m -> absorbs (ReadExact (len b) k) (b ++ b') m.

Lemma emits_write_last {A} b k (m : Io A) : emits (k (Ok tt)) [] m -> emits (Write b k) b m.
Proof. intros E. rewrite <-(app_nil_r b) at 2. by constructor. Qed.
Lemma absorbs_read_last {A} b k (m : Io A) :
  absorbs (k (Ok b)) [] m -> absorbs (ReadExact (len b) k) b m.
Proof. intros E. rewrite <-(app_nil_r b) at 2. by constructor. Qed.

Lemma emits_to {A} (m m1 m2 : Io A) b : emits m b m1 -> m1 = m2 -> emits m b m2.
Proof. by intros ? <-. Qed.
Lemma absorbs_to {A} (m m1 m2 : Io A) b : absorbs m b m1 -> m1 = m2 -> absorbs m b m2.
Proof. by intros ? <-. Qed.

Lemma emits_bind {A B} (m m' : Io A) b (k : A -> Io B) :
  emits m b m' -> emits (io_bind m k) b (io_bind m' k).
Proof. induction 1; simpl; by constructor. Qed.
Lemma emits_map_err {A} g (m m' : Io A) b : emits m b m' -> emits (io_map_err g m) b (io_map_err g m').
Proof. induction 1; simpl; by constructor. Qed.
Lemma absorbs_bind {A B} (m m' : Io A) b (k : A -> Io B) :
  absorbs m b m' -> absorbs (io_bind m k) b (io_bind m' k).
Proof. induction 1; simpl; by constructor. Qed.
Lemma absorbs_map_err {A} g (m m' : Io A) b : absorbs m b m' -> absorbs (io_map_err g m) b (io_map_err g m').
Proof. induction 1; simpl; by constructor. Qed.

Lemma left_emits {A B} (m m' : Io A) (h : Io B) b il ir :
  emits m b m' -> rtc pair_step (Build_Pair m h il ir) (Build_Pair m' h il (ir ++ b)).
Proof.
  intros E. revert ir. induction E; intros ir.
  - by rewrite app_nil_r.
  - eapply rtc_l; [constructor|]. rewrite app_assoc. auto.
  - eapply rtc_l; [constructor|]. auto.
Qed.
Lemma right_emits {A B} (c : Io A) (m m' : Io B) b il ir :
  emits m b m' -> rtc pair_step (Build_Pair c m il ir) (Build_Pair c m' (il ++ b) ir).
Proof.
  intros E. revert il. induction E; intros il.
  - by rewrite app_nil_r.
  - eapply rtc_l; [constructor|]. rewrite app_assoc. auto.
  - eapply rtc_l; [constructor|]. auto.
Qed.
Lemma left_absorbs {A B} (m m' : Io A) (h : Io B) b il ir :
  absorbs m b m' -> rtc pair_step (Build_Pair m h (b ++ il) ir) (Build_Pair m' h il ir).
Proof.
  induction 1; [done|]. rewrite <-app_assoc. eapply rtc_l; [by constructor|]. auto.
Qed.
Lemma right_absorbs {A B} (c : Io A) (m m' : Io B) b il ir :
  absorbs m b m' -> rtc pair_step (Build_Pair c m il (b ++ ir)) (Build_Pair c m' il ir).
Proof.
  induction 1; [done|]. rewrite <-app_assoc. eapply rtc_l; [by constructor|]. auto.
Qed.

(** ** Frames *)

(** The texts of a message. *)
Definition wire_texts (w : Wire) : list string :=
  match w with
  | Pake _ msg pq => msg :: option_list pq
  | Kex _ eph id sig pq => eph :: id :: sig :: option_list pq
  | Confirm sealed => [sealed]
  | Reject reason => [reason]
  end.
Definition wire_version (w : Wire) : N :=
  match w with Pake v _ _ | Kex v _ _ _ _ => v | _ => 0 end.
(** serde_json on short messages of base64 texts, which need no escapes. *)
Class WireFits `{Base64} `{!Serde Wire} : Prop :=
  wire_fits : forall w s,
    Forall (fun t => exists b, t = b64_encode b) (wire_texts w) ->
    (foldr N.add 0 (map slen (wire_texts w)) <= 4096)%N -> (wire_version w <= u16_max)%N ->
    to_json w = Ok s -> (slen s <= MAX_FRAME)%N.

Definition frame (s : string) : bytes := be_bytes 4 (slen s) ++ as_bytes s.

Section Frames.
Context `{Base64} `{!Serde Wire} `{!SerdeLaws Wire}.

Lemma emits_write_msg w s :
  to_json w = Ok s -> (slen s <= MAX_FRAME)%N -> emits (write_msg w) (frame s) (io_ret tt).
Proof.
  intros J L. unfold write_msg. rewrite J. cbn [map_err io_lift io_bind]. fold (slen s).
  destruct (N.ltb_spec u32_max (slen s)) as [Hc|_]; [unfold MAX_FRAME, u32_max in *; lia|].
  unfold frame. generalize (be_bytes 4 (slen s)). intros hd. cbn. apply emits_write. cbn. apply emits_write_last. cbn.
  apply emits_flush. constructor.
Qed.
Lemma absorbs_read_msg w s :
  to_json w = Ok s -> (slen s <= MAX_FRAME)%N -> absorbs read_msg (frame s) (io_ret w).
Proof.
  intros J L. unfold read_msg, read_exact, frame. cbn [io_bind].
  change 4%N with (len (be_bytes 4 (slen s))). constructor. cbn [map_err io_bind].
  rewrite be_val_be_bytes, N.mod_small by (unfold MAX_FRAME in L; simpl; lia).
  destruct (N.ltb_spec MAX_FRAME (slen s)) as [Hc|_]; [lia|].
  unfold slen. apply absorbs_read_last. cbn. rewrite from_utf8_as_bytes, (from_to_json _ _ J). constructor.
Qed.
End Frames.

(** The log prefix of a key. It never panics on a key that decodes, but
    [host_accept_auto] logs the identity of a hello it has only checked the
    version of, and some such texts panic. *)
Theorem short_panics_before_decoding `{Base64Laws} :
  (forall n id raw, decode_n n id = Ok raw -> is_Some (short id)) /\
  (exists v eph id sig pq, require_version v pq = Ok tt /\
     wire_version (Kex v eph id sig pq) = CLASSIC_VERSION /\ short id = None).
Proof.
  split.
  - intros n id raw E. destruct (short id) eqn:Es; [eauto|]. exfalso.
    apply short_none in Es as (x & Ex & Hx). unfold decode_n, decode in E.
    destruct (b64_decode (trim id)) as [b|] eqn:Ed; [|done].
    apply b64_decode_alphabet in Ed. rewrite forallb_forall in Ed.
    apply list_elem_of_lookup_2, list_elem_of_In, Ed in Ex.
    by destruct x.
  - exists CLASSIC_VERSION, "", (from_utf8 (repeat Byte.x61 9 ++ [Byte.xc3; Byte.xa9])), "", None.
    split; [done|]. split; [done|]. by vm_compute.
Qed.

(** ** Honest sides *)

Section Completeness.
Context `{Ed25519Laws} `{X25519Laws} `{HashLaws} `{AeadLaws} `{MlKemLaws} `{Spake2Laws}.
Context `{Base64Laws} `{!Serde Wire} `{!SerdeLaws Wire} `{!WireFits}.

(** Texts of base64, of bounded total length. *)
Definition encoded (n : N) (ts : list string) : Prop :=
  Forall (fun t => exists b, t = b64_encode b) ts /\ (foldr N.add 0 (map slen ts) <= n)%N.

Lemma encoded_cons n m b ts :
  (len b <= n)%N -> encoded m ts -> encoded (2 * n + 2 + m) (b64_encode b :: ts).
Proof.
  intros Hb [F L]. split; [constructor; eauto|]. simpl.
  pose proof (b64_encode_length b). lia.
Qed.
Lemma encoded_nil : encoded 0 [].
Proof. split; [constructor|simpl; lia]. Qed.

Lemma wire_json w n : encoded n (wire_texts w) -> (n <= 4096)%N -> (wire_version w <= u16_max)%N ->
  exists s, to_json w = Ok s /\ (slen s <= MAX_FRAME)%N.
Proof.
  intros [F L] Hn Hv. pose proof (to_json_ok w) as J. destruct (to_json w) as [s|] eqn:E; [|done].
  exists s. split; [done|]. eapply wire_fits; [done|lia|done|done].
Qed.

Lemma decode_encoded b : decode (b64_encode b) = Ok b.
Proof. unfold decode. rewrite trim_trimmed by apply b64_encode_trimmed. by rewrite b64_decode_encode. Qed.
Lemma decode_n_encoded n b : length b = n -> decode_n n (b64_encode b) = Ok b.
Proof. intros L. unfold decode_n. rewrite decode_encoded. simpl. by rewrite L, Nat.eqb_refl. Qed.
Lemma direct_parse_encoded sk : direct_parse_identity (public_key_b64 sk) = Ok (verifying_key sk).
Proof.
  unfold direct_parse_identity, public_key_b64. rewrite decode_n_encoded by apply verifying_key_length.
  simpl. by rewrite verifying_key_valid.
Qed.

(** The ML-KEM part of both hellos. *)
Lemma pq_exchange hybrid k r : exists hpq ss,
  let cpq := option_map encapsulation_key (client_pq_start hybrid k) in
  host_pq cpq r = Ok hpq /\ option_map snd hpq = ss /\
  client_pq_finish (client_pq_start hybrid k) (hybrid_version hybrid) (option_map fst hpq) = Ok ss /\
  require_version (hybrid_version hybrid) cpq = Ok tt /\
  require_version (hybrid_version hybrid) (option_map fst hpq) = Ok tt /\
  encoded 2370 (option_list cpq) /\ encoded 2370 (option_list (option_map fst hpq)).
Proof.
  destruct hybrid; cbn [client_pq_start option_map encapsulation_key].
  - unfold encapsulation_key_bytes. cbn [decaps_key].
    destruct (kem_encapsulate_ok k r) as (ct & ss & E).
    exists (Some (b64_encode ct, ss)), (Some ss). cbv zeta. unfold host_pq. rewrite decode_encoded.
    cbn [map_err]. unfold encapsulate_to. rewrite E. cbn [ok_or map_err option_map fst snd].
    split; [done|]. split; [done|]. split.
    { unfold client_pq_finish. cbn. rewrite decode_encoded. unfold decapsulate_bytes. cbn.
      by rewrite (kem_decapsulate_encapsulate _ _ _ _ E). }
    split; [done|]. split; [done|].
    split; apply (encoded_cons 1184 0); try apply encoded_nil.
    + by rewrite kem_public_length.
    + rewrite (kem_ciphertext_length _ _ _ _ E). lia.
  - exists None, None. repeat split; simpl; try constructor; lia.
Qed.

(** Both confirmations, sent and accepted. *)
Lemma confirm_exchange cc ch : paired cc ch -> exists s1 s2 m1 m2,
  emits (confirm_initiator cc) (frame s1) m1 /\ absorbs (confirm_responder ch) (frame s1) m2 /\
  emits m2 (frame s2) (io_ret (set_next_send 1 (set_next_recv 1 ch))) /\
  absorbs m1 (frame s2) (io_ret (set_next_recv 1 (set_next_send 1 cc))).
Proof.
  intros [D1 D2 (N1 & N2 & N3 & N4)].
  assert (forall s, next_send s = 0%N -> exists c, (len c <= 100)%N /\
    aead_encrypt (send_key s) (nonce 0) (aad (header 0) (binding_hash s)) CONFIRM_TOKEN = Ok c /\
    seal_token s = (set_next_send 1 s, Ok (Confirm (b64_encode (header 0 ++ c))))) as Seal.
  { intros s Ns. pose proof (aead_encrypt_ok (send_key s) (nonce 0) (aad (header 0) (binding_hash s))
      CONFIRM_TOKEN ltac:(vm_compute; reflexivity)) as Eo.
    destruct (aead_encrypt _ _ _ _) as [c|] eqn:E; [|done]. exists c.
    split; [unfold len; rewrite (aead_encrypt_length _ _ _ _ _ E); vm_compute; congruence|].
    split; [done|]. unfold seal_token.
    destruct (seal_cases s CONFIRM_TOKEN) as [[Hm _]|[(_ & x & Ex & Es)|(_ & x & Ex & _)]].
    - rewrite Ns in Hm. done.
    - rewrite Es, Ns in *. assert (x = c) as -> by congruence. done.
    - rewrite Ns in Ex. congruence. }
  assert (forall s r c, direction s r -> next_recv r = 0%N ->
    aead_encrypt (send_key s) (nonce 0) (aad (header 0) (binding_hash s)) CONFIRM_TOKEN = Ok c ->
    open_token r (Confirm (b64_encode (header 0 ++ c))) = (set_next_recv 1 r, Ok tt)) as Open.
  { intros s r c D Nr Ec. unfold open_token. rewrite decode_encoded.
    rewrite (open_sealed s r 0 CONFIRM_TOKEN c D); [|done|done]. rewrite Nr. cbn.
    by rewrite bool_decide_true. }
  assert (forall c, (len c <= 100)%N -> exists s, to_json (Confirm (b64_encode (header 0 ++ c))) = Ok s /\
    (slen s <= MAX_FRAME)%N) as Json.
  { intros c L. eapply (wire_json _ (2 * 109 + 2 + 0)); [|lia|done]. apply encoded_cons; [|apply encoded_nil].
    unfold len in *. rewrite length_app, length_header. unfold HEADER_LEN. lia. }
  destruct (Seal cc N1) as (c1 & L1 & E1 & S1). destruct (Json c1 L1) as (s1 & J1 & F1).
  destruct (Seal (set_next_recv 1 ch) N3) as (c2 & L2 & E2 & S2). destruct (Json c2 L2) as (s2 & J2 & F2).
  exists s1, s2. do 2 eexists. split; [|split; [|split]].
  - unfold confirm_initiator. rewrite S1. cbn [io_lift io_bind].
    apply emits_bind, emits_map_err, emits_write_msg; done.
  - unfold confirm_responder. apply absorbs_bind, absorbs_read_msg; done.
  - cbn [io_ret io_bind]. rewrite (Open cc ch c1 D1 N4 E1). cbn [io_lift io_bind].
    rewrite S2. cbn [io_lift io_bind].
    eapply emits_to; [apply emits_bind, emits_write_msg; done|done].
  - cbn [io_ret io_map_err map_err io_bind].
    eapply absorbs_to; [apply absorbs_bind, absorbs_map_err, absorbs_read_msg; done|].
    cbn [io_ret io_map_err map_err io_bind].
    assert (direction (set_next_recv 1 ch) (set_next_send 1 cc)) as D3 by (destruct D2; by split).
    by rewrite (Open _ (set_next_send 1 cc) c2 D3 N2 E2).
Qed.

(** Channels of both sides after the confirmations. *)
Record established (c h : SealedChannel) : Prop := {
  established_out : direction c h;
  established_in : direction h c;
  established_counters : next_send c = 1%N /\ next_recv c = 1%N /\ next_send h = 1%N /\ next_recv h = 1%N;
}.
Lemma established_paired c h : paired c h ->
  established (set_next_recv 1 (set_next_send 1 c)) (set_next_send 1 (set_next_recv 1 h)).
Proof. intros [[] [] _]. by split. Qed.

(** From derived channels to the end. *)
Lemma confirm_run {B} cc ch (F : Io SealedChannel -> Io B) :
  (forall m b m', emits m b m' -> emits (F m) b (F m')) ->
  (forall m b m', absorbs m b m' -> absorbs (F m) b (F m')) ->
  paired cc ch ->
  rtc pair_step (Build_Pair (confirm_initiator cc) (F (confirm_responder ch)) [] [])
    (Build_Pair (io_ret (set_next_recv 1 (set_next_send 1 cc)))
                (F (io_ret (set_next_send 1 (set_next_recv 1 ch)))) [] []).
Proof.
  intros Fe Fa P. destruct (confirm_exchange cc ch P) as (s1 & s2 & m1 & m2 & E1 & A1 & E2 & A2).
  etrans; [by apply left_emits|]. cbn [app].
  etrans; [rewrite <-(app_nil_r (frame s1)); by apply right_absorbs, Fa|].
  etrans; [by apply right_emits, Fe|]. cbn [app].
  rewrite <-(app_nil_r (frame s2)). by apply left_absorbs.
Qed.

(** A message from the left, then one from the right. *)
Lemma left_says {A B} w s kc kh :
  to_json w = Ok s -> (slen s <= MAX_FRAME)%N ->
  rtc pair_step (Build_Pair (io_bind (write_msg w) kc) (io_bind read_msg kh) [] [])
    (Build_Pair (kc tt : Io A) (kh w : Io B) [] []).
Proof.
  intros J L. etrans; [apply left_emits, emits_bind, emits_write_msg; done|]. cbn [app].
  rewrite <-(app_nil_r (frame s)). apply right_absorbs.
  eapply absorbs_to; [apply absorbs_bind, absorbs_read_msg; done|done].
Qed.
Lemma right_says {A B} w s kc kh :
  to_json w = Ok s -> (slen s <= MAX_FRAME)%N ->
  rtc pair_step (Build_Pair (io_bind read_msg kc) (io_bind (write_msg w) kh) [] [])
    (Build_Pair (kc w : Io A) (kh tt : Io B) [] []).
Proof.
  intros J L. etrans; [apply right_emits, emits_bind, emits_write_msg; done|]. cbn [app].
  rewrite <-(app_nil_r (frame s)). apply left_absorbs.
  eapply absorbs_to; [apply absorbs_bind, absorbs_read_msg; done|done].
Qed.

(** One side's key exchange and the text of its hello. *)
Definition kex_side (sk : SigningKey) (kx : LocalKeyExchange) (pq : option string) : KexFields :=
  {| f_eph := b64_encode (ephemeral_public kx); f_id := public_key_b64 sk;
     f_sig := b64_encode (signature kx); f_pq := pq |}.
Definition kex_wire (v : N) (f : KexFields) : Wire := Kex v (f_eph f) (f_id f) (f_sig f) (f_pq f).
Definition kex_hash (f : KexFields) : bytes := client_fields_hash (f_eph f) (f_id f) (f_sig f) (f_pq f).

Lemma kex_json v sk binding secret pq :
  encoded 2370 (option_list pq) -> (v <= u16_max)%N ->
  exists s, to_json (kex_wire v (kex_side sk (start sk binding secret) pq)) = Ok s /\
            (slen s <= MAX_FRAME)%N.
Proof.
  intros F Hv. apply (wire_json _ (66 + (66 + (130 + 2370)))); [|lia|done].
  apply (encoded_cons 32); [|apply (encoded_cons 32); [|apply (encoded_cons 64); [|exact F]]].
  - unfold len. simpl. by rewrite x_public_length.
  - unfold len. by rewrite verifying_key_length.
  - unfold len. simpl. by rewrite ed_sign_length.
Qed.
Lemma client_binding_ok v sk pq : exists cb, client_kex_binding v (public_key_b64 sk) pq = Ok cb.
Proof.
  unfold client_kex_binding, public_key_b64. rewrite decode_n_encoded by apply verifying_key_length.
  by eexists.
Qed.
Lemma host_binding_ok v sk hash pq : exists hb, host_kex_binding v (public_key_b64 sk) hash pq = Ok hb.
Proof.
  unfold host_kex_binding, public_key_b64. rewrite decode_n_encoded by apply verifying_key_length.
  by eexists.
Qed.

(** The host's answer to an honest, trusted client. *)
Lemma host_key_answers hk trust v ci cpq cb sc r hpq hb sh :
  let client := kex_side ci (start ci cb sc) cpq in
  let host := kex_side hk (start hk hb sh) (option_map fst hpq) in
  trust (public_key_b64 ci) = true ->
  client_kex_binding v (public_key_b64 ci) cpq = Ok cb -> host_pq cpq r = Ok hpq ->
  host_kex_binding v (public_key_b64 hk) (kex_hash client) (option_map fst hpq) = Ok hb ->
  host_key_continue hk trust v client r sh =
  do! _ := write_msg (kex_wire v host) in
  do! channel := crypto (into_channel (start hk hb sh) (ephemeral_public (start ci cb sc))
                   (option_map snd hpq) (kex_transcript v client host) Responder) in
  do! channel := confirm_responder channel in
  io_ret (channel, public_key_b64 ci).
Proof.
  intros client host Ht Hcb Hh Hhb. unfold host_key_continue. cbn [client kex_side f_id f_eph f_sig f_pq].
  rewrite direct_parse_encoded. cbn [io_lift io_bind].
  rewrite decode_n_encoded by apply x_public_length. cbn [io_bind].
  rewrite decode_n_encoded by apply ed_sign_length. cbn [io_bind].
  rewrite Hcb. cbn [io_bind].
  rewrite (verify_peer_start ci cb sc :
    verify_peer _ (ephemeral_public (start ci cb sc)) (signature (start ci cb sc)) _ = _).
  cbn [map_err io_bind]. rewrite Ht. cbn [negb]. rewrite Hh. cbn [io_bind]. cbv zeta.
  unfold kex_hash in Hhb. cbn [client kex_side f_id f_eph f_sig f_pq] in Hhb. rewrite Hhb. done.
Qed.

(** The client's check of an honest host's answer, which it pinned. *)
Lemma client_accepts_host {A} hk v hash (hpq : option (string * bytes)) hb sh (k : bytes -> bytes -> Io A) :
  let host := kex_side hk (start hk hb sh) (option_map fst hpq) in
  host_kex_binding v (public_key_b64 hk) hash (option_map fst hpq) = Ok hb ->
  (do! host_id := io_lift (direct_parse_identity (f_id host)) in
   if negb (bool_decide (verifying_key hk = host_id))
   then io_fail (Sdk.Crypto "host identity mismatch")
   else
     do! host_eph := io_lift (decode_n 32 (f_eph host)) in
     do! host_sig := io_lift (decode_n 64 (f_sig host)) in
     do! binding := io_lift (host_kex_binding v (f_id host) hash (f_pq host)) in
     do! _ := io_lift (map_err
       (fun e => Sdk.Crypto ("host key exchange invalid: " ++ CryptoError_display e)%string)
       (verify_peer host_id host_eph host_sig binding)) in
     k host_eph host_sig) =
  k (ephemeral_public (start hk hb sh)) (signature (start hk hb sh)).
Proof.
  intros host Hhb. cbn [host kex_side f_id f_eph f_sig f_pq].
  rewrite direct_parse_encoded. cbn [io_lift io_bind].
  rewrite bool_decide_true by done. cbn [negb].
  rewrite decode_n_encoded by apply x_public_length. cbn [io_bind].
  rewrite decode_n_encoded by apply ed_sign_length. cbn [io_bind].
  rewrite Hhb. cbn [io_bind].
  by rewrite (verify_peer_start hk hb sh :
    verify_peer _ (ephemeral_public (start hk hb sh)) (signature (start hk hb sh)) _ = _).
Qed.

(** C19. Key mode between honest sides. A client that pins this host's key and a
    host that trusts this client, in the hybrid or the classical version, over
    a lossless stream: in every interleaving of their writes and reads both can
    only end with channels that match (each one's sending key is the other's
    receiving key, one message confirmed each way), and the host names the
    client. *)
Theorem direct_key_mode_completes ci hk hybrid k sc sh r password r2 trust :
  trust (public_key_b64 ci) = true ->
  exists cc ch, established cc ch /\
  forall x,
    rtc pair_step
      (Build_Pair (client_connect_key ci (Some (verifying_key hk)) hybrid k sc)
                  (host_accept_auto hk password trust r sh r2) [] []) x ->
    rtc pair_step x
      (Build_Pair (io_ret cc) (io_ret (ch, Some (public_key_b64 ci))) [] []).
Proof.
  intros Ht.
  destruct (pq_exchange hybrid k r) as (hpq & ss & Hh & Hss & Hcf & Rv1 & Rv2 & F1 & F2).
  cbv zeta in *. set (cpq := option_map encapsulation_key (client_pq_start hybrid k)) in *.
  set (v := hybrid_version hybrid) in *.
  assert (client_pq_version (client_pq_start hybrid k) = v) as Hv by (by destruct hybrid).
  destruct (client_binding_ok v ci cpq) as [cb Hcb].
  set (client := kex_side ci (start ci cb sc) cpq).
  destruct (host_binding_ok v hk (kex_hash client) (option_map fst hpq)) as [hb Hhb].
  set (host := kex_side hk (start hk hb sh) (option_map fst hpq)).
  destruct (into_channel_paired ci hk cb hb sc sh ss (kex_transcript v client host))
    as (cc & ch & Ec & Eh & P).
  exists (set_next_recv 1 (set_next_send 1 cc)), (set_next_send 1 (set_next_recv 1 ch)).
  split; [by apply established_paired|]. intros x Hx.
  eapply pair_confluent; [|apply pair_done_nf|exact Hx]. clear x Hx.
  destruct (kex_json v ci cb sc cpq F1) as (s1 & J1 & L1); [by destruct hybrid|].
  destruct (kex_json v hk hb sh (option_map fst hpq) F2) as (s2 & J2 & L2); [by destruct hybrid|].
  unfold client_connect_key, host_accept_auto. cbn [ok_or io_lift io_bind]. rewrite Hv. fold cpq.
  rewrite Hcb. cbn [io_bind]. cbv zeta.
  etrans; [by apply (left_says _ s1)|].
  cbv beta iota. rewrite Rv1. cbn [io_lift io_bind].
  change (host_key_continue hk trust v _ r sh) with (host_key_continue hk trust v client r sh).
  rewrite (host_key_answers hk trust v ci cpq cb sc r hpq hb sh Ht Hcb Hh Hhb
    : host_key_continue hk trust v client r sh = _).
  etrans; [by eapply right_emits, emits_bind, emits_bind, emits_write_msg|].
  cbn [app io_bind io_ret].
  etrans; [rewrite <-(app_nil_r (frame s2));
           by eapply left_absorbs, absorbs_bind, absorbs_bind, absorbs_read_msg|].
  cbn [app io_bind io_ret kex_wire].
  rewrite (Rv2 : require_version v (f_pq (kex_side hk (start hk hb sh) (option_map fst hpq))) = _). cbn [io_bind].
  change (client_fields_hash _ _ _ _) with (kex_hash client).
  etrans; [apply reflexive_eq, (f_equal (fun l => Build_Pair l _ [] []));
           exact (client_accepts_host hk v (kex_hash client) hpq hb sh _ Hhb)|].
  cbv beta. change (client_pq_finish _ v _) with (client_pq_finish (client_pq_start hybrid k) v (option_map fst hpq)).
  rewrite Hcf. cbn [io_lift io_bind]. unfold crypto.
  change (into_channel (start ci cb sc) _ _ _ _)
    with (into_channel (start ci cb sc) (ephemeral_public (start hk hb sh)) ss (kex_transcript v client host) Initiator).
  rewrite Ec, Hss.
  change (into_channel (start hk hb sh) _ _ _ _)
    with (into_channel (start hk hb sh) (ephemeral_public (start ci cb sc)) ss (kex_transcript v client host) Responder).
  rewrite Eh.
  cbn [map_err io_lift io_bind].
  apply (confirm_run cc ch (fun m => io_bind (io_bind m (fun c => io_ret (c, public_key_b64 ci)))
    (fun x => io_ret (x.1, Some x.2)))); [intros m b m' Hm..|done].
  - by apply emits_bind, emits_bind.
  - by apply absorbs_bind, absorbs_bind.
Qed.

(** Password mode between honest sides. A client and a host that were given
    the same password, in the hybrid or the classical version, can only end, in
    every interleaving, with matching confirmed channels, and the host does
    not name a client. *)
Theorem direct_password_mode_completes hk hybrid k r password rc rh sh trust :
  exists cc ch, established cc ch /\
  forall x,
    rtc pair_step
      (Build_Pair (client_connect_password password hybrid k rc)
                  (host_accept_auto hk password trust r sh rh) [] []) x ->
    rtc pair_step x (Build_Pair (io_ret cc) (io_ret (ch, None)) [] []).
Proof.
  destruct (pq_exchange hybrid k r) as (hpq & ss & Hh & Hss & Hcf & Rv1 & Rv2 & F1 & F2).
  cbv zeta in *. set (cpq := option_map encapsulation_key (client_pq_start hybrid k)) in *.
  set (v := hybrid_version hybrid) in *.
  assert (client_pq_version (client_pq_start hybrid k) = v) as Hv by (by destruct hybrid).
  set (cs := pake_start (as_bytes password) rc). set (hs := pake_start (as_bytes password) rh).
  set (t := pake_transcript v (message cs) (message hs) cpq (option_map fst hpq)).
  assert (forall r0, len (message (pake_start (as_bytes password) r0)) = 33%N) as Hlen.
  { intros r0. rewrite <-(spake_message_length (as_bytes password) PAKE_IDENTITY r0).
    unfold pake_start. by destruct spake_start. }
  destruct (pake_channels (as_bytes password) rc rh ss t) as (cc & ch & Ec & Eh & P).
  exists (set_next_recv 1 (set_next_send 1 cc)), (set_next_send 1 (set_next_recv 1 ch)).
  split; [by apply established_paired|]. intros x Hx.
  eapply pair_confluent; [|apply pair_done_nf|exact Hx]. clear x Hx.
  destruct (wire_json (Pake v (b64_encode (message cs)) cpq) (2 * 33 + 2 + 2370))
    as (s1 & J1 & L1); [|lia|by destruct hybrid|].
  { apply (encoded_cons 33); [unfold cs; by rewrite Hlen|exact F1]. }
  destruct (wire_json (Pake v (b64_encode (message hs)) (option_map fst hpq)) (2 * 33 + 2 + 2370))
    as (s2 & J2 & L2); [|lia|by destruct hybrid|].
  { apply (encoded_cons 33); [unfold hs; by rewrite Hlen|exact F2]. }
  unfold client_connect_password, host_accept_auto. cbv zeta. rewrite Hv. fold cpq cs.
  etrans; [by apply (left_says _ s1)|].
  cbv beta iota. rewrite Rv1. cbn [io_lift io_bind]. unfold host_password_continue at 1. cbv zeta.
  rewrite decode_encoded. cbn [io_lift io_bind]. rewrite Hh. cbn [io_bind]. fold hs.
  etrans; [by eapply right_emits, emits_bind, emits_bind, emits_write_msg|].
  cbn [app io_bind io_ret].
  etrans; [rewrite <-(app_nil_r (frame s2)); by eapply left_absorbs, absorbs_bind, absorbs_read_msg|].
  cbn [app io_bind io_ret]. rewrite Hcf. cbn [io_lift io_bind]. rewrite decode_encoded.
  cbn [io_lift io_bind]. fold t. fold cs hs in Ec, Eh. unfold crypto.
  rewrite Ec, Hss, Eh. cbn [map_err io_lift io_bind].
  apply (confirm_run cc ch (fun m => io_bind m (fun c => io_ret (c, None)))); [intros m b m' Hm..|done].
  - by apply emits_bind.
  - by apply absorbs_bind.
Qed.
End Completeness.

(** ** Transcripts *)

Lemma append_fields_app out l : append_fields out l = out ++ List.concat (map len_prefixed l).
Proof.
  revert out. induction l as [|f l IH]; intros out; simpl; [by rewrite app_nil_r|].
  rewrite IH. unfold append_field, len_prefixed. by rewrite <-!app_assoc.
Qed.

Lemma fields_inj l1 l2 :
  Forall slice_ok l1 -> Forall slice_ok l2 ->
  List.concat (map len_prefixed l1) = List.concat (map len_prefixed l2) -> l1 = l2.
Proof.
  intros F1. revert l2. induction F1 as [|f l1 Hf F1 IH]; intros l2 F2 E; destruct F2 as [|g l2 Hg F2];
    cbn [map List.concat] in E; [done| | |].
  - apply (f_equal length) in E. unfold len_prefixed in E. rewrite !length_app, length_be_bytes in E.
    cbn [length] in E. lia.
  - apply (f_equal length) in E. unfold len_prefixed in E. rewrite !length_app, length_be_bytes in E.
    cbn [length] in E. lia.
  - apply len_prefixed_app_inj in E as [-> E]; [|done..]. f_equal. auto.
Qed.

(** The texts of an exchange, short enough for a slice. *)
Definition side_ok (f : KexFields) : Prop :=
  Forall slice_ok (map as_bytes (f_eph f :: f_id f :: f_sig f :: option_list (f_pq f))).
(** Both hellos of one exchange carry the version and its ML-KEM part. *)
Definition exchange_ok (v : N) (client host : KexFields) : Prop :=
  require_version v (f_pq client) = Ok tt /\ require_version v (f_pq host) = Ok tt /\
  side_ok client /\ side_ok host.

Lemma exchange_fields v c h : exchange_ok v c h ->
  Forall slice_ok (map as_bytes [f_eph c; f_id c; f_sig c; f_eph h; f_id h; f_sig h] ++
                   flatten_texts [f_pq c; f_pq h]).
Proof.
  intros (_ & _ & C & D). unfold side_ok in *. destruct c as [? ? ? [p|]], h as [? ? ? [q|]]; simpl in *;
    repeat match goal with F : Forall _ (_ :: _) |- _ => apply Forall_cons_1 in F as [? F] end;
    repeat constructor; done.
Qed.

Lemma require_version_cases v pq : require_version v pq = Ok tt ->
  (v = CLASSIC_VERSION /\ pq = None) \/ (v = HYBRID_VERSION /\ exists p, pq = Some p).
Proof.
  unfold require_version. destruct pq; case_match eqn:E; try discriminate; intros _;
    apply N.eqb_eq in E; eauto.
Qed.

(** A key-mode transcript names one exchange. Two exchanges whose messages
    have their version's form have the same transcript only if they are the same
    in version and in every field of both messages, and a key-mode transcript
    is never a password-mode one: the channel key, derived from the hash of the
    transcript, covers everything both sides said. *)
Theorem kex_transcript_determines_exchange v1 c1 h1 v2 c2 h2 :
  exchange_ok v1 c1 h1 -> exchange_ok v2 c2 h2 ->
  (kex_transcript v1 c1 h1 = kex_transcript v2 c2 h2 -> v1 = v2 /\ c1 = c2 /\ h1 = h2) /\
  forall mc mh pc ph, kex_transcript v1 c1 h1 <> pake_transcript v2 mc mh pc ph.
Proof.
  intros O1 O2. pose proof (exchange_fields _ _ _ O1) as F1. pose proof (exchange_fields _ _ _ O2) as F2.
  destruct O1 as (A1 & B1 & _), O2 as (A2 & B2 & _).
  unfold kex_transcript, pake_transcript. split.
  - intros E. rewrite !append_fields_app in E.
    apply app_inj_length in E as [E0 E]; [|by rewrite !length_app, !length_be_bytes].
    apply app_inv_head in E0. apply app_inj_length in E0 as [E0 _]; [|by rewrite !length_be_bytes].
    assert (v1 = v2) as <-.
    { apply (be_bytes_inj 2); [..|done];
        [destruct (require_version_cases _ _ A1) as [[-> _]|[-> _]]
        |destruct (require_version_cases _ _ A2) as [[-> _]|[-> _]]]; done. }
    apply fields_inj in E; [|done..]. split; [done|].
    destruct c1 as [e1 i1 s1 p1], c2 as [e2 i2 s2 p2], h1 as [e3 i3 s3 p3], h2 as [e4 i4 s4 p4].
    simpl in *.
    destruct (require_version_cases _ _ A1) as [[-> ->]|[-> [? ->]]],
      (require_version_cases _ _ A2) as [[? ->]|[? [? ->]]],
      (require_version_cases _ _ B1) as [[? ->]|[? [? ->]]],
      (require_version_cases _ _ B2) as [[? ->]|[? [? ->]]]; try discriminate;
      simpl in E; injection E; intros;
      repeat match goal with H : as_bytes _ = as_bytes _ |- _ => apply as_bytes_inj in H; subst end;
      done.
  - intros mc mh pc ph E. rewrite !append_fields_app, <-!app_assoc in E.
    apply app_inv_head in E. apply app_inj_length in E as [_ E]; [|by rewrite !length_be_bytes].
    discriminate E.
Qed.

(** ** A compact text form of the messages, for the witnesses

    Fields in hexadecimal, each ended by a full stop. *)
Definition stop : byte := Byte.x2e.
Definition field_text (s : string) : bytes := hex (as_bytes s) ++ [stop].
Fixpoint text_fields (current b : bytes) : list (Result bytes string) :=
  match b with
  | [] => []
  | x :: b' =>
      if Byte.eqb x stop then unhex (rev current) :: text_fields [] b'
      else text_fields (x :: current) b'
  end.

Lemma text_fields_hex current h rest :
  Forall (fun x => Byte.eqb x stop = false) h ->
  text_fields current (h ++ stop :: rest) = unhex (rev current ++ h) :: text_fields [] rest.
Proof.
  intros F. revert current. induction F as [|x h Hx F IH]; intros current; simpl.
  - by rewrite app_nil_r.
  - rewrite Hx, IH. simpl. by rewrite <-app_assoc.
Qed.
Lemma hex_no_stop b : Forall (fun x => Byte.eqb x stop = false) (hex b).
Proof. induction b as [|x b IH]; simpl; [constructor|]. constructor; [by destruct x|]. constructor; [by destruct x|done]. Qed.
Lemma text_fields_concat l :
  text_fields [] (List.concat (map field_text l)) = map (fun s => Ok (as_bytes s)) l.
Proof.
  induction l as [|s l IH]; [done|]. unfold field_text in *. cbn [map List.concat].
  rewrite <-app_assoc. cbn [app]. rewrite text_fields_hex by apply hex_no_stop. simpl.
  by rewrite unhex_hex, IH.
Qed.

Definition option_text (o : option string) : string :=
  match o with None => "" | Some s => String (Ascii.ascii_of_N 43) s end.
Definition text_option (s : string) : option string :=
  match s with EmptyString => None | String _ s' => Some s' end.
Definition wire_fields (w : Wire) : list string :=
  match w with
  | Pake v msg pq => ["P"%string; bits_text (encode v); msg; option_text pq]
  | Kex v eph id sig pq => ["K"%string; bits_text (encode v); eph; id; sig; option_text pq]
  | Confirm sealed => ["C"%string; sealed]
  | Reject reason => ["R"%string; reason]
  end.
Definition fields_wire (l : list string) : option Wire :=
  match l with
  | [t; v; msg; pq] => v ← (p ← text_bits v; countable.decode p); Some (Pake v msg (text_option pq))
  | [t; v; eph; id; sig; pq] =>
      v ← (p ← text_bits v; countable.decode p); Some (Kex v eph id sig (text_option pq))
  | [t; s] => if String.eqb t "C" then Some (Confirm s) else Some (Reject s)
  | _ => None
  end.
Lemma fields_wire_fields w : fields_wire (wire_fields w) = Some w.
Proof.
  destruct w as [v msg pq|v eph id sig pq|s|s]; cbn [wire_fields fields_wire]; [| |done..];
    rewrite text_bits_text; cbn [mbind option_bind]; rewrite decode_encode; cbn [mbind option_bind];
    by destruct pq.
Qed.

#[export] Instance toy_wire : Serde Wire := {|
  to_json w := Ok (from_utf8 (List.concat (map field_text (wire_fields w))));
  from_json s :=
    let? l := try_map (fun r => r) (text_fields [] (as_bytes s)) in
    ok_or (fields_wire (map from_utf8 l)) "invalid message"%string;
|}.
#[export] Instance toy_wire_laws : SerdeLaws Wire.
Proof.
  split; [done|]. intros w s E. cbn in E.
  assert (s = from_utf8 (List.concat (map field_text (wire_fields w)))) as -> by congruence.
  cbn [from_json toy_wire].
  rewrite as_bytes_from_utf8, text_fields_concat.
  assert (forall l, try_map (fun r : Result bytes string => r) (map (fun s => Ok (as_bytes s)) l)
                    = Ok (map as_bytes l)) as ->.
  { induction l as [|s l IH]; [done|]. cbn [map try_map]. by rewrite IH. }
  cbn [ok_or]. rewrite map_map. erewrite map_ext; [|intros; apply from_utf8_as_bytes].
  by rewrite map_id, fields_wire_fields.
Qed.

Lemma slen_cons a t : slen (String a t) = (1 + slen t)%N.
Proof.
  unfold slen, len, as_bytes, String.list_byte_of_string.
  cbn [String.list_ascii_of_string map length]. lia.
Qed.
Lemma slen_bits_text p : slen (bits_text p) = N.of_nat (Pos.size_nat p).
Proof.
  induction p as [p IH|p IH|]; [| |done]; cbn [bits_text Pos.size_nat];
    rewrite slen_cons, IH; lia.
Qed.
Lemma slen_bits (v : N) : (v <= u16_max)%N -> (slen (bits_text (encode v)) <= 17)%N.
Proof.
  intros Hv. rewrite slen_bits_text.
  assert (encode v < 65537)%positive as Hp.
  { unfold u16_max in Hv. destruct v as [|p]; [done|].
    change (encode (Npos p)) with (Pos.succ p). lia. }
  apply Pos.size_nat_monotone in Hp. cbn [Pos.size_nat] in Hp. lia.
Qed.

Lemma length_field_texts l :
  len (List.concat (map field_text l)) = (2 * foldr N.add 0 (map slen l) + len l)%N.
Proof.
  induction l as [|s l IH]; [done|]. unfold len in *. cbn [map List.concat foldr length].
  rewrite length_app, Nat2N.inj_add, IH. unfold field_text, slen, len.
  rewrite length_app, length_hex. cbn [length]. lia.
Qed.
Lemma slen_option_text o : slen (option_text o) = (foldr N.add 0 (map slen (option_list o)) +
  if bool_decide (is_Some o) then 1 else 0)%N.
Proof.
  destruct o as [s|]; [|done]. cbn [option_text option_list map foldr].
  rewrite slen_cons, bool_decide_true by eauto.
  change (map slen (option_list (Some s))) with [slen s]. cbn [foldr]. lia.
Qed.

#[local] Instance toy_wire_fits : WireFits.
Proof.
  intros w s _ Hl Hv E.
  assert (s = from_utf8 (List.concat (map field_text (wire_fields w)))) as -> by (cbn in E; congruence).
  unfold slen at 1. rewrite as_bytes_from_utf8, length_field_texts.
  assert (slen "P" = 1 /\ slen "K" = 1 /\ slen "C" = 1 /\ slen "R" = 1)%N as (P1 & P2 & P3 & P4) by done.
  destruct w as [v msg pq|v eph id sig pq|t|t]; cbn [wire_texts wire_fields map foldr wire_version] in *;
    unfold MAX_FRAME, len; cbn [length]; try (pose proof (slen_bits v Hv));
    try rewrite (slen_option_text pq); try case_bool_decide; rewrite ?P1, ?P2, ?P3, ?P4; lia.
Qed.

(** ** Witnesses *)

Definition wd_client : @SigningKey toy_ed25519 := 31%N.
Definition wd_host : @SigningKey toy_ed25519 := 32%N.

Lemma direct_key_mode_completes_witness :
  exists cc ch, established cc ch /\
  rtc pair_step
    (Build_Pair (client_connect_key wd_client (Some (verifying_key wd_host)) true
                   (33%N : @KemKey toy_mlkem) (34%N : @EphemeralSecret toy_x25519))
       (host_accept_auto wd_host "1234" (fun _ => true) (as_bytes "r")
          (35%N : @EphemeralSecret toy_x25519) (as_bytes "s")) [] [])
    (Build_Pair (io_ret cc) (io_ret (ch, Some (public_key_b64 wd_client))) [] []).
Proof.
  destruct (direct_key_mode_completes wd_client wd_host true (33%N : @KemKey toy_mlkem)
    (34%N : @EphemeralSecret toy_x25519) (35%N : @EphemeralSecret toy_x25519) (as_bytes "r") "1234"
    (as_bytes "s") (fun _ => true) eq_refl) as (cc & ch & E & R).
  exists cc, ch. split; [exact E|]. apply R. apply rtc_refl.
Defined.

Lemma direct_password_mode_completes_witness :
  exists cc ch, established cc ch /\
  rtc pair_step
    (Build_Pair (client_connect_password "1234" false (33%N : @KemKey toy_mlkem) (as_bytes "c"))
       (host_accept_auto wd_host "1234" (fun _ => false) (as_bytes "r")
          (35%N : @EphemeralSecret toy_x25519) (as_bytes "s")) [] [])
    (Build_Pair (io_ret cc) (io_ret (ch, None)) [] []).
Proof.
  destruct (direct_password_mode_completes wd_host false (33%N : @KemKey toy_mlkem) (as_bytes "r")
    "1234" (as_bytes "c") (as_bytes "s") (35%N : @EphemeralSecret toy_x25519) (fun _ => false))
    as (cc & ch & E & R).
  exists cc, ch. split; [exact E|]. apply R. apply rtc_refl.
Defined.

Definition wd_side (eph : string) : KexFields :=
  {| f_eph := eph; f_id := "id"; f_sig := "sig"; f_pq := Some "ct"%string |}.
Lemma kex_transcript_determines_exchange_witness :
  kex_transcript HYBRID_VERSION (wd_side "a") (wd_side "b") <>
  pake_transcript HYBRID_VERSION [] [] None None.
Proof.
  apply (kex_transcript_determines_exchange HYBRID_VERSION (wd_side "a") (wd_side "b")
    HYBRID_VERSION (wd_side "a") (wd_side "b")).
  - split; [reflexivity|]. split; [reflexivity|].
    split; repeat constructor; vm_compute; reflexivity.
  - split; [reflexivity|]. split; [reflexivity|].
    split; repeat constructor; vm_compute; reflexivity.
Defined.
