(* ===== verification/Pins.v ===== *)
(** * Hosts pinned to the hybrid handshake

    rivetlink-sdk/src/pq_pins.rs and the connecting functions of
    rivetlink-sdk/src/lan.rs that use it: a host that once completed the hybrid
    handshake gets no classical retry. The set lives in memory and in a file;
    the tasks that save it run one at a time and interleave with everything
    else, and the process may stop at any point. A handshake is the program of
    [Direct] against any network. *)
From Stdlib Require Import NArith Lia Strings.String Strings.Byte.
From stdpp Require Import sorting relations.
From S2P Require Import Prelude Text Interfaces Instances Protocol Sealed Handshake Trusted Host.
From S2P Require Import ClientSession Direct.

(** ** The set *)

Record Pins := { store : option string; hosts : gset string; unreadable : bool }.
Definition no_pins : Pins := {| store := None; hosts := ∅; unreadable := false |}.
Definition pins_refuse_downgrade (p : Pins) (host_b64 : string) : option string :=
  if unreadable p
  then Some "the post-quantum host pin file could not be read; refusing a downgrade until it is fixed"%string
  else if bool_decide (host_b64 ∈ hosts p)
  then Some "host previously supported post-quantum encryption; refusing a downgrade"%string
  else None.

(** ** The file *)

(** One host a line, in the order of the [BTreeSet]. *)
Definition pin_lines (hs : gset string) : list bytes := map as_bytes (merge_sort by_text (elements hs)).
Definition pin_file (hs : gset string) : bytes := concat (map (fun l => l ++ [Byte.x0a]) (pin_lines hs)).
Definition load_hosts (contents : bytes) : gset string :=
  list_to_set (filter (fun l => l <> ""%string) (map trim (lines (from_utf8_lossy contents)))).
(** [fault]: reading a file that exists fails. *)
Definition load_pins (fault : option string) (path : string) (d : Disk) : Result (gset string) Sdk.SdkError :=
  match d !! path with
  | None => Ok ∅
  | Some contents =>
      match fault with
      | Some m => Err (Sdk.Io {| io.kind := io.Other; io.text := m |})
      | None => Ok (load_hosts contents)
      end
  end.
Definition use_store (fault : option string) (path : string) (d : Disk) (p : Pins)
  : Pins * Result unit Sdk.SdkError :=
  match load_pins fault path d with
  | Ok loaded => ({| store := Some path; hosts := hosts p ∪ loaded; unreadable := unreadable p |}, Ok tt)
  | Err e => ({| store := store p; hosts := hosts p; unreadable := true |}, Err e)
  end.
(** Whether a task is spawned to save the set. *)
Definition remember (host_b64 : string) (p : Pins) : Pins * bool :=
  if bool_decide (host_b64 ∈ hosts p) then (p, false)
  else ({| store := store p; hosts := {[host_b64]} ∪ hosts p; unreadable := unreadable p |},
        bool_decide (is_Some (store p))).
(** [Path::with_extension], of a path that ends in a file name. *)
Definition with_extension (extension path : string) : string :=
  let '(dir, name) := match rsplit_once Byte.x2f path with
                      | Some (d, n) => ((d ++ "/")%string, n)
                      | None => (""%string, path) end in
  let stem := match rsplit_once Byte.x2e name with
              | Some (stem, _) => if (stem =? "")%string then name else stem
              | None => name end in
  (dir ++ stem ++ "." ++ extension)%string.
Definition tmp_path (path : string) : string := with_extension "tmp" path.

(** ** Connecting *)

Section Connecting.
Context `{Ed25519} `{X25519} `{Hash} `{Aead} `{MlKem} `{Spake2} `{Base64} `{!Serde Wire}.

Definition parse_pinned_host (pinned_host_b64 : option string) : Result (option bytes) Sdk.SdkError :=
  match pinned_host_b64 with
  | Some b64 =>
      let trimmed := trim b64 in
      if (slen trimmed =? 0)%N
      then Err (Sdk.Crypto "empty pinned host key — pass None for trust-on-first-use")
      else
        let? raw := map_err Sdk.Base64Error (b64_decode trimmed) in
        if negb (length raw =? 32) then Err (Sdk.Crypto "host key must be 32 bytes")
        else if vk_valid raw then Ok (Some raw)
        else Err (Sdk.Crypto ("bad host key: " ++ vk_error raw)%string)
  | None => Ok None
  end.
Definition is_old_host_close (e : Sdk.SdkError) : bool :=
  match e with
  | Sdk.Io e =>
      match io.kind e with
      | io.UnexpectedEof | io.ConnectionReset | io.ConnectionAborted | io.BrokenPipe => true
      | _ => false
      end
  | _ => false
  end.

(** One connection: the outcome of opening it, then of the handshake on it. *)
Definition Attempt : Type := Result unit Sdk.SdkError * Result SealedChannel Sdk.SdkError.
Definition attempted (a : Attempt) : Result SealedChannel Sdk.SdkError := let? _ := a.1 in a.2.
(** The first attempt is hybrid, the second one classical; with the channel
    comes which one gave it. *)
Definition connect_key (pinned : option bytes) (first second : Attempt) (p : Pins)
  : Pins * bool * Result (SealedChannel * bool) Sdk.SdkError :=
  let host_b64 := option_map b64_encode pinned in
  match first.1 with
  | Err e => (p, false, Err e)
  | Ok _ =>
      match first.2 with
      | Ok channel =>
          let '(p, spawned) := match host_b64 with Some host => remember host p | None => (p, false) end in
          (p, spawned, Ok (channel, true))
      | Err e =>
          if is_old_host_close e then
            match host_b64 ≫= pins_refuse_downgrade p with
            | Some reason => (p, false, Err (Sdk.Crypto reason))
            | None => (p, false, let? channel := attempted second in Ok (channel, false))
            end
          else (p, false, Err e)
      end
  end.
Definition connect_key_pinned (pinned_host_b64 : option string) (first second : Attempt) (p : Pins)
  : Pins * bool * Result (SealedChannel * bool) Sdk.SdkError :=
  match parse_pinned_host pinned_host_b64 with
  | Ok pinned => connect_key pinned first second p
  | Err e => (p, false, Err e)
  end.
(** Over a stream that is already open: always hybrid. *)
Definition connect_key_over (pinned_host_b64 : string) (handshake : Result SealedChannel Sdk.SdkError) (p : Pins)
  : Pins * bool * Result SealedChannel Sdk.SdkError :=
  match parse_pinned_host (Some pinned_host_b64) with
  | Ok pinned =>
      match handshake with
      | Ok channel =>
          let '(p, spawned) := match pinned with Some key => remember (b64_encode key) p | None => (p, false) end in
          (p, spawned, Ok channel)
      | Err e => (p, false, Err e)
      end
  | Err e => (p, false, Err e)
  end.
(** In PIN mode there is no host key to remember. *)
Definition connect_password (first second : Attempt) : Result (SealedChannel * bool) Sdk.SdkError :=
  let? _ := first.1 in
  match first.2 with
  | Ok channel => Ok (channel, true)
  | Err e => if is_old_host_close e then let? channel := attempted second in Ok (channel, false) else Err e
  end.

(** What a program can return over some network. *)
Inductive may_return {A : Type} : Io A -> Result A Sdk.SdkError -> Prop :=
| returns r : may_return (Return r) r
| returns_write b k e r : may_return (k e) r -> may_return (Write b k) r
| returns_flush k e r : may_return (k e) r -> may_return (Flush k) r
| returns_read n k e r : (forall b, e = Ok b -> len b = n) -> may_return (k e) r -> may_return (ReadExact n k) r.
Lemma sound_may_return {A} (P : A -> Prop) (m : Io A) a : sound P m -> may_return m (Ok a) -> P a.
Proof.
  intros S R. remember (Ok a) as r eqn:E. induction R as [r'|b k e r R IH|k e r R IH|n k e r Hb R IH]; cbn in S.
  - by apply S.
  - by apply IH.
  - by apply IH.
  - apply IH; [by apply S|done].
Qed.
(** An attempt of a client in key mode, which is given ten seconds. *)
Definition key_attempt (identity : SigningKey) (pinned : option bytes) (hybrid : bool) (k : KemKey)
  (secret : EphemeralSecret) (a : Attempt) : Prop :=
  a.2 = Err (Sdk.Crypto "direct-LAN handshake timed out") \/
  may_return (client_connect_key identity pinned hybrid k secret) a.2.

(** Without a pinned key there is no connection at all. *)
Lemma unpinned_refused identity hybrid k secret r :
  may_return (client_connect_key identity None hybrid k secret) r ->
  r = Err (Sdk.Crypto "host identity is not pinned; complete explicit pairing before connecting").
Proof. intros R. by inversion R. Qed.
End Connecting.

(** ** Lines of a pin file *)

(** What a host key looks like in base64. *)
Definition storable (h : string) : Prop :=
  h <> ""%string /\ trimmed h = true /\ forallb b64_symbol (as_bytes h) = true.
Lemma b64_symbols_plain b : forallb b64_symbol b = true -> is_ascii b = true /\ Byte.x0a ∉ b /\ Byte.x0d ∉ b.
Proof.
  induction b as [|x b IH]; intros F; [by split_and!; try apply not_elem_of_nil|].
  cbn in F. apply andb_true_iff in F as [Fx F]. destruct (IH F) as (A & N & R). split; [|split].
  - cbn. unfold is_ascii in A. rewrite A. by destruct x.
  - rewrite not_elem_of_cons. split; [|done]. by intros <-.
  - rewrite not_elem_of_cons. split; [|done]. by intros <-.
Qed.
Lemma pin_lines_storable hs : (forall h, h ∈ hs -> storable h) ->
  Forall (fun l => exists h, l = as_bytes h /\ storable h) (pin_lines hs).
Proof.
  intros S. apply Forall_forall. intros l (h & -> & Hh)%list_elem_of_fmap. exists h. split; [done|]. apply S.
  rewrite (merge_sort_Permutation by_text) in Hh. by apply elem_of_elements.
Qed.

(** A saved set loads back. *)
Lemma load_pin_file hs : (forall h, h ∈ hs -> storable h) -> load_hosts (pin_file hs) = hs.
Proof.
  intros S. unfold load_hosts. pose proof (pin_lines_storable hs S) as F.
  assert (is_ascii (pin_file hs) = true) as Ha.
  { unfold pin_file. clear -F. induction F as [|l ls (h & -> & _ & _ & B) F IH]; [done|]. cbn [map concat].
    unfold is_ascii in *. rewrite !forallb_app, IH. apply b64_symbols_plain in B as (A & _).
    unfold is_ascii in A. by rewrite A. }
  rewrite from_utf8_lossy_ascii by done. unfold lines. rewrite as_bytes_from_utf8.
  assert (lines_of (split_on Byte.x0a (pin_file hs)) = pin_lines hs) as ->.
  { unfold pin_file. rewrite concat_terminated, split_join.
    - apply lines_of_terminated. eapply list.Forall_impl; [exact F|].
      intros l (h & -> & _ & _ & B). by apply b64_symbols_plain in B as (_ & _ & R).
    - by destruct (pin_lines hs).
    - apply Forall_app. split; [|repeat constructor; apply not_elem_of_nil].
      eapply list.Forall_impl; [exact F|].
      intros l (h & -> & _ & _ & B). by apply b64_symbols_plain in B as (_ & N & _). }
  assert (filter (fun l => l <> ""%string) (map trim (map from_utf8 (pin_lines hs))) = merge_sort by_text (elements hs)) as ->.
  { unfold pin_lines. assert (Forall storable (merge_sort by_text (elements hs))) as Fs.
    { apply Forall_forall. intros h Hh. apply S. rewrite (merge_sort_Permutation by_text) in Hh.
      by apply elem_of_elements. }
    clear -Fs. induction Fs as [|h l (N & T & _) F IH]; [done|]. cbn [map].
    rewrite from_utf8_as_bytes, trim_trimmed, filter_cons_True by done. by rewrite IH. }
  rewrite merge_sort_Permutation. apply list_to_set_elements_L.
Qed.

(** ** The process

    [faults]: file operations may fail. [restarts]: the process may stop and
    start anew. Saves hold a lock from their copy of the set on. *)
Inductive SaveTask := Queued | Holding (copy : gset string) | Synced (copy : gset string) | Finished.
#[export] Instance SaveTask_eq_dec : EqDecision SaveTask.
Proof. solve_decision. Defined.
Record World := { w_pins : Pins; w_disk : Disk; w_tasks : list SaveTask }.
Definition active (t : SaveTask) : bool := match t with Holding _ | Synced _ => true | _ => false end.
Definition lock_free (ts : list SaveTask) : Prop := Forall (fun t => active t = false) ts.
Definition spawn (spawned : bool) (ts : list SaveTask) : list SaveTask := if spawned then ts ++ [Queued] else ts.

Section Process.
Context `{Ed25519} `{X25519} `{Hash} `{Aead} `{MlKem} `{Spake2} `{Base64Laws} `{!Serde Wire}.
Variable path : string.
Hypothesis tmp_differs : tmp_path path <> path.
Variable faults restarts : bool.

Inductive pin_step : World -> World -> Prop :=
| step_open fault w p r : (is_Some fault -> faults = true) ->
    use_store fault path (w_disk w) (w_pins w) = (p, r) ->
    pin_step w {| w_pins := p; w_disk := w_disk w; w_tasks := w_tasks w |}
| step_connect b64 first second w p spawned r :
    connect_key_pinned b64 first second (w_pins w) = (p, spawned, r) ->
    pin_step w {| w_pins := p; w_disk := w_disk w; w_tasks := spawn spawned (w_tasks w) |}
| step_connect_over b64 handshake w p spawned r :
    connect_key_over b64 handshake (w_pins w) = (p, spawned, r) ->
    pin_step w {| w_pins := p; w_disk := w_disk w; w_tasks := spawn spawned (w_tasks w) |}
| step_copy i w : w_tasks w !! i = Some Queued -> lock_free (w_tasks w) ->
    pin_step w {| w_pins := w_pins w; w_disk := w_disk w;
                  w_tasks := <[i := match store (w_pins w) with
                                    | Some _ => Holding (hosts (w_pins w))
                                    | None => Finished end]> (w_tasks w) |}
| step_write i copy w : w_tasks w !! i = Some (Holding copy) ->
    pin_step w {| w_pins := w_pins w; w_disk := <[tmp_path path := pin_file copy]> (w_disk w);
                  w_tasks := <[i := Synced copy]> (w_tasks w) |}
| step_rename i copy w : w_tasks w !! i = Some (Synced copy) ->
    pin_step w {| w_pins := w_pins w;
                  w_disk := match w_disk w !! tmp_path path with
                            | Some contents => <[path := contents]> (delete (tmp_path path) (w_disk w))
                            | None => w_disk w end;
                  w_tasks := <[i := Finished]> (w_tasks w) |}
(** Creating, writing, syncing or renaming fails; some bytes may be written. *)
| step_fails i copy d w : faults = true ->
    w_tasks w !! i = Some (Holding copy) \/ w_tasks w !! i = Some (Synced copy) ->
    (d = w_disk w \/ exists n, d = <[tmp_path path := take n (pin_file copy)]> (w_disk w)) ->
    pin_step w {| w_pins := w_pins w; w_disk := d; w_tasks := <[i := Finished]> (w_tasks w) |}
(** The process stops, here or in the middle of a write. *)
| step_restart d w : restarts = true ->
    (d = w_disk w \/ exists copy n, d = <[tmp_path path := take n (pin_file copy)]> (w_disk w)) ->
    pin_step w {| w_pins := no_pins; w_disk := d; w_tasks := [] |}.

(** A process that starts, on a file that was saved earlier or none. *)
Definition pin_start (saved : option (gset string)) (w : World) : Prop :=
  w_pins w = no_pins /\ w_tasks w = [] /\ w_disk w !! path = option_map pin_file saved /\
  forall hs h, saved = Some hs -> h ∈ hs -> storable h.
Definition stored (w : World) : gset string :=
  match w_disk w !! path with Some contents => load_hosts contents | None => ∅ end.

Definition task_ok (w : World) (t : SaveTask) : Prop :=
  match t with
  | Queued | Finished => True
  | Holding copy => stored w ⊆ copy /\ copy ⊆ hosts (w_pins w)
  | Synced copy => stored w ⊆ copy /\ copy ⊆ hosts (w_pins w) /\
      w_disk w !! tmp_path path = Some (pin_file copy)
  end.
(** [saving]: some task will still save the whole set. *)
Definition saving (w : World) : Prop :=
  exists t, t ∈ w_tasks w /\ match t with
    | Queued => True | Holding copy | Synced copy => copy = hosts (w_pins w) | Finished => False end.
Record world_ok (w : World) : Prop := {
  ok_hosts : forall h, h ∈ hosts (w_pins w) -> storable h;
  ok_file : w_disk w !! path = None \/ w_disk w !! path = Some (pin_file (stored w));
  ok_stored : forall h, h ∈ stored w -> storable h;
  ok_store : forall q, store (w_pins w) = Some q -> q = path /\ stored w ⊆ hosts (w_pins w);
  ok_tasks : Forall (task_ok w) (w_tasks w);
  ok_queue : w_tasks w <> [] -> store (w_pins w) = Some path;
  ok_lock : forall i j t u, w_tasks w !! i = Some t -> w_tasks w !! j = Some u ->
    active t = true -> active u = true -> i = j;
}.

(** The ways a connection changes the set. *)
Record grows (p p' : Pins) (spawned : bool) : Prop := {
  gr_store : store p' = store p;
  gr_unreadable : unreadable p' = unreadable p;
  gr_hosts : hosts p ⊆ hosts p';
  gr_new : forall h, h ∈ hosts p' -> h ∈ hosts p \/ storable h;
  gr_spawned : spawned = true -> is_Some (store p);
  gr_saved : is_Some (store p) -> spawned = true \/ hosts p' = hosts p;
}.
Lemma grows_refl p : grows p p false.
Proof. split; auto; discriminate. Qed.
Lemma remember_grows h p p' spawned : storable h -> remember h p = (p', spawned) -> grows p p' spawned.
Proof.
  intros S E. unfold remember in E. case_bool_decide as Hin; simplify_eq; [apply grows_refl|].
  split; cbn; try done; [set_solver|set_solver|by rewrite bool_decide_eq_true|].
  intros Hs. left. by apply bool_decide_eq_true.
Qed.
Lemma storable_key raw : length raw = 32 -> storable (b64_encode raw).
Proof.
  intros L. split; [|split; [apply b64_encode_trimmed|apply b64_encode_alphabet]].
  intros E. assert (raw = []) as -> by (apply b64_encode_empty; by rewrite E). done.
Qed.
Lemma parse_pinned_ok o raw : parse_pinned_host o = Ok (Some raw) -> length raw = 32 /\ vk_valid raw = true.
Proof.
  unfold parse_pinned_host. destruct o as [b|]; [|done]. destruct (_ =? _)%N; [done|].
  destruct (b64_decode _) as [r|]; [|done]. cbn [map_err]. destruct (length r =? 32) eqn:L; [|done].
  apply Nat.eqb_eq in L. cbn. destruct (vk_valid r) eqn:V; [|done]. by intros [= <-].
Qed.
Lemma connect_grows b64 first second p p' spawned r :
  connect_key_pinned b64 first second p = (p', spawned, r) -> grows p p' spawned.
Proof.
  unfold connect_key_pinned. destruct (parse_pinned_host b64) as [pinned|] eqn:E; [|intros; simplify_eq; apply grows_refl].
  unfold connect_key. destruct first.1; [|intros; simplify_eq; apply grows_refl]. destruct first.2 as [ch|e].
  - destruct pinned as [raw|]; cbn [option_map]; [|intros; simplify_eq; apply grows_refl].
    apply parse_pinned_ok in E as [L _]. destruct (remember _ p) as [p1 sp] eqn:R. intros; simplify_eq.
    eapply remember_grows; [|exact R]. by apply storable_key.
  - destruct (is_old_host_close e); [|intros; simplify_eq; apply grows_refl].
    destruct (_ ≫= _); intros; simplify_eq; apply grows_refl.
Qed.
Lemma connect_over_grows b64 handshake p p' spawned r :
  connect_key_over b64 handshake p = (p', spawned, r) -> grows p p' spawned.
Proof.
  unfold connect_key_over. destruct (parse_pinned_host _) as [pinned|] eqn:E; [|intros; simplify_eq; apply grows_refl].
  destruct handshake; [|intros; simplify_eq; apply grows_refl].
  destruct pinned as [raw|]; [|intros; simplify_eq; apply grows_refl].
  apply parse_pinned_ok in E as [L _]. destruct (remember _ p) as [p1 sp] eqn:R. intros; simplify_eq.
  eapply remember_grows; [|exact R]. by apply storable_key.
Qed.

Lemma stored_same w w' : w_disk w' !! path = w_disk w !! path -> stored w' = stored w.
Proof. intros E. unfold stored. by rewrite E. Qed.
Lemma start_ok saved w : pin_start saved w -> world_ok w.
Proof.
  intros (P & T & D & S).
  assert (stored w = default ∅ saved) as St.
  { unfold stored. rewrite D. destruct saved as [hs|]; [|done]. cbn. apply load_pin_file. eauto. }
  split; rewrite ?P, ?T; cbn; try done.
  - rewrite D, St. destruct saved; [by right|by left].
  - rewrite St. destruct saved; cbn; [eauto|set_solver].

Qed.

(** What a step keeps when neither the file nor the tasks change for the worse. *)
Lemma task_ok_mono w w' t : stored w' = stored w -> hosts (w_pins w) ⊆ hosts (w_pins w') ->
  w_disk w' !! tmp_path path = w_disk w !! tmp_path path -> task_ok w t -> task_ok w' t.
Proof.
  intros Es Hh Ed. unfold task_ok. destruct t; try done; rewrite Es, ?Ed; set_solver.
Qed.
Lemma grows_ok w p spawned : world_ok w -> grows (w_pins w) p spawned ->
  world_ok {| w_pins := p; w_disk := w_disk w; w_tasks := spawn spawned (w_tasks w) |}.
Proof.
  intros [K1 K2 K3 K4 K5 K6 K7] [G1 G2 G3 G4 G5 G6].
  set (w' := {| w_pins := p; w_disk := w_disk w; w_tasks := spawn spawned (w_tasks w) |}).
  assert (stored w' = stored w) as Es by by apply stored_same.
  assert (Forall (task_ok w') (w_tasks w)) as Ft.
  { eapply list.Forall_impl; [exact K5|]. intros t. by apply task_ok_mono. }
  subst w'. split; cbn [w_pins w_disk w_tasks]; rewrite ?Es; try done.
  - intros h [Hh|Hh]%G4; eauto.
  - intros q Hq. rewrite G1 in Hq. destruct (K4 q Hq). set_solver.
  - unfold spawn. destruct spawned; [|done]. apply Forall_app. by split; [|repeat constructor].
  - unfold spawn. intros Hn. rewrite G1. destruct spawned; [|by apply K6].
    destruct (G5 eq_refl) as [q Hq]. rewrite Hq. by destruct (K4 q Hq) as [-> _].
  - unfold spawn. destruct spawned; [|done]. intros i j t u Hi Hj At Au.
    apply lookup_snoc_Some in Hi as [[_ Hi]|[_ <-]]; [|done].
    apply lookup_snoc_Some in Hj as [[_ Hj]|[_ <-]]; [|done]. eauto.
Qed.
(** Task [i] moves on. *)
Lemma task_moves w w' i t t' : world_ok w -> w_pins w' = w_pins w -> w_tasks w !! i = Some t ->
  w_tasks w' = <[i := t']> (w_tasks w) -> (active t' = true -> active t = true \/ lock_free (w_tasks w)) ->
  (w_disk w' !! path = None \/ w_disk w' !! path = Some (pin_file (stored w'))) ->
  stored w ⊆ stored w' -> stored w' ⊆ stored w \/ (stored w' ⊆ hosts (w_pins w) /\ active t = true) ->
  w_disk w' !! tmp_path path = w_disk w !! tmp_path path \/ active t = true ->
  task_ok w' t' -> world_ok w'.
Proof.
  intros [K1 K2 K3 K4 K5 K6 K7] Ep Hi Et Ha Hf Hs1 Hs2 Hd Ht.
  assert (stored w' ⊆ stored w \/ stored w' ⊆ hosts (w_pins w)) as Hs by naive_solver.
  assert (forall q, store (w_pins w) = Some q -> stored w' ⊆ hosts (w_pins w)) as Hh.
  { intros q Hq. destruct (K4 q Hq) as [_ K]. set_solver. }
  split; rewrite ?Ep; try done.
  - intros h Hx. destruct Hs; [apply K3|apply K1]; set_solver.
  - intros q Hq. destruct (K4 q Hq). eauto.
  - rewrite Et. apply Forall_lookup. intros j u Hj. destruct (decide (i = j)) as [<-|Hne].
    { rewrite list_lookup_insert_eq in Hj by (by eapply lookup_lt_Some). by simplify_eq. }
    rewrite list_lookup_insert_ne in Hj by done. pose proof (Forall_lookup_1 _ _ _ _ K5 Hj) as Ku.
    destruct (active u) eqn:Au; [|by destruct u].
    assert (active t = false) as Nt.
    { destruct (active t) eqn:At; [|done]. destruct Hne. by eapply K7. }
    destruct Hd as [Hd|Hd]; [|congruence]. destruct Hs2 as [Hs2|[_ Hs2]]; [|congruence].
    eapply (task_ok_mono w w'); [|rewrite Ep; reflexivity|exact Hd|exact Ku]. by apply set_eq_subseteq.
  - rewrite Et. intros Hn. apply K6. intros E. rewrite E in Hi. done.
  - rewrite Et. intros a b u v Hu Hv Au Av.
    assert (forall c x, <[i:=t']> (w_tasks w) !! c = Some x -> active x = true -> c <> i ->
      w_tasks w !! c = Some x) as L.
    { intros c x Hc _ Hci. by rewrite list_lookup_insert_ne in Hc. }
    assert (forall c x, <[i:=t']> (w_tasks w) !! c = Some x -> active x = true -> c <> i -> active t' = true ->
      False) as L2.
    { intros c x Hc Ax Hci At'. apply L in Hc; [|done..]. destruct (Ha At') as [At|Fr].
      - destruct Hci. exact (K7 c i x t Hc Hi Ax At).
      - pose proof (Forall_lookup_1 _ _ _ _ Fr Hc). congruence. }
    assert (forall x, <[i:=t']> (w_tasks w) !! i = Some x -> x = t') as L3.
    { intros x Hx. rewrite list_lookup_insert_eq in Hx by (by eapply lookup_lt_Some). by simplify_eq. }
    destruct (decide (a = i)) as [->|Ha'], (decide (b = i)) as [->|Hb']; try done.
    + apply L3 in Hu as ->. by destruct (L2 b v Hv Av Hb').
    + apply L3 in Hv as ->. by destruct (L2 a u Hu Au Ha').
    + apply L in Hu; [|done..]. apply L in Hv; [|done..]. eauto.
Qed.

Lemma insert_tmp_stored w w' contents : w_disk w' = <[tmp_path path := contents]> (w_disk w) ->
  stored w' = stored w /\ w_disk w' !! path = w_disk w !! path.
Proof.
  intros E. assert (w_disk w' !! path = w_disk w !! path) as Ep by (rewrite E; by apply lookup_insert_ne).
  split; [by apply stored_same|done].
Qed.
Lemma file_same w w' : world_ok w -> w_disk w' !! path = w_disk w !! path ->
  w_disk w' !! path = None \/ w_disk w' !! path = Some (pin_file (stored w')).
Proof. intros K E. rewrite E, (stored_same w w' E). apply K. Qed.
Lemma open_ok fault w p r : world_ok w -> use_store fault path (w_disk w) (w_pins w) = (p, r) ->
  world_ok {| w_pins := p; w_disk := w_disk w; w_tasks := w_tasks w |}.
Proof.
  intros [K1 K2 K3 K4 K5 K6 K7] E.
  set (w' := {| w_pins := p; w_disk := w_disk w; w_tasks := w_tasks w |}).
  assert (stored w' = stored w) as Es by by apply stored_same.
  assert (hosts (w_pins w) ⊆ hosts p /\ hosts p ⊆ hosts (w_pins w) ∪ stored w /\
    (forall q, store p = Some q -> q = path /\ stored w ⊆ hosts p) /\
    (store (w_pins w) = Some path -> store p = Some path)) as (A & B & C & D).
  { unfold use_store, load_pins in E. unfold stored in *. destruct (w_disk w !! path) as [c|];
      [destruct fault|]; simplify_eq; cbn; (split; [set_solver|]; split; [set_solver|]; split; [|done]).
    - intros q Hq. by apply K4.
    - intros q [= <-]. set_solver.
    - intros q [= <-]. set_solver. }
  subst w'. split; cbn [w_pins w_disk w_tasks]; rewrite ?Es; try done.
  - intros h Hh%B. apply elem_of_union in Hh as [Hh|Hh]; auto.
  - eapply list.Forall_impl; [exact K5|]. intros t. by apply task_ok_mono.
  - intros Hn. by apply D, K6.
Qed.
Lemma step_ok w w' : pin_step w w' -> world_ok w -> world_ok w' /\ stored w ⊆ stored w'.
Proof.
  intros S K. pose proof K as [K1 K2 K3 K4 K5 K6 K7]. destruct S as
    [fault w p r _ E|b64 f s w p sp r E|b64 hs w p sp r E|i w Hi Fr|i copy w Hi|i copy w Hi|i copy d w _ Hi Hd|d w _ Hd].
  - split; [by eapply open_ok|done].
  - apply connect_grows in E. split; [by apply grows_ok|done].
  - apply connect_over_grows in E. split; [by apply grows_ok|done].
  - split; [|done].
    assert (store (w_pins w) = Some path) as Es by (apply K6; intros E; by rewrite E in Hi).
    rewrite Es. eapply (task_moves w _ i Queued); [done|done|done|done|by right| |done|by left|by left|].
    + by apply (file_same w).
    + cbn. split; [|done]. by destruct (K4 _ Es).
  - pose proof (Forall_lookup_1 _ _ _ _ K5 Hi) as [T1 T2].
    set (w' := {| w_pins := w_pins w; w_disk := <[tmp_path path:=pin_file copy]> (w_disk w);
                  w_tasks := <[i:=Synced copy]> (w_tasks w) |}).
    destruct (insert_tmp_stored w w' (pin_file copy) eq_refl) as [Es Ep]. split; [|by rewrite Es].
    eapply (task_moves w w' i (Holding copy)); [done|done|done|done|by left| |by rewrite Es|left; by rewrite Es|by right|].
    + by apply (file_same w).
    + cbn. rewrite Es. split; [done|]. split; [done|]. apply lookup_insert_eq.
  - pose proof (Forall_lookup_1 _ _ _ _ K5 Hi) as (T1 & T2 & T3). rewrite T3.
    set (w' := {| w_pins := w_pins w; w_disk := <[path:=pin_file copy]> (delete (tmp_path path) (w_disk w));
                  w_tasks := <[i:=Finished]> (w_tasks w) |}).
    assert (w_disk w' !! path = Some (pin_file copy)) as Ep by apply lookup_insert_eq.
    assert (stored w' = copy) as Es.
    { unfold stored. rewrite Ep. apply load_pin_file. intros h Hh. apply K1. set_solver. }
    split; [|by rewrite Es].
    eapply (task_moves w w' i (Synced copy)); [done|done|done|done|done| |by rewrite Es| |by right|done].
    + right. by rewrite Es.
    + right. rewrite Es. done.
  - assert (exists t, w_tasks w !! i = Some t /\ active t = true) as (t & Ht & At) by (destruct Hi as [Hi|Hi]; eauto).
    set (w' := {| w_pins := w_pins w; w_disk := d; w_tasks := <[i:=Finished]> (w_tasks w) |}).
    assert (stored w' = stored w /\ w_disk w' !! path = w_disk w !! path) as [Es Ep].
    { destruct Hd as [->|[n ->]]; [by split; [apply stored_same|]|by eapply insert_tmp_stored]. }
    split; [|by rewrite Es].
    eapply (task_moves w w' i t); [done|done|done|done|done| |by rewrite Es|left; by rewrite Es|by right|done].
    by apply (file_same w).
  - set (w' := {| w_pins := no_pins; w_disk := d; w_tasks := [] |}).
    assert (stored w' = stored w /\ w_disk w' !! path = w_disk w !! path) as [Es Ep].
    { destruct Hd as [->|(copy & n & ->)]; [by split; [apply stored_same|]|by eapply insert_tmp_stored]. }
    pose proof (file_same w w' K Ep) as Hf. split; [|by rewrite Es]. split; rewrite ?Es; try done.
    + by rewrite Es in Hf.
Qed.
Lemma steps_ok w w' : rtc pin_step w w' -> world_ok w -> world_ok w' /\ stored w ⊆ stored w'.
Proof.
  induction 1 as [w|w w1 w2 S R IH]; intros K; [done|]. destruct (step_ok _ _ S K) as [K1 E1].
  destruct (IH K1) as [K2 E2]. split; [done|]. by etrans.
Qed.

Lemma stays_known w w' h : rtc pin_step w w' -> world_ok w ->
  (h ∈ stored w /\ (is_Some (store (w_pins w')) \/ unreadable (w_pins w') = true)) \/
  (h ∈ hosts (w_pins w) /\ restarts = false) ->
  is_Some (pins_refuse_downgrade (w_pins w') h).
Proof.
  intros R K H'. assert (unreadable (w_pins w') = true \/ h ∈ hosts (w_pins w')) as [U|U].
  { destruct H' as [[Hs [[q Hq]|U]]|[Hh Nr]]; [|by left|].
    - destruct (steps_ok _ _ R K) as [[_ _ _ K4 _ _ _] E]. destruct (K4 q Hq). right. set_solver.
    - right. clear K. induction R as [w|w w1 w2 S R IH]; [done|]. apply IH. revert Hh. clear IH R.
      assert (forall p p' sp, grows p p' sp -> h ∈ hosts p -> h ∈ hosts p') as G by (intros ? ? ? []; set_solver).
      destruct S as [fault w p r _ E|b64 f s w p sp r E|b64 hs w p sp r E|i w Hi Fr|i copy w Hi|i copy w Hi|i copy d w _ Hi Hd|d w Hr Hd];
        cbn; try done.
      + unfold use_store in E. destruct (load_pins _ _ _); simplify_eq; cbn; set_solver.
      + apply connect_grows in E. by eapply G.
      + apply connect_over_grows in E. by eapply G.
      + congruence. }
  - unfold pins_refuse_downgrade. by rewrite U.
  - unfold pins_refuse_downgrade. rewrite bool_decide_eq_true_2 by done. by destruct (unreadable _).
Qed.

(** Without faults and restarts, what a process remembers once its store is
    open is saved when its tasks are done. *)
Definition in_sync (w : World) : Prop :=
  store (w_pins w) = Some path /\ (hosts (w_pins w) = stored w \/ saving w).
Lemma in_sync_step w w' : faults = false -> restarts = false -> pin_step w w' -> world_ok w ->
  in_sync w -> in_sync w'.
Proof.
  intros Nf Nr S K [So I]. pose proof K as [K1 K2 K3 K4 K5 K6 K7]. pose proof (step_ok _ _ S K) as [K' _].
  assert (forall p sp, grows (w_pins w) p sp ->
    in_sync {| w_pins := p; w_disk := w_disk w; w_tasks := spawn sp (w_tasks w) |}) as G.
  { intros p sp [G1 G2 G3 G4 G5 G6]. split; cbn; [congruence|]. destruct (G6 ltac:(by rewrite So)) as [->|Eh].
    - right. exists Queued. split; [|done]. cbn. apply elem_of_app. right. by left.
    - unfold saving. cbn. rewrite Eh. destruct I as [I|(t & Ht & E)]; [by left|right].
      exists t. split; [|done]. destruct sp; cbn; [|done]. apply elem_of_app. by left. }
  assert (forall i t t', w_tasks w !! i = Some t -> (forall u, u ∈ w_tasks w -> u <> t -> u ∈ <[i:=t']> (w_tasks w)) /\
    t' ∈ <[i:=t']> (w_tasks w)) as T.
  { intros i t t' Hi. split.
    - intros u [j Hj]%list_elem_of_lookup Hu. apply list_elem_of_lookup. exists j.
      rewrite list_lookup_insert_ne; [done|]. intros ->. congruence.
    - apply list_elem_of_lookup. exists i. apply list_lookup_insert_eq. by eapply lookup_lt_Some. }
  destruct S as [fault w p r Hf E|b64 f s w p sp r E|b64 hs w p sp r E|i w Hi Fr|i copy w Hi|i copy w Hi|i copy d w Hx Hi Hd|d w Hr Hd].
  - assert (fault = None) as -> by (destruct fault; [|done]; rewrite Hf in Nf by done; done).
    destruct (K4 path So) as [_ Sub].
    assert (p = {| store := Some path; hosts := hosts (w_pins w); unreadable := unreadable (w_pins w) |}) as ->.
    { unfold use_store, load_pins in E. unfold stored in Sub. destruct (w_disk w !! path); simplify_eq; f_equal; set_solver. }
    split; [done|]. destruct I as [I|I]; [by left|by right].
  - apply connect_grows in E. by apply G.
  - apply connect_over_grows in E. by apply G.
  - split; [done|]. right. rewrite So. exists (Holding (hosts (w_pins w))). split; [|done].
    cbn. by eapply (T i Queued).
  - split; [done|]. destruct I as [I|(t & Ht & E)].
    + left. cbn. rewrite I. symmetry. by eapply insert_tmp_stored.
    + right. destruct (decide (t = Holding copy)) as [->|Ne].
      * exists (Synced copy). cbn. split; [by eapply (T i (Holding copy))|done].
      * exists t. cbn. split; [by eapply (T i (Holding copy))|done].
  - pose proof (Forall_lookup_1 _ _ _ _ K5 Hi) as (T1 & T2 & T3). rewrite T3 in *.
    split; [done|]. destruct I as [I|(t & Ht & E)].
    + left. assert (copy = hosts (w_pins w)) as -> by (apply set_eq_subseteq; set_solver).
      cbn. unfold stored. cbn. rewrite lookup_insert_eq. symmetry. by apply load_pin_file.
    + destruct (decide (t = Synced copy)) as [->|Ne].
      * left. cbn. unfold stored. cbn. rewrite lookup_insert_eq, load_pin_file; [done|].
        intros h Hh. apply K1. set_solver.
      * right. exists t. cbn. split; [by eapply (T i (Synced copy))|done].
  - congruence.
  - congruence.
Qed.
Lemma all_saved w w' : faults = false -> restarts = false -> rtc pin_step w w' -> world_ok w ->
  in_sync w -> Forall (fun t => t = Finished) (w_tasks w') -> hosts (w_pins w') = stored w'.
Proof.
  intros Nf Nr R K I F. assert (in_sync w') as [_ [E|(t & Ht & E)]]; [|done|].
  { clear F. induction R as [w|w w1 w2 S R IH]; [done|]. apply IH; [by eapply step_ok|by eapply in_sync_step]. }
  by rewrite (proj1 (Forall_forall _ _) F t Ht) in E.
Qed.

(** C16. A pinned host is not downgraded. Take a host that is in the file at
    some moment, through any mix of connections, saves that fail at any point,
    restarts and interrupted writes; then, in a process that has opened the
    store, or failed to read it, or in the process that remembered the host
    itself, whatever the networks of its two attempts do, a connection to the
    host that gives a channel gives a hybrid one: the host's signature covers
    an ML-KEM ciphertext to the client's own key, the channel is keyed by the
    secret in it, and the host confirmed the channel. *)
Theorem pinned_host_stays_hybrid saved w0 w w' key identity k1 s1 k2 s2 first second :
  pin_start saved w0 -> rtc pin_step w0 w -> rtc pin_step w w' ->
  (b64_encode key ∈ stored w /\ (is_Some (store (w_pins w')) \/ unreadable (w_pins w') = true)) \/
  (b64_encode key ∈ hosts (w_pins w) /\ restarts = false) ->
  key_attempt identity (Some key) true k1 s1 first -> key_attempt identity (Some key) false k2 s2 second ->
  match (connect_key (Some key) first second (w_pins w')).2 with
  | Ok (ch, hybrid) => hybrid = true /\ host_proved identity true k1 s1 key ch
  | Err _ => True
  end.
Proof.
  intros P R1 R2 Hk A1 _. destruct (stays_known w w' (b64_encode key)) as [reason Hr]; [done| |done|].
  { eapply steps_ok; [exact R1|by eapply start_ok]. }
  unfold connect_key. destruct first.1; [|done]. destruct A1 as [A1|A1]; [by rewrite A1|].
  destruct first.2 as [ch|e]; cbn [option_map].
  - destruct (remember _ _) as [p sp]. cbn [snd]. split; [done|].
    eapply sound_may_return in A1; [|apply client_key_sound]. by destruct A1 as (hk & [= <-] & A1).
  - destruct (is_old_host_close e); [|done]. cbn [mbind option_bind]. by rewrite Hr.
Qed.
End Process.

(** ** Processes at concrete inputs *)

(** A peer that closes instead of answering. *)
Definition eof_error : io.Error := {| io.kind := io.UnexpectedEof; io.text := "early eof" |}.
Fixpoint run_closed {A : Type} (m : Io A) : Result A Sdk.SdkError :=
  match m with
  | Return r => r
  | Write _ k | Flush k => run_closed (k (Ok tt))
  | ReadExact _ k => run_closed (k (Err eof_error))
  end.
Lemma run_closed_returns {A : Type} (m : Io A) : may_return m (run_closed m).
Proof.
  induction m as [r|b k IH|k IH|n k IH]; cbn.
  - apply returns.
  - eapply returns_write, IH.
  - eapply returns_flush, IH.
  - eapply (returns_read _ _ (Err eof_error)); [done|apply IH].
Qed.

Definition ex_pin : bytes := verifying_key wd_host.
Definition ex_saved : gset string := {[b64_encode ex_pin]}.
Definition ex_boot : World := {| w_pins := no_pins; w_disk := {["pq_hosts" := pin_file ex_saved]}; w_tasks := [] |}.
Definition ex_opened : World :=
  {| w_pins := {| store := Some "pq_hosts"%string; hosts := ∅ ∪ load_hosts (pin_file ex_saved); unreadable := false |};
     w_disk := w_disk ex_boot; w_tasks := [] |}.
Definition ex_closed (hybrid : bool) : Attempt :=
  (Ok tt, run_closed (client_connect_key wd_client (Some ex_pin) hybrid (33%N : @KemKey toy_mlkem)
                        (34%N : @EphemeralSecret toy_x25519))).
Lemma pinned_host_stays_hybrid_witness :
  is_old_host_close (match (ex_closed true).2 with Err e => e | Ok _ => Sdk.NotAuthenticated end) = true /\
  (connect_key (Some ex_pin) (ex_closed true) (ex_closed false) (w_pins ex_opened)).2 =
    Err (Sdk.Crypto "host previously supported post-quantum encryption; refusing a downgrade") /\
  match (connect_key (Some ex_pin) (ex_closed true) (ex_closed false) (w_pins ex_opened)).2 with
  | Ok (ch, hybrid) => hybrid = true /\
      host_proved wd_client true (33%N : @KemKey toy_mlkem) (34%N : @EphemeralSecret toy_x25519) ex_pin ch
  | Err _ => True
  end.
Proof.
  split; [vm_compute; reflexivity|]. split; [vm_compute; reflexivity|].
  apply (pinned_host_stays_hybrid "pq_hosts" ltac:(vm_compute; discriminate) true true (Some ex_saved)
           ex_boot ex_boot ex_opened ex_pin wd_client (33%N : @KemKey toy_mlkem)
           (34%N : @EphemeralSecret toy_x25519) (33%N : @KemKey toy_mlkem) (34%N : @EphemeralSecret toy_x25519)).
  - split; [reflexivity|]. split; [reflexivity|]. split; [reflexivity|].
    intros hs h [= <-] Hh%elem_of_singleton. subst h. by apply storable_key.
  - apply rtc_refl.
  - apply rtc_once. by apply (step_open _ _ _ None ex_boot _ (Ok tt)).
  - left. split; [apply (bool_decide_unpack _); vm_compute; exact I|]. left. by eexists.
  - right. apply run_closed_returns.
  - right. apply run_closed_returns.
Defined.

(** Once a store could not be read, every classical retry of the process is
    refused, also after the store was read. *)
Lemma unreadable_stays fault path d p : unreadable p = true -> unreadable (use_store fault path d p).1 = true.
Proof. intros U. unfold use_store. by destruct (load_pins _ _ _). Qed.
(** A host whose save failed is not saved again when it is met again: only a
    new host starts the next save. *)
Lemma failed_save_not_retried h p : h ∈ hosts p -> remember h p = (p, false).
Proof. intros Hh. unfold remember. by rewrite bool_decide_eq_true_2. Qed.
