(* ===== verification/SharedFolder.v ===== *)
(** * The shared folder

    rivetlink-sdk/src/share.rs and rivetlink-agent/src/console/shared_folder.rs:
    the path rules, uploads through part files, downloads in chunks and the
    listing, over a file system with symbolic links. A system call fails when
    the script of faults says so. *)
From Stdlib Require Import NArith Lia Strings.String Strings.Byte.
From stdpp Require Import sorting.
From S2P Require Import Prelude Text.

(** ** share.rs *)

Definition MAX_CLIPBOARD_BYTES : N := 256 * 1024.
Definition FILE_CHUNK_BYTES : N := 192 * 1024.
Definition MAX_FILE_BYTES : N := 8 * 1024 * 1024 * 1024.
Definition MAX_PATH_BYTES : N := 1024.
Definition MAX_PATH_DEPTH : N := 32.

Record SharedEntry := { entry_path : string; entry_size : N; entry_dir : bool }.

Definition component_ok (part : string) : bool :=
  negb (slen part =? 0)%N &&
  negb (bool_decide (part = ".")) &&
  negb (bool_decide (part = "..")) &&
  (slen part <=? 255)%N &&
  negb (has_control (as_bytes part) ||
        bool_decide (Byte.x5c ∈ as_bytes part) || bool_decide (Byte.x3a ∈ as_bytes part)).
Definition relative_components (path : string) : option (list string) :=
  if (slen path =? 0)%N || (MAX_PATH_BYTES <? slen path)%N || str_starts_with "/" path then None
  else
    let components := str_split Byte.x2f path in
    if (MAX_PATH_DEPTH <? len components)%N then None
    else if forallb component_ok components then Some components else None.

(** ** The file system

    Nodes by their real location, a list of names from the root directory. A
    link holds the absolute path it stands for, which may have dots and links
    of its own. *)
Inductive Node :=
| NFile (content : bytes)
| NDir
| NSymlink (target : list string).
#[export] Instance Node_eq_dec : EqDecision Node.
Proof. solve_decision. Defined.
Abbreviation Location := (list string).
(** [PathBuf]: an absolute path by components. *)
Abbreviation PathBuf := (list string).
Abbreviation Fs := (gmap Location Node).

(** Path resolution with a budget of links; the last component is followed or
    not. A missing last component resolves to where it would be. *)
Fixpoint walk (links : nat) (fs : Fs) (follow : bool) : Location -> PathBuf -> Result Location io.ErrorKind :=
  fix go (cur : Location) (todo : PathBuf) : Result Location io.ErrorKind :=
    match todo with
    | [] => Ok cur
    | c :: rest =>
        if bool_decide (c = ".") then go cur rest
        else if bool_decide (c = "..") then go (removelast cur) rest
        else
          let here := cur ++ [c] in
          let last := match rest with [] => true | _ => false end in
          match fs !! here with
          | Some NDir => go here rest
          | Some (NSymlink t) =>
              if last && negb follow then Ok here
              else match links with
                   | O => Err io.Other
                   | S links' => walk links' fs follow [] (t ++ rest)
                   end
          | Some (NFile _) => if last then Ok here else Err io.Other
          | None => if last then Ok here else Err io.NotFound
          end
    end.
(** Linux follows at most 40 links. *)
Definition resolve (fs : Fs) (follow : bool) (p : PathBuf) : Result Location io.ErrorKind :=
  walk 40 fs follow [] p.

(** [PathBuf::push]: an absolute component replaces the path. *)
Definition push (p : PathBuf) (component : string) : PathBuf :=
  let parts := filter (fun c => c <> ""%string) (str_split Byte.x2f component) in
  if str_starts_with "/" component then parts else p ++ parts.

(** The disk, and what goes wrong in the next system calls: a write that fails
    has already written some bytes. *)
Record Disk := { files : Fs; faults : list (option nat) }.
Definition sys_call {A : Type} (d : Disk) (on_fault : nat -> Fs) (r : Fs * Result A io.ErrorKind)
  : Disk * Result A io.ErrorKind :=
  match faults d with
  | Some n :: rest => ({| files := on_fault n; faults := rest |}, Err io.Other)
  | None :: rest => ({| files := r.1; faults := rest |}, r.2)
  | [] => ({| files := r.1; faults := [] |}, r.2)
  end.
Definition no_effect (d : Disk) : nat -> Fs := fun _ => files d.

(** [std::fs]. The root directory always exists. *)
Definition node_at (fs : Fs) (l : Location) : option Node :=
  match l with [] => Some NDir | _ => fs !! l end.
Definition metadata_of (fs : Fs) (follow : bool) (p : PathBuf) : Result Node io.ErrorKind :=
  let? l := resolve fs follow p in ok_or (node_at fs l) io.NotFound.
Definition symlink_metadata (p : PathBuf) (d : Disk) : Disk * Result Node io.ErrorKind :=
  sys_call d (no_effect d) (files d, metadata_of (files d) false p).

(** A new node where nothing is. *)
Definition make_node (fs : Fs) (p : PathBuf) (n : Node) : Fs * Result Location io.ErrorKind :=
  match resolve fs false p with
  | Err e => (fs, Err e)
  | Ok l => match node_at fs l with
            | Some _ => (fs, Err io.Other)
            | None => (<[l := n]> fs, Ok l)
            end
  end.
Definition create_dir (p : PathBuf) (d : Disk) : Disk * Result Location io.ErrorKind :=
  sys_call d (no_effect d) (make_node (files d) p NDir).
(** [create(true).write(true).create_new(true).open]; the handle is the location. *)
Definition open_new (p : PathBuf) (d : Disk) : Disk * Result Location io.ErrorKind :=
  sys_call d (no_effect d) (make_node (files d) p (NFile [])).

(** Ancestors from the root downwards; one fault for the whole call. *)
Fixpoint create_dirs (done todo : PathBuf) (fs : Fs) : Fs * Result unit io.ErrorKind :=
  match todo with
  | [] => (fs, Ok tt)
  | c :: rest =>
      let p := done ++ [c] in
      match metadata_of fs true p with
      | Ok NDir => create_dirs p rest fs
      | Ok _ => (fs, Err io.Other)
      | Err _ =>
          match make_node fs p NDir with
          | (fs', Ok _) => create_dirs p rest fs'
          | (fs', Err e) => (fs', Err e)
          end
      end
  end.
Definition create_dir_all (p : PathBuf) (d : Disk) : Disk * Result unit io.ErrorKind :=
  sys_call d (no_effect d) (create_dirs [] p (files d)).

(** [write_all] through a handle; a file that is no longer there keeps the
    bytes to itself. *)
Definition append_at (fs : Fs) (l : Location) (data : bytes) : Fs :=
  match fs !! l with
  | Some (NFile content) => <[l := NFile (content ++ data)]> fs
  | _ => fs
  end.
Definition write_all (l : Location) (data : bytes) (d : Disk) : Disk * Result unit io.ErrorKind :=
  sys_call d (fun n => append_at (files d) l (take n data)) (append_at (files d) l data, Ok tt).
Definition sync_all (l : Location) (d : Disk) : Disk * Result unit io.ErrorKind :=
  sys_call d (no_effect d) (files d, Ok tt).

Definition remove_in (fs : Fs) (p : PathBuf) : Fs * Result unit io.ErrorKind :=
  match resolve fs false p with
  | Err e => (fs, Err e)
  | Ok l => match node_at fs l with
            | Some NDir => (fs, Err io.Other)
            | Some _ => (delete l fs, Ok tt)
            | None => (fs, Err io.NotFound)
            end
  end.
Definition remove_file (p : PathBuf) (d : Disk) : Disk * Result unit io.ErrorKind :=
  sys_call d (no_effect d) (remove_in (files d) p).

(** A file moves onto a file or a link, never onto a directory. *)
Definition rename_in (fs : Fs) (a b : PathBuf) : Fs * Result unit io.ErrorKind :=
  match resolve fs false a, resolve fs false b with
  | Ok la, Ok lb =>
      match node_at fs la, node_at fs lb with
      | None, _ => (fs, Err io.NotFound)
      | Some NDir, _ | _, Some NDir => (fs, Err io.Other)
      | Some n, _ => (<[lb := n]> (delete la fs), Ok tt)
      end
  | Err e, _ | _, Err e => (fs, Err e)
  end.
Definition rename (a b : PathBuf) (d : Disk) : Disk * Result unit io.ErrorKind :=
  sys_call d (no_effect d) (rename_in (files d) a b).

(** [File::open], [seek] and a bounded [read_to_end]; one fault for the three. *)
Definition read_at (p : PathBuf) (offset limit : N) (d : Disk) : Disk * Result bytes io.ErrorKind :=
  sys_call d (no_effect d) (files d,
    let? l := resolve (files d) true p in
    match node_at (files d) l with
    | Some (NFile content) => Ok (take (N.to_nat limit) (drop (N.to_nat offset) content))
    | Some _ => Err io.Other
    | None => Err io.NotFound
    end).

(** Names and nodes of a directory. *)
Definition children (fs : Fs) (l : Location) : list (string * Node) :=
  omap (fun '(loc, n) =>
    match decide (removelast loc = l /\ loc <> []) with
    | left _ => name ← last loc; Some (name, n)
    | right _ => None
    end) (map_to_list fs).

(** ** shared_folder.rs *)

Definition MAX_OPEN_UPLOADS : N := 4.
Definition MAX_LISTED_ENTRIES : N := 5000.
Definition PART_SUFFIX : string := ".rivetlink-part".

Inductive ShareError := Rejected | ShareIo.
#[export] Instance ShareError_eq_dec : EqDecision ShareError.
Proof. solve_decision. Defined.
Definition ShareError_message (e : ShareError) : string :=
  match e with
  | Rejected => "the host rejected this file path or size"
  | ShareIo => "the host could not read or write the shared folder"
  end.

Record Upload := {
  dir : PathBuf;
  up_name : string;
  part : PathBuf;
  file : Location;
  expected : N;
  written : N;
}.
Record SharedFolder := { root : PathBuf; uploads : gmap N Upload }.

(** [for_current_user], from the value of HOME. *)
Definition for_current_user (home : option string) : option SharedFolder :=
  match home with
  | Some h => if (slen h =? 0)%N then None
              else Some {| root := push (push (push [] h) "Downloads") "RivetLink"; uploads := ∅ |}
  | None => None
  end.

Definition ensure_root (root : PathBuf) (d : Disk) : Disk * Result unit ShareError :=
  let '(d, r) := create_dir_all root d in
  match r with
  | Err _ => (d, Err ShareIo)
  | Ok _ =>
      let '(d, r) := symlink_metadata root d in
      match r with
      | Err _ => (d, Err ShareIo)
      | Ok (NSymlink _) => (d, Err Rejected)
      | Ok _ => (d, Ok tt)
      end
  end.

(** The folders below the root, created when [create]. *)
Fixpoint resolve_dirs (dir : PathBuf) (components : list string) (create : bool) (d : Disk)
  : Disk * Result PathBuf ShareError :=
  match components with
  | [] => (d, Ok dir)
  | component :: rest =>
      let dir := push dir component in
      let '(d, r) := symlink_metadata dir d in
      match r with
      | Ok NDir => resolve_dirs dir rest create d
      | Ok _ => (d, Err Rejected)
      | Err io.NotFound =>
          if create then
            let '(d, r) := create_dir dir d in
            match r with
            | Ok _ => resolve_dirs dir rest create d
            | Err _ => (d, Err ShareIo)
            end
          else (d, Err Rejected)
      | Err _ => (d, Err Rejected)
      end
  end.

(** [slice::split_last]. *)
Definition split_last (l : list string) : option (string * list string) :=
  name ← last l; Some (name, removelast l).
Definition path_parts (path : string) : option (string * list string) :=
  components ← relative_components path; split_last components.

Definition part_name (name : string) (id : N) : string :=
  ("." ++ name ++ "." ++ pretty id ++ PART_SUFFIX)%string.

Definition start_upload (id : N) (path : string) (bound : N) (sf : SharedFolder) (d : Disk)
  : SharedFolder * Disk * Result unit ShareError :=
  match path_parts path with
  | None => (sf, d, Err Rejected)
  | Some (name, folders) =>
      if (MAX_FILE_BYTES <? bound)%N || ends_with PART_SUFFIX name ||
         bool_decide (is_Some (uploads sf !! id)) || (MAX_OPEN_UPLOADS <=? N.of_nat (size (uploads sf)))%N
      then (sf, d, Err Rejected)
      else
        let '(d, r) := ensure_root (root sf) d in
        match r with
        | Err e => (sf, d, Err e)
        | Ok _ =>
            let '(d, r) := resolve_dirs (root sf) folders true d in
            match r with
            | Err e => (sf, d, Err e)
            | Ok dir =>
                let part := push dir (part_name name id) in
                let '(d, r) := open_new part d in
                match r with
                | Err _ => (sf, d, Err ShareIo)
                | Ok file =>
                    ({| root := root sf;
                        uploads := <[id := {| dir := dir; up_name := name; part := part; file := file;
                                              expected := bound; written := 0 |}]> (uploads sf) |},
                     d, Ok tt)
                end
            end
        end
  end.

Definition abort_upload (id : N) (sf : SharedFolder) (d : Disk) : SharedFolder * Disk :=
  match uploads sf !! id with
  | Some upload =>
      ({| root := root sf; uploads := delete id (uploads sf) |}, (remove_file (part upload) d).1)
  | None => (sf, d)
  end.

Definition write_chunk (id : N) (data : bytes) (sf : SharedFolder) (d : Disk)
  : SharedFolder * Disk * Result unit ShareError :=
  match uploads sf !! id with
  | None => (sf, d, Err Rejected)
  | Some upload =>
      if (FILE_CHUNK_BYTES <? len data)%N || (expected upload <? written upload + len data)%N
      then (abort_upload id sf d, Err Rejected)
      else
        let '(d, r) := write_all (file upload) data d in
        match r with
        | Err _ => (abort_upload id sf d, Err ShareIo)
        | Ok _ =>
            ({| root := root sf;
                uploads := <[id := {| dir := dir upload; up_name := up_name upload; part := part upload;
                                      file := file upload; expected := expected upload;
                                      written := written upload + len data |}]> (uploads sf) |},
             d, Ok tt)
        end
  end.

(** [name], [name (1).ext], ..: the first of 10000 that has no metadata. *)
Definition candidate (name : string) (n : N) : string :=
  let '(stem, extension) :=
    match rsplit_once Byte.x2e name with
    | Some (stem, ext) => if (slen stem =? 0)%N then (name, None) else (stem, Some ext)
    | None => (name, None)
    end in
  if (n =? 0)%N then name
  else match extension with
       | Some ext => (stem ++ " (" ++ pretty n ++ ")." ++ ext)%string
       | None => (stem ++ " (" ++ pretty n ++ ")")%string
       end.
Fixpoint first_unused (fuel : nat) (n : N) (dir : PathBuf) (name : string) (d : Disk)
  : Disk * option string :=
  match fuel with
  | O => (d, None)
  | S fuel' =>
      let '(d, r) := symlink_metadata (push dir (candidate name n)) d in
      if is_ok r then first_unused fuel' (n + 1) dir name d else (d, Some (candidate name n))
  end.
Definition unused_name (dir : PathBuf) (name : string) (d : Disk) : Disk * option string :=
  first_unused (N.to_nat 10000) 0 dir name d.

Definition finish_upload (id : N) (sf : SharedFolder) (d : Disk)
  : SharedFolder * Disk * Result string ShareError :=
  match uploads sf !! id with
  | None => (sf, d, Err Rejected)
  | Some upload =>
      let sf := {| root := root sf; uploads := delete id (uploads sf) |} in
      if negb (written upload =? expected upload)%N
      then (sf, (remove_file (part upload) d).1, Err Rejected)
      else
        let '(d, r) := sync_all (file upload) d in
        match r with
        | Err _ => (sf, d, Err ShareIo)
        | Ok _ =>
            let '(d, r) := unused_name (dir upload) (up_name upload) d in
            match r with
            | None => (sf, d, Err ShareIo)
            | Some name =>
                let '(d, r) := rename (part upload) (push (dir upload) name) d in
                match r with
                | Err _ => (sf, d, Err ShareIo)
                | Ok _ =>
                    if bool_decide (take (length (root sf)) (dir upload) = root sf)
                    then (sf, d, Ok (String.concat "/" (drop (length (root sf)) (dir upload) ++ [name])))
                    else (sf, d, Err ShareIo)
                end
            end
        end
  end.

Definition read_chunk (path : string) (offset : N) (sf : SharedFolder) (d : Disk)
  : Disk * Result (bytes * N * bool) ShareError :=
  match path_parts path with
  | None => (d, Err Rejected)
  | Some (name, folders) =>
      let '(d, r) := resolve_dirs (root sf) folders false d in
      match r with
      | Err e => (d, Err e)
      | Ok dir =>
          let file_path := push dir name in
          let '(d, r) := symlink_metadata file_path d in
          match r with
          | Ok (NFile content) =>
              if ends_with PART_SUFFIX name then (d, Err Rejected)
              else
                let size := len content in
                if (MAX_FILE_BYTES <? size)%N || (size <? offset)%N then (d, Err Rejected)
                else
                  let '(d, r) := read_at file_path offset FILE_CHUNK_BYTES d in
                  match r with
                  | Err _ => (d, Err ShareIo)
                  | Ok data => (d, Ok (data, size, (size <=? offset + len data)%N))
                  end
          | _ => (d, Err Rejected)
          end
      end
  end.

(** The listing. [order] is the order in which the file system gives the entries
    of a directory. *)
Section Listing.
Variable order : list (string * Node) -> list (string * Node).

Definition read_dir (p : PathBuf) (d : Disk) : Disk * Result (list (string * Node)) io.ErrorKind :=
  sys_call d (no_effect d) (files d,
    let? l := resolve (files d) true p in
    match node_at (files d) l with
    | Some NDir => Ok (order (children (files d) l))
    | Some _ => Err io.Other
    | None => Err io.NotFound
    end).
Definition entry_metadata (n : Node) (d : Disk) : Disk * Result Node io.ErrorKind :=
  sys_call d (no_effect d) (files d, Ok n).

Abbreviation Pending := (list (PathBuf * string * N)).
(** The entries of one directory; [true] when the limit is reached. *)
Fixpoint list_dir (es : list (string * Node)) (dir : PathBuf) (prefix : string) (depth : N)
  (entries : list SharedEntry) (pending : Pending) (d : Disk)
  : Disk * Result (list SharedEntry * Pending * bool) ShareError :=
  match es with
  | [] => (d, Ok (entries, pending, false))
  | (name, node) :: es' =>
      if ends_with PART_SUFFIX name then list_dir es' dir prefix depth entries pending d
      else
        let '(d, r) := entry_metadata node d in
        match r with
        | Err _ => (d, Err ShareIo)
        | Ok node =>
            let path := if (slen prefix =? 0)%N then name else (prefix ++ "/" ++ name)%string in
            let '(entries, pending) :=
              match node with
              | NDir =>
                  (entries ++ [{| entry_path := path; entry_size := 0; entry_dir := true |}],
                   if (depth + 1 <? MAX_PATH_DEPTH)%N
                   then (push dir name, path, (depth + 1)%N) :: pending else pending)
              | NFile content =>
                  (entries ++ [{| entry_path := path; entry_size := len content; entry_dir := false |}],
                   pending)
              | NSymlink _ => (entries, pending)
              end in
            if (MAX_LISTED_ENTRIES <=? len entries)%N then (d, Ok (entries, pending, true))
            else list_dir es' dir prefix depth entries pending d
        end
  end.
(** [pending] is a stack; [fuel] bounds the directories. *)
Fixpoint list_loop (fuel : nat) (entries : list SharedEntry) (pending : Pending) (d : Disk)
  : option (Disk * Result (list SharedEntry) ShareError) :=
  match pending with
  | [] => Some (d, Ok entries)
  | (dir, prefix, depth) :: pending =>
      match fuel with
      | O => None
      | S fuel' =>
          let '(d, r) := read_dir dir d in
          match r with
          | Err _ => Some (d, Err ShareIo)
          | Ok es =>
              let '(d, r) := list_dir es dir prefix depth entries pending d in
              match r with
              | Err e => Some (d, Err e)
              | Ok (entries, _, true) => Some (d, Ok entries)
              | Ok (entries, pending, false) => list_loop fuel' entries pending d
              end
          end
      end
  end.
Definition by_path (a b : SharedEntry) : Prop := String.leb (entry_path a) (entry_path b) = true.
#[local] Instance by_path_dec a b : Decision (by_path a b).
Proof. unfold by_path. apply _. Defined.
Definition list_shared (fuel : nat) (sf : SharedFolder) (d : Disk)
  : option (Disk * Result (list SharedEntry) ShareError) :=
  let '(d, r) := ensure_root (root sf) d in
  match r with
  | Err e => Some (d, Err e)
  | Ok _ =>
      match list_loop fuel [] [(root sf, ""%string, 0%N)] d with
      | Some (d, Ok entries) => Some (d, Ok (merge_sort by_path entries))
      | r => r
      end
  end.
End Listing.

(** [Drop]. *)
Definition drop_folder (sf : SharedFolder) (d : Disk) : SharedFolder * Disk :=
  foldl (fun '(sf, d) id => abort_upload id sf d) (sf, d) (map fst (map_to_list (uploads sf))).

(** ** Components and paths *)

Definition plain (c : string) : Prop := c <> "."%string /\ c <> ".."%string.
(** A name a path may get: not empty, without separators. *)
Definition is_name (c : string) : Prop := c <> ""%string /\ Byte.x2f ∉ as_bytes c.

Lemma slen_app s t : slen (s ++ t)%string = (slen s + slen t)%N.
Proof. unfold slen, len. rewrite as_bytes_app, length_app. lia. Qed.
Lemma slen_nil s : slen s = 0%N <-> s = ""%string.
Proof.
  split; [|by intros ->]. unfold slen, len. intros E. apply as_bytes_inj.
  destruct (as_bytes s); [done|simpl in E; lia].
Qed.
Lemma plain_long c : (2 < slen c)%N -> plain c.
Proof. intros H. split; intros ->; vm_compute in H; done. Qed.

Lemma push_name p c : is_name c -> push p c = p ++ [c].
Proof.
  intros [Hc Hs]. unfold push, str_split. rewrite (split_no_sep _ _ Hs). cbn [map].
  rewrite from_utf8_as_bytes, filter_cons_True, filter_nil by done.
  unfold str_starts_with. destruct (starts_with_b _ _) eqn:E; [|done].
  apply starts_with_b_spec in E as [r E]. destruct Hs. rewrite E. by left.
Qed.

Lemma str_split_names c s : Forall (fun p => c ∉ as_bytes p) (str_split c s).
Proof.
  unfold str_split. apply list.Forall_fmap. eapply list.Forall_impl; [apply split_on_no_sep|].
  intros p Hp. simpl. by rewrite as_bytes_from_utf8.
Qed.
Lemma relative_components_ok path cs : relative_components path = Some cs ->
  cs <> [] /\ Forall (fun c => component_ok c = true /\ Byte.x2f ∉ as_bytes c) cs.
Proof.
  unfold relative_components. intros E. inv_ok E. split.
  - unfold str_split. pose proof (split_on_nonempty Byte.x2f (as_bytes path)). by destruct split_on.
  - apply list.Forall_and. split; [|apply str_split_names].
    apply list.Forall_forall. intros c Hc. by apply (proj1 (forallb_forall _ _)) with (x := c) in Heqb1; [|apply list_elem_of_In].
Qed.
Lemma component_name c : component_ok c = true -> Byte.x2f ∉ as_bytes c -> is_name c /\ plain c.
Proof.
  unfold component_ok. rewrite !andb_true_iff, !negb_true_iff, !bool_decide_eq_false.
  intros ((((H1 & H2) & H3) & _) & _) Hs. split; [split; [|done]|done].
  intros ->. vm_compute in H1. done.
Qed.

(** What the handlers work with: the validated name and folders. *)
Record parts_ok (name : string) (folders : list string) : Prop := {
  name_ok : is_name name /\ plain name;
  folders_ok : Forall (fun c => is_name c /\ plain c) folders;
}.
Lemma path_parts_ok path name folders : path_parts path = Some (name, folders) -> parts_ok name folders.
Proof.
  unfold path_parts. destruct (relative_components path) as [cs|] eqn:E; [|done]. simpl.
  apply relative_components_ok in E as [Hn F]. unfold split_last.
  destruct cs as [|c cs _] using rev_ind; [done|]. rewrite last_snoc. simpl. intros [= -> <-].
  rewrite removelast_last. apply list.Forall_app in F as [F F1]. inversion F1 as [|? ? [H1 H2] _]; subst.
  split; [by apply component_name|]. eapply list.Forall_impl; [exact F|]. intros c [? ?]. by apply component_name.
Qed.


Lemma no_slash_app s t : Byte.x2f ∉ as_bytes s -> Byte.x2f ∉ as_bytes t -> Byte.x2f ∉ as_bytes (s ++ t)%string.
Proof. rewrite as_bytes_app, elem_of_app. tauto. Qed.
Lemma no_slash_pretty (n : N) : Byte.x2f ∉ as_bytes (pretty n).
Proof. intros H. pose proof (pretty_digits n) as F. rewrite list.Forall_forall in F. by apply F in H. Qed.
Lemma no_slash_literal s : forallb (fun x => negb (Byte.eqb x Byte.x2f)) (as_bytes s) = true -> Byte.x2f ∉ as_bytes s.
Proof.
  rewrite forallb_forall. intros F H. apply list_elem_of_In, F in H. by rewrite (proj2 (byte_eqb_eq _ _)) in H.
Qed.
#[local] Hint Resolve no_slash_app no_slash_pretty : rivet.

Lemma part_name_ok name id : Byte.x2f ∉ as_bytes name -> is_name (part_name name id) /\ plain (part_name name id).
Proof.
  intros Hn.
  assert (2 < slen (part_name name id))%N.
  { unfold part_name. rewrite !slen_app. assert (slen PART_SUFFIX = 15%N) as -> by done. lia. }
  split; [split|by apply plain_long].
  - intros E. rewrite E in H. done.
  - unfold part_name. repeat apply no_slash_app; auto with rivet; by apply no_slash_literal.
Qed.
Lemma part_name_suffix name id : ends_with PART_SUFFIX (part_name name id) = true.
Proof.
  apply ends_with_spec. unfold part_name. rewrite !as_bytes_app. eexists.
  by rewrite !app_assoc.
Qed.

Lemma numbered_ok s (n : N) t : Byte.x2f ∉ as_bytes s -> Byte.x2f ∉ as_bytes t ->
  is_name (s ++ " (" ++ pretty n ++ ")" ++ t)%string /\ plain (s ++ " (" ++ pretty n ++ ")" ++ t)%string.
Proof.
  intros Hs Ht. set (c := (s ++ " (" ++ pretty n ++ ")" ++ t)%string).
  assert (2 < slen c)%N as L.
  { unfold c. rewrite !slen_app. assert (slen " (" = 2%N /\ slen ")" = 1%N) as [-> ->] by done. lia. }
  split; [split|by apply plain_long].
  - intros E. rewrite E in L. done.
  - unfold c. repeat apply no_slash_app; auto with rivet; by apply no_slash_literal.
Qed.
Lemma numbered_no_suffix s (n : N) : ends_with PART_SUFFIX (s ++ " (" ++ pretty n ++ ")" ++ "")%string = false.
Proof.
  destruct (ends_with _ _) eqn:E; [|done]. apply ends_with_spec in E as [r E].
  apply (f_equal last) in E. rewrite !as_bytes_app, app_nil_r in E.
  change (as_bytes PART_SUFFIX) with (as_bytes ".rivetlink-par" ++ [Byte.x74]) in E.
  change (as_bytes ")") with ([] ++ [Byte.x29]) in E.
  by rewrite !app_assoc, !last_snoc in E.
Qed.
Lemma suffix_ext stem ext : Byte.x2e ∉ as_bytes ext ->
  forall s, as_bytes s = as_bytes stem ++ Byte.x2e :: as_bytes ext ->
  ends_with PART_SUFFIX s = bool_decide (as_bytes ext = as_bytes "rivetlink-part").
Proof.
  intros He s E. apply Bool.eq_true_iff_eq. rewrite bool_decide_eq_true, ends_with_spec, E.
  change (as_bytes PART_SUFFIX) with (Byte.x2e :: as_bytes "rivetlink-part").
  split; [intros [r Er]; apply last_sep in Er as [_ ->]; [done..|]|intros ->; by eexists].
  intros H. vm_compute in H. by repeat (apply elem_of_cons in H as [H|H]; [discriminate H|]); apply elem_of_nil in H.
Qed.

Lemma candidate_ok name n : is_name name /\ plain name ->
  (is_name (candidate name n) /\ plain (candidate name n)) /\
  (ends_with PART_SUFFIX (candidate name n) = true -> ends_with PART_SUFFIX name = true).
Proof.
  intros [[Hne Hs] Hp]. unfold candidate.
  assert (forall m : N, (is_name (name ++ " (" ++ pretty m ++ ")") /\ plain (name ++ " (" ++ pretty m ++ ")")) /\
    (ends_with PART_SUFFIX (name ++ " (" ++ pretty m ++ ")") = true -> ends_with PART_SUFFIX name = true)) as Plainly.
  { intros m. pose proof (numbered_ok name m "" Hs ltac:(apply not_elem_of_nil)) as H1.
    pose proof (numbered_no_suffix name m) as H2. change (")" ++ "")%string with ")"%string in *.
    split; [exact H1|]. by rewrite H2. }
  destruct (rsplit_once Byte.x2e name) as [[stem ext]|] eqn:E.
  - apply rsplit_once_spec in E as [E Hext].
    assert (Byte.x2f ∉ as_bytes stem /\ Byte.x2f ∉ as_bytes ext) as [Hs1 Hs2].
    { rewrite E, elem_of_app, elem_of_cons in Hs. tauto. }
    destruct (slen stem =? 0)%N; destruct (N.eqb_spec n 0); try (by split; auto); [apply Plainly|].
    split; [apply (numbered_ok stem n ("." ++ ext)); [done|apply no_slash_app; [by apply no_slash_literal|done]]|].
    rewrite (suffix_ext stem ext Hext name E).
    rewrite (suffix_ext (stem ++ " (" ++ pretty n ++ ")") ext Hext); [done|].
    rewrite !as_bytes_app, <-!app_assoc. done.
  - destruct (N.eqb_spec n 0); [by split; auto|]. apply Plainly.
Qed.

(** ** Real directories *)

(** Every ancestor of [p], and [p], is a directory of its own. *)
Definition real_dir (fs : Fs) (p : Location) : Prop :=
  Forall plain p /\ forall q, q `prefix_of` p -> q <> [] -> fs !! q = Some NDir.

Lemma real_dir_nil fs : real_dir fs [].
Proof. split; [constructor|]. intros q Hq. by apply prefix_nil_inv in Hq. Qed.
Lemma real_dir_snoc fs p c : real_dir fs (p ++ [c]) <-> real_dir fs p /\ plain c /\ fs !! (p ++ [c]) = Some NDir.
Proof.
  unfold real_dir. rewrite list.Forall_app, list.Forall_singleton. split.
  - intros [[Fp Hc] H]. split; [split; [done|]|split; [done|]].
    + intros q Hq. apply H. by apply prefix_app_r.
    + apply H; [done|]. by destruct p.
  - intros ([Fp H] & Hc & E). split; [done|]. intros q Hq Hn.
    destruct (decide (q = p ++ [c])) as [->|Hne]; [done|]. apply H; [|done].
    destruct Hq as [r Er]. destruct r as [|x r _] using rev_ind.
    + rewrite app_nil_r in Er. congruence.
    + rewrite app_assoc in Er. apply app_inj_tail in Er as [-> _]. by apply prefix_app_r.
Qed.

(** Resolution of a path below a real directory stays there. *)
Lemma walk_real links fs follow p cur rest :
  Forall plain p -> (forall q, q `prefix_of` p -> q <> [] -> fs !! (cur ++ q) = Some NDir) ->
  walk links fs follow cur (p ++ rest) = walk links fs follow (cur ++ p) rest.
Proof.
  intros F H. revert cur H. induction F as [|c p [H1 H2] F IH]; intros cur H; [by rewrite app_nil_r|].
  rewrite (app_assoc cur [c] p : cur ++ c :: p = _).
  assert (fs !! (cur ++ [c]) = Some NDir) as E by (apply H; [by apply prefix_cons, prefix_nil|done]).
  destruct links; cbn [walk app]; rewrite (bool_decide_eq_false_2 _ H1), (bool_decide_eq_false_2 _ H2), E;
    apply (IH (cur ++ [c])); intros q Hq Hn; rewrite <-app_assoc; (apply H; [by apply prefix_cons|done]).
Qed.
Lemma resolve_below fs follow p c : real_dir fs p -> plain c ->
  (follow = true -> forall t, fs !! (p ++ [c]) <> Some (NSymlink t)) ->
  resolve fs follow (p ++ [c]) = Ok (p ++ [c]).
Proof.
  intros [F H] [H1 H2] Hf. unfold resolve. rewrite walk_real by done. cbn [walk app].
  rewrite (bool_decide_eq_false_2 _ H1), (bool_decide_eq_false_2 _ H2).
  destruct (fs !! (p ++ [c])) as [[| |t]|] eqn:E; try done.
  destruct follow; [|done]. by destruct (Hf eq_refl t).
Qed.

(** ** Changes confined to the folder *)

(** Strictly below the root. *)
Definition under (root l : Location) : Prop := exists r, r <> [] /\ l = root ++ r.
(** Nothing outside the folder changes, save missing ancestors of the root
    that become directories. *)
Definition confined (root : Location) (fs fs' : Fs) : Prop :=
  forall l, fs' !! l = fs !! l \/ under root l \/
            (l `prefix_of` root /\ fs !! l = None /\ fs' !! l = Some NDir).
Lemma confined_refl root fs : confined root fs fs.
Proof. intros l. by left. Qed.
Lemma confined_trans root fs1 fs2 fs3 : confined root fs1 fs2 -> confined root fs2 fs3 -> confined root fs1 fs3.
Proof.
  intros H1 H2 l. destruct (H1 l) as [E1|[U|(P & N1 & E1)]], (H2 l) as [E2|[U'|(P' & N2 & E2)]]; auto;
    try (left; congruence); right; right; split_and!; congruence.
Qed.
Lemma confined_insert root fs l n : under root l -> confined root fs (<[l := n]> fs).
Proof. intros U k. destruct (decide (k = l)) as [->|H]; [auto|]. left. by apply lookup_insert_ne. Qed.
Lemma confined_delete root fs l : under root l -> confined root fs (delete l fs).
Proof. intros U k. destruct (decide (k = l)) as [->|H]; [auto|]. left. by apply lookup_delete_ne. Qed.

(** Directories stay. *)
Definition dirs_kept (fs fs' : Fs) : Prop := forall l, fs !! l = Some NDir -> fs' !! l = Some NDir.
Lemma real_dir_kept fs fs' p : dirs_kept fs fs' -> real_dir fs p -> real_dir fs' p.
Proof. intros K [F H]. split; [done|]. auto. Qed.
Lemma dirs_kept_insert fs l n : fs !! l <> Some NDir -> dirs_kept fs (<[l := n]> fs).
Proof. intros H k E. destruct (decide (k = l)) as [->|Hk]; [done|]. by rewrite lookup_insert_ne. Qed.
Lemma dirs_kept_delete fs l : fs !! l <> Some NDir -> dirs_kept fs (delete l fs).
Proof. intros H k E. destruct (decide (k = l)) as [->|Hk]; [done|]. by rewrite lookup_delete_ne. Qed.

(** No ancestor of the root, nor the root, is a link or a file. *)
Definition plain_root (fs : Fs) (root : Location) : Prop :=
  root <> [] /\ Forall plain root /\
  forall q, q `prefix_of` root -> q <> [] -> fs !! q = None \/ fs !! q = Some NDir.

(** ** The effect of each call *)

Lemma sys_call_cases {A : Type} (d : Disk) (f : nat -> Fs) (r : Fs * Result A io.ErrorKind) :
  (exists n rest, sys_call d f r = ({| files := f n; faults := rest |}, Err io.Other)) \/
  (exists rest, sys_call d f r = ({| files := r.1; faults := rest |}, r.2)).
Proof. unfold sys_call. destruct (faults d) as [|[n|] rest]; eauto. Qed.

Lemma sys_call_ok {A : Type} (d : Disk) (f : nat -> Fs) (a : Result A io.ErrorKind) :
  faults d = [] -> sys_call d f (files d, a) = (d, a).
Proof. intros E. unfold sys_call. rewrite E. destruct d. simpl in *. by subst. Qed.
Lemma sys_call_effect {A : Type} (d : Disk) (f : nat -> Fs) (r : Fs * Result A io.ErrorKind) :
  faults d = [] -> sys_call d f r = ({| files := r.1; faults := [] |}, r.2).
Proof. intros E. unfold sys_call. by rewrite E. Qed.

(** A system call fails or has its effect. *)
Ltac sys_in E :=
  match type of E with
  | context [sys_call ?d ?f ?r] =>
      let Es := fresh in
      destruct (sys_call_cases d f r) as [(?n & ?rest & Es)|(?rest & Es)]; rewrite Es in E; clear Es
  end; cbn [fst snd files no_effect] in E.

Lemma make_node_below fs p c n : real_dir fs p -> plain c ->
  make_node fs (p ++ [c]) n =
  match fs !! (p ++ [c]) with
  | Some _ => (fs, Err io.Other)
  | None => (<[p ++ [c] := n]> fs, Ok (p ++ [c]))
  end.
Proof.
  intros R P. unfold make_node. rewrite resolve_below by done. unfold node_at.
  destruct (p ++ [c]) eqn:E; [by destruct p|done].
Qed.
Lemma metadata_below fs p c : real_dir fs p -> plain c ->
  metadata_of fs false (p ++ [c]) = ok_or (fs !! (p ++ [c])) io.NotFound.
Proof.
  intros R P. unfold metadata_of. rewrite resolve_below by done. unfold node_at.
  by destruct p.
Qed.

(** [create_dir_all] of a root that is plain. *)
Lemma create_dirs_plain fs todo done fs' r :
  real_dir fs done -> plain_root fs (done ++ todo) -> create_dirs done todo fs = (fs', r) ->
  r = Ok tt /\ real_dir fs' (done ++ todo) /\ dirs_kept fs fs' /\
  (forall l, fs' !! l = fs !! l \/ (l `prefix_of` done ++ todo /\ fs !! l = None /\ fs' !! l = Some NDir)).
Proof.
  revert fs done. induction todo as [|c todo IH]; intros fs dn R (Hne & F & H) E; cbn [create_dirs] in E.
  { simplify_eq. rewrite app_nil_r. split_and!; auto. by intros l. }
  rewrite (app_assoc dn [c] todo : dn ++ c :: todo = _) in *.
  assert (plain c) as Pc by (rewrite !list.Forall_app in F; destruct F as [[_ F'] _]; by inversion F').
  assert (fs !! (dn ++ [c]) = None \/ fs !! (dn ++ [c]) = Some NDir) as Hc
    by (apply H; [by exists todo|by destruct dn]).
  assert (metadata_of fs true (dn ++ [c]) = ok_or (fs !! (dn ++ [c])) io.NotFound) as M.
  { unfold metadata_of. rewrite resolve_below; [by destruct dn|done|done|]. intros _ t Et. destruct Hc; congruence. }
  rewrite M, make_node_below in E by done.
  destruct Hc as [Hc|Hc]; rewrite Hc in E; cbn [ok_or] in E.
  - apply IH in E as (-> & R' & K & C).
    + split_and!; [done|done|intros l El|intros l].
      * apply K. rewrite lookup_insert_ne; [done|]. congruence.
      * destruct (decide (l = dn ++ [c])) as [->|Hl].
        { right. split_and!; [by exists todo|done|]. apply K, lookup_insert_eq. }
        destruct (C l) as [El|(Pl & Nl & El)]; rewrite lookup_insert_ne in * by done; auto.
    + apply real_dir_snoc. split_and!; [|done|apply lookup_insert_eq].
      eapply real_dir_kept; [|done]. apply dirs_kept_insert. congruence.
    + split_and!; [done|done|]. intros q Hq Hn. destruct (decide (q = dn ++ [c])) as [->|Hl].
      { right. apply lookup_insert_eq. } rewrite lookup_insert_ne by done. by apply H.
  - apply IH in E as (-> & R' & K & C); [split_and!; done| |split_and!; done].
    apply real_dir_snoc. done.
Qed.

Lemma subseteq_dirs_kept (fs fs' : Fs) : fs ⊆ fs' -> dirs_kept fs fs'.
Proof. intros S l E. by eapply lookup_weaken. Qed.
Lemma real_dir_subseteq (fs fs' : Fs) p : fs ⊆ fs' -> real_dir fs p -> real_dir fs' p.
Proof. intros S. by apply real_dir_kept, subseteq_dirs_kept. Qed.

Lemma under_app root p c : under root (root ++ p ++ [c]).
Proof. exists (p ++ [c]). split; [by destruct p|done]. Qed.

Lemma ensure_root_plain root d d' r : plain_root (files d) root -> ensure_root root d = (d', r) ->
  files d ⊆ files d' /\ confined root (files d) (files d') /\ (r = Ok tt -> real_dir (files d') root).
Proof.
  intros P E. unfold ensure_root, create_dir_all in E.
  destruct (sys_call_cases d (no_effect d) (create_dirs [] root (files d))) as [(n & l & Es)|(l & Es)];
    rewrite Es in E; clear Es.
  { simplify_eq. split_and!; [done|apply confined_refl|done]. }
  destruct (create_dirs [] root (files d)) as [fs1 r1] eqn:Ec.
  apply create_dirs_plain in Ec as (-> & R & _ & C); [|apply real_dir_nil|done]. cbn [fst snd app] in *.
  assert (files d ⊆ fs1) as S.
  { apply map_subseteq_spec. intros k n Ek. destruct (C k) as [->|(_ & N & _)]; congruence. }
  assert (confined root (files d) fs1) as Co by (intros k; destruct (C k); auto).
  unfold symlink_metadata in E.
  sys_in E; [by simplify_eq|].
  repeat case_hyp E; simplify_eq; done.
Qed.

Lemma resolve_dirs_real root dir cs create d d' r :
  real_dir (files d) (root ++ dir) -> Forall (fun c => is_name c /\ plain c) cs ->
  resolve_dirs (root ++ dir) cs create d = (d', r) ->
  files d ⊆ files d' /\ confined root (files d) (files d') /\
  (create = false -> files d' = files d) /\
  (forall p, r = Ok p -> p = root ++ dir ++ cs /\ real_dir (files d') p).
Proof.
  intros R F. revert dir d R. induction F as [|c cs [Hn Hp] F IH]; intros dir d R E; cbn [resolve_dirs] in E.
  { simplify_eq. split_and!; [done|apply confined_refl|done|]. intros p [= <-]. by rewrite app_nil_r. }
  rewrite push_name in E by done. unfold symlink_metadata in E.
  sys_in E.
  { simplify_eq. split_and!; [done|apply confined_refl|done|done]. }
  rewrite metadata_below in E by done.
  assert (forall d1, files d ⊆ files d1 -> confined root (files d) (files d1) ->
    (create = false -> files d1 = files d) ->
    files d1 !! ((root ++ dir) ++ [c]) = Some NDir ->
    resolve_dirs ((root ++ dir) ++ [c]) cs create d1 = (d', r) ->
    files d ⊆ files d' /\ confined root (files d) (files d') /\ (create = false -> files d' = files d) /\
    (forall p, r = Ok p -> p = root ++ dir ++ c :: cs /\ real_dir (files d') p)) as Step.
  { intros d1 S Co K N E1. rewrite <-app_assoc in E1, N. apply IH in E1 as (S' & Co' & K' & Q).
    - split_and!; [by etrans|by eapply confined_trans|intros H; by rewrite K', K|].
      intros p Hr. destruct (Q p Hr) as [-> R']. rewrite <-!app_assoc in *. done.
    - rewrite app_assoc in N |- *. apply real_dir_snoc. split_and!; [by eapply real_dir_subseteq|done|done]. }
  destruct (files d !! ((root ++ dir) ++ [c])) as [[| |t]|] eqn:En; cbn [ok_or] in E;
    try (simplify_eq; split_and!; [done|apply confined_refl|done|done]).
  - eapply Step; [| | | |exact E]; done || apply confined_refl.
  - destruct create; [|simplify_eq; split_and!; [done|apply confined_refl|done|done]].
    unfold create_dir in E.
    sys_in E.
    { simplify_eq. split_and!; [done|apply confined_refl|done|done]. }
    rewrite make_node_below, En in E by done. cbn [fst snd] in E.
    eapply Step; [| | | |exact E]; cbn [files]; [by apply insert_subseteq| |done|apply lookup_insert_eq].
    rewrite <-app_assoc. apply confined_insert, under_app.
Qed.

(** ** The uploads in progress *)

(** An upload writes to its own part file, below real directories of the
    folder, which holds what was written. *)
Record upload_ok (fs : Fs) (root : PathBuf) (id : N) (u : Upload) : Prop := {
  up_dir : exists folders, dir u = root ++ folders;
  up_real : real_dir fs (dir u);
  up_names : is_name (up_name u) /\ plain (up_name u);
  up_suffix : ends_with PART_SUFFIX (up_name u) = false;
  up_part : part u = dir u ++ [part_name (up_name u) id];
  up_file : file u = part u;
  up_content : exists content, fs !! file u = Some (NFile content) /\ len content = written u;
  up_bounds : (written u <= expected u <= MAX_FILE_BYTES)%N;
}.
Record uploads_ok (fs : Fs) (sf : SharedFolder) : Prop := {
  ok_root : plain_root fs (root sf);
  ok_uploads : forall id u, uploads sf !! id = Some u -> upload_ok fs (root sf) id u;
  ok_distinct : forall i j u v, i <> j -> uploads sf !! i = Some u -> uploads sf !! j = Some v -> file u <> file v;
  ok_count : (N.of_nat (size (uploads sf)) <= MAX_OPEN_UPLOADS)%N;
}.

Lemma plain_root_confined root fs fs' :
  plain_root fs root -> confined root fs fs' -> plain_root fs' root.
Proof.
  intros (Hn & F & H) C. split_and!; [done|done|]. intros q Hq Hne.
  destruct (C q) as [->|[(r & Hr & ->)|(_ & _ & ->)]]; [by apply H| |by right].
  apply prefix_length in Hq. rewrite length_app in Hq. destruct r; [done|simpl in Hq; lia].
Qed.
Lemma upload_ok_kept fs fs' root id u :
  dirs_kept fs fs' -> fs' !! file u = fs !! file u -> upload_ok fs root id u -> upload_ok fs' root id u.
Proof.
  intros K E [? R ? ? ? ? (c & Hc & L) ?]. split; try done; [by eapply real_dir_kept|].
  exists c. by rewrite E.
Qed.
Lemma upload_file_part fs root id u : upload_ok fs root id u -> file u = dir u ++ [part_name (up_name u) id].
Proof. by intros [? ? ? ? E1 E2 ? ?]; rewrite E2, E1. Qed.
Lemma upload_under fs root id u name : upload_ok fs root id u -> under root (dir u ++ [name]).
Proof. intros [[folders ->] ? ? ? ? ? ? ?]. rewrite <-app_assoc. apply under_app. Qed.
(** A name without the suffix is not the part file of an upload. *)
Lemma upload_not_part fs root id u dir' name : upload_ok fs root id u ->
  ends_with PART_SUFFIX name = false -> dir' ++ [name] <> file u.
Proof.
  intros U H E. rewrite (upload_file_part _ _ _ _ U) in E. apply app_inj_tail in E as [_ ->].
  by rewrite part_name_suffix in H.
Qed.

(** The state after an operation that touched only [touched] below the root. *)
Lemma uploads_ok_step fs fs' sf sf' :
  uploads_ok fs sf -> root sf' = root sf -> confined (root sf) fs fs' -> dirs_kept fs fs' ->
  (forall id u, uploads sf' !! id = Some u -> uploads sf !! id = Some u /\ fs' !! file u = fs !! file u) ->
  (N.of_nat (size (uploads sf')) <= MAX_OPEN_UPLOADS)%N ->
  uploads_ok fs' sf'.
Proof.
  intros [P U D N] Er C K H Hn. split; rewrite ?Er.
  - by eapply plain_root_confined.
  - intros id u E. destruct (H id u E) as [E' F]. eapply upload_ok_kept; eauto.
  - intros i j u v Hij Eu Ev. eapply D; [done|by apply H|by apply H].
  - done.
Qed.
Lemma uploads_shrink (sf : SharedFolder) id : (N.of_nat (size (uploads sf)) <= MAX_OPEN_UPLOADS)%N ->
  (N.of_nat (size (delete id (uploads sf))) <= MAX_OPEN_UPLOADS)%N.
Proof.
  intros H. destruct (uploads sf !! id) as [u|] eqn:E.
  - rewrite map_size_delete_Some by eauto. lia.
  - by rewrite delete_id.
Qed.

(** What every operation keeps. *)
Record kept (sf sf' : SharedFolder) (fs fs' : Fs) : Prop := {
  kept_root : root sf' = root sf;
  kept_confined : confined (root sf) fs fs';
  kept_dirs : dirs_kept fs fs';
  kept_ok : uploads_ok fs' sf';
}.

Lemma remove_part fs root id u d d' r : upload_ok fs root id u -> files d = fs ->
  remove_file (part u) d = (d', r) ->
  confined root fs (files d') /\ dirs_kept fs (files d') /\
  (forall l, l <> file u -> files d' !! l = fs !! l) /\ (faults d = [] -> files d' = delete (file u) fs).
Proof.
  intros U <- E. unfold remove_file in E. pose proof U as [_ R [Hn Hp] _ Ep Ef (c & Hc & _) _].
  assert (remove_in (files d) (part u) = (delete (file u) (files d), Ok tt)) as Er.
  { unfold remove_in. rewrite Ef, Ep in *. rewrite resolve_below; [|done| |done].
    - unfold node_at. destruct (dir u ++ _) eqn:El; [by destruct (dir u)|]. by rewrite Hc.
    - apply part_name_ok. by destruct Hn. }
  rewrite Er in E. destruct (faults d) eqn:Ed.
  - unfold sys_call in E. rewrite Ed in E. simplify_eq. cbn [files fst].
    split_and!; [|apply dirs_kept_delete; congruence|intros l Hl; by apply lookup_delete_ne|done].
    apply confined_delete. rewrite Ef, Ep. by eapply upload_under.
  - sys_in E; simplify_eq; cbn [files fst].
    + split_and!; [apply confined_refl|by intros k|done|done].
    + split_and!; [|apply dirs_kept_delete; congruence|intros k Hl; by apply lookup_delete_ne|done].
      apply confined_delete. rewrite Ef, Ep. by eapply upload_under.
Qed.

Lemma abort_kept id sf d sf' d' : uploads_ok (files d) sf -> abort_upload id sf d = (sf', d') ->
  kept sf sf' (files d) (files d') /\ uploads sf' = delete id (uploads sf).
Proof.
  intros I E. unfold abort_upload in E. destruct (uploads sf !! id) as [u|] eqn:Eu.
  - destruct (remove_file (part u) d) as [d1 r1] eqn:Er. simplify_eq. cbn [fst].
    destruct (remove_part _ _ _ _ _ _ _ (ok_uploads _ _ I _ _ Eu) eq_refl Er) as (C & K & F & _).
    split; [|done]. split; [done|done|done|]. eapply uploads_ok_step; [exact I|done|done|done| |].
    + intros i v Hv. cbn [uploads] in Hv. apply lookup_delete_Some in Hv as [Hi Hv]. split; [done|].
      apply F. apply (ok_distinct _ _ I i id); congruence.
    + apply uploads_shrink, I.
  - simplify_eq. split; [split; [done|apply confined_refl|by intros k|done]|]. by rewrite delete_id.
Qed.

(** Appending to the part file of an upload. *)
Lemma append_part fs root id u data : upload_ok fs root id u ->
  confined root fs (append_at fs (file u) data) /\ dirs_kept fs (append_at fs (file u) data) /\
  (forall l, l <> file u -> append_at fs (file u) data !! l = fs !! l) /\
  (exists content, fs !! file u = Some (NFile content) /\ len content = written u /\
     append_at fs (file u) data !! file u = Some (NFile (content ++ data))).
Proof.
  intros U. pose proof U as [_ _ _ _ Ep Ef (c & Hc & L) _]. unfold append_at. rewrite Hc.
  split_and!; [|apply dirs_kept_insert; congruence|intros k Hk; by apply lookup_insert_ne|].
  - apply confined_insert. rewrite Ef, Ep. by eapply upload_under.
  - exists c. by rewrite lookup_insert_eq.
Qed.

(** Changing only the part file of an upload keeps all the others. *)
Lemma uploads_ok_without fs fs' sf id u : uploads_ok fs sf -> uploads sf !! id = Some u ->
  confined (root sf) fs fs' -> dirs_kept fs fs' -> (forall l, l <> file u -> fs' !! l = fs !! l) ->
  uploads_ok fs' {| root := root sf; uploads := delete id (uploads sf) |}.
Proof.
  intros I Eu C K F. eapply uploads_ok_step; [exact I|done|done|done| |apply uploads_shrink, I].
  intros i v Hv. cbn [uploads] in Hv. apply lookup_delete_Some in Hv as [Hi Hv]. split; [done|].
  apply F. apply (ok_distinct _ _ I i id); congruence.
Qed.

(** The upload of the current state, with more written. *)
Definition with_written (n : N) (u : Upload) : Upload :=
  {| dir := dir u; up_name := up_name u; part := part u; file := file u; expected := expected u; written := n |}.
Lemma written_ok fs sf id u data : uploads_ok fs sf -> uploads sf !! id = Some u ->
  (written u + len data <= expected u)%N ->
  uploads_ok (append_at fs (file u) data)
    {| root := root sf; uploads := <[id := with_written (written u + len data) u]> (uploads sf) |}.
Proof.
  intros I Eu Hb. pose proof (ok_uploads _ _ I _ _ Eu) as U.
  destruct (append_part _ _ _ _ data U) as (C & K & F & c & _ & L & Ec).
  pose proof (uploads_ok_without _ _ _ _ _ I Eu C K F) as [P' U' D' _].
  split; [done| | |].
  - intros i v Hv. cbn [uploads root] in *. apply lookup_insert_Some in Hv as [[<- <-]|[Hi Hv]].
    + destruct U as [? R ? ? ? ? _ [_ Hm]]. split; try done; [by eapply real_dir_kept|].
      exists (c ++ data). split; [done|]. simpl. unfold len in *. rewrite length_app. lia.
    + by apply U', lookup_delete_Some.
  - intros i j v w Hij Hv Hw. cbn [uploads] in *.
    apply lookup_insert_Some in Hv as [[<- <-]|[Hi Hv]]; apply lookup_insert_Some in Hw as [[<- <-]|[Hj Hw]];
      [done|exact (ok_distinct _ _ I id j u w Hij Eu Hw)|
       exact (ok_distinct _ _ I i id v u Hij Hv Eu)|exact (ok_distinct _ _ I i j v w Hij Hv Hw)].
  - cbn [uploads]. rewrite map_size_insert_Some by eauto. apply I.
Qed.

Lemma write_chunk_kept id data sf d sf' d' r : uploads_ok (files d) sf ->
  write_chunk id data sf d = (sf', d', r) -> kept sf sf' (files d) (files d').
Proof.
  intros I E. unfold write_chunk in E. destruct (uploads sf !! id) as [u|] eqn:Eu.
  2:{ simplify_eq. split; [done|apply confined_refl|by intros k|done]. }
  pose proof (ok_uploads _ _ I _ _ Eu) as U.
  destruct ((FILE_CHUNK_BYTES <? len data)%N || (expected u <? written u + len data)%N) eqn:Eb.
  { destruct (abort_upload id sf d) as [sf1 d1] eqn:Ea. simplify_eq. by eapply abort_kept. }
  apply orb_false_iff in Eb as [_ Eb%N.ltb_ge]. unfold write_all in E. sys_in E.
  - destruct (append_part _ _ _ _ (take n data) U) as (C & K & F & c & _ & L & Ec).
    unfold abort_upload in E. rewrite Eu in E.
    destruct (remove_file (part u) _) as [d1 r1] eqn:Er. simplify_eq. cbn [fst].
    assert (upload_ok (append_at (files d) (file u) (take n data)) (root sf) id
      (with_written (written u + len (take n data)) u)) as U1.
    { assert (written u + len (take n data) <= expected u)%N as Hb
        by (unfold len in *; rewrite length_take; lia).
      apply (ok_uploads _ _ (written_ok _ _ _ _ _ I Eu Hb)). apply lookup_insert_eq. }
    destruct (remove_part _ _ _ _ {| files := append_at (files d) (file u) (take n data); faults := rest |} _ _
      U1 eq_refl Er) as (C' & K' & F' & _). cbn [file with_written] in F'.
    assert (confined (root sf) (files d) (files d1)) as C2 by by eapply confined_trans.
    assert (dirs_kept (files d) (files d1)) as K2 by by intros k Hk; apply K', K.
    split; [done|done|done|]. eapply uploads_ok_without; [exact I|done|done|done|].
    intros k Hk. by rewrite F', F.
  - destruct (append_part _ _ _ _ data U) as (C & K & F & _).
    simplify_eq. cbn [files]. split; [done|done|done|]. by apply written_ok.
Qed.

Lemma first_unused_spec fuel n dir name d d' r : first_unused fuel n dir name d = (d', r) ->
  files d' = files d /\
  (forall c, r = Some c -> exists m, (n <= m < n + N.of_nat fuel)%N /\ c = candidate name m /\
     (faults d = [] -> is_ok (metadata_of (files d) false (push dir c)) = false /\
        forall k, (n <= k < m)%N -> is_ok (metadata_of (files d) false (push dir (candidate name k))) = true)) /\
  (faults d = [] -> faults d' = []).
Proof.
  revert n d. induction fuel as [|fuel IH]; intros n d E; cbn [first_unused] in E; [by simplify_eq|].
  unfold symlink_metadata in E.
  assert (faults d = [] -> sys_call d (no_effect d) (files d, metadata_of (files d) false (push dir (candidate name n)))
    = (d, metadata_of (files d) false (push dir (candidate name n)))) as Q.
  { intros Hd. unfold sys_call. rewrite Hd. destruct d. simpl in *. by subst. }
  destruct (sys_call d _ _) as [d1 r1] eqn:Es.
  assert (files d1 = files d) as F1.
  { destruct (sys_call_cases d (no_effect d) (files d, metadata_of (files d) false (push dir (candidate name n))))
      as [(? & ? & Eq)|(? & Eq)]; rewrite Eq in Es; by simplify_eq. }
  destruct (is_ok r1) eqn:Er.
  - apply IH in E as (F & C & Nf). rewrite F1 in *. split; [done|]. split.
    + intros c Hc. destruct (C c Hc) as (m & Hm & -> & H). exists m. split; [lia|]. split; [done|].
      intros Hd. specialize (Q Hd). simplify_eq. destruct (H Hd) as [H1 H2]. split; [done|].
      intros k Hk. destruct (N.eq_dec k n) as [->|]; [done|]. apply H2. lia.
    + intros Hd. specialize (Q Hd). simplify_eq. auto.
  - simplify_eq. split; [done|]. split.
    + intros c [= <-]. exists n. split; [lia|]. split; [done|]. intros Hd. specialize (Q Hd). simplify_eq.
      split; [done|]. intros k Hk. lia.
    + intros Hd. specialize (Q Hd). by simplify_eq.
Qed.

Lemma first_unused_none fuel n dir name d d' : faults d = [] -> first_unused fuel n dir name d = (d', None) ->
  forall k, (n <= k < n + N.of_nat fuel)%N -> is_ok (metadata_of (files d) false (push dir (candidate name k))) = true.
Proof.
  intros Hd. revert n. induction fuel as [|fuel IH]; intros n E k Hk; cbn [first_unused] in E; [lia|].
  unfold symlink_metadata in E. rewrite sys_call_ok in E by done.
  destruct (is_ok (metadata_of _ _ _)) eqn:Er; [|done].
  destruct (N.eq_dec k n) as [->|]; [done|]. apply (IH (n + 1)%N E). lia.
Qed.

(** A move of a part file to another name of its directory. *)
Lemma rename_part fs root id u name : upload_ok fs root id u -> is_name name -> plain name ->
  ends_with PART_SUFFIX name = false ->
  (exists content, fs !! file u = Some (NFile content) /\ len content = written u /\
     fs !! (dir u ++ [name]) <> Some NDir /\
     rename_in fs (part u) (push (dir u) name) =
     (<[dir u ++ [name] := NFile content]> (delete (file u) fs), Ok tt)) \/
  (fs !! (dir u ++ [name]) = Some NDir /\ rename_in fs (part u) (push (dir u) name) = (fs, Err io.Other)).
Proof.
  intros U Hn Hp Hs. pose proof U as [_ R [[Hn' Hs'] Hp'] _ Ep Ef (c & Hc & L) _].
  rewrite push_name by done. unfold rename_in. rewrite Ef, Ep in *.
  assert (plain (part_name (up_name u) id)) as Pp by by apply part_name_ok.
  rewrite !resolve_below by done. unfold node_at.
  destruct (dir u ++ [part_name (up_name u) id]) as [|x l] eqn:E1; [by destruct (dir u)|].
  destruct (dir u ++ [name]) as [|y l'] eqn:E2; [by destruct (dir u)|]. rewrite Hc.
  destruct (fs !! (y :: l')) as [[| |]|] eqn:En; [left|right|left|left]; try done; by exists c.
Qed.

Lemma finish_upload_kept id sf d sf' d' r : uploads_ok (files d) sf ->
  finish_upload id sf d = (sf', d', r) -> kept sf sf' (files d) (files d').
Proof.
  intros I E. unfold finish_upload in E. destruct (uploads sf !! id) as [u|] eqn:Eu.
  2:{ simplify_eq. split; [done|apply confined_refl|by intros k|done]. }
  pose proof (ok_uploads _ _ I _ _ Eu) as U.
  set (sf1 := {| root := root sf; uploads := delete id (uploads sf) |}) in *.
  assert (forall d1 : Disk, confined (root sf) (files d) (files d1) -> dirs_kept (files d) (files d1) ->
    (forall i v, i <> id -> uploads sf !! i = Some v -> files d1 !! file v = files d !! file v) ->
    kept sf sf1 (files d) (files d1)) as Done.
  { intros d1 C K F. split; [done|done|done|]. eapply uploads_ok_step; [exact I|done|done|done| |apply uploads_shrink, I].
    intros i v Hv. unfold sf1 in Hv. cbn [uploads] in Hv. apply lookup_delete_Some in Hv as [Hi Hv].
    split; [done|]. by apply (F i). }
  assert (forall d1 : Disk, files d1 = files d -> kept sf sf1 (files d) (files d1)) as Same.
  { intros d1 E1. rewrite E1. rewrite <-E1 at 2. apply Done; rewrite E1; [apply confined_refl|by intros k|done]. }
  destruct (written u =? expected u)%N; cbn [negb] in E.
  2:{ destruct (remove_file (part u) d) as [d1 r1] eqn:Er. simplify_eq. cbn [fst].
      destruct (remove_part _ _ _ _ _ _ _ U eq_refl Er) as (C & K & F & _).
      apply Done; [done|done|]. intros i v Hi Hv. apply F. apply (ok_distinct _ _ I i id); done. }
  unfold sync_all in E. sys_in E; [simplify_eq; by apply Same|].
  destruct (unused_name (dir u) (up_name u) _) as [d1 [c|]] eqn:En;
    apply first_unused_spec in En as (F1 & C1 & _); cbn [files] in *; [|simplify_eq; by apply Same].
  destruct (C1 c eq_refl) as (m & _ & -> & _).
  destruct (candidate_ok (up_name u) m (up_names _ _ _ _ U)) as ([Hn Hp] & Hs).
  assert (ends_with PART_SUFFIX (candidate (up_name u) m) = false) as Hsuf.
  { destruct (ends_with _ (candidate _ _)); [|done]. pose proof (up_suffix _ _ _ _ U). rewrite Hs in *; done. }
  unfold rename in E. sys_in E; [simplify_eq; by apply Same|]. rewrite F1 in E.
  destruct (rename_part _ _ _ _ _ U Hn Hp Hsuf) as [(content & _ & _ & Hd & Er)|(_ & Er)]; rewrite Er in E;
    cbn [fst snd] in E; [|simplify_eq; by apply Same].
  assert (kept sf sf1 (files d)
    (files {| files := <[dir u ++ [candidate (up_name u) m] := NFile content]> (delete (file u) (files d));
              faults := rest0 |})) as Kept; [|by destruct (bool_decide _); simplify_eq].
  pose proof (up_content _ _ _ _ U) as (c & Hc & _).
  apply Done; cbn [files].
  - eapply confined_trans; [apply confined_delete|apply confined_insert; by eapply upload_under].
    rewrite (upload_file_part _ _ _ _ U). by eapply upload_under.
  - intros k Hk. assert (k <> file u) by congruence.
    assert (k <> dir u ++ [candidate (up_name u) m]) by congruence.
    by rewrite lookup_insert_ne, lookup_delete_ne.
  - intros i v Hi Hv. rewrite lookup_insert_ne by (eapply upload_not_part; [by apply (ok_uploads _ _ I)|done]).
    apply lookup_delete_ne. apply (ok_distinct _ _ I id i); congruence.
Qed.

Lemma grown_kept sf fs fs' : uploads_ok fs sf -> fs ⊆ fs' -> confined (root sf) fs fs' -> kept sf sf fs fs'.
Proof.
  intros I S C. split; [done|done|by apply subseteq_dirs_kept|].
  eapply uploads_ok_step; [exact I|done|done|by apply subseteq_dirs_kept| |apply I].
  intros i v Hv. split; [done|]. destruct (up_content _ _ _ _ (ok_uploads _ _ I _ _ Hv)) as (c & Hc' & _).
  rewrite Hc'. by eapply lookup_weaken.
Qed.

(** A new part file joins the uploads. *)
Lemma new_upload_ok fs sf id dir folders name bound :
  uploads_ok fs sf -> real_dir fs dir -> dir = root sf ++ folders -> is_name name /\ plain name ->
  ends_with PART_SUFFIX name = false -> fs !! (dir ++ [part_name name id]) = None ->
  uploads sf !! id = None -> (N.of_nat (size (uploads sf)) < MAX_OPEN_UPLOADS)%N -> (bound <= MAX_FILE_BYTES)%N ->
  uploads_ok (<[dir ++ [part_name name id] := NFile []]> fs)
    {| root := root sf;
       uploads := <[id := {| dir := dir; up_name := name; part := dir ++ [part_name name id];
                             file := dir ++ [part_name name id]; expected := bound; written := 0 |}]> (uploads sf) |}.
Proof.
  intros I R Ed Hname Hs En Ei Hc Hb.
  assert (confined (root sf) fs (<[dir ++ [part_name name id] := NFile []]> fs)) as C.
  { apply confined_insert. rewrite Ed, <-app_assoc. apply under_app. }
  assert (dirs_kept fs (<[dir ++ [part_name name id] := NFile []]> fs)) as K by by apply dirs_kept_insert; rewrite En.
  assert (forall i v, uploads sf !! i = Some v -> dir ++ [part_name name id] <> file v) as Fresh.
  { intros i v Hv E. destruct (up_content _ _ _ _ (ok_uploads _ _ I _ _ Hv)) as (c & Hc' & _). congruence. }
  split; cbn [root uploads].
  - by eapply plain_root_confined; [apply I|].
  - intros i v Hv. apply lookup_insert_Some in Hv as [[<- <-]|[Hi Hv]].
    + split; cbn; try done; [by exists folders|by eapply real_dir_kept| |lia].
      exists []. by rewrite lookup_insert_eq.
    + eapply upload_ok_kept; [done| |by apply (ok_uploads _ _ I)]. apply lookup_insert_ne. by eapply Fresh.
  - intros i j v w Hij Hv Hw.
    apply lookup_insert_Some in Hv as [[<- <-]|[Hi Hv]]; apply lookup_insert_Some in Hw as [[<- <-]|[Hj Hw]];
      cbn [file]; [done|by eapply Fresh| |exact (ok_distinct _ _ I i j v w Hij Hv Hw)].
    intros E. by eapply Fresh.
  - rewrite map_size_insert_None by done. lia.
Qed.

Lemma start_upload_kept id path bound sf d sf' d' r : uploads_ok (files d) sf ->
  start_upload id path bound sf d = (sf', d', r) -> kept sf sf' (files d) (files d').
Proof.
  intros I E. unfold start_upload in E.
  assert (kept sf sf (files d) (files d)) as Refl by (split; [done|apply confined_refl|by intros k|done]).
  destruct (path_parts path) as [[name folders]|] eqn:Ep; [|by simplify_eq].
  apply path_parts_ok in Ep as [Hname Hfolders].
  destruct (_ || _) eqn:Eb; [by simplify_eq|].
  rewrite !orb_false_iff, bool_decide_eq_false, N.ltb_ge, N.leb_gt in Eb. destruct Eb as [[[Hb Hs] Hi] Hc].
  assert (forall d1 : Disk, files d ⊆ files d1 -> confined (root sf) (files d) (files d1) ->
    kept sf sf (files d) (files d1)) as Grown.
  { intros d1 S C. by apply grown_kept. }
  destruct (ensure_root (root sf) d) as [d1 r1] eqn:Er. apply ensure_root_plain in Er as (S1 & C1 & R1); [|apply I].
  destruct r1 as [[]|e]; [|simplify_eq; by apply Grown]. specialize (R1 eq_refl).
  destruct (resolve_dirs (root sf) folders true d1) as [d2 r2] eqn:Ed.
  rewrite <-(app_nil_r (root sf)) in Ed. apply resolve_dirs_real in Ed as (S2 & C2 & _ & Q); [|by rewrite app_nil_r|done].
  assert (files d ⊆ files d2) as S by by etrans. assert (confined (root sf) (files d) (files d2)) as C by by eapply confined_trans.
  destruct r2 as [p|e]; [|simplify_eq; by apply Grown]. destruct (Q p eq_refl) as [-> R2]. cbn [app] in *.
  destruct Hname as [Hn Hp]. destruct (part_name_ok name id (proj2 Hn)) as [Pn Pp].
  rewrite push_name in E by done. unfold open_new in E. sys_in E; [simplify_eq; by apply Grown|].
  rewrite make_node_below in E by done.
  destruct (files d2 !! _) eqn:En; cbn [fst snd] in E; [simplify_eq; by apply Grown|].
  simplify_eq. cbn [files]. destruct (Grown d2 S C) as [_ _ K I2].
  split; [done| | |].
  - eapply confined_trans; [exact C|]. apply confined_insert. rewrite <-app_assoc. apply under_app.
  - intros k Hk. apply dirs_kept_insert; [congruence|by apply K].
  - eapply new_upload_ok; eauto. destruct (uploads sf !! id) eqn:Eu; [destruct Hi; eauto|done].
Qed.

(** ** Histories of requests *)

Inductive ShareOp :=
| StartUpload (id : N) (path : string) (bound : N)
| WriteChunk (id : N) (data : bytes)
| FinishUpload (id : N)
| AbortUpload (id : N)
| ReadChunk (path : string) (offset : N)
| ListShared (order : list (string * Node) -> list (string * Node))
| DropFolder.
Definition share_step (s : SharedFolder * Disk) (op : ShareOp) : SharedFolder * Disk :=
  let '(sf, d) := s in
  match op with
  | StartUpload id path bound => (start_upload id path bound sf d).1
  | WriteChunk id data => (write_chunk id data sf d).1
  | FinishUpload id => (finish_upload id sf d).1
  | AbortUpload id => abort_upload id sf d
  | ReadChunk path offset => (sf, (read_chunk path offset sf d).1)
  | ListShared order => (sf, from_option fst d (list_shared order (N.to_nat 5001) sf d))
  | DropFolder => drop_folder sf d
  end.

Lemma sys_call_no_effect {A : Type} (d d' : Disk) (a r : Result A io.ErrorKind) :
  sys_call d (no_effect d) (files d, a) = (d', r) -> files d' = files d.
Proof. intros E. sys_in E; by simplify_eq. Qed.
Lemma resolve_dirs_reads dir cs d d' r : resolve_dirs dir cs false d = (d', r) -> files d' = files d.
Proof.
  revert dir d. induction cs as [|c cs IH]; intros dir d E; cbn [resolve_dirs] in E; [by simplify_eq|].
  destruct (symlink_metadata (push dir c) d) as [d1 r1] eqn:Es. apply sys_call_no_effect in Es.
  repeat case_hyp E; simplify_eq; try done. apply IH in E. congruence.
Qed.
Lemma read_chunk_files path offset sf d d' r : read_chunk path offset sf d = (d', r) -> files d' = files d.
Proof.
  intros E. unfold read_chunk in E. destruct (path_parts path) as [[name folders]|]; [|by simplify_eq].
  destruct (resolve_dirs _ _ _ _) as [d1 [p|e]] eqn:Ed; apply resolve_dirs_reads in Ed; [|by simplify_eq].
  destruct (symlink_metadata _ d1) as [d2 r2] eqn:Es. apply sys_call_no_effect in Es.
  destruct r2 as [[content| |]|]; try (simplify_eq; congruence).
  destruct (ends_with _ _); [simplify_eq; congruence|]. destruct (_ || _); [simplify_eq; congruence|].
  destruct (read_at _ _ _ d2) as [d3 [data|]] eqn:Er; apply sys_call_no_effect in Er; simplify_eq; congruence.
Qed.

Lemma kept_trans sf1 sf2 sf3 fs1 fs2 fs3 : kept sf1 sf2 fs1 fs2 -> kept sf2 sf3 fs2 fs3 -> kept sf1 sf3 fs1 fs3.
Proof.
  intros [E1 C1 K1 _] [E2 C2 K2 I2]. rewrite E1 in C2. split; [congruence| | |done].
  - by eapply confined_trans.
  - intros k Hk. by apply K2, K1.
Qed.
Lemma resolve_dirs_faultless dir cs create d d' r :
  faults d = [] -> resolve_dirs dir cs create d = (d', r) -> faults d' = [].
Proof.
  revert dir d. induction cs as [|c cs IH]; intros dir d Hd E; cbn [resolve_dirs] in E; [by simplify_eq|].
  unfold symlink_metadata, create_dir in E. rewrite sys_call_ok in E by done.
  destruct (metadata_of _ _ _) as [[]|[]]; simplify_eq; try done; [by eapply IH|].
  destruct create; [|by simplify_eq]. rewrite sys_call_effect in E by done.
  destruct (make_node _ _ _) as [fs1 [l|e]]; cbn [fst snd] in E; [|by simplify_eq]. by eapply IH, E.
Qed.
Lemma ensure_root_faultless root d d' r : faults d = [] -> ensure_root root d = (d', r) -> faults d' = [].
Proof.
  intros Hd E. unfold ensure_root, create_dir_all, symlink_metadata in E. rewrite sys_call_effect in E by done.
  destruct (create_dirs _ _ _) as [fs1 [[]|e]]; cbn [fst snd] in E; [|by simplify_eq].
  rewrite sys_call_effect in E by done. cbn [fst snd files] in E.
  destruct (metadata_of _ _ _) as [[]|]; by simplify_eq.
Qed.

(** *** The listing and the end of the folder *)

Lemma list_dir_files es dir prefix depth entries pending d d' r :
  list_dir es dir prefix depth entries pending d = (d', r) -> files d' = files d /\ (faults d = [] -> faults d' = []).
Proof.
  revert entries pending d. induction es as [|[name node] es IH]; intros entries pending d E; cbn [list_dir] in E; [by simplify_eq|].
  destruct (ends_with _ _); [by eapply IH|]. destruct (entry_metadata node d) as [d1 r1] eqn:Es.
  assert (files d1 = files d /\ (faults d = [] -> faults d1 = [])) as [F1 Q1].
  { split; [by eapply sys_call_no_effect|]. intros Hd. unfold entry_metadata in Es. rewrite sys_call_ok in Es by done. by simplify_eq. }
  destruct r1 as [nd|]; [|by simplify_eq].
  match type of E with (let '(_, _) := ?p in _) = _ => destruct p as [entries1 pending1] end.
  destruct (_ <=? _)%N; [by simplify_eq|]. apply IH in E as [F Q]. rewrite F, F1. split; [done|]. auto.
Qed.
Lemma list_loop_files order fuel entries pending d d' r :
  list_loop order fuel entries pending d = Some (d', r) -> files d' = files d /\ (faults d = [] -> faults d' = []).
Proof.
  revert entries pending d. induction fuel as [|fuel IH]; intros entries pending d E; cbn [list_loop] in E.
  { destruct pending as [|[[? ?] ?] ?]; [by simplify_eq|done]. }
  destruct pending as [|[[dir prefix] depth] pending]; [by simplify_eq|].
  destruct (read_dir order dir d) as [d1 r1] eqn:Es.
  assert (files d1 = files d /\ (faults d = [] -> faults d1 = [])) as [F1 Q1].
  { split; [by eapply sys_call_no_effect|]. intros Hd. unfold read_dir in Es. rewrite sys_call_ok in Es by done. by simplify_eq. }
  destruct r1 as [es|]; [|by simplify_eq].
  destruct (list_dir _ _ _ _ _ _ d1) as [d2 r2] eqn:El. apply list_dir_files in El as [F2 Q2]. rewrite F1 in F2.
  destruct r2 as [[[entries1 pending1] []]|]; simplify_eq; auto.
  apply IH in E as [F Q]. rewrite F. auto.
Qed.
(** A listing adds at most the folder itself. *)
Lemma list_shared_kept order fuel sf d d' r : uploads_ok (files d) sf -> list_shared order fuel sf d = Some (d', r) ->
  files d ⊆ files d' /\ kept sf sf (files d) (files d') /\ (faults d = [] -> faults d' = []).
Proof.
  intros I E. unfold list_shared in E. destruct (ensure_root (root sf) d) as [d1 r1] eqn:Er.
  assert (faults d = [] -> faults d1 = []) as Q1 by (intros Hd; by eapply ensure_root_faultless).
  apply ensure_root_plain in Er as (S & C & _); [|apply I].
  assert (kept sf sf (files d) (files d1)) as K by by apply grown_kept.
  assert (files d' = files d1 /\ (faults d1 = [] -> faults d' = [])) as [F Q].
  { destruct r1; [|by simplify_eq]. destruct (list_loop _ _ _ _ d1) as [[d2 r2]|] eqn:El; [|done].
    apply list_loop_files in El. destruct r2; by simplify_eq. }
  rewrite F. split_and!; auto.
Qed.
Lemma drop_kept ids sf d : uploads_ok (files d) sf ->
  let s := foldl (fun '(sf, d) id => abort_upload id sf d) (sf, d) ids in kept sf s.1 (files d) (files s.2).
Proof.
  revert sf d. induction ids as [|id ids IH]; intros sf d I; cbn [foldl].
  - split; [done|apply confined_refl|by intros k|done].
  - destruct (abort_upload id sf d) as [sf1 d1] eqn:E. apply abort_kept in E as [K _]; [|done].
    eapply kept_trans; [exact K|]. by apply IH, K.
Qed.

Lemma share_step_kept op sf d : uploads_ok (files d) sf ->
  kept sf (share_step (sf, d) op).1 (files d) (files (share_step (sf, d) op).2).
Proof.
  intros I. assert (kept sf sf (files d) (files d)) as Refl by (split; [done|apply confined_refl|by intros k|done]).
  destruct op as [id path bound|id data|id|id|path offset|order|]; cbn [share_step].
  - destruct (start_upload id path bound sf d) as [[sf' d'] r] eqn:E. by eapply start_upload_kept.
  - destruct (write_chunk id data sf d) as [[sf' d'] r] eqn:E. by eapply write_chunk_kept.
  - destruct (finish_upload id sf d) as [[sf' d'] r] eqn:E. by eapply finish_upload_kept.
  - destruct (abort_upload id sf d) as [sf' d'] eqn:E. by eapply abort_kept.
  - destruct (read_chunk path offset sf d) as [d' r] eqn:E. apply read_chunk_files in E.
    cbn [fst snd]. by rewrite E.
  - destruct (list_shared _ _ sf d) as [[d' r]|] eqn:E; [|done]. by eapply list_shared_kept.
  - by apply drop_kept.
Qed.
Lemma share_steps_kept ops sf d : uploads_ok (files d) sf ->
  let s := foldl share_step (sf, d) ops in kept sf s.1 (files d) (files s.2).
Proof.
  revert sf d. induction ops as [|op ops IH]; intros sf d I; cbn [foldl].
  - split; [done|apply confined_refl|by intros k|done].
  - pose proof (share_step_kept op sf d I) as K. destruct (share_step (sf, d) op) as [sf1 d1].
    eapply kept_trans; [exact K|]. by apply IH, K.
Qed.

(** *** What was there stays *)

(** A node that is not the part file of an open upload. *)
Definition not_a_part (sf : SharedFolder) (l : Location) : Prop :=
  forall id u, uploads sf !! id = Some u -> file u <> l.
(** Every such node stays as it is, and no upload takes it. *)
Definition others_stay (sf sf' : SharedFolder) (fs fs' : Fs) : Prop :=
  forall l n, fs !! l = Some n -> not_a_part sf l -> fs' !! l = Some n /\ not_a_part sf' l.
Lemma others_stay_touch (sf sf' : SharedFolder) (fs fs' : Fs) :
  (forall l, fs !! l <> None -> not_a_part sf l -> fs' !! l = fs !! l) ->
  (forall id u, uploads sf' !! id = Some u -> fs !! file u = None \/ exists v, uploads sf !! id = Some v /\ file v = file u) ->
  others_stay sf sf' fs fs'.
Proof.
  intros H1 H2 l n E N. split; [rewrite H1; [done|congruence|done]|]. intros id u Hu Hl.
  destruct (H2 id u Hu) as [Hn|(v & Hv & Ev)]; [congruence|]. apply (N id v Hv). congruence.
Qed.
Lemma others_stay_grow sf fs fs' : fs ⊆ fs' -> others_stay sf sf fs fs'.
Proof. intros S l n E N. split; [by eapply lookup_weaken|done]. Qed.
Lemma others_stay_trans sf1 sf2 sf3 fs1 fs2 fs3 :
  others_stay sf1 sf2 fs1 fs2 -> others_stay sf2 sf3 fs2 fs3 -> others_stay sf1 sf3 fs1 fs3.
Proof. intros H1 H2 l n E N. destruct (H1 l n E N). by apply H2. Qed.

Lemma abort_stays id sf d : uploads_ok (files d) sf -> faults d = [] ->
  let s := abort_upload id sf d in
  others_stay sf s.1 (files d) (files s.2) /\ faults s.2 = [] /\
  (forall u, uploads sf !! id = Some u -> files s.2 !! file u = None) /\
  (forall l, files d !! l = None -> files s.2 !! l = None).
Proof.
  intros I Hd. unfold abort_upload. destruct (uploads sf !! id) as [u|] eqn:Eu.
  2:{ split_and!; [by apply others_stay_grow|done|done|done]. }
  cbn [fst snd]. destruct (remove_file (part u) d) as [d1 r1] eqn:Er.
  destruct (remove_part _ _ _ _ _ _ _ (ok_uploads _ _ I _ _ Eu) eq_refl Er) as (_ & _ & F & Q). specialize (Q Hd).
  cbn [fst]. split_and!.
  - apply others_stay_touch; [intros l _ N; apply F; by intros ->; eapply N|].
    intros i v Hv. cbn [uploads] in Hv. apply lookup_delete_Some in Hv as [_ Hv]. right. by exists v.
  - unfold remove_file in Er. rewrite sys_call_effect in Er by done. by simplify_eq.
  - intros v [= <-]. rewrite Q. apply lookup_delete_eq.
  - intros l Hl. rewrite Q. by apply lookup_delete_None; right.
Qed.
Lemma drop_stays ids sf d : uploads_ok (files d) sf -> faults d = [] ->
  let s := foldl (fun '(sf, d) id => abort_upload id sf d) (sf, d) ids in
  others_stay sf s.1 (files d) (files s.2) /\ faults s.2 = [] /\
  (forall id u, id ∈ ids -> uploads sf !! id = Some u -> files s.2 !! file u = None) /\
  (forall l, files d !! l = None -> files s.2 !! l = None).
Proof.
  revert sf d. induction ids as [|id ids IH]; intros sf d I Hd; cbn [foldl].
  { split_and!; [by apply others_stay_grow|done|intros ? ? H; by apply elem_of_nil in H|done]. }
  destruct (abort_stays id sf d I Hd) as (S1 & Q1 & G1 & N1). destruct (abort_upload id sf d) as [sf1 d1] eqn:E.
  apply abort_kept in E as [K Eu]; [|done]. destruct (IH sf1 d1 (kept_ok _ _ _ _ K) Q1) as (S2 & Q2 & G2 & N2).
  split_and!; [by eapply others_stay_trans|done| |by eauto].
  intros i u Hi Hu. destruct (decide (i = id)) as [->|Hn]; [by apply N2, G1|].
  apply elem_of_cons in Hi as [->|Hi]; [done|]. apply (G2 i u Hi). rewrite Eu. by apply lookup_delete_Some.
Qed.

Lemma write_stays id data sf d : uploads_ok (files d) sf -> faults d = [] ->
  let s := (write_chunk id data sf d).1 in others_stay sf s.1 (files d) (files s.2) /\ faults s.2 = [].
Proof.
  intros I Hd. unfold write_chunk. destruct (uploads sf !! id) as [u|] eqn:Eu.
  2:{ split; [by apply others_stay_grow|done]. }
  destruct (_ || _); [cbn [fst]; by destruct (abort_stays id sf d I Hd) as (S & Q & _)|].
  unfold write_all. rewrite sys_call_effect by done. cbn [fst snd files faults]. split; [|done].
  destruct (append_part _ _ _ _ data (ok_uploads _ _ I _ _ Eu)) as (_ & _ & F & _).
  apply others_stay_touch; [intros l _ N; apply F; by intros ->; eapply N|].
  intros i v Hv. cbn [uploads] in Hv. right. apply lookup_insert_Some in Hv as [[<- <-]|[_ Hv]]; [by exists u|by exists v].
Qed.

(** A finished upload takes a name that nothing has. *)
Lemma finish_stays id sf d : uploads_ok (files d) sf -> faults d = [] ->
  let s := (finish_upload id sf d).1 in others_stay sf s.1 (files d) (files s.2) /\ faults s.2 = [].
Proof.
  intros I Hd. unfold finish_upload. destruct (uploads sf !! id) as [u|] eqn:Eu.
  2:{ split; [by apply others_stay_grow|done]. }
  pose proof (ok_uploads _ _ I _ _ Eu) as U. set (sf1 := {| root := root sf; uploads := delete id (uploads sf) |}).
  assert (forall fs, (forall l, files d !! l <> None -> l <> file u -> fs !! l = files d !! l) -> others_stay sf sf1 (files d) fs) as Done.
  { intros fs F. apply others_stay_touch; [intros l Hl N; apply F; [done|by intros ->; eapply N]|].
    intros i v Hv. cbn [uploads sf1] in Hv. apply lookup_delete_Some in Hv as [_ Hv]. right. by exists v. }
  destruct (negb _).
  { destruct (abort_stays id sf d I Hd) as (S & Q & _). unfold abort_upload in S, Q. rewrite Eu in S, Q. done. }
  unfold sync_all. rewrite sys_call_ok by done.
  destruct (unused_name (dir u) (up_name u) d) as [d1 c] eqn:En. apply first_unused_spec in En as (F1 & C1 & Q1).
  specialize (Q1 Hd). destruct c as [c|]; [|cbn [fst snd]; rewrite F1; split; [by apply Done|done]].
  destruct (C1 c eq_refl) as (m & _ & -> & Free). destruct (Free Hd) as [Fr _].
  destruct (candidate_ok (up_name u) m (up_names _ _ _ _ U)) as ([Hn Hp] & Hs).
  assert (ends_with PART_SUFFIX (candidate (up_name u) m) = false) as Hsuf.
  { destruct (ends_with _ (candidate _ _)); [|done]. pose proof (up_suffix _ _ _ _ U). rewrite Hs in *; done. }
  assert (files d !! (dir u ++ [candidate (up_name u) m]) = None) as Nm.
  { rewrite push_name, metadata_below in Fr by (done || apply U). by destruct (files d !! _). }
  unfold rename. rewrite sys_call_effect, F1 by done.
  destruct (rename_part _ _ _ _ _ U Hn Hp Hsuf) as [(content & _ & _ & Hd' & ->)|(Ex & ->)]; [|congruence].
  cbn [fst snd files faults].
  assert (others_stay sf sf1 (files d) (<[dir u ++ [candidate (up_name u) m] := NFile content]> (delete (file u) (files d)))) as S.
  { apply Done. intros l Hl Hf. rewrite lookup_insert_ne by congruence. by apply lookup_delete_ne. }
  by destruct (bool_decide _).
Qed.
Lemma start_stays id path bound sf d : uploads_ok (files d) sf -> faults d = [] ->
  let s := (start_upload id path bound sf d).1 in others_stay sf s.1 (files d) (files s.2) /\ faults s.2 = [].
Proof.
  intros I Hd. unfold start_upload.
  destruct (path_parts path) as [[name folders]|] eqn:Ep; [|split; [by apply others_stay_grow|done]].
  apply path_parts_ok in Ep as [[Hn Hp] Hfolders]. destruct (_ || _); [split; [by apply others_stay_grow|done]|].
  destruct (ensure_root (root sf) d) as [d1 r1] eqn:Er. pose proof (ensure_root_faultless _ _ _ _ Hd Er) as Q1.
  apply ensure_root_plain in Er as (S1 & _ & R1); [|apply I].
  destruct r1 as [[]|e]; [|split; [by apply others_stay_grow|done]]. specialize (R1 eq_refl).
  destruct (resolve_dirs (root sf) folders true d1) as [d2 r2] eqn:Ed. pose proof (resolve_dirs_faultless _ _ _ _ _ _ Q1 Ed) as Q2.
  rewrite <-(app_nil_r (root sf)) in Ed. apply resolve_dirs_real in Ed as (S2 & _ & _ & Q); [|by rewrite app_nil_r|done].
  assert (files d ⊆ files d2) as S by by etrans.
  destruct r2 as [p|e]; [|split; [by apply others_stay_grow|done]]. destruct (Q p eq_refl) as [-> R2]. cbn [app] in *.
  destruct (part_name_ok name id (proj2 Hn)) as [Pn Pp].
  rewrite push_name by done. unfold open_new. rewrite sys_call_effect, make_node_below by done.
  destruct (files d2 !! _) eqn:En; cbn [fst snd files faults]; (split; [|done]); [by apply others_stay_grow|].
  assert (files d !! ((root sf ++ folders) ++ [part_name name id]) = None) as N1 by by eapply lookup_weaken_None.
  apply others_stay_touch.
  - intros l Hl _. rewrite lookup_insert_ne by congruence. destruct (files d !! l) eqn:E; [|done]. by eapply lookup_weaken.
  - intros i v Hv. cbn [uploads] in Hv. apply lookup_insert_Some in Hv as [[_ <-]|[_ Hv]]; [by left|right; by exists v].
Qed.
Lemma read_chunk_faultless path offset sf d d' r : faults d = [] -> read_chunk path offset sf d = (d', r) -> faults d' = [].
Proof.
  intros Hd E. unfold read_chunk in E. destruct (path_parts path) as [[name folders]|]; [|by simplify_eq].
  destruct (resolve_dirs _ _ _ _) as [d1 [p|e]] eqn:Ed; apply resolve_dirs_faultless in Ed; try done; [|by simplify_eq].
  unfold symlink_metadata in E. rewrite sys_call_ok in E by done.
  destruct (metadata_of _ _ _) as [[content| |]|]; try by simplify_eq.
  destruct (ends_with _ _); [by simplify_eq|]. destruct (_ || _); [by simplify_eq|].
  unfold read_at in E. rewrite sys_call_ok in E by done.
  match type of E with match ?x with _ => _ end = _ => destruct x end; by simplify_eq.
Qed.

Lemma share_step_stays op sf d : uploads_ok (files d) sf -> faults d = [] ->
  let s := share_step (sf, d) op in others_stay sf s.1 (files d) (files s.2) /\ faults s.2 = [].
Proof.
  intros I Hd. destruct op as [id path bound|id data|id|id|path offset|order|]; cbn [share_step].
  - by apply start_stays.
  - by apply write_stays.
  - by apply finish_stays.
  - by destruct (abort_stays id sf d I Hd) as (S & Q & _).
  - destruct (read_chunk path offset sf d) as [d' r] eqn:E. cbn [fst snd]. split; [|by eapply read_chunk_faultless].
    apply read_chunk_files in E. rewrite E. by apply others_stay_grow.
  - destruct (list_shared _ _ sf d) as [[d' r]|] eqn:E; [|split; [by apply others_stay_grow|done]].
    apply list_shared_kept in E as (S & _ & Q); [|done]. split; [by apply others_stay_grow|by apply Q].
  - by destruct (drop_stays (map fst (map_to_list (uploads sf))) sf d I Hd) as (S & Q & _).
Qed.
Lemma share_steps_stay ops sf d : uploads_ok (files d) sf -> faults d = [] ->
  let s := foldl share_step (sf, d) ops in others_stay sf s.1 (files d) (files s.2) /\ faults s.2 = [].
Proof.
  revert sf d. induction ops as [|op ops IH]; intros sf d I Hd; cbn [foldl].
  - split; [by apply others_stay_grow|done].
  - pose proof (share_step_kept op sf d I) as K. destruct (share_step_stays op sf d I Hd) as [S Q].
    destruct (share_step (sf, d) op) as [sf1 d1]. destruct (IH sf1 d1 (kept_ok _ _ _ _ K) Q) as [S2 Q2].
    split; [by eapply others_stay_trans|done].
Qed.

(** C15. Whatever a client requests, with listings and the end of the folder at
    any time, and whatever system calls fail, nothing outside the shared folder
    is created, changed or removed (missing ancestors of the folder itself may
    become directories), whatever links the folder holds; and at any time at
    most four uploads are open, each with its own part file in a real directory
    of the folder, holding exactly the bytes written so far, at most the
    announced size, itself at most 8 GiB. While no system call fails, nothing
    that is there changes, inside the folder either: from any moment on, every
    file, link and directory that is not the part file of an open upload stays
    as it is, so an upload never replaces a file, and never changes one that an
    earlier upload left; and the end of the folder removes the part files. *)
Theorem shared_folder_confined ops sf d :
  uploads sf = ∅ -> plain_root (files d) (root sf) ->
  let '(sf1, d1) := foldl share_step (sf, d) ops in
  confined (root sf) (files d) (files d1) /\ uploads_ok (files d1) sf1 /\
  (faults d = [] -> forall more,
     (forall l n, files d1 !! l = Some n -> (forall id u, uploads sf1 !! id = Some u -> file u <> l) ->
        files (foldl share_step (sf1, d1) more).2 !! l = Some n) /\
     (forall id u, uploads sf1 !! id = Some u -> files (share_step (sf1, d1) DropFolder).2 !! file u = None)).
Proof.
  intros Hu P. assert (uploads_ok (files d) sf) as I.
  { split; [done|intros id u E; by rewrite Hu, lookup_empty in E|intros i j u v _ E; by rewrite Hu, lookup_empty in E|].
    rewrite Hu, map_size_empty. unfold MAX_OPEN_UPLOADS. lia. }
  pose proof (share_steps_kept ops sf d I) as [_ C _ I']. pose proof (share_steps_stay ops sf d I) as Q.
  destruct (foldl _ _ _) as [sf1 d1]. cbn [fst snd] in *. split; [done|]. split; [done|]. intros Hd more. destruct (Q Hd) as [_ Q1]. split.
  - intros l n E N. by apply (share_steps_stay more sf1 d1 I' Q1).
  - intros id u Eu. cbn [share_step]. destruct (drop_stays (map fst (map_to_list (uploads sf1))) sf1 d1 I' Q1) as (_ & _ & G & _).
    apply (G id u); [|done]. apply list_elem_of_In, in_map_iff. exists (id, u). split; [done|].
    by apply list_elem_of_In, elem_of_map_to_list.
Qed.

(** ** Reading *)

(** A plain root is real, or nothing below it resolves. *)
Lemma walk_plain links fs follow p cur rest : Forall plain p -> rest <> [] ->
  (forall q, q `prefix_of` p -> q <> [] -> fs !! (cur ++ q) = None \/ fs !! (cur ++ q) = Some NDir) ->
  (forall q, q `prefix_of` p -> q <> [] -> fs !! (cur ++ q) = Some NDir) \/
  walk links fs follow cur (p ++ rest) = Err io.NotFound.
Proof.
  intros F Hr. revert cur. induction F as [|c p [H1 H2] F IH]; intros cur H.
  { left. intros q Hq. by apply prefix_nil_inv in Hq. }
  destruct (H [c]) as [E|E]; [by apply prefix_cons, prefix_nil|done| |].
  - right. destruct links; cbn [walk app];
      rewrite (bool_decide_eq_false_2 _ H1), (bool_decide_eq_false_2 _ H2), E; by destruct p, rest.
  - destruct (IH (cur ++ [c])) as [K|K].
    + intros q Hq Hn. rewrite <-app_assoc. apply H; [by apply prefix_cons|done].
    + left. intros [|x q] Hq Hn; [done|]. pose proof (prefix_cons_inv_1 _ _ _ _ Hq) as ->.
      apply prefix_cons_inv_2 in Hq. destruct q as [|y q]; [done|].
      specialize (K (y :: q) Hq ltac:(done)). by rewrite <-app_assoc in K.
    + right. destruct links; cbn [walk app];
        rewrite (bool_decide_eq_false_2 _ H1), (bool_decide_eq_false_2 _ H2), E; exact K.
Qed.
Lemma plain_root_cases fs root : plain_root fs root ->
  real_dir fs root \/ forall follow c, resolve fs follow (root ++ [c]) = Err io.NotFound.
Proof.
  intros (Hn & F & H). destruct (decide (Forall (fun n => fs !! take n root = Some NDir) (seq 1 (length root)))) as [D|D].
  - left. split; [done|]. intros q Hq Hne. destruct Hq as [r ->]. rewrite list.Forall_forall in D.
    specialize (D (length q)). rewrite take_app_length in D. apply D, elem_of_seq.
    rewrite length_app. destruct q; [done|simpl; lia].
  - right. intros follow c. unfold resolve.
    destruct (walk_plain 40 fs follow root [] [c] F ltac:(done)) as [K|K]; [by intros q Hq; apply H| |done].
    destruct D. apply list.Forall_forall. intros n [Hn1 Hn2]%elem_of_seq. apply K; [apply prefix_take|].
    destruct root; [done|]. by destruct n; [lia|].
Qed.

Lemma real_dir_app_l fs a b : real_dir fs (a ++ b) -> real_dir fs a.
Proof.
  intros [F H]. split; [by apply list.Forall_app in F as [F _]|]. intros q Hq. apply H. by apply prefix_app_r.
Qed.
Lemma resolve_dirs_ok dir cs create d : faults d = [] -> real_dir (files d) (dir ++ cs) ->
  Forall (fun c => is_name c /\ plain c) cs -> resolve_dirs dir cs create d = (d, Ok (dir ++ cs)).
Proof.
  intros Hd R F. revert dir R. induction F as [|c cs [Hn Hp] F IH]; intros dir R; cbn [resolve_dirs].
  { by rewrite app_nil_r. }
  rewrite (app_assoc dir [c] cs : dir ++ c :: cs = _) in *.
  pose proof (real_dir_app_l _ _ _ R) as (R1 & _ & E)%real_dir_snoc.
  rewrite push_name by done. unfold symlink_metadata. rewrite sys_call_ok by done.
  rewrite metadata_below by done. rewrite E. by apply IH.
Qed.

(** Below a missing root nothing is read. *)
Lemma unresolved_root_reads sf d d' path offset a :
  (forall follow c, resolve (files d) follow (root sf ++ [c]) = Err io.NotFound) ->
  read_chunk path offset sf d <> (d', Ok a).
Proof.
  intros R E. unfold read_chunk in E. destruct (path_parts path) as [[name folders]|] eqn:Ep; [|done].
  apply path_parts_ok in Ep as [[Hn _] F].
  assert (forall c d1 d2 r2, is_name c -> files d1 = files d -> symlink_metadata (push (root sf) c) d1 = (d2, r2) ->
    is_ok r2 = false) as M.
  { intros c d1 d2 r2 Hc F1 Es. unfold symlink_metadata in Es. rewrite push_name in Es by done.
    unfold metadata_of in Es. rewrite F1, R in Es. sys_in Es; by simplify_eq. }
  destruct folders as [|c folders]; cbn [resolve_dirs] in E.
  - destruct (symlink_metadata _ d) as [d2 r2] eqn:Es. apply M in Es; [|done|done]. by destruct r2.
  - inversion F as [|? ? [Hc _] _]; subst.
    destruct (symlink_metadata _ d) as [d2 r2] eqn:Es. apply M in Es; [|done|done]. by destruct r2 as [|[]].
Qed.

(** A file of the folder is read when no call fails. *)
Lemma read_chunk_reads path offset sf d name folders content :
  plain_root (files d) (root sf) -> faults d = [] -> path_parts path = Some (name, folders) ->
  real_dir (files d) (root sf ++ folders) -> ends_with PART_SUFFIX name = false ->
  files d !! (root sf ++ folders ++ [name]) = Some (NFile content) ->
  (offset <= len content <= MAX_FILE_BYTES)%N ->
  let data := take (N.to_nat FILE_CHUNK_BYTES) (drop (N.to_nat offset) content) in
  read_chunk path offset sf d = (d, Ok (data, len content, (len content <=? offset + len data)%N)).
Proof.
  intros P Hd Ep R Hs En [B1 B2]. unfold read_chunk. rewrite Ep.
  pose proof (path_parts_ok _ _ _ Ep) as [[Hn Hp] Hf].
  rewrite resolve_dirs_ok, push_name by done. unfold symlink_metadata.
  rewrite sys_call_ok, metadata_below by done. rewrite app_assoc in En. rewrite En. cbn [ok_or].
  rewrite Hs, (proj2 (N.ltb_ge _ _) B1), (proj2 (N.ltb_ge _ _) B2). cbn [orb].
  unfold read_at. rewrite sys_call_ok, resolve_below by (done || congruence).
  unfold node_at. destruct ((root sf ++ folders) ++ [name]) as [|x l] eqn:El; [by destruct (root sf ++ folders)|].
  rewrite En. by destruct d; cbn in *; subst.
Qed.

(** A chunk that is read comes from a regular file of the folder itself:
    the validated path below the root names the file directly, no part file,
    and the answer is its bytes from the offset up to 192 KiB, its size, and
    whether the end is reached. A file of at most 8 GiB at such a path is read
    when no call fails. Reading changes nothing. *)
Theorem read_chunk_inside path offset sf d :
  plain_root (files d) (root sf) ->
  let '(d', r) := read_chunk path offset sf d in
  files d' = files d /\
  (forall data n eof, r = Ok (data, n, eof) ->
    exists name folders content, path_parts path = Some (name, folders) /\
      real_dir (files d) (root sf ++ folders) /\ ends_with PART_SUFFIX name = false /\
      files d !! (root sf ++ folders ++ [name]) = Some (NFile content) /\
      data = take (N.to_nat FILE_CHUNK_BYTES) (drop (N.to_nat offset) content) /\
      n = len content /\ (offset <= n)%N /\ (n <= MAX_FILE_BYTES)%N /\ eof = (n <=? offset + len data)%N) /\
  (forall name folders content, faults d = [] -> path_parts path = Some (name, folders) ->
    real_dir (files d) (root sf ++ folders) -> ends_with PART_SUFFIX name = false ->
    files d !! (root sf ++ folders ++ [name]) = Some (NFile content) ->
    (offset <= len content <= MAX_FILE_BYTES)%N -> is_ok r = true).
Proof.
  intros P. destruct (read_chunk path offset sf d) as [d' r] eqn:E.
  split; [by eapply read_chunk_files|]. split.
  - intros data n eof ->.
    destruct (plain_root_cases _ _ P) as [R|R]; [|by destruct (unresolved_root_reads _ _ _ _ _ _ R E)].
    unfold read_chunk in E. destruct (path_parts path) as [[name folders]|] eqn:Ep; [|done].
    pose proof (path_parts_ok _ _ _ Ep) as [[Hn Hp] Hf].
    destruct (resolve_dirs (root sf) folders false d) as [d1 r1] eqn:Ed.
    rewrite <-(app_nil_r (root sf)) in Ed.
    apply resolve_dirs_real in Ed as (_ & _ & F1 & Q); [|by rewrite app_nil_r|done]. specialize (F1 eq_refl).
    destruct r1 as [p|]; [|done]. destruct (Q p eq_refl) as [-> R1]. cbn [app] in *. rewrite F1 in R1.
    rewrite push_name in E by done.
    destruct (symlink_metadata _ d1) as [d2 r2] eqn:Es. pose proof (sys_call_no_effect _ _ _ _ Es) as F2.
    destruct r2 as [[content| |]|]; try done. unfold symlink_metadata in Es.
    sys_in Es; [done|]. rewrite F1, metadata_below in Es by done.
    destruct (files d !! _) as [nd|] eqn:En; cbn [ok_or] in Es; [|done]. simplify_eq.
    destruct (ends_with _ _) eqn:Esuf; [done|]. destruct (_ || _) eqn:Eb; [done|].
    apply orb_false_iff in Eb as [B1%N.ltb_ge B2%N.ltb_ge].
    destruct (read_at _ _ _ _) as [d3 [dt|]] eqn:Er; [|done]. unfold read_at in Er. sys_in Er; [done|].
    cbn [files] in *. rewrite resolve_below in Er by (done || congruence).
    unfold node_at in Er. destruct ((root sf ++ folders) ++ [name]) as [|x l] eqn:El; [by destruct (root sf ++ folders)|].
    rewrite En in Er. simplify_eq. exists name, folders, content.
    rewrite app_assoc, El. done.
  - intros name folders content Hd Ep R Hs En B. erewrite read_chunk_reads in E by done. by simplify_eq.
Qed.

(** ** An upload from start to end *)

(** The chunks of one upload, until one fails. *)
Fixpoint upload_chunks (id : N) (chunks : list bytes) (sf : SharedFolder) (d : Disk)
  : SharedFolder * Disk * Result unit ShareError :=
  match chunks with
  | [] => (sf, d, Ok tt)
  | c :: cs =>
      let '(sf, d, r) := write_chunk id c sf d in
      match r with Ok _ => upload_chunks id cs sf d | Err e => (sf, d, Err e) end
  end.


Lemma upload_chunks_ok id chunks sf d u content :
  faults d = [] -> uploads sf !! id = Some u -> files d !! file u = Some (NFile content) ->
  Forall (fun c => (len c <= FILE_CHUNK_BYTES)%N) chunks ->
  (written u + len (concat chunks) <= expected u)%N ->
  upload_chunks id chunks sf d =
  ({| root := root sf; uploads := <[id := with_written (written u + len (concat chunks)) u]> (uploads sf) |},
   {| files := <[file u := NFile (content ++ concat chunks)]> (files d); faults := [] |}, Ok tt).
Proof.
  intros Hd Hu Hf F Hl. revert sf d u content Hd Hu Hf Hl. induction F as [|c cs Hc F IH];
    intros sf d u content Hd Hu Hf Hl; cbn [upload_chunks concat].
  - rewrite app_nil_r, (insert_id (files d)) by done. change (len []) with 0%N. rewrite N.add_0_r.
    replace (with_written (written u) u) with u by by destruct u.
    rewrite (insert_id (uploads sf)) by done. destruct sf, d. simpl in *. by subst.
  - cbn [concat] in Hl. assert (len (c ++ concat cs) = (len c + len (concat cs))%N) as El
      by (unfold len; rewrite length_app; lia). rewrite El in *.
    unfold write_chunk. rewrite Hu, (proj2 (N.ltb_ge _ _) Hc), (proj2 (N.ltb_ge _ _)) by lia. cbn [orb].
    unfold write_all. rewrite sys_call_effect by done. cbn [fst snd].
    assert (append_at (files d) (file u) c = <[file u := NFile (content ++ c)]> (files d)) as ->
      by (unfold append_at; by rewrite Hf).
    rewrite (IH _ _ (with_written (written u + len c) u) (content ++ c)); cbn [root uploads files faults file written with_written expected].
    + rewrite !insert_insert_eq, <-app_assoc, N.add_assoc. done.
    + done.
    + by rewrite lookup_insert_eq.
    + by rewrite lookup_insert_eq.
    + simpl. lia.
Qed.

(** What a successful start leaves. *)
Lemma start_upload_ok id path bound sf d sf1 d1 : uploads_ok (files d) sf -> faults d = [] ->
  start_upload id path bound sf d = (sf1, d1, Ok tt) ->
  exists name folders u, path_parts path = Some (name, folders) /\ root sf1 = root sf /\
    uploads sf !! id = None /\ uploads sf1 = <[id := u]> (uploads sf) /\
    dir u = root sf ++ folders /\ up_name u = name /\ expected u = bound /\ written u = 0%N /\
    files d !! file u = None /\ files d1 !! file u = Some (NFile []) /\ files d ⊆ files d1 /\ faults d1 = [].
Proof.
  intros I Hd E. unfold start_upload in E.
  destruct (path_parts path) as [[name folders]|] eqn:Ep; [|done].
  pose proof (path_parts_ok _ _ _ Ep) as [[Hn Hp] Hf].
  destruct (_ || _) eqn:Eb; [done|]. rewrite !orb_false_iff, bool_decide_eq_false in Eb. destruct Eb as [[_ Hi] _].
  destruct (ensure_root (root sf) d) as [d2 [[]|]] eqn:Er; [|done].
  pose proof (ensure_root_faultless _ _ _ _ Hd Er) as Hd2. apply ensure_root_plain in Er as (S1 & _ & R1); [|apply I].
  specialize (R1 eq_refl). destruct (resolve_dirs (root sf) folders true d2) as [d3 [p|]] eqn:Ed; [|done].
  pose proof (resolve_dirs_faultless _ _ _ _ _ _ Hd2 Ed) as Hd3.
  rewrite <-(app_nil_r (root sf)) in Ed. apply resolve_dirs_real in Ed as (S2 & _ & _ & Q); [|by rewrite app_nil_r|done].
  destruct (Q p eq_refl) as [-> R2]. cbn [app] in *.
  destruct (part_name_ok name id (proj2 Hn)) as [Pn Pp]. rewrite push_name in E by done.
  unfold open_new in E. rewrite sys_call_effect, make_node_below in E by done.
  destruct (files d3 !! _) eqn:En; cbn [fst snd] in E; [done|]. simplify_eq.
  assert (files d ⊆ files d3) as S by by etrans.
  eexists name, folders, _. split; [done|]. split; [done|]. split.
  { destruct (uploads sf !! id) eqn:Eu; [destruct Hi; eauto|done]. }
  split; [done|]. cbn [dir up_name expected written file files faults]. split_and!; try done.
  - destruct (files d !! _) eqn:Ex; [|done]. eapply lookup_weaken in Ex; [|exact S]. congruence.
  - apply lookup_insert_eq.
  - etrans; [exact S|]. by apply insert_subseteq.
Qed.

(** The end of a complete upload. *)
Lemma finish_upload_ok id sf d u content : uploads_ok (files d) sf -> faults d = [] ->
  uploads sf !! id = Some u -> written u = expected u -> files d !! file u = Some (NFile content) ->
  let at_ n := dir u ++ [candidate (up_name u) n] in
  (exists m d', finish_upload id sf d = ({| root := root sf; uploads := delete id (uploads sf) |}, d',
       Ok (String.concat "/" (drop (length (root sf)) (dir u) ++ [candidate (up_name u) m]))) /\
     files d' = <[at_ m := NFile content]> (delete (file u) (files d)) /\ files d !! at_ m = None /\
     (forall k, (k < m)%N -> is_Some (files d !! at_ k))) \/
  ((finish_upload id sf d).2 = Err ShareIo /\ forall k, (k < 10000)%N -> is_Some (files d !! at_ k)).
Proof.
  intros I Hd Eu Hw Hc at_. pose proof (ok_uploads _ _ I _ _ Eu) as U.
  assert (forall n, metadata_of (files d) false (push (dir u) (candidate (up_name u) n)) =
    ok_or (files d !! at_ n) io.NotFound) as M.
  { intros n. destruct (candidate_ok (up_name u) n (up_names _ _ _ _ U)) as ([Hn Hp] & _).
    rewrite push_name by done. apply metadata_below; [apply U|done]. }
  unfold finish_upload. rewrite Eu, Hw, N.eqb_refl. cbn [negb]. unfold sync_all. rewrite sys_call_ok by done.
  unfold unused_name. destruct (first_unused _ _ _ _ d) as [d1 [c|]] eqn:En.
  - pose proof (first_unused_spec _ _ _ _ _ _ _ En) as (F1 & C & Nf). specialize (Nf Hd).
    destruct (C c eq_refl) as (m & _ & -> & H). destruct (H Hd) as [Hm Hk].
    rewrite M in Hm. left. exists m.
    destruct (candidate_ok (up_name u) m (up_names _ _ _ _ U)) as ([Hn Hp] & Hs).
    destruct (rename_part _ _ _ _ (candidate (up_name u) m) U Hn Hp) as [(ct & Hct & _ & _ & Er)|(Ed & _)].
    + destruct (ends_with _ (candidate _ _)); [|done]. pose proof (up_suffix _ _ _ _ U). rewrite Hs in *; done.
    + unfold rename. rewrite sys_call_effect, F1, Er by done. cbn [fst snd].
      destruct (up_dir _ _ _ _ U) as [folders Edir].
      rewrite bool_decide_eq_true_2 by (by rewrite Edir, take_app_length).
      eexists. split; [reflexivity|]. cbn [files]. assert (ct = content) as -> by congruence. split; [done|]. split.
      * by destruct (files d !! at_ m).
      * intros k Hkm. specialize (Hk k ltac:(lia)). rewrite M in Hk. destruct (files d !! at_ k); [eauto|done].
    + unfold at_ in Hm. by rewrite Ed in Hm.
  - right. split; [done|]. intros k Hk. pose proof (first_unused_none _ _ _ _ _ _ Hd En k) as H.
    rewrite M in H. destruct (files d !! at_ k); [eauto|]. assert (0 <= k < 0 + N.of_nat (N.to_nat 10000))%N as B by lia.
    by specialize (H B).
Qed.

(** An upload from start to end, when no call fails: chunks of at most
    192 KiB that add up to the announced size end as one file with exactly
    these bytes in the named folder, under the requested name or the first
    numbered one that is free, so that no file that was there is replaced; the
    part file is gone and nothing else changed. Only a folder that has all
    10000 candidates refuses it. *)
Theorem upload_round_trip id path chunks sf d sf1 d1 :
  uploads_ok (files d) sf -> faults d = [] ->
  Forall (fun c => (len c <= FILE_CHUNK_BYTES)%N) chunks ->
  start_upload id path (len (concat chunks)) sf d = (sf1, d1, Ok tt) ->
  exists sf2 d2 sf3 d3 r name folders,
    upload_chunks id chunks sf1 d1 = (sf2, d2, Ok tt) /\ finish_upload id sf2 d2 = (sf3, d3, r) /\
    path_parts path = Some (name, folders) /\
    let at_ n := root sf ++ folders ++ [candidate name n] in
    ((exists m, r = Ok (String.concat "/" (folders ++ [candidate name m])) /\
        uploads sf3 = uploads sf /\
        files d3 = <[at_ m := NFile (concat chunks)]> (delete (root sf ++ folders ++ [part_name name id]) (files d1)) /\
        files d ⊆ delete (root sf ++ folders ++ [part_name name id]) (files d1) /\
        files d1 !! at_ m = None /\ forall k, (k < m)%N -> is_Some (files d1 !! at_ k)) \/
     (r = Err ShareIo /\ forall k, (k < 10000)%N -> is_Some (files d1 !! at_ k))).
Proof.
  intros I Hd F E. destruct (start_upload_ok _ _ _ _ _ _ _ I Hd E)
    as (name & folders & u & Ep & Er & Ei & Eu & Edir & Ename & Eexp & Ew & Nf & Ef & S & Hd1).
  pose proof (start_upload_kept _ _ _ _ _ _ _ _ I E) as [_ _ _ I1].
  assert (uploads sf1 !! id = Some u) as Eu1 by (rewrite Eu; apply lookup_insert_eq).
  pose proof (ok_uploads _ _ I1 _ _ Eu1) as U. pose proof (upload_file_part _ _ _ _ U) as Efile.
  rewrite Edir, Ename, <-app_assoc in Efile.
  assert (written u + len (concat chunks) <= expected u)%N as Hb by (rewrite Ew, Eexp; lia).
  pose proof (upload_chunks_ok id chunks sf1 d1 u [] Hd1 Eu1 Ef F Hb) as Ec. cbn [app] in Ec.
  set (sf2 := {| root := root sf1; uploads := <[id := _]> (uploads sf1) |}) in *.
  set (d2 := {| files := <[file u := _]> (files d1); faults := [] |}) in *.
  assert (uploads_ok (files d2) sf2) as I2.
  { pose proof (written_ok _ _ _ _ (concat chunks) I1 Eu1 Hb) as W. unfold append_at in W. by rewrite Ef in W. }
  assert (uploads sf2 = <[id := with_written (written u + len (concat chunks)) u]> (uploads sf)) as Eup
    by (unfold sf2; cbn [uploads]; by rewrite Eu, insert_insert_eq).
  assert (forall n, root sf ++ folders ++ [candidate name n] <> file u) as Ne.
  { intros n. rewrite app_assoc. apply (upload_not_part _ _ _ _ _ _ U). pose proof (up_suffix _ _ _ _ U) as Hs. rewrite Ename in Hs.
    pose proof (up_names _ _ _ _ U) as Hn. rewrite Ename in Hn. destruct (candidate_ok name n Hn) as [_ H].
    destruct (ends_with _ (candidate _ _)); [rewrite H in Hs; done|done]. }
  exists sf2, d2.
  destruct (finish_upload_ok id sf2 d2 (with_written (written u + len (concat chunks)) u) (concat chunks) I2)
    as [(m & d3 & E3 & F3 & Nm & Hk)|[E3 Hk]];
    [done|by rewrite Eup, lookup_insert_eq|cbn; rewrite Ew, Eexp; lia|apply lookup_insert_eq| |].
  - cbn [dir with_written up_name root sf2] in *. rewrite Er, Edir, drop_app_length, Ename in E3.
    eexists _, d3, _, name, folders. split; [done|]. split; [exact E3|]. split; [done|]. left. exists m.
    rewrite Edir, Ename in F3, Nm, Hk. cbn [file with_written] in F3.
    split; [done|]. split; [cbn [uploads]; rewrite Eup; by apply delete_insert_id|].
    rewrite <-!app_assoc in *. unfold d2 in *. cbn [files] in *. rewrite <-Efile.
    split; [by rewrite F3, delete_insert_eq|]. split.
    { rewrite <-(delete_id (files d) (file u)) by done. by apply delete_mono. }
    split; [rewrite lookup_insert_ne in Nm; [done|by apply not_eq_sym, Ne]|].
    intros k Hkm. specialize (Hk k Hkm). rewrite <-app_assoc, lookup_insert_ne in Hk; [done|by apply not_eq_sym, Ne].
  - destruct (finish_upload id sf2 d2) as [[sf3 d3] r]. cbn [snd] in E3.
    exists sf3, d3, r, name, folders. split; [done|]. split; [done|]. split; [done|]. right. split; [done|].
    intros k Hk'. specialize (Hk k Hk').
    cbn [dir with_written up_name files d2] in Hk.
    rewrite Edir, Ename, <-app_assoc, lookup_insert_ne in Hk; [done|by apply not_eq_sym, Ne].
Qed.

(** ** The listing ends *)

(** Every folder that waits has its entry, and entries are limited. *)
Lemma list_dir_bound es dir prefix depth entries pending d d' entries' pending' full :
  list_dir es dir prefix depth entries pending d = (d', Ok (entries', pending', full)) ->
  (len entries < MAX_LISTED_ENTRIES)%N ->
  (len pending' + len entries <= len pending + len entries')%N /\
  (if full then len entries' = MAX_LISTED_ENTRIES else len entries' < MAX_LISTED_ENTRIES)%N.
Proof.
  revert entries pending d. induction es as [|[name node] es IH]; intros entries pending d E Hn; cbn [list_dir] in E.
  { simplify_eq. split; [lia|done]. }
  destruct (ends_with _ _); [by eapply IH|].
  destruct (entry_metadata node d) as [d1 [nd|]]; [|done].
  match type of E with (let '(_, _) := ?p in _) = _ => destruct p as [entries1 pending1] eqn:Ep end.
  assert (len pending1 + len entries <= len pending + len entries1 /\ len entries1 <= len entries + 1)%N as [B1 B2].
  { unfold len in *. destruct nd; [| |]; repeat case_hyp Ep; simplify_eq;
      rewrite ?length_app; cbn [length]; lia. }
  destruct (N.leb_spec MAX_LISTED_ENTRIES (len entries1)).
  - simplify_eq. split; [lia|]. cbn iota. unfold len in *. lia.
  - apply IH in E as [E1 E2]; [|done]. split; [lia|done].
Qed.
Lemma list_loop_ends order fuel entries pending d :
  (len entries < MAX_LISTED_ENTRIES)%N ->
  (MAX_LISTED_ENTRIES - len entries + len pending <= N.of_nat fuel)%N ->
  exists d' r, list_loop order fuel entries pending d = Some (d', r) /\
    forall l, r = Ok l -> (len l <= MAX_LISTED_ENTRIES)%N.
Proof.
  revert entries pending d. induction fuel as [|fuel IH]; intros entries pending d Hn Hf; [lia|].
  cbn [list_loop]. destruct pending as [|[[dir prefix] depth] pending].
  { eexists _, _. split; [done|]. intros l [= <-]. lia. }
  destruct (read_dir order dir d) as [d1 [es|]]; [|by eexists _, _].
  destruct (list_dir es dir prefix depth entries pending d1) as [d2 [[[entries1 pending1] full]|]] eqn:El;
    [|by eexists _, _].
  apply list_dir_bound in El as [B1 B2]; [|done]. destruct full.
  - eexists _, _. split; [done|]. intros l [= <-]. lia.
  - apply IH; [done|]. unfold len in *. cbn [length] in Hf. lia.
Qed.

(** C27. The listing always ends: whatever the folder holds, in whatever order
    and however its system calls fail, 5001 directories are enough, as every
    directory that is visited took an entry and there are at most 5000, which
    come sorted by path. *)
Theorem list_shared_ends order sf d :
  exists d' r, list_shared order (N.to_nat 5001) sf d = Some (d', r) /\
    forall l, r = Ok l -> (len l <= MAX_LISTED_ENTRIES)%N /\ Sorted by_path l.
Proof.
  unfold list_shared. destruct (ensure_root (root sf) d) as [d1 [[]|e]]; [|by eexists _, _].
  destruct (list_loop_ends order (N.to_nat 5001) [] [(root sf, ""%string, 0%N)] d1) as (d2 & r & -> & H);
    [by vm_compute| |].
  { rewrite N2Nat.id. by vm_compute. }
  destruct r as [l|]; [|by eexists _, _]. eexists _, _. split; [done|]. intros l' [= <-]. split.
  - specialize (H l eq_refl). unfold len in *. by rewrite merge_sort_Permutation.
  - apply Sorted_merge_sort. intros a b. unfold by_path. destruct (String.leb_total (entry_path a) (entry_path b)); auto.
Qed.

(** ** Concrete folders *)

Definition dir_or_absent (fs : Fs) (l : Location) : bool :=
  match fs !! l with None | Some NDir => true | _ => false end.
Lemma plain_root_check fs root :
  negb (length root =? 0)%nat && forallb (fun c => negb (bool_decide (c = "."%string)) && negb (bool_decide (c = ".."%string))) root &&
  forallb (fun n => dir_or_absent fs (take n root)) (seq 1 (length root)) = true ->
  plain_root fs root.
Proof.
  rewrite !andb_true_iff, !forallb_forall. intros [[Hn F] H]. split_and!.
  - by destruct root.
  - apply list.Forall_forall. intros c Hc. apply list_elem_of_In, F in Hc.
    rewrite andb_true_iff, !negb_true_iff, !bool_decide_eq_false in Hc. exact Hc.
  - intros q [r ->] Hq. specialize (H (length q)). rewrite take_app_length in H.
    assert (dir_or_absent fs q = true) as D.
    { apply H, in_seq. rewrite length_app. destruct q; [done|simpl; lia]. }
    unfold dir_or_absent in D. destruct (fs !! q) as [[]|]; auto; done.
Qed.

Definition ex_root : PathBuf := ["home"; "u"; "RivetLink"].
(** A user's folder with a file and a link to somewhere else. *)
Definition ex_fs : Fs := list_to_map
  [(["home"], NDir); (["home"; "u"], NDir); (ex_root, NDir);
   (ex_root ++ ["a.txt"], NFile (as_bytes "hello"));
   (ex_root ++ ["out"], NSymlink ["home"; "u"]);
   (["home"; "u"; "secret"], NFile (as_bytes "key"))].
Definition ex_folder : SharedFolder := {| root := ex_root; uploads := ∅ |}.
Definition ex_disk : Disk := {| files := ex_fs; faults := [] |}.
Definition ex_ops : list ShareOp :=
  [StartUpload 1 "out/x" 1; StartUpload 2 "a.txt" 3; WriteChunk 2 (as_bytes "new"); FinishUpload 2; ReadChunk "out/secret" 0;
   StartUpload 3 "b.txt" 2; WriteChunk 3 (as_bytes "x")].
Definition ex_more : list ShareOp :=
  [StartUpload 4 "a.txt" 1; WriteChunk 4 (as_bytes "!"); FinishUpload 4; ListShared (fun l => l); DropFolder].

Lemma ex_plain : plain_root ex_fs ex_root.
Proof. apply plain_root_check. vm_compute. reflexivity. Qed.
Lemma ex_ok : uploads_ok ex_fs ex_folder.
Proof.
  split; cbn [uploads ex_folder]; [apply ex_plain|by intros id u E%lookup_empty_Some|by intros i j u v _ E%lookup_empty_Some|].
  by vm_compute.
Qed.

Definition ex_state : SharedFolder * Disk := foldl share_step (ex_folder, ex_disk) ex_ops.
Definition ex_files : Fs := files (foldl share_step ex_state ex_more).2.
Lemma not_a_part_check sf l :
  forallb (fun iu => negb (bool_decide (file iu.2 = l))) (map_to_list (uploads sf)) = true -> not_a_part sf l.
Proof.
  intros O id u Hu Hf. rewrite forallb_forall in O.
  assert (In (id, u) (map_to_list (uploads sf))) as Hi by by apply list_elem_of_In, elem_of_map_to_list.
  apply O in Hi. by rewrite negb_true_iff, bool_decide_eq_false in Hi.
Qed.
Lemma shared_folder_confined_witness :
  confined ex_root ex_fs (files ex_state.2) /\ uploads_ok (files ex_state.2) ex_state.1 /\
  ex_files !! (ex_root ++ ["a.txt"]) = Some (NFile (as_bytes "hello")) /\
  ex_files !! (ex_root ++ ["a (1).txt"]) = Some (NFile (as_bytes "new")) /\
  ex_files !! (ex_root ++ ["a (2).txt"]) = Some (NFile (as_bytes "!")) /\
  files ex_state.2 !! (ex_root ++ [part_name "b.txt" 3]) = Some (NFile (as_bytes "x")) /\
  ex_files !! (ex_root ++ [part_name "b.txt" 3]) = None.
Proof.
  pose proof (shared_folder_confined ex_ops ex_folder ex_disk eq_refl ex_plain) as H.
  change (foldl share_step (ex_folder, ex_disk) ex_ops) with ex_state in H.
  rewrite (surjective_pairing ex_state) in H. cbv beta iota in H. rewrite <-surjective_pairing in H.
  destruct H as (C & I & K). specialize (K eq_refl ex_more) as [K _].
  split; [exact C|]. split; [exact I|].
  split; [apply K; [vm_compute; reflexivity|apply not_a_part_check; vm_compute; reflexivity]|].
  split; [apply K; [vm_compute; reflexivity|apply not_a_part_check; vm_compute; reflexivity]|].
  split_and!; vm_compute; reflexivity.
Defined.

Lemma read_chunk_inside_witness :
  (let '(d', r) := read_chunk "a.txt" 1 ex_folder ex_disk in files d' = ex_fs /\ True) /\
  (read_chunk "a.txt" 1 ex_folder ex_disk).2 = Ok (as_bytes "ello", 5%N, true) /\
  (read_chunk "out/secret" 0 ex_folder ex_disk).2 = Err Rejected.
Proof.
  split; [|split; vm_compute; reflexivity].
  pose proof (read_chunk_inside "a.txt" 1 ex_folder ex_disk ex_plain) as H.
  destruct (read_chunk _ _ _ _). split; [apply H|exact I].
Defined.

Lemma upload_round_trip_witness :
  exists sf2 d2, upload_chunks 7 [as_bytes "ab"; as_bytes "c"]
    (start_upload 7 "d/n.txt" 3 ex_folder ex_disk).1.1 (start_upload 7 "d/n.txt" 3 ex_folder ex_disk).1.2
    = (sf2, d2, Ok tt).
Proof.
  destruct (start_upload 7 "d/n.txt" 3 ex_folder ex_disk) as [[sf1 d1] r] eqn:E.
  assert (r = Ok tt) as -> by (change r with (sf1, d1, r).2; rewrite <-E; vm_compute; reflexivity).
  destruct (upload_round_trip 7 "d/n.txt" [as_bytes "ab"; as_bytes "c"] ex_folder ex_disk sf1 d1 ex_ok eq_refl)
    as (sf2 & d2 & _ & _ & _ & _ & _ & H & _).
  - repeat constructor; vm_compute; discriminate.
  - exact E.
  - by exists sf2, d2.
Defined.

(** A root that is a link is refused by uploads and listings, but read. *)
Definition linked_disk : Disk :=
  {| files := list_to_map [(["home"], NDir); (["home"; "u"], NDir); (ex_root, NSymlink ["home"; "u"]);
                           (["home"; "u"; "secret"], NFile (as_bytes "key"))]; faults := [] |}.
Lemma linked_root_is_read :
  (start_upload 1 "x" 0 ex_folder linked_disk).2 = Err Rejected /\
  (list_shared (fun l => l) 5 ex_folder linked_disk) = Some (linked_disk, Err Rejected) /\
  (read_chunk "secret" 0 ex_folder linked_disk).2 = Ok (as_bytes "key", 3%N, true).
Proof. split_and!; vm_compute; reflexivity. Qed.

(** Some files that are listed cannot be read: their names are not paths a
    client may send. *)
Definition colon_disk : Disk :=
  {| files := <[ex_root ++ ["Screenshot 12:30.png"] := NFile (as_bytes "png")]>
       (list_to_map [(["home"], NDir); (["home"; "u"], NDir); (ex_root, NDir)]); faults := [] |}.
Lemma listed_but_not_readable :
  (exists entries, list_shared (fun l => l) 5 ex_folder colon_disk = Some (colon_disk, Ok entries) /\
     map entry_path entries = ["Screenshot 12:30.png"%string]) /\
  (read_chunk "Screenshot 12:30.png" 0 ex_folder colon_disk).2 = Err Rejected.
Proof. split; [eexists; split; vm_compute; reflexivity|vm_compute; reflexivity]. Qed.

(** When the last rename of an upload fails, its part file stays and no upload
    remembers it: the same upload under the same id fails from then on. *)
Definition failing_disk : Disk := {| files := files ex_disk; faults := replicate 5 None ++ [Some 0] |}.
Lemma failed_finish_leaves_part :
  let '(sf1, d1, r1) := start_upload 1 "n" 0 ex_folder failing_disk in
  let '(sf2, d2, r2) := finish_upload 1 sf1 d1 in
  r1 = Ok tt /\ r2 = Err ShareIo /\ uploads sf2 = ∅ /\ faults d2 = [] /\
  files d2 !! (ex_root ++ [part_name "n" 1]) = Some (NFile []) /\
  (start_upload 1 "n" 0 sf2 d2).2 = Err ShareIo.
Proof. vm_compute. split_and!; reflexivity. Qed.
