(* ===== verification/Lan.v ===== *)
(** * The direct LAN application protocol

    rivetlink-sdk/src/lan.rs: the requests and responses over a sealed channel,
    the announcement of a client's identity, and the client's side: fetching a
    screenshot or a console capture, listing displays, running a stream. A
    side is a program over a byte stream, as in [Direct]; its sealed channel is
    threaded through. Connecting is in [Pins]. *)
From Stdlib Require Import NArith ZArith Lia Strings.String Strings.Byte.
From S2P Require Import Prelude Text Interfaces Instances Protocol Sealed Handshake Trusted Host.
From S2P Require Import ClientSession Direct SharedFolder.

Definition PROTOCOL_VERSION : N := 5.
Definition CODEC_H264 : string := "h264".
Definition IDENTITY_CONTEXT : bytes := as_bytes "rivetlink-lan-identify-v1".
Definition MAX_SEALED_FRAME : N := 32 * 1024 * 1024.

(** ** Messages *)

Module Ptr.
Inductive PtrButton := Left | Right | Middle.
#[global] Instance PtrButton_eq_dec : EqDecision PtrButton.
Proof. solve_decision. Defined.
End Ptr.

Record DisplayInfo := { display_id : N; display_name : string }.
Record TilePatch := { tile_index : N; jpeg_b64 : string }.
Record FrameDelta := { fd_w : N; fd_h : N; fd_tile : N; fd_keyframe : bool; fd_tiles : list TilePatch }.
Record VideoFrame := { vf_w : N; vf_h : N; vf_keyframe : bool; vf_data_b64 : string }.
Inductive StreamFrame :=
| Tiles (delta : FrameDelta)
| Video (frame : VideoFrame).

#[export] Instance DisplayInfo_eq_dec : EqDecision DisplayInfo.
Proof. solve_decision. Defined.
#[export] Instance TilePatch_eq_dec : EqDecision TilePatch.
Proof. solve_decision. Defined.
#[export] Instance FrameDelta_eq_dec : EqDecision FrameDelta.
Proof. solve_decision. Defined.
#[export] Instance VideoFrame_eq_dec : EqDecision VideoFrame.
Proof. solve_decision. Defined.
#[export] Instance StreamFrame_eq_dec : EqDecision StreamFrame.
Proof. solve_decision. Defined.
#[export] Instance SharedEntry_eq_dec : EqDecision SharedEntry.
Proof. solve_decision. Defined.

Module Req.
Inductive LanRequest :=
| Screenshot
| StartStream (fps : N) (display : option N) (name identity_key identity_sig : option string)
    (codecs : list string)
| ListDisplays
| SwitchDisplay (display : N)
| PointerMove (x y : N)
| PointerButton (button : Ptr.PtrButton) (down : bool)
| Scroll (dx dy : Z)
| Key (code : string) (down : bool)
| ConsoleCapture (inputs : list ConsoleInputPacket)
| EnableSharing
| ClipboardSet (text : string)
| FileUploadStart (id : N) (path : string) (size : N)
| FileUploadChunk (id : N) (data_b64 : string)
| FileUploadEnd (id : N)
| ListSharedFiles
| FileDownload (id : N) (path : string)
| RequestKeyframe.
#[global] Instance LanRequest_eq_dec : EqDecision LanRequest.
Proof. solve_decision. Defined.
End Req.
Abbreviation LanRequest := Req.LanRequest.

Module Resp.
Inductive LanResponse :=
| Screenshot (png_b64 : string)
| Frame (delta : FrameDelta)
| Video (frame : VideoFrame)
| Displays (displays : list DisplayInfo) (features : list string)
| ConsoleCapture (png_b64 : string) (state : option HostConsoleState) (generation : option N)
| SharingEnabled (clipboard files : bool)
| ClipboardText (text : string)
| FileUploaded (id : N) (path : string)
| SharedFiles (entries : list SharedEntry)
| FileChunk (id size : N) (data_b64 : string) (eof : bool)
| FileError (id : N) (message : string)
| Error (message : string).
#[global] Instance LanResponse_eq_dec : EqDecision LanResponse.
Proof. solve_decision. Defined.
End Resp.
Abbreviation LanResponse := Resp.LanResponse.

(** ** Countability, for executable encodings of the messages *)

#[export] Instance DisplayInfo_countable : Countable DisplayInfo.
Proof.
  refine (inj_countable' (fun d => (display_id d, display_name d))
    (fun '(i, n) => {| display_id := i; display_name := n |}) _). by intros [].
Defined.
#[export] Instance TilePatch_countable : Countable TilePatch.
Proof.
  refine (inj_countable' (fun d => (tile_index d, jpeg_b64 d))
    (fun '(i, n) => {| tile_index := i; jpeg_b64 := n |}) _). by intros [].
Defined.
#[export] Instance FrameDelta_countable : Countable FrameDelta.
Proof.
  refine (inj_countable' (fun d => (fd_w d, fd_h d, fd_tile d, fd_keyframe d, fd_tiles d))
    (fun '(w, h, t, k, l) => {| fd_w := w; fd_h := h; fd_tile := t; fd_keyframe := k; fd_tiles := l |}) _).
  by intros [].
Defined.
#[export] Instance VideoFrame_countable : Countable VideoFrame.
Proof.
  refine (inj_countable' (fun d => (vf_w d, vf_h d, vf_keyframe d, vf_data_b64 d))
    (fun '(w, h, k, b) => {| vf_w := w; vf_h := h; vf_keyframe := k; vf_data_b64 := b |}) _).
  by intros [].
Defined.
#[export] Instance SharedEntry_countable : Countable SharedEntry.
Proof.
  refine (inj_countable' (fun d => (entry_path d, entry_size d, entry_dir d))
    (fun '(p, z, k) => {| entry_path := p; entry_size := z; entry_dir := k |}) _).
  by intros [].
Defined.

Definition ptr_index (b : Ptr.PtrButton) : N :=
  match b with Ptr.Left => 0 | Ptr.Right => 1 | Ptr.Middle => 2 end.
Definition ptr_of_index (n : N) : Ptr.PtrButton :=
  match n with 0 => Ptr.Left | 1 => Ptr.Right | _ => Ptr.Middle end%N.
Definition flag (b : bool) : N := if b then 1 else 0.

(** Tag, numbers, signed numbers, optional texts, texts, inputs. *)
Definition request_fields : Type :=
  N * list N * list Z * list (option string) * list string * list ConsoleInputPacket.
Definition request_to_fields (r : LanRequest) : request_fields :=
  match r with
  | Req.Screenshot => (0, [], [], [], [], [])
  | Req.StartStream f d n k s c => (1, f :: option_list d, [], [n; k; s], c, [])
  | Req.ListDisplays => (2, [], [], [], [], [])
  | Req.SwitchDisplay d => (3, [d], [], [], [], [])
  | Req.PointerMove x y => (4, [x; y], [], [], [], [])
  | Req.PointerButton b d => (5, [ptr_index b; flag d], [], [], [], [])
  | Req.Scroll x y => (6, [], [x; y], [], [], [])
  | Req.Key c d => (7, [flag d], [], [], [c], [])
  | Req.ConsoleCapture i => (8, [], [], [], [], i)
  | Req.EnableSharing => (9, [], [], [], [], [])
  | Req.ClipboardSet t => (10, [], [], [], [t], [])
  | Req.FileUploadStart i p z => (11, [i; z], [], [], [p], [])
  | Req.FileUploadChunk i b => (12, [i], [], [], [b], [])
  | Req.FileUploadEnd i => (13, [i], [], [], [], [])
  | Req.ListSharedFiles => (14, [], [], [], [], [])
  | Req.FileDownload i p => (15, [i], [], [], [p], [])
  | Req.RequestKeyframe => (16, [], [], [], [], [])
  end%N.
Definition request_of_fields (f : request_fields) : option LanRequest :=
  match f with
  | (0, _, _, _, _, _) => Some Req.Screenshot
  | (1, f :: d, _, [n; k; s], c, _) => Some (Req.StartStream f (head d) n k s c)
  | (2, _, _, _, _, _) => Some Req.ListDisplays
  | (3, [d], _, _, _, _) => Some (Req.SwitchDisplay d)
  | (4, [x; y], _, _, _, _) => Some (Req.PointerMove x y)
  | (5, [b; d], _, _, _, _) => Some (Req.PointerButton (ptr_of_index b) (d =? 1)%N)
  | (6, _, [x; y], _, _, _) => Some (Req.Scroll x y)
  | (7, [d], _, _, [c], _) => Some (Req.Key c (d =? 1)%N)
  | (8, _, _, _, _, i) => Some (Req.ConsoleCapture i)
  | (9, _, _, _, _, _) => Some Req.EnableSharing
  | (10, _, _, _, [t], _) => Some (Req.ClipboardSet t)
  | (11, [i; z], _, _, [p], _) => Some (Req.FileUploadStart i p z)
  | (12, [i], _, _, [b], _) => Some (Req.FileUploadChunk i b)
  | (13, [i], _, _, _, _) => Some (Req.FileUploadEnd i)
  | (14, _, _, _, _, _) => Some Req.ListSharedFiles
  | (15, [i], _, _, [p], _) => Some (Req.FileDownload i p)
  | (16, _, _, _, _, _) => Some Req.RequestKeyframe
  | _ => None
  end%N.
#[export] Instance LanRequest_countable : Countable LanRequest.
Proof.
  refine (inj_countable request_to_fields request_of_fields _).
  intros [|f [d|] n k s c| | | |[] []| |? []| | | | | | | | |]; reflexivity.
Defined.

(** Tag, numbers, texts, displays, entries, state, frames. *)
Definition response_fields : Type :=
  N * list N * list string * list DisplayInfo * list SharedEntry * option N * list (FrameDelta + VideoFrame).
Definition response_to_fields (r : LanResponse) : response_fields :=
  match r with
  | Resp.Screenshot p => (0, [], [p], [], [], None, [])
  | Resp.Frame d => (1, [], [], [], [], None, [inl d])
  | Resp.Video v => (2, [], [], [], [], None, [inr v])
  | Resp.Displays d f => (3, [], f, d, [], None, [])
  | Resp.ConsoleCapture p s g => (4, option_list g, [p], [], [], option_map console_state_index s, [])
  | Resp.SharingEnabled c f => (5, [flag c; flag f], [], [], [], None, [])
  | Resp.ClipboardText t => (6, [], [t], [], [], None, [])
  | Resp.FileUploaded i p => (7, [i], [p], [], [], None, [])
  | Resp.SharedFiles e => (8, [], [], [], e, None, [])
  | Resp.FileChunk i z b e => (9, [i; z; flag e], [b], [], [], None, [])
  | Resp.FileError i m => (10, [i], [m], [], [], None, [])
  | Resp.Error m => (11, [], [m], [], [], None, [])
  end%N.
Definition response_of_fields (f : response_fields) : option LanResponse :=
  match f with
  | (0, _, [p], _, _, _, _) => Some (Resp.Screenshot p)
  | (1, _, _, _, _, _, [inl d]) => Some (Resp.Frame d)
  | (2, _, _, _, _, _, [inr v]) => Some (Resp.Video v)
  | (3, _, f, d, _, _, _) => Some (Resp.Displays d f)
  | (4, g, [p], _, _, s, _) => Some (Resp.ConsoleCapture p (option_map console_state_of_index s) (head g))
  | (5, [c; f], _, _, _, _, _) => Some (Resp.SharingEnabled (c =? 1)%N (f =? 1)%N)
  | (6, _, [t], _, _, _, _) => Some (Resp.ClipboardText t)
  | (7, [i], [p], _, _, _, _) => Some (Resp.FileUploaded i p)
  | (8, _, _, _, e, _, _) => Some (Resp.SharedFiles e)
  | (9, [i; z; e], [b], _, _, _, _) => Some (Resp.FileChunk i z b (e =? 1)%N)
  | (10, [i], [m], _, _, _, _) => Some (Resp.FileError i m)
  | (11, _, [m], _, _, _, _) => Some (Resp.Error m)
  | _ => None
  end%N.
#[export] Instance LanResponse_countable : Countable LanResponse.
Proof.
  refine (inj_countable response_to_fields response_of_fields _).
  intros [| | | |? [[]|] [|]|[] []| | | |? ? ? []| |]; reflexivity.
Defined.

(** ** The sealed transport *)

Section Transport.
Context `{Hash} `{Aead}.

Definition write_sealed (ch : SealedChannel) (plain : bytes) : Io SealedChannel :=
  let '(ch', r) := seal ch plain in
  do! sealed := io_lift (map_err (fun e => Sdk.Crypto (CryptoError_display e)) r) in
  if (u32_max <? len sealed)%N then io_fail (Sdk.Crypto "sealed frame too large")
  else
    do! _ := Direct.write_all (be_bytes 4 (len sealed)) in
    do! _ := Direct.write_all sealed in
    do! _ := flush in
    io_ret ch'.
Definition read_sealed (ch : SealedChannel) : Io (SealedChannel * bytes) :=
  do! len_buf := read_exact 4 in
  let len := be_val len_buf in
  if (MAX_SEALED_FRAME <? len)%N then io_fail (Sdk.Crypto "sealed frame too large")
  else
    do! buf := read_exact len in
    let '(ch', r) := Sealed.open ch buf in
    do! plain := io_lift (map_err (fun _ => Sdk.Crypto "decrypt failed") r) in
    io_ret (ch', plain).

(** [serde_json::to_vec] and [from_slice] around them. *)
Definition send_value {A : Type} `{!Serde A} (ch : SealedChannel) (value : A) : Io SealedChannel :=
  do! text := io_lift (map_err Sdk.SerdeError (to_json value)) in
  write_sealed ch (as_bytes text).
Definition recv_value {A : Type} `{!Serde A} (ch : SealedChannel) : Io (SealedChannel * A) :=
  do! (ch', plain) := read_sealed ch in
  do! value := io_lift (map_err Sdk.SerdeError (from_json (from_utf8 plain))) in
  io_ret (ch', value).

Context `{!Serde LanRequest} `{!Serde LanResponse}.
Definition send_request (ch : SealedChannel) (req : LanRequest) : Io SealedChannel := send_value ch req.
Definition recv_request (ch : SealedChannel) : Io (SealedChannel * LanRequest) := recv_value ch.
Definition send_response (ch : SealedChannel) (resp : LanResponse) : Io SealedChannel := send_value ch resp.
Definition recv_response (ch : SealedChannel) : Io (SealedChannel * LanResponse) := recv_value ch.
End Transport.

(** ** Identity announcements *)

Section Identity.
Context `{Ed25519} `{Base64}.

Definition identity_proof (identity : SigningKey) : string * string :=
  let pubkey := verifying_key identity in
  (b64_encode pubkey, b64_encode (ed_sign identity (IDENTITY_CONTEXT ++ pubkey))).
(** A slice that is an array of [n] bytes. *)
Definition exactly (n : nat) (b : bytes) : option bytes :=
  if (length b =? n)%nat then Some b else None.
Definition verify_identity (public_key_b64 sig_b64 : string) : option string :=
  let_some key_raw := ok (b64_decode (trim public_key_b64)) else None in
  let_some key_bytes := exactly 32 key_raw else None in
  let_some sig_raw := ok (b64_decode (trim sig_b64)) else None in
  let_some sig_bytes := exactly 64 sig_raw else None in
  if negb (vk_valid key_bytes) then None
  else if negb (ed_verify key_bytes (IDENTITY_CONTEXT ++ key_bytes) sig_bytes) then None
  else Some (b64_encode key_bytes).
End Identity.

(** ** The client *)

Record ConsoleCapture := {
  cc_png : bytes;
  cc_state : option HostConsoleState;
  cc_generation : option N;
}.

(** What a running stream hands to its callbacks, in order. *)
Inductive ClientEvent :=
| OnFrame (frame : StreamFrame)
| OnDisplays (displays : list DisplayInfo)
| OnShare (response : LanResponse).
(** How [stream_frames] came to its end: by its viewer, or not yet. *)
Inductive StreamEnd := StoppedByViewer | StillStreaming.

Section Client.
Context `{Ed25519} `{Base64} `{Hash} `{Aead}.
Context `{!Serde LanRequest} `{!Serde LanResponse}.

Definition decode_png (png_b64 : string) : Io bytes :=
  io_lift (map_err Sdk.Base64Error (b64_decode (trim png_b64))).
Definition fetch_screenshot (ch : SealedChannel) : Io (SealedChannel * bytes) :=
  do! ch := send_request ch Req.Screenshot in
  do! (ch, response) := recv_response ch in
  match response with
  | Resp.Screenshot png_b64 => do! png := decode_png png_b64 in io_ret (ch, png)
  | Resp.Error message => io_fail (Sdk.Lan message)
  | _ => io_fail (Sdk.Crypto "expected screenshot, got another response")
  end.
Definition console_capture_on (ch : SealedChannel) (inputs : list ConsoleInputPacket)
  : Io (SealedChannel * ConsoleCapture) :=
  do! ch := send_request ch (Req.ConsoleCapture inputs) in
  do! (ch, response) := recv_response ch in
  match response with
  | Resp.ConsoleCapture png_b64 state generation =>
      do! png := decode_png png_b64 in
      io_ret (ch, {| cc_png := png; cc_state := state; cc_generation := generation |})
  | Resp.Error message => io_fail (Sdk.Lan message)
  | _ => io_fail (Sdk.Crypto "expected physical-console capture response")
  end.
Definition list_displays_and_features (ch : SealedChannel)
  : Io (SealedChannel * (list DisplayInfo * list string)) :=
  do! ch := send_request ch Req.ListDisplays in
  do! (ch, response) := recv_response ch in
  match response with
  | Resp.Displays displays features => io_ret (ch, (displays, features))
  | Resp.Error message => io_fail (Sdk.Lan message)
  | _ => io_ret (ch, ([], []))
  end.
Definition list_displays (ch : SealedChannel) : Io (SealedChannel * list DisplayInfo) :=
  do! (ch, (displays, _)) := list_displays_and_features ch in io_ret (ch, displays).

(** The reading side of a stream. [on_frame] sees what was handed out before;
    [fuel] bounds the responses read. *)
Fixpoint stream_loop (fuel : nat) (on_frame : list ClientEvent -> StreamFrame -> bool)
  (ch : SealedChannel) (events : list ClientEvent) : Io (list ClientEvent * StreamEnd) :=
  match fuel with
  | O => io_ret (events, StillStreaming)
  | S fuel' =>
      do! (ch, response) := recv_response ch in
      let deliver frame :=
        let events' := events ++ [OnFrame frame] in
        if on_frame events frame then stream_loop fuel' on_frame ch events'
        else io_ret (events', StoppedByViewer) in
      match response with
      | Resp.Frame delta => deliver (Tiles delta)
      | Resp.Video video => deliver (Video video)
      | Resp.Error message => io_fail (Sdk.Lan message)
      | Resp.Displays displays _ => stream_loop fuel' on_frame ch (events ++ [OnDisplays displays])
      | Resp.SharingEnabled _ _ | Resp.ClipboardText _ | Resp.FileUploaded _ _ | Resp.SharedFiles _
      | Resp.FileChunk _ _ _ _ | Resp.FileError _ _ =>
          stream_loop fuel' on_frame ch (events ++ [OnShare response])
      | Resp.Screenshot _ | Resp.ConsoleCapture _ _ _ => stream_loop fuel' on_frame ch events
      end
  end.
Definition stream_frames (fuel : nat) (ch : SealedChannel) (fps : N) (display : option N)
  (name : option string) (identity : option SigningKey) (codecs : list string)
  (on_frame : list ClientEvent -> StreamFrame -> bool) : Io (list ClientEvent * StreamEnd) :=
  let proof := option_map identity_proof identity in
  do! ch := send_request ch
    (Req.StartStream fps display name (option_map fst proof) (option_map snd proof) codecs) in
  stream_loop fuel on_frame ch [].
(** Its writer task: the switches and inputs in the order they are taken off
    the two queues, until a write fails. *)
Fixpoint stream_writer (ch : SealedChannel) (requests : list LanRequest) : Io unit :=
  match requests with
  | [] => io_ret tt
  | req :: rest => do! ch := send_request ch req in stream_writer ch rest
  end.
End Client.

(** ** Delivery

    Two channels of one handshake with nothing in flight. *)
Record session (c h : SealedChannel) : Prop := {
  session_out : direction c h;
  session_in : direction h c;
  session_sent : next_recv h = next_send c;
  session_received : next_recv c = next_send h;
}.
Lemma established_session c h : established c h -> session c h.
Proof. intros [D1 D2 (E1 & E2 & E3 & E4)]. split; [done..|by rewrite E1, E4|by rewrite E2, E3]. Qed.
Lemma session_sym c h : session c h -> session h c.
Proof. by intros []. Qed.

Definition sealed_frame (s : bytes) : bytes := be_bytes 4 (len s) ++ s.
(** One message went from [c] to [h]. *)
Definition after_send (c : SealedChannel) : SealedChannel := set_next_send (next_send c + 1) c.
Definition after_recv (h : SealedChannel) : SealedChannel := set_next_recv (next_recv h + 1) h.
Lemma session_advance c h : session c h -> session (after_send c) (after_recv h).
Proof. intros [[] [] E1 E2]. split; [done..|by cbn; rewrite E1|done]. Qed.

(** A text that fits a frame with header and tag. *)
Definition fits (text : string) : Prop := (slen text + 25 <= MAX_SEALED_FRAME)%N.

Section Delivery.
Context `{HashLaws} `{AeadLaws}.

Lemma sealed_delivery c h m : session c h -> (next_send c < u64_max)%N -> (len m + 25 <= MAX_SEALED_FRAME)%N ->
  exists s, seal c m = (after_send c, Ok s) /\ Sealed.open h s = (after_recv h, Ok m) /\
    (len s <= MAX_SEALED_FRAME)%N.
Proof.
  intros S Hn Hl. destruct (seal_cases c m) as [[E _]|[(_ & x & Hx & E)|(_ & e & Hx & _)]]; [lia| |].
  - eexists. split; [exact E|]. rewrite (open_sealed c h) with (m := m) by (apply S || done).
    rewrite (session_sent _ _ S), N.eqb_refl. unfold after_recv. rewrite (session_sent _ _ S). split; [done|].
    apply aead_encrypt_length in Hx. unfold len in *. rewrite length_app, length_header. unfold HEADER_LEN. lia.
  - pose proof (aead_encrypt_ok (send_key c) (nonce (next_send c))
      (aad (header (next_send c)) (binding_hash c)) m) as K. rewrite Hx in K. exfalso.
    assert (false = true) by (apply K; unfold MAX_SEALED_FRAME in Hl; lia). done.
Qed.

Lemma emits_write_sealed c c' m s : seal c m = (c', Ok s) -> (len s <= MAX_SEALED_FRAME)%N ->
  emits (write_sealed c m) (sealed_frame s) (io_ret c').
Proof.
  intros E L. unfold write_sealed. rewrite E. cbn [map_err io_lift io_bind].
  destruct (N.ltb_spec u32_max (len s)) as [Hc|_]; [unfold MAX_SEALED_FRAME, u32_max in *; lia|].
  unfold sealed_frame. generalize (be_bytes 4 (len s)). intros hd. cbn.
  apply emits_write. cbn. apply emits_write_last. cbn. apply emits_flush. constructor.
Qed.
Lemma absorbs_read_sealed h h' m s : Sealed.open h s = (h', Ok m) -> (len s <= MAX_SEALED_FRAME)%N ->
  absorbs (read_sealed h) (sealed_frame s) (io_ret (h', m)).
Proof.
  intros E L. unfold read_sealed, read_exact, sealed_frame. cbn [io_bind].
  change 4%N with (len (be_bytes 4 (len s))). constructor. cbn [map_err io_bind].
  rewrite be_val_be_bytes, N.mod_small by (unfold MAX_SEALED_FRAME in L; simpl; lia).
  destruct (N.ltb_spec MAX_SEALED_FRAME (len s)) as [Hc|_]; [lia|].
  apply absorbs_read_last. cbn. rewrite E. constructor.
Qed.

Context {M : Type} `{SerdeLaws M}.

(** A message that is sent is received, whoever reads next. *)
Lemma value_delivery c h (m : M) t : session c h -> (next_send c < u64_max)%N -> to_json m = Ok t -> fits t ->
  exists b, emits (send_value c m) b (io_ret (after_send c)) /\
            absorbs (recv_value h) b (io_ret (after_recv h, m)).
Proof.
  intros S Hn J Hf. destruct (sealed_delivery c h (as_bytes t) S Hn Hf) as (s & E1 & E2 & L).
  exists (sealed_frame s). split.
  - unfold send_value. rewrite J. by apply emits_write_sealed.
  - unfold recv_value. eapply absorbs_to; [apply absorbs_bind; by apply absorbs_read_sealed|].
    cbn. by rewrite from_utf8_as_bytes, (from_to_json _ _ J).
Qed.
Lemma left_sends {A B} c h (m : M) t kc kh :
  session c h -> (next_send c < u64_max)%N -> to_json m = Ok t -> fits t ->
  rtc pair_step (Build_Pair (io_bind (send_value c m) kc) (io_bind (recv_value h) kh) [] [])
    (Build_Pair (kc (after_send c) : Io A) (kh (after_recv h, m) : Io B) [] []).
Proof.
  intros S Hn J Hf. destruct (value_delivery c h m t S Hn J Hf) as (b & E1 & E2).
  etrans; [apply left_emits, emits_bind, E1|]. cbn [app].
  rewrite <-(app_nil_r b). apply right_absorbs. apply (absorbs_bind _ _ _ kh E2).
Qed.
Lemma right_sends {A B} c h (m : M) t kc kh :
  session h c -> (next_send h < u64_max)%N -> to_json m = Ok t -> fits t ->
  rtc pair_step (Build_Pair (io_bind (recv_value c) kc) (io_bind (send_value h m) kh) [] [])
    (Build_Pair (kc (after_recv c, m) : Io A) (kh (after_send h) : Io B) [] []).
Proof.
  intros S Hn J Hf. destruct (value_delivery h c m t S Hn J Hf) as (b & E1 & E2).
  etrans; [apply right_emits, emits_bind, E1|]. cbn [app].
  rewrite <-(app_nil_r b). apply left_absorbs. apply (absorbs_bind _ _ _ kc E2).
Qed.
End Delivery.

(** ** Identity announcements, round trip and soundness *)

Section IdentityProofs.
Context `{Ed25519Laws} `{Base64Laws}.

(** The exact meaning of an accepted announcement. *)
Lemma verify_identity_iff k s id : verify_identity k s = Some id <->
  exists key sg, b64_decode (trim k) = Ok key /\ b64_decode (trim s) = Ok sg /\ length key = 32 /\
    length sg = 64 /\ vk_valid key = true /\ ed_verify key (IDENTITY_CONTEXT ++ key) sg = true /\
    id = b64_encode key.
Proof.
  unfold verify_identity, exactly. split.
  - intros E. destruct (b64_decode (trim k)) as [key|] eqn:Ek; [|done]. cbn [ok] in E.
    destruct (Nat.eqb_spec (length key) 32); [|done].
    destruct (b64_decode (trim s)) as [sg|] eqn:Es; [|done]. cbn [ok] in E.
    destruct (Nat.eqb_spec (length sg) 64); [|done].
    cbn [negb] in E. destruct (vk_valid key) eqn:V; [|done]. cbn [negb] in E. destruct (ed_verify _ _ _) eqn:Ev; [|done]. cbn [negb] in E.
    simplify_eq. by exists key, sg.
  - intros (key & sg & -> & -> & L1 & L2 & V & Ev & ->). cbn [ok].
    rewrite (proj2 (Nat.eqb_eq _ _) L1), (proj2 (Nat.eqb_eq _ _) L2), V, Ev. done.
Qed.
Lemma verify_identity_proof sk :
  verify_identity (identity_proof sk).1 (identity_proof sk).2 = Some (b64_encode (verifying_key sk)).
Proof.
  apply verify_identity_iff. unfold identity_proof. cbn [fst snd].
  rewrite !trim_trimmed, !b64_decode_encode by apply b64_encode_trimmed.
  eexists _, _. split_and!; [done..| | | | |done]; [apply verifying_key_length|apply ed_sign_length|
    apply verifying_key_valid|apply ed_verify_sign].
Qed.
End IdentityProofs.

(** ** A stream, end to end *)

(** What a response is to the callbacks of a stream. *)
Definition client_event (r : LanResponse) : option ClientEvent :=
  match r with
  | Resp.Frame delta => Some (OnFrame (Tiles delta))
  | Resp.Video video => Some (OnFrame (Video video))
  | Resp.Displays displays _ => Some (OnDisplays displays)
  | Resp.SharingEnabled _ _ | Resp.ClipboardText _ | Resp.FileUploaded _ _ | Resp.SharedFiles _
  | Resp.FileChunk _ _ _ _ | Resp.FileError _ _ => Some (OnShare r)
  | Resp.Screenshot _ | Resp.ConsoleCapture _ _ _ | Resp.Error _ => None
  end.
Definition is_error (r : LanResponse) : bool := match r with Resp.Error _ => true | _ => false end.

(** A host that takes one request and then pushes responses. *)
Section Stream.
Context `{Ed25519} `{Base64} `{HashLaws} `{AeadLaws}.
Context `{!Serde LanRequest} `{!SerdeLaws LanRequest} `{!Serde LanResponse} `{!SerdeLaws LanResponse}.

Fixpoint push_all (h : SealedChannel) (responses : list LanResponse) : Io SealedChannel :=
  match responses with
  | [] => io_ret h
  | r :: rest => do! h := send_response h r in push_all h rest
  end.
Definition json_fits {M : Type} `{!Serde M} (m : M) : Prop := exists t, to_json m = Ok t /\ fits t.

Lemma stream_loop_push {A} c h responses events (k : SealedChannel -> Io A) :
  session h c -> Forall (fun r => is_error r = false /\ json_fits r) responses ->
  (next_send h + len responses <= u64_max)%N ->
  rtc pair_step
    (Build_Pair (stream_loop (length responses) (fun _ _ => true) c events)
       (io_bind (push_all h responses) k) [] [])
    (Build_Pair (io_ret (events ++ omap client_event responses, StillStreaming))
       (k (set_next_send (next_send h + len responses) h)) [] []).
Proof.
  intros S F. revert c h events S. induction F as [|r rs [He (t & J & Ht)] F IH]; intros c h events S L.
  - cbn. rewrite app_nil_r. change (len []) with 0%N. rewrite N.add_0_r. destruct h; done.
  - assert (len (r :: rs) = 1 + len rs)%N as El by (unfold len; cbn [length]; lia). rewrite El in *.
    cbn [length stream_loop push_all]. unfold recv_response, send_response.
    destruct (value_delivery h c r t S ltac:(lia) J Ht) as (b & E1 & E2).
    etrans; [apply right_emits, emits_bind, emits_bind, E1|]. cbn [app].
    rewrite <-(app_nil_r b). etrans; [eapply left_absorbs, absorbs_bind, E2|]. cbn [io_ret io_bind].
    assert (session (after_send h) (after_recv c)) as S' by by apply session_advance.
    assert (forall ev, client_event r = ev ->
      omap client_event (r :: rs) = option_list ev ++ omap client_event rs) as Eo.
    { intros ev <-. cbn. by destruct (client_event r). }
    rewrite (Eo _ eq_refl), app_assoc.
    assert (set_next_send (next_send h + (1 + len rs)) h =
            set_next_send (next_send (after_send h) + len rs) (after_send h)) as ->.
    { unfold after_send, set_next_send. cbn. by rewrite N.add_assoc. }
    assert (next_send (after_send h) + len rs <= u64_max)%N as L' by (cbn; lia).
    destruct r; try discriminate He; cbn [client_event option_list];
      rewrite ?app_nil_r; by apply IH.
Qed.

(** C20. A stream from start to end: a host that took the start of a stream and
    pushes responses, none of them an error, hands the client exactly them, in
    order and each to its callback, whatever the interleaving of their writes
    and reads; the stray ones are skipped. *)
Theorem stream_delivers_in_order c h fps display name identity codecs responses :
  session c h -> (next_send c < u64_max)%N -> (next_send h + len responses <= u64_max)%N ->
  let request := Req.StartStream fps display name (option_map (fun id => (identity_proof id).1) identity)
                   (option_map (fun id => (identity_proof id).2) identity) codecs in
  json_fits request -> Forall (fun r => is_error r = false /\ json_fits r) responses ->
  let start := Build_Pair
    (stream_frames (length responses) c fps display name identity codecs (fun _ _ => true))
    (do! (h, taken) := recv_request h in do! h := push_all h responses in io_ret (h, taken)) [] [] in
  forall x, rtc pair_step start x ->
  exists h', rtc pair_step x
    (Build_Pair (io_ret (omap client_event responses, StillStreaming)) (io_ret (h', request)) [] []).
Proof.
  intros S Lc Lh request (t & J & Ht) F start x Hx.
  exists (set_next_send (next_send h + len responses) (after_recv h)).
  eapply pair_confluent; [|apply pair_done_nf|exact Hx]. subst start.
  unfold stream_frames, send_request, recv_request.
  assert (forall o : option SigningKey, option_map fst (option_map identity_proof o) =
    option_map (fun id => (identity_proof id).1) o /\ option_map snd (option_map identity_proof o) =
    option_map (fun id => (identity_proof id).2) o) as Em by by intros [].
  destruct (Em identity) as [-> ->]. fold request.
  etrans; [apply (left_sends c h request t); done|]. cbn beta iota.
  assert (session (after_recv h) (after_send c)) as S' by by apply session_sym, session_advance.
  pose proof (stream_loop_push (after_send c) (after_recv h) responses [] (fun h => io_ret (h, request)) S' F Lh) as R.
  exact R.
Qed.
End Stream.

(** ** Concrete channels and messages, for witnesses *)

#[export] Instance lan_request_serde : Serde LanRequest := toy_serde LanRequest.
#[export] Instance lan_request_serde_laws : SerdeLaws LanRequest := toy_serde_laws LanRequest.
#[export] Instance lan_response_serde : Serde LanResponse := toy_serde LanResponse.
#[export] Instance lan_response_serde_laws : SerdeLaws LanResponse := toy_serde_laws LanResponse.

Lemma witness_session : session (witness_channel Initiator) (witness_channel Responder).
Proof.
  split; [split|split| |]; vm_compute; reflexivity.
Qed.
Lemma json_fits_toy {M : Type} `{!Serde M} (m : M) :
  match to_json m with Ok t => (slen t + 25 <=? MAX_SEALED_FRAME)%N | Err _ => false end = true -> json_fits m.
Proof.
  unfold json_fits, fits. destruct (to_json m) as [t|]; [|done]. intros E%N.leb_le. by exists t.
Qed.

Definition wl_responses : list LanResponse :=
  [Resp.Video {| vf_w := 2; vf_h := 1; vf_keyframe := true; vf_data_b64 := "AA" |};
   Resp.Screenshot "x"; Resp.Displays [{| display_id := 0; display_name := "a" |}] []].
Lemma stream_delivers_in_order_witness :
  exists h', rtc pair_step
    (Build_Pair
      (stream_frames 3 (witness_channel Initiator) 30 None None (Some (31%N : @SigningKey toy_ed25519)) [CODEC_H264]
         (fun _ _ => true))
      (do! (h, taken) := recv_request (witness_channel Responder) in
       do! h := push_all h wl_responses in io_ret (h, taken)) [] [])
    (Build_Pair
      (io_ret ([OnFrame (Video {| vf_w := 2; vf_h := 1; vf_keyframe := true; vf_data_b64 := "AA" |});
                OnDisplays [{| display_id := 0; display_name := "a" |}]], StillStreaming))
      (io_ret (h', Req.StartStream 30 None None
         (Some (identity_proof (31%N : @SigningKey toy_ed25519)).1)
         (Some (identity_proof (31%N : @SigningKey toy_ed25519)).2) [CODEC_H264])) [] []).
Proof.
  apply (stream_delivers_in_order (witness_channel Initiator) (witness_channel Responder) 30 None None
    (Some (31%N : @SigningKey toy_ed25519)) [CODEC_H264] wl_responses witness_session).
  - vm_compute. reflexivity.
  - vm_compute. discriminate.
  - apply json_fits_toy. vm_compute. reflexivity.
  - repeat constructor; apply json_fits_toy; vm_compute; reflexivity.
  - apply rtc_refl.
Defined.
