(* ===== verification/P2p.v ===== *)
(** * Direct paths between two peers

    rivetlink-sdk/src/p2p.rs: the addresses a peer may be reached on, the reply
    of a STUN server, the offer and the answer that travel through the relay,
    and the host's choice of a connection by its token. QUIC, the sockets and
    the name server are answers of the environment; a slice indexed out of its
    range is the value [None]. *)
From Stdlib Require Import NArith Lia Strings.String Strings.Byte.
From stdpp Require Import countable.
From S2P Require Import Prelude Text Interfaces Instances Protocol ClientSession.

(** ** Addresses *)

(** An address is its number; an IPv6 one has 128 bits. *)
Inductive IpAddr := V4 (ip : N) | V6 (ip : N).
Record SocketAddr := { ip : IpAddr; port : N }.
#[export] Instance IpAddr_eq_dec : EqDecision IpAddr.
Proof. solve_decision. Defined.
#[export] Instance SocketAddr_eq_dec : EqDecision SocketAddr.
Proof. solve_decision. Defined.
#[export] Instance SocketAddr_countable : Countable SocketAddr.
Proof.
  refine (inj_countable'
    (fun a => match ip a with V4 n => (true, n, port a) | V6 n => (false, n, port a) end)
    (fun '(v4, n, p) => {| ip := (if v4 : bool then V4 n else V6 n); port := p |}) _).
  by intros [[] ?].
Defined.

(** The predicates of [Ipv4Addr], by the first octets. *)
Definition v4_octet (i ip : N) : N := (ip / 256 ^ (3 - i)) mod 256.
Definition v4_is_unspecified (ip : N) : bool := (ip =? 0)%N.
Definition v4_is_loopback (ip : N) : bool := (v4_octet 0 ip =? 127)%N.
Definition v4_is_multicast (ip : N) : bool := (224 <=? v4_octet 0 ip)%N && (v4_octet 0 ip <=? 239)%N.
Definition v4_is_broadcast (ip : N) : bool := (ip =? u32_max)%N.
Definition v4_is_link_local (ip : N) : bool := (v4_octet 0 ip =? 169)%N && (v4_octet 1 ip =? 254)%N.
Definition is_ipv4 (a : SocketAddr) : bool := match ip a with V4 _ => true | V6 _ => false end.

(** ** Candidates *)

Definition TOKEN_LEN : nat := 16.
Definition MAX_CANDIDATES : nat := 8.
Definition STUN_TRIES : nat := 3.

Definition dialable (addr : SocketAddr) : bool :=
  match ip addr with
  | V4 ip =>
      negb (port addr =? 0)%N && negb (v4_is_unspecified ip) && negb (v4_is_loopback ip) &&
      negb (v4_is_multicast ip) && negb (v4_is_broadcast ip)
  | V6 _ => false
  end.
Definition usable (candidates : list SocketAddr) : list SocketAddr :=
  base.filter (fun a => dialable a = true) (take MAX_CANDIDATES candidates).

Definition same (a b : bytes) : bool :=
  (fold_left (fun acc p => N.lor acc (N.lxor (Byte.to_N p.1) (Byte.to_N p.2))) (zip a b) 0 =? 0)%N.

(** ** The reply of a STUN server *)

Definition STUN_MAGIC : N := 0x2112A442.

(** [slice::get] of a range, and of a range without an end. *)
Definition get_range (b : bytes) (lo hi : N) : option bytes :=
  if (lo <=? hi)%N && (hi <=? len b)%N then Some (take (N.to_nat (hi - lo)) (drop (N.to_nat lo) b)) else None.
Definition get_from (b : bytes) (lo : N) : option bytes :=
  if (lo <=? len b)%N then Some (drop (N.to_nat lo) b) else None.
Definition next_multiple_of (n m : N) : N := ((n + m - 1) / m * m)%N.
Definition u16_at (b : bytes) (i : nat) : option N :=
  x ← b !! i; y ← b !! S i; Some (be_val [x; y]).

Definition mapped (value : bytes) : option SocketAddr :=
  x ← u16_at value 2;
  if (length value =? 8)%nat
  then Some {| ip := V4 (N.lxor (be_val (drop 4 value)) STUN_MAGIC); port := N.lxor x 0x2112 |}
  else None.

(** The attributes, 4 bytes at least each. *)
Fixpoint mapped_address (fuel : nat) (attrs : bytes) : option (option SocketAddr) :=
  if (len attrs <? 4)%N then Some None
  else
    match fuel with
    | O => None
    | S fuel' =>
        let_some kind := u16_at attrs 0 else None in
        let_some l := u16_at attrs 2 else None in
        let_some value := get_range attrs 4 (4 + l) else Some None in
        let next :=
          let_some attrs := get_from attrs (next_multiple_of (4 + l) 4) else Some None in
          mapped_address fuel' attrs in
        if (kind =? 0x0020)%N && (l =? 8)%N then
          let_some family := value !! 1 else None in
          if Byte.eqb family Byte.x01 then
            let_some addr := mapped value else None in Some (Some addr)
          else next
        else next
    end.

Definition parse_binding_response (msg txid : bytes) : option (option SocketAddr) :=
  let_some kind := get_range msg 0 2 else Some None in
  if negb (bool_decide (kind = [Byte.x01; Byte.x01])) then Some None else
  let_some magic := get_range msg 4 8 else Some None in
  if negb (bool_decide (magic = be_bytes 4 STUN_MAGIC)) then Some None else
  let_some id := get_range msg 8 20 else Some None in
  if negb (bool_decide (id = txid)) then Some None else
  let_some l := u16_at msg 2 else Some None in
  let_some attrs := get_range msg 20 (20 + l) else Some None in
  mapped_address (length attrs) attrs.

Definition binding_request (txid : bytes) : bytes :=
  be_bytes 2 1 ++ be_bytes 2 0 ++ be_bytes 4 STUN_MAGIC ++ txid.

(** What arrives while one try waits; [Waited] ends it. *)
Inductive StunEvent :=
| Datagram (data : bytes) (from : SocketAddr)
| RecvFails.
Inductive TryEnd := Found (addr : SocketAddr) | GivesUp | TriesAgain | IndexPanic.
(** The buffer takes 512 bytes of a datagram. *)
Fixpoint await_response (server : SocketAddr) (txid : bytes) (events : list StunEvent) : TryEnd :=
  match events with
  | [] => TriesAgain
  | RecvFails :: _ => GivesUp
  | Datagram data from :: events =>
      if decide (from = server) then
        match parse_binding_response (take 512 data) txid with
        | Some (Some addr) => Found addr
        | Some None => await_response server txid events
        | None => IndexPanic
        end
      else await_response server txid events
  end.
(** A try: whether the request was sent, and what arrived before the wait was over. *)
Fixpoint stun_tries (server : SocketAddr) (txid : bytes) (tries : list (bool * list StunEvent)) : TryEnd :=
  match tries with
  | [] => GivesUp
  | (false, _) :: _ => GivesUp
  | (true, events) :: tries =>
      match await_response server txid events with
      | TriesAgain => stun_tries server txid tries
      | r => r
      end
  end.
Definition reflexive_addr (server : SocketAddr) (txid : bytes) (tries : list (bool * list StunEvent)) : TryEnd :=
  stun_tries server txid (take STUN_TRIES tries).

(** ** Gathering *)

Definition p2p_error (message : string) : Sdk.SdkError := Sdk.Relay ("direct connection: " ++ message).

(** What the system answers: the socket's port, its interfaces ([None] when
    they cannot be listed), the look-up of the STUN server's name ([None] when
    it takes too long) and the exchange with it. *)
Record GatherEnv := {
  bound : Result N io.Error;
  interfaces : option (list IpAddr);
  lookup_host : option (Result (list SocketAddr) io.Error);
  stun_txid : bytes;
  stun_exchange : list (bool * list StunEvent);
}.
Definition local_candidates (port : N) (ifaces : list IpAddr) : list SocketAddr :=
  omap (fun i => match i with
                 | V4 ip => if negb (v4_is_loopback ip) && negb (v4_is_link_local ip)
                            then Some {| ip := V4 ip; port := port |} else None
                 | V6 _ => None
                 end) ifaces.
(** [None] would be an index out of range in the reply of the server. *)
Definition bind_and_gather (stun : bool) (env : GatherEnv) : option (Result (list SocketAddr) Sdk.SdkError) :=
  match bound env with
  | Err e => Some (Err (Sdk.Io e))
  | Ok port =>
      let candidates := local_candidates port (default [] (interfaces env)) in
      if negb stun then Some (Ok (take MAX_CANDIDATES candidates))
      else
        match lookup_host env with
        | None => Some (Err (p2p_error "STUN server name did not resolve in time"))
        | Some (Err e) => Some (Err (Sdk.Io e))
        | Some (Ok found) =>
            match base.filter (fun a => is_ipv4 a = true) found with
            | [] => Some (Err (p2p_error "STUN server has no IPv4 address"))
            | server :: _ =>
                match reflexive_addr server (stun_txid env) (stun_exchange env) with
                | IndexPanic => None
                | Found public =>
                    Some (Ok (take MAX_CANDIDATES
                                (if bool_decide (public ∈ candidates) then candidates else public :: candidates)))
                | _ => Some (Ok (take MAX_CANDIDATES candidates))
                end
            end
        end
  end.

(** ** The offer and the answer *)

Inductive Signal :=
| Offer (token : string) (candidates : list SocketAddr)
| Answer (candidates : list SocketAddr).
#[export] Instance Signal_eq_dec : EqDecision Signal.
Proof. solve_decision. Defined.
#[export] Instance Signal_countable : Countable Signal.
Proof.
  refine (inj_countable'
    (fun s => match s with Offer t c => inl (t, c) | Answer c => inr c end)
    (fun s => match s with inl (t, c) => Offer t c | inr c => Answer c end) _).
  by intros [].
Defined.

Section Signaling.
Context `{Base64} `{!Serde Signal}.

(** The client: its offer, if it was sent, and the addresses it dials. [sent]
    says whether the offer could be queued. The signals that are no answer are
    skipped; an exhausted list is a closed session. *)
Fixpoint first_answer (incoming : list string) : option (list SocketAddr) :=
  match incoming with
  | [] => None
  | text :: incoming =>
      match from_json text with
      | Ok (Answer candidates) => Some (usable candidates)
      | _ => first_answer incoming
      end
  end.
Definition connect_offer (token : bytes) (candidates : list SocketAddr) : Result string Sdk.SdkError :=
  map_err Sdk.SerdeError (to_json (Offer (b64_encode token) candidates)).
Definition connect_peers (sent : bool) (incoming : list string) : Result (list SocketAddr) Sdk.SdkError :=
  if negb sent then Err (p2p_error "relay session closed")
  else
    match first_answer incoming with
    | None => Err (p2p_error "relay session closed")
    | Some [] => Err (p2p_error "host offered no usable address")
    | Some peer => Ok peer
    end.
(** [connected] is the first address that answers ([select_ok]), or the error
    of the last; then the token opens the stream. *)
Definition connect (gather : Result (list SocketAddr) Sdk.SdkError) (token : bytes) (sent : string -> bool)
    (incoming : list string) (connected : list SocketAddr -> Result SocketAddr Sdk.SdkError)
    (stream_opens : Result unit Sdk.SdkError)
  : Result (SocketAddr * bytes) Sdk.SdkError :=
  let? candidates := gather in
  let? offer := connect_offer token candidates in
  let? peer := connect_peers (sent offer) incoming in
  let? addr := connected peer in
  let? _ := stream_opens in
  Ok (addr, token).

(** The host's reading of an offer: the token and where to send a packet. *)
Definition read_offer (offer : string) : Result (bytes * list SocketAddr) Sdk.SdkError :=
  match from_json offer with
  | Ok (Offer token candidates) =>
      match b64_decode token with
      | Ok t => if (length t =? TOKEN_LEN)%nat then Ok (t, usable candidates)
                else Err (p2p_error "bad offer token")
      | Err _ => Err (p2p_error "bad offer token")
      end
  | _ => Err (p2p_error "not an offer")
  end.

(** ** Choosing a connection

    A connection that arrives is checked on its own: its first stream, when it
    opens one, is what the peer sends on it. *)
Definition check_token (token : bytes) (stream : option bytes) : bool :=
  match stream with
  | Some sent => (TOKEN_LEN <=? length sent)%nat && same (take TOKEN_LEN sent) token
  | None => false
  end.
Inductive AcceptEvent :=
| Arrives (connection : nat) (stream : option bytes)
| CheckEnds (index : nat)
| EndpointClosed.
(** The running checks; the rest of the events when a connection is found. *)
Fixpoint accept_loop (token : bytes) (checks : list (nat * option bytes)) (events : list AcceptEvent)
  : list (nat * option bytes) * option (nat * option bytes) :=
  match events with
  | [] | EndpointClosed :: _ => (checks, None)
  | Arrives c stream :: events =>
      if (length checks <? MAX_CANDIDATES)%nat
      then accept_loop token (checks ++ [(c, stream)]) events
      else accept_loop token checks events
  | CheckEnds i :: events =>
      match checks !! i with
      | None => accept_loop token checks events
      | Some (c, stream) =>
          if check_token token stream then (delete i checks, Some (c, stream))
          else accept_loop token (delete i checks) events
      end
  end.
(** Until the time is over ([events] ends): where packets were sent to open the
    way, the answer, and the connection that is bridged. *)
Definition accept (offer : string) (gather : Result (list SocketAddr) Sdk.SdkError)
    (endpoint : Result unit Sdk.SdkError) (sent : string -> bool) (events : list AcceptEvent)
  : list SocketAddr * option string * Result (nat * option bytes) Sdk.SdkError :=
  match read_offer offer with
  | Err e => ([], None, Err e)
  | Ok (token, peer) =>
      match gather with
      | Err e => ([], None, Err e)
      | Ok ours =>
          match (let? _ := endpoint in map_err Sdk.SerdeError (to_json (Answer ours))) with
          | Err e => (peer, None, Err e)
          | Ok answer =>
              if negb (sent answer) then (peer, Some answer, Err (p2p_error "relay session closed"))
              else
                (peer, Some answer,
                 match (accept_loop token [] events).2 with
                 | Some found => Ok found
                 | None => Err (p2p_error "client did not connect")
                 end)
          end
      end
  end.
End Signaling.

(** ** Attributes of a reply *)

Record Attr := { a_kind : N; a_value : bytes; a_pad : bytes }.
Definition attr_ok (a : Attr) : Prop :=
  (a_kind a < 65536)%N /\ (len (a_value a) < 65536)%N /\
  (4 + len (a_value a) + len (a_pad a) = next_multiple_of (4 + len (a_value a)) 4)%N.
Definition encode_attr (a : Attr) : bytes :=
  be_bytes 2 (a_kind a) ++ be_bytes 2 (len (a_value a)) ++ a_value a ++ a_pad a.
Definition is_mapped (kind : N) (value : bytes) : bool :=
  (kind =? 0x0020)%N && (len value =? 8)%N && bool_decide (value !! 1 = Some Byte.x01).

Lemma u16_at_be n r : (n < 65536)%N -> u16_at (be_bytes 2 n ++ r) 0 = Some n.
Proof.
  intros Hn. pose proof (length_be_bytes 2 n) as L.
  pose proof (be_val_be_bytes 2 n) as V. rewrite N.mod_small in V by done.
  destruct (be_bytes 2 n) as [|x [|y [|]]]; try done. simpl. unfold u16_at. simpl. by rewrite V.
Qed.
Lemma u16_at_skip b r i : length b = 2 -> u16_at (b ++ r) (2 + i) = u16_at r i.
Proof. intros L. destruct b as [|x [|y [|]]]; done. Qed.
Lemma u16_at_be_bytes b n : u16_at b 0 = Some n -> length b >= 2 -> b = be_bytes 2 n ++ drop 2 b /\ (n < 65536)%N.
Proof.
  destruct b as [|a [|c b]]; [cbn; lia..|]. intros [= <-] _.
  pose proof (be_bytes_be_val [a; c]) as E. pose proof (be_val_bound [a; c]) as B.
  change (256 ^ len [a; c])%N with 65536%N in B. cbn [length] in E. by rewrite E.
Qed.
Lemma get_range_app a b c lo hi : lo = len a -> hi = (lo + len b)%N -> get_range (a ++ b ++ c) lo hi = Some b.
Proof.
  intros -> ->. unfold get_range, len. rewrite !length_app.
  rewrite (proj2 (N.leb_le _ _)), (proj2 (N.leb_le _ _)) by lia. cbn [andb].
  rewrite Nat2N.id, drop_app_length.
  replace (N.to_nat _) with (length b) by lia. by rewrite take_app_length.
Qed.
Lemma get_from_app a b lo : lo = len a -> get_from (a ++ b) lo = Some b.
Proof.
  intros ->. unfold get_from, len. rewrite length_app, (proj2 (N.leb_le _ _)) by lia.
  by rewrite Nat2N.id, drop_app_length.
Qed.
Lemma get_range_Some b lo hi v : get_range b lo hi = Some v ->
  (lo <= hi)%N /\ len v = (hi - lo)%N /\ b = take (N.to_nat lo) b ++ v ++ drop (N.to_nat hi) b.
Proof.
  unfold get_range. destruct (N.leb_spec lo hi), (N.leb_spec hi (len b)); simpl; intros [= <-].
  split; [done|]. unfold len in *. rewrite length_take, length_drop. split; [lia|].
  rewrite <-(take_drop (N.to_nat lo) b) at 1. f_equal.
  rewrite <-(take_drop (N.to_nat (hi - lo)) (drop _ b)) at 1. f_equal. rewrite drop_drop. f_equal. lia.
Qed.

Section Reply.
Context (txid : bytes) (txid_length : length txid = 12).

Lemma mapped_some value : len value = 8%N -> is_Some (mapped value) /\ is_Some (value !! 1).
Proof.
  unfold len. intros L. assert (length value = 8) as L' by lia.
  do 8 (destruct value as [|? value]; [simpl in L'; lia|]). destruct value; [|simpl in L'; lia].
  split; by eexists.
Qed.

(** One attribute further. *)
Lemma mapped_address_attr fuel a rest : attr_ok a ->
  mapped_address (S fuel) (encode_attr a ++ rest) =
  if is_mapped (a_kind a) (a_value a) then option_map Some (mapped (a_value a)) else mapped_address fuel rest.
Proof.
  intros (K & L & P). unfold encode_attr. rewrite <-!app_assoc.
  set (b := be_bytes 2 (a_kind a) ++ _). cbn [mapped_address].
  assert (4 <= length b) as Lb. { subst b. rewrite !length_app, !length_be_bytes. lia. }
  rewrite (proj2 (N.ltb_ge (len b) 4)) by (unfold len; lia).
  assert (u16_at b 0 = Some (a_kind a)) as -> by by apply u16_at_be.
  assert (u16_at b 2 = Some (len (a_value a))) as ->.
  { subst b. rewrite (u16_at_skip _ _ 0) by apply length_be_bytes. by apply u16_at_be. }
  assert (b = (be_bytes 2 (a_kind a) ++ be_bytes 2 (len (a_value a))) ++ a_value a ++ a_pad a ++ rest) as Eb
    by (subst b; by rewrite <-!app_assoc).
  assert (get_range b 4 (4 + len (a_value a)) = Some (a_value a)) as ->.
  { rewrite Eb. apply get_range_app; [unfold len; by rewrite length_app, !length_be_bytes|done]. }
  assert (get_from b (next_multiple_of (4 + len (a_value a)) 4) = Some rest) as ->.
  { rewrite Eb, !app_assoc. apply get_from_app. rewrite <-P. unfold len.
    rewrite !length_app, !length_be_bytes. lia. }
  unfold is_mapped. destruct (_ =? _)%N; [|done]. simpl. destruct (N.eqb_spec (len (a_value a)) 8) as [E|]; [|done].
  destruct (mapped_some _ E) as [[addr ->] [x ->]]. simpl.
  destruct (Byte.eqb x Byte.x01) eqn:Ex.
  - apply byte_eqb_eq in Ex as ->. by rewrite bool_decide_eq_true_2.
  - apply byte_eqb_neq in Ex. rewrite bool_decide_eq_false_2 by congruence. done.
Qed.

Lemma split_attr attrs : (4 <= len attrs)%N -> exists kind l rest,
  attrs = be_bytes 2 kind ++ be_bytes 2 l ++ rest /\ (kind < 65536)%N /\ (l < 65536)%N.
Proof.
  unfold len. intros L. destruct attrs as [|a [|b [|c [|d rest]]]]; cbn in L; try lia.
  destruct (u16_at_be_bytes (a :: b :: c :: d :: rest) _ eq_refl ltac:(cbn; lia)) as [E1 B1].
  destruct (u16_at_be_bytes (c :: d :: rest) _ eq_refl ltac:(cbn; lia)) as [E2 B2].
  eexists _, _, rest. split; [|split; [exact B1|exact B2]]. rewrite E1 at 1. f_equal. exact E2.
Qed.
Lemma next_multiple_ge n : (n <= next_multiple_of n 4)%N.
Proof.
  unfold next_multiple_of. pose proof (N.div_mod (n + 4 - 1) 4 ltac:(done)).
  pose proof (N.mod_lt (n + 4 - 1) 4 ltac:(done)). lia.
Qed.

(** What one turn of the loop finds: nothing more to read, or an attribute. *)
Lemma attr_cases attrs : (4 <= len attrs)%N -> exists kind l rest,
  attrs = be_bytes 2 kind ++ be_bytes 2 l ++ rest /\
  ((get_range attrs 4 (4 + l) = None) \/
   exists value more, rest = value ++ more /\ len value = l /\ get_range attrs 4 (4 + l) = Some value /\
     (get_from attrs (next_multiple_of (4 + l) 4) = None \/
      exists a rest', attr_ok a /\ a_kind a = kind /\ a_value a = value /\ attrs = encode_attr a ++ rest' /\
        get_from attrs (next_multiple_of (4 + l) 4) = Some rest')) /\
  (kind < 65536)%N /\ (l < 65536)%N.
Proof.
  intros L. destruct (split_attr _ L) as (kind & l & rest & E & K & B). exists kind, l, rest.
  split; [done|]. split; [|done].
  destruct (get_range attrs 4 (4 + l)) as [value|] eqn:G; [right|by left].
  destruct (get_range_Some _ _ _ _ G) as (_ & Lv & Ev).
  assert (take 4 attrs = be_bytes 2 kind ++ be_bytes 2 l) as T.
  { rewrite E, app_assoc. apply take_app_exact. by rewrite length_app, !length_be_bytes. }
  change (N.to_nat 4) with 4 in Ev. rewrite T, E, <-!app_assoc in Ev.
  do 2 apply app_inv_head in Ev. eexists value, _. split; [exact Ev|]. split; [lia|]. split; [done|].
  destruct (get_from attrs _) as [rest'|] eqn:Gf; [right|by left].
  unfold get_from in Gf. destruct (N.leb_spec (next_multiple_of (4 + l) 4) (len attrs)) as [Ln|]; [|done].
  injection Gf as <-. pose proof (next_multiple_ge (4 + l)) as Hm.
  set (m := next_multiple_of (4 + l) 4) in *.
  exists {| a_kind := kind; a_value := value; a_pad := take (N.to_nat (m - (4 + l))) (drop (N.to_nat (4 + l)) attrs) |}.
  eexists. split_and!; [..|done]; try done.
  - unfold attr_ok. cbn. replace (len value) with l by lia. fold m. unfold len in *.
    rewrite length_take, length_drop. lia.
  - unfold encode_attr. cbn [a_kind a_value a_pad]. replace (len value) with l by lia. rewrite <-!app_assoc.
    rewrite E at 1. f_equal. f_equal. rewrite Ev at 1. f_equal. rewrite <-E.
    rewrite <-(take_drop (N.to_nat (m - (4 + l))) (drop _ attrs)) at 1. f_equal. rewrite drop_drop. f_equal. lia.
Qed.

(** One turn of the loop, in every case. *)
Lemma mapped_address_turn fuel attrs : (4 <= len attrs)%N ->
  (exists kind value more, attrs = be_bytes 2 kind ++ be_bytes 2 (len value) ++ value ++ more /\
     is_mapped kind value = true /\ mapped_address (S fuel) attrs = option_map Some (mapped value)) \/
  mapped_address (S fuel) attrs = Some None \/
  exists a rest, attr_ok a /\ attrs = encode_attr a ++ rest /\ is_mapped (a_kind a) (a_value a) = false /\
    mapped_address (S fuel) attrs = mapped_address fuel rest.
Proof.
  intros L. destruct (attr_cases attrs L) as (kind & l & rest & E & C & K & B).
  assert (u16_at attrs 0 = Some kind) as U0 by (rewrite E; by apply u16_at_be).
  assert (u16_at attrs 2 = Some l) as U2.
  { rewrite E, (u16_at_skip _ _ 0) by apply length_be_bytes. by apply u16_at_be. }
  destruct C as [G|(value & more & -> & Lv & G & C)].
  { right; left. cbn [mapped_address]. rewrite (proj2 (N.ltb_ge _ _) L), U0, U2, G. done. }
  destruct (is_mapped kind value) eqn:M.
  - left. exists kind, value, more. rewrite Lv. split_and!; [done..|].
    cbn [mapped_address]. rewrite (proj2 (N.ltb_ge _ _) L), U0, U2, G.
    unfold is_mapped in M. rewrite !andb_true_iff, bool_decide_eq_true in M. destruct M as [[-> M] F].
    rewrite Lv in M. rewrite M, F. simpl. by destruct (mapped value).
  - right. destruct C as [Gf|(a & rest' & Ok_a & <- & <- & Ea & Gf)].
    + left. cbn [mapped_address]. rewrite (proj2 (N.ltb_ge _ _) L), U0, U2, G, Gf.
      unfold is_mapped in M. rewrite Lv in M. destruct (kind =? 32)%N, (l =? 8)%N eqn:E8; simpl in *; try done.
      apply N.eqb_eq in E8. destruct (mapped_some value ltac:(lia)) as [_ [x Ex]]. rewrite Ex in *.
      destruct (Byte.eqb x Byte.x01) eqn:Ey; [|done]. apply byte_eqb_eq in Ey as ->. by rewrite bool_decide_eq_true_2 in M.
    + right. exists a, rest'. split_and!; [done..|]. rewrite Ea, mapped_address_attr, M by done. done.
Qed.

Lemma encode_attr_long a rest : length rest + 4 <= length (encode_attr a ++ rest).
Proof. unfold encode_attr. rewrite !length_app, !length_be_bytes. lia. Qed.

Lemma mapped_address_ends fuel attrs : length attrs <= fuel -> is_Some (mapped_address fuel attrs).
Proof.
  revert attrs. induction fuel as [|fuel IH]; intros attrs L.
  { destruct attrs; [by eexists|simpl in L; lia]. }
  destruct (N.lt_ge_cases (len attrs) 4) as [Hl|Hl].
  { cbn [mapped_address]. rewrite (proj2 (N.ltb_lt _ _) Hl). by eexists. }
  destruct (mapped_address_turn fuel attrs Hl) as [(k & v & more & _ & M & ->)|[->|(a & rest & A & E & _ & ->)]].
  - unfold is_mapped in M. rewrite !andb_true_iff in M. destruct M as [[_ M%N.eqb_eq] _].
    destruct (mapped_some v M) as [[addr ->] _]. by eexists.
  - by eexists.
  - apply IH. pose proof (encode_attr_long a rest). subst. lia.
Qed.

(** The first mapped address: attributes without one, then one with it. *)
Definition first_mapped (attrs : bytes) (addr : SocketAddr) : Prop :=
  exists before value tail, attrs = concat (map encode_attr before) ++
      be_bytes 2 0x0020 ++ be_bytes 2 8 ++ value ++ tail /\
    Forall (fun a => attr_ok a /\ is_mapped (a_kind a) (a_value a) = false) before /\
    len value = 8%N /\ value !! 1 = Some Byte.x01 /\ mapped value = Some addr.

Lemma mapped_address_first fuel attrs addr : length attrs <= fuel ->
  mapped_address fuel attrs = Some (Some addr) <-> first_mapped attrs addr.
Proof.
  intros L. split.
  - revert attrs L. induction fuel as [|fuel IH]; intros attrs L.
    { destruct attrs; [done|simpl in L; lia]. }
    destruct (N.lt_ge_cases (len attrs) 4) as [Hl|Hl].
    { cbn [mapped_address]. by rewrite (proj2 (N.ltb_lt _ _) Hl). }
    destruct (mapped_address_turn fuel attrs Hl) as [(k & v & more & E & M & ->)|[->|(a & rest & A & E & M & ->)]]; [..|].
    + unfold is_mapped in M. rewrite !andb_true_iff, !N.eqb_eq, bool_decide_eq_true in M.
      destruct M as [[-> Lv] F]. destruct (mapped v) as [x|] eqn:Em; intros [= ->].
      exists [], v, more. rewrite Lv in E. by split_and!.
    + done.
    + intros H. assert (length rest <= fuel) as Lr.
      { pose proof (encode_attr_long a rest). subst. lia. }
      destruct (IH rest Lr H) as (before & v & tail & -> & F & Hv).
      exists (a :: before), v, tail. cbn [map concat]. rewrite <-app_assoc. split; [done|]. split; [by constructor|done].
  - intros (before & value & tail & -> & F & Lv & Hf & Em). revert fuel L.
    induction F as [|a before [A M] F IH]; intros fuel L.
    + destruct fuel as [|fuel]; [rewrite !length_app, !length_be_bytes in L; simpl in L; lia|].
      set (a := {| a_kind := 32; a_value := value; a_pad := [] |}).
      assert (attr_ok a) as A. { subst a. unfold attr_ok. cbn. rewrite Lv. done. }
      pose proof (mapped_address_attr fuel a tail A) as T. unfold encode_attr, is_mapped in T. cbn in T.
      rewrite Lv, (bool_decide_eq_true_2 _ Hf), Em in T. cbn in T. rewrite <-!app_assoc in T. exact T.
    + cbn [map concat] in *. rewrite <-app_assoc in L |- *.
      match type of L with length (_ ++ ?r) <= _ => pose proof (encode_attr_long a r) end.
      destruct fuel as [|fuel]; [lia|]. rewrite mapped_address_attr, M by done. apply IH. lia.
Qed.

Lemma lxor_bound a b n : (a < 2 ^ n)%N -> (b < 2 ^ n)%N -> (N.lxor a b < 2 ^ n)%N.
Proof.
  intros Ha Hb. destruct (decide (N.lxor a b = 0)%N) as [->|Hn]; [lia|].
  apply N.log2_lt_pow2; [lia|]. pose proof (N.log2_lxor a b).
  destruct (decide (a = 0)%N) as [->|Ha0], (decide (b = 0)%N) as [->|Hb0]; rewrite ?N.lxor_0_l, ?N.lxor_0_r in *;
    try done; try (apply N.log2_lt_pow2; lia).
  assert (N.log2 a < n)%N by (apply N.log2_lt_pow2; lia). assert (N.log2 b < n)%N by (apply N.log2_lt_pow2; lia). lia.
Qed.

(** The reply to a request from address [i] and port [p], as RFC 8489 has it. *)
Definition mapped_value (i p : N) : bytes :=
  [Byte.x00; Byte.x01] ++ be_bytes 2 (N.lxor p 0x2112) ++ be_bytes 4 (N.lxor i STUN_MAGIC).
Definition binding_success (attrs rest : bytes) : bytes :=
  [Byte.x01; Byte.x01] ++ be_bytes 2 (len attrs) ++ be_bytes 4 STUN_MAGIC ++ txid ++ attrs ++ rest.
Lemma mapped_value_round_trip i p : (i < 2 ^ 32)%N -> (p < 2 ^ 16)%N ->
  mapped (mapped_value i p) = Some {| ip := V4 i; port := p |}.
Proof.
  intros Hi Hp. unfold mapped, mapped_value. rewrite (u16_at_skip _ _ 0) by done.
  rewrite u16_at_be by (apply (lxor_bound p 8466 16); [done|vm_compute; reflexivity]).
  cbn [mbind option_bind]. rewrite !length_app, !length_be_bytes. cbn [length Nat.eqb Nat.add].
  rewrite app_assoc, drop_app_exact by (by rewrite length_app, length_be_bytes).
  rewrite be_val_be_bytes. rewrite N.mod_small by (apply (lxor_bound i STUN_MAGIC 32); [done|vm_compute; reflexivity]).
  by rewrite !N.lxor_assoc, !N.lxor_nilpotent, !N.lxor_0_r.
Qed.

Lemma binding_success_parses attrs rest : (len attrs < 65536)%N ->
  parse_binding_response (binding_success attrs rest) txid = mapped_address (length attrs) attrs.
Proof.
  intros L. unfold parse_binding_response. pose proof (length_be_bytes 2 (len attrs)) as L2.
  pose proof (length_be_bytes 4 STUN_MAGIC) as L4.
  assert (get_range (binding_success attrs rest) 0 2 = Some [Byte.x01; Byte.x01]) as ->.
  { unfold binding_success. exact (get_range_app [] [Byte.x01; Byte.x01] _ 0 2 eq_refl eq_refl). }
  assert (get_range (binding_success attrs rest) 4 8 = Some (be_bytes 4 STUN_MAGIC)) as ->.
  { refine (get_range_app ([Byte.x01; Byte.x01] ++ be_bytes 2 (len attrs)) _ _ 4 8 _ _);
      unfold len; by rewrite ?length_app, ?L2, ?L4. }
  assert (get_range (binding_success attrs rest) 8 20 = Some txid) as ->.
  { refine (get_range_app ([Byte.x01; Byte.x01] ++ be_bytes 2 (len attrs) ++ be_bytes 4 STUN_MAGIC) _ _ 8 20 _ _);
      unfold len; by rewrite ?length_app, ?L2, ?L4, ?txid_length. }
  assert (u16_at (binding_success attrs rest) 2 = Some (len attrs)) as ->.
  { unfold binding_success. rewrite (u16_at_skip _ _ 0) by done. by apply u16_at_be. }
  assert (get_range (binding_success attrs rest) 20 (20 + len attrs) = Some attrs) as ->.
  { assert (binding_success attrs rest = ([Byte.x01; Byte.x01] ++ be_bytes 2 (len attrs) ++ be_bytes 4 STUN_MAGIC ++ txid)
              ++ attrs ++ rest) as -> by (unfold binding_success; by rewrite <-!app_assoc).
    apply get_range_app; unfold len; by rewrite ?length_app, ?L2, ?L4, ?txid_length. }
  by rewrite !bool_decide_eq_true_2.
Qed.

Lemma get_range_take b lo hi v : get_range b lo hi = Some v ->
  take (N.to_nat hi) b = take (N.to_nat lo) b ++ v /\ len v = (hi - lo)%N.
Proof.
  intros G. destruct (get_range_Some _ _ _ _ G) as (L & Lv & E). split; [|done].
  unfold get_range in G. destruct (N.leb_spec lo hi), (N.leb_spec hi (len b)); simpl in G; try done.
  unfold len in *. rewrite E at 1. rewrite app_assoc. apply take_app_exact. rewrite length_app, length_take. lia.
Qed.
Lemma u16_at_take b l : u16_at b 2 = Some l -> take 4 b = take 2 b ++ be_bytes 2 l /\ (l < 65536)%N.
Proof.
  destruct b as [|x [|y [|z [|w b]]]]; try done. intros E.
  destruct (u16_at_be_bytes (z :: w :: b) l E ltac:(cbn; lia)) as [Eb B]. split; [|done].
  pose proof (f_equal (take 2) Eb) as T. rewrite take_app_exact in T by apply length_be_bytes.
  rewrite <-T. reflexivity.
Qed.

Lemma binding_cases msg : parse_binding_response msg txid = Some None \/
  exists attrs rest, (len attrs < 65536)%N /\ msg = binding_success attrs rest.
Proof.
  unfold parse_binding_response.
  destruct (get_range msg 0 2) as [k|] eqn:E1; [|by left]. destruct (bool_decide_reflect (k = [Byte.x01; Byte.x01])) as [->|]; [|by left].
  destruct (get_range msg 4 8) as [g|] eqn:E2; [|by left]. destruct (bool_decide_reflect (g = be_bytes 4 STUN_MAGIC)) as [->|]; [|by left].
  destruct (get_range msg 8 20) as [i|] eqn:E3; [|by left]. destruct (bool_decide_reflect (i = txid)) as [->|]; [|by left].
  destruct (u16_at msg 2) as [l|] eqn:E4; [|by left].
  destruct (get_range msg 20 (20 + l)) as [attrs|] eqn:E5; [|by left].
  apply get_range_take in E1 as [E1 _], E2 as [E2 _], E3 as [E3 _], E5 as [E5 L5].
  apply u16_at_take in E4 as [E4 B].
  right. exists attrs, (drop (N.to_nat (20 + l)) msg). assert (len attrs = l) as Ll by lia.
  split; [lia|]. unfold binding_success. rewrite Ll.
  rewrite <-(take_drop (N.to_nat (20 + l)) msg) at 1. rewrite E5.
  change (N.to_nat 20) with 20 in *. change (N.to_nat 8) with 8 in *. change (N.to_nat 4) with 4 in *.
  change (N.to_nat 2) with 2 in *. change (N.to_nat 0) with 0 in *.
  rewrite E3, E2, E4, E1. cbn [take]. by rewrite <-!app_assoc.
Qed.

Lemma parse_ends msg : is_Some (parse_binding_response msg txid).
Proof.
  destruct (binding_cases msg) as [->|(attrs & rest & L & ->)]; [by eexists|].
  rewrite binding_success_parses by done. by apply mapped_address_ends.
Qed.

(** The reply of a STUN server is read exactly. Whatever bytes arrive,
    reading ends and indexes nothing out of range; an address is found
    exactly in a success response to this very request whose declared
    attributes start with some that are no IPv4 mapped address and then have
    one, and it is that one; and the response of a server that saw an address
    gives that address. *)
Theorem stun_reply_exact msg addr :
  is_Some (parse_binding_response msg txid) /\
  (parse_binding_response msg txid = Some (Some addr) <->
   exists attrs rest, (len attrs < 65536)%N /\ msg = binding_success attrs rest /\ first_mapped attrs addr) /\
  forall i p rest, (i < 2 ^ 32)%N -> (p < 2 ^ 16)%N ->
    parse_binding_response
      (binding_success (encode_attr {| a_kind := 0x0020; a_value := mapped_value i p; a_pad := [] |}) rest) txid =
    Some (Some {| ip := V4 i; port := p |}).
Proof.
  split_and!.
  - apply parse_ends.
  - split.
    + intros E. destruct (binding_cases msg) as [E'|(attrs & rest & L & ->)]; [congruence|].
      exists attrs, rest. rewrite binding_success_parses in E by done.
      split_and!; [done..|]. by apply mapped_address_first in E.
    + intros (attrs & rest & L & -> & F). rewrite binding_success_parses by done. by apply mapped_address_first.
  - intros i p rest Hi Hp. pose proof (mapped_value_round_trip i p Hi Hp) as M.
    assert (length (mapped_value i p) = 8) as Lv by (unfold mapped_value; by rewrite !length_app, !length_be_bytes).
    assert (mapped_value i p !! 1 = Some Byte.x01) as Hv by done.
    set (v := mapped_value i p) in *. clearbody v. set (a := {| a_kind := _; a_value := _; a_pad := _ |}).
    assert (attr_ok a) as A. { unfold attr_ok, len. cbn. rewrite Lv. done. }
    rewrite binding_success_parses.
    + assert (length (encode_attr a) = 12) as ->.
      { unfold encode_attr. cbn [a a_kind a_value a_pad]. by rewrite !length_app, !length_be_bytes, Lv. }
      rewrite <-(app_nil_r (encode_attr a)), mapped_address_attr by done.
      cbn [a a_kind a_value]. rewrite M. unfold is_mapped, len. by rewrite Lv, Hv.
    + unfold encode_attr, len. cbn [a a_kind a_value a_pad]. rewrite !length_app, !length_be_bytes, Lv. done.
Qed.
End Reply.

(** A reply with another attribute first. *)
Lemma stun_reply_exact_witness :
  let txid := repeat Byte.x07 12 in
  let software := {| a_kind := 0x8022; a_value := as_bytes "coturn"; a_pad := [Byte.x00; Byte.x00] |} in
  let hit := {| a_kind := 0x0020; a_value := mapped_value 3405803785 40000; a_pad := [] |} in
  let msg := binding_success txid (encode_attr software ++ encode_attr hit) [] in
  length txid = 12 /\ is_Some (parse_binding_response msg txid) /\
  parse_binding_response msg txid = Some (Some {| ip := V4 3405803785; port := 40000 |}).
Proof.
  cbv zeta. split; [done|]. split; [|vm_compute; reflexivity].
  exact (proj1 (stun_reply_exact (repeat Byte.x07 12) eq_refl _ {| ip := V4 0; port := 0 |})).
Defined.

(** Only the server's own datagrams count, and none makes the exchange panic. *)
Lemma await_response_from server txid events : length txid = 12 ->
  match await_response server txid events with
  | Found addr => exists data, Datagram data server ∈ events /\
      parse_binding_response (take 512 data) txid = Some (Some addr)
  | IndexPanic => False
  | _ => True
  end.
Proof.
  intros L. induction events as [|[data from|] events IH]; cbn; [done| |done].
  assert (match await_response server txid events with
          | Found addr => exists data', Datagram data' server ∈ Datagram data from :: events /\
              parse_binding_response (take 512 data') txid = Some (Some addr)
          | IndexPanic => False
          | _ => True
          end) as IH'.
  { destruct await_response; try done. destruct IH as (d & Hd & E). exists d. split; [by right|done]. }
  destruct (decide (from = server)) as [->|]; [|exact IH'].
  destruct (parse_ends txid L (take 512 data)) as [[addr|] E]; rewrite E.
  - exists data. split; [by left|done].
  - exact IH'.
Qed.
Lemma reflexive_addr_from server txid tries : length txid = 12 ->
  match reflexive_addr server txid tries with
  | Found addr => exists data sent events, (sent, events) ∈ tries /\ Datagram data server ∈ events /\
      parse_binding_response (take 512 data) txid = Some (Some addr)
  | IndexPanic => False
  | _ => True
  end.
Proof.
  intros L. unfold reflexive_addr. assert (forall t, t ∈ take STUN_TRIES tries -> t ∈ tries) as Sub.
  { intros t. rewrite !list_elem_of_In. intros Ht. rewrite <-(take_drop STUN_TRIES tries). apply in_or_app. by left. }
  revert Sub. generalize (take STUN_TRIES tries) as l. intros l. induction l as [|[[] events] l IH]; intros Sub; cbn; try done.
  pose proof (await_response_from server txid events L) as A.
  destruct await_response; try done.
  - destruct A as (data & Hd & E). exists data, true, events. split; [apply Sub; by left|done].
  - apply IH. intros t Ht. apply Sub. by right.
Qed.

(** ** Connections *)

Lemma same_eq a b : length a = length b -> same a b = true <-> a = b.
Proof.
  unfold same. assert (forall l acc, (fold_left (fun acc (p : byte * byte) => N.lor acc (N.lxor (Byte.to_N p.1) (Byte.to_N p.2))) l acc = 0)%N <->
    acc = 0%N /\ Forall (fun p => p.1 = p.2) l) as F.
  { induction l as [|[x y] l IH]; intros acc; cbn [fold_left]; [split; [by intros ->|by intros [-> _]]|].
    rewrite IH, N.lor_eq_0_iff. cbn [fst snd]. rewrite N.lxor_eq_0_iff, list.Forall_cons. cbn [fst snd].
    assert (Byte.to_N x = Byte.to_N y <-> x = y) as ->; [|naive_solver].
    split; [|by intros ->]. intros E. rewrite <-(byte_of_N_to_N x), E. apply byte_of_N_to_N. }
  intros L. rewrite N.eqb_eq, F. split.
  - intros [_ Fa]. revert b L Fa. induction a as [|x a IH]; intros [|y b]; simpl; try done.
    intros L Fa. inversion Fa; simplify_eq/=. f_equal. apply IH; [lia|done].
  - intros ->. split; [done|]. clear. induction b; constructor; auto.
Qed.
Lemma check_token_spec token stream : length token = TOKEN_LEN ->
  check_token token stream = true <-> exists rest, stream = Some (token ++ rest).
Proof.
  intros L. unfold check_token. destruct stream as [sent|]; [|split; [done|by intros [? [=]]]].
  rewrite andb_true_iff, Nat.leb_le. split.
  - intros [Ls E]. apply same_eq in E; [|rewrite length_take; lia].
    exists (drop TOKEN_LEN sent). by rewrite <-E, take_drop.
  - intros [rest [= ->]]. rewrite length_app. split; [lia|]. rewrite take_app_exact by done. by apply same_eq.
Qed.

(** At most eight checks run, and the one that is found is of a connection
    that arrived and opened its stream with the token. *)
Lemma accept_loop_sound token events checks rest found :
  length token = TOKEN_LEN -> length checks <= MAX_CANDIDATES ->
  accept_loop token checks events = (rest, found) ->
  length rest <= MAX_CANDIDATES /\
  forall c stream, found = Some (c, stream) ->
    (exists more, stream = Some (token ++ more)) /\ ((c, stream) ∈ checks \/ Arrives c stream ∈ events).
Proof.
  intros Lt. revert checks. induction events as [|[c s|i|] events IH]; intros checks Lc E; cbn [accept_loop] in E.
  - by simplify_eq.
  - destruct (Nat.ltb_spec (length checks) MAX_CANDIDATES).
    + apply IH in E as [L F]; [|rewrite length_app; cbn; lia]. split; [done|]. intros c' s' Hf.
      destruct (F c' s' Hf) as [T [[?|Hin%list_elem_of_singleton]%elem_of_app|?]]; (split; [done|]).
      * by left.
      * simplify_eq. right. by left.
      * right. by right.
    + apply IH in E as [L F]; [|done]. split; [done|]. intros c' s' Hf.
      destruct (F c' s' Hf) as [T [?|?]]; (split; [done|]); [by left|right; by right].
  - destruct (checks !! i) as [[c s]|] eqn:Ei.
    + pose proof (length_delete checks i ltac:(by eexists)) as Ld.
      destruct (check_token token s) eqn:Ct.
      * simplify_eq. split; [lia|]. intros c' s' [= <- <-]. split; [by apply check_token_spec|].
        left. by eapply list_elem_of_lookup_2.
      * apply IH in E as [L F]; [|lia]. split; [done|]. intros c' s' Hf.
        destruct (F c' s' Hf) as [T [Hin|?]]; (split; [done|]); [left|right; by right].
        by eapply list_elem_of_delete_inv.
    + apply IH in E as [L F]; [|done]. split; [done|]. intros c' s' Hf.
      destruct (F c' s' Hf) as [T [?|?]]; (split; [done|]); [by left|right; by right].
  - by simplify_eq.
Qed.
(** Connections that never open a stream stay in the way of nobody, as long as
    they are fewer than eight. *)
Lemma accept_loop_strangers token strangers checks events :
  length checks + length strangers <= MAX_CANDIDATES ->
  accept_loop token checks (map (fun s => Arrives s None) strangers ++ events) =
  accept_loop token (checks ++ map (fun s => (s, None)) strangers) events.
Proof.
  revert checks. induction strangers as [|s l IH]; intros checks L; cbn [map app accept_loop length] in *; [by rewrite app_nil_r|].
  rewrite (proj2 (Nat.ltb_lt _ _)) by lia. rewrite IH by (rewrite length_app; cbn; lia).
  by rewrite <-app_assoc.
Qed.

Section Path.
Context `{Base64Laws} `{!Serde Signal} `{!SerdeLaws Signal}.

Lemma connect_skips others answer candidates : from_json answer = Ok (Answer candidates) ->
  Forall (fun t => forall c, from_json t <> Ok (Answer c)) others ->
  first_answer (others ++ [answer]) = Some (usable candidates).
Proof.
  intros E F. induction F as [|t others Ht F IH]; cbn [app first_answer]; [by rewrite E|].
  destruct (from_json t) as [[|c]|]; [done| |done]. by destruct (Ht c).
Qed.

(** C34. The token of the offer decides which connection becomes the direct
    path. Whoever connects to the host in whatever order, the connection it
    takes arrived and opened its first stream with the token of the offer it
    answered, and packets were only sent to at most eight addresses of the
    offer, none of them of no host or of this one. And an honest pair with a
    usable address comes together: the host's answer to the client's offer
    makes the client dial the host's usable addresses and send the token, and
    the host takes that connection although strangers, fewer than eight, keep
    silent connections open. *)
Theorem token_decides_direct_path token client_candidates host_candidates :
  length token = TOKEN_LEN ->
  (forall offer gather endpoint sent events punched answer c stream,
     accept offer gather endpoint sent events = (punched, answer, Ok (c, stream)) ->
     Forall (fun a => dialable a = true) punched /\ length punched <= MAX_CANDIDATES /\
     exists text t candidates more, from_json offer = Ok (Offer text candidates) /\ b64_decode text = Ok t /\
       length t = TOKEN_LEN /\ stream = Some (t ++ more) /\ Arrives c stream ∈ events) /\
  exists offer answer,
    connect_offer token client_candidates = Ok offer /\
    (forall strangers c data, length strangers < MAX_CANDIDATES ->
       accept offer (Ok host_candidates) (Ok tt) (fun _ => true)
         (map (fun s => Arrives s None) strangers ++
          [Arrives c (Some (token ++ data)); CheckEnds (length strangers)]) =
       (usable client_candidates, Some answer, Ok (c, Some (token ++ data)))) /\
    forall others dial addr, usable host_candidates <> [] -> dial (usable host_candidates) = Ok addr ->
      Forall (fun t => forall c, from_json t <> Ok (Answer c)) others ->
      connect (Ok client_candidates) token (fun _ => true) (others ++ [answer]) dial (Ok tt) = Ok (addr, token).
Proof.
  intros Lt. split.
  - intros offer gather endpoint sent events punched answer c stream. unfold accept, read_offer.
    destruct (from_json offer) as [[text cands|]|] eqn:Eo; [|done..].
    destruct (b64_decode text) as [t|] eqn:Et; [|done]. destruct (Nat.eqb_spec (length t) TOKEN_LEN) as [Lt'|]; [|done].
    destruct gather as [ours|]; [|done]. destruct endpoint as [[]|]; [|done].
    destruct (map_err _ _) as [a|]; [|done]. destruct (negb _); [done|].
    destruct (accept_loop t [] events) as [rest found] eqn:El. cbn [snd].
    destruct found as [[c' s']|]; [|done]. intros [= <- <- <- <-].
    destruct (accept_loop_sound _ _ _ _ _ Lt' (Nat.le_0_l MAX_CANDIDATES : length [] <= MAX_CANDIDATES) El) as [_ F].
    destruct (F _ _ eq_refl) as [[more ->] [Hin|Hin]]; [by apply not_elem_of_nil in Hin|].
    split; [|split].
    + unfold usable. apply list.Forall_forall. by intros x [Hx _]%list_elem_of_filter.
    + unfold usable. etrans; [apply length_filter|]. rewrite length_take. lia.
    + by exists text, t, cands, more.
  - unfold connect_offer. pose proof (to_json_ok (Offer (b64_encode token) client_candidates)) as O1.
    pose proof (to_json_ok (Answer host_candidates)) as O2.
    destruct (to_json (Offer _ _)) as [offer|] eqn:E1; [|done].
    destruct (to_json (Answer _)) as [answer|] eqn:E2; [|done]. apply from_to_json in E1 as R1.
    apply from_to_json in E2 as R2. exists offer, answer. split; [done|]. split.
    + intros strangers c data Ls. unfold accept, read_offer. rewrite R1, b64_decode_encode.
      rewrite Lt, Nat.eqb_refl, E2. cbn [map_err negb].
      rewrite accept_loop_strangers by (cbn; lia). cbn [app accept_loop].
      rewrite length_map, (proj2 (Nat.ltb_lt _ _)) by done.
      rewrite lookup_app_r by (by rewrite length_map). rewrite length_map, Nat.sub_diag. cbn [lookup list_lookup].
      by rewrite (proj2 (check_token_spec token _ Lt)) by eauto.
    + intros others dial addr Hu Ed F. unfold connect, connect_offer. rewrite E1. cbn [map_err].
      unfold connect_peers. cbn [negb]. rewrite (connect_skips _ _ _ R2 F).
      destruct (usable host_candidates) as [|a l]; [done|]. by rewrite Ed.
Qed.
End Path.

(** Gathering never reads out of range, and offers at most eight addresses. *)
Lemma bind_and_gather_total stun env : length (stun_txid env) = 12 ->
  exists r, bind_and_gather stun env = Some r /\ forall c, r = Ok c -> length c <= MAX_CANDIDATES.
Proof.
  intros L. unfold bind_and_gather.
  assert (forall c : list SocketAddr, length (take MAX_CANDIDATES c) <= MAX_CANDIDATES) as T
    by (intros c; rewrite length_take; lia).
  destruct (bound env); [|by eexists]. destruct stun; cbn [negb]; [|eexists; split; [done|]; by intros c [= <-]].
  destruct (lookup_host env) as [[found|]|]; [|by eexists..].
  destruct (base.filter _ found) as [|server l]; [by eexists|].
  pose proof (reflexive_addr_from server (stun_txid env) (stun_exchange env) L) as R.
  destruct (reflexive_addr _ _ _) as [| | |]; [..|done]; (eexists; split; [done|]); intros c [= <-]; apply T.
Qed.

#[export] Instance toy_signal : Serde Signal := toy_serde Signal.
#[export] Instance toy_signal_laws : SerdeLaws Signal := toy_serde_laws Signal.
Definition ex_token : bytes := repeat Byte.x2a 16.
Definition ex_addr (n : N) : SocketAddr := {| ip := V4 n; port := 5000 |}.

Lemma token_decides_direct_path_witness :
  length ex_token = TOKEN_LEN /\ usable [ex_addr 3232235777] <> [] /\
  exists offer answer,
    connect_offer ex_token [ex_addr 3405803785] = Ok offer /\
    accept offer (Ok [ex_addr 3232235777]) (Ok tt) (fun _ => true)
      [Arrives 7 None; Arrives 8 (Some (ex_token ++ as_bytes "hello")); CheckEnds 1] =
    (usable [ex_addr 3405803785], Some answer, Ok (8, Some (ex_token ++ as_bytes "hello"))).
Proof.
  split; [done|]. split; [vm_compute; discriminate|].
  destruct (proj2 (token_decides_direct_path ex_token [ex_addr 3405803785] [ex_addr 3232235777] eq_refl))
    as (offer & answer & E & A & _).
  exists offer, answer. split; [exact E|]. apply (A [7]). vm_compute. lia.
Defined.

(** Eight silent connections keep the client out. *)
Lemma silent_connections_block {H : Base64} token data c :
  accept_loop token [] (map (fun s => Arrives s None) (seq 0 8) ++ [Arrives c (Some (token ++ data)); CheckEnds 8]) =
  (map (fun s => (s, None)) (seq 0 8), None).
Proof. reflexivity. Qed.
