(* ===== verification/Bridge.v ===== *)
(** * The byte bridge of a direct path

    rivetlink-sdk/src/p2p.rs, [bridge]: the two copies between the caller's end of
    a session and a QUIC stream, and how the first of them to be over ends the
    connection. QUIC is a reliable pipe for each direction until one end closes
    the connection: what was on its way is then lost. *)
From Stdlib Require Import NArith Lia Strings.Byte.
From S2P Require Import Prelude.

(** [upstream] copies, then waits for the peer to close; [downstream] copies. *)
Inductive Upstream := Copying | Flushing | UpstreamOver.
Record PathEnd := {
  br_up : Upstream;
  br_down : bool;          (** still copying *)
  br_sent : list bytes;    (** given to the stream *)
  br_written : list bytes; (** written to the caller's end *)
  br_closed : bool;        (** this end closed the connection *)
}.
Definition end_start : PathEnd := {| br_up := Copying; br_down := true; br_sent := []; br_written := []; br_closed := false |}.
Inductive EndEvent :=
(** The caller's end: a piece, or its end or an error; a piece that the stream
    does not take. *)
| LocalPiece (piece : bytes)
| LocalEnds
| SendFails
(** The peer closed the connection, or the two seconds for it are over. *)
| PeerClosed
| FlushTimeout
(** The stream: a piece, which the caller's end takes or not, or its end. *)
| StreamPiece (piece : bytes) (taken : bool)
| StreamEnds
(** The wait for either copy is over. *)
| CloseConnection.
Definition with_up (u : Upstream) (sent : list bytes) (b : PathEnd) : PathEnd :=
  {| br_up := u; br_down := br_down b; br_sent := sent; br_written := br_written b; br_closed := br_closed b |}.
Definition with_down (down : bool) (written : list bytes) (b : PathEnd) : PathEnd :=
  {| br_up := br_up b; br_down := down; br_sent := br_sent b; br_written := written; br_closed := br_closed b |}.
(** One event; [None] when it cannot happen. *)
Definition end_step (ev : EndEvent) (b : PathEnd) : option PathEnd :=
  if br_closed b then None
  else
    match ev, br_up b, br_down b with
    | LocalPiece piece, Copying, _ => Some (with_up Copying (br_sent b ++ [piece]) b)
    | LocalEnds, Copying, _ | SendFails, Copying, _ => Some (with_up Flushing (br_sent b) b)
    | PeerClosed, Flushing, _ | FlushTimeout, Flushing, _ => Some (with_up UpstreamOver (br_sent b) b)
    | StreamPiece piece true, _, true => Some (with_down true (br_written b ++ [piece]) b)
    | StreamPiece _ false, _, true | StreamEnds, _, true => Some (with_down false (br_written b) b)
    | CloseConnection, UpstreamOver, _ | CloseConnection, _, false =>
        Some {| br_up := br_up b; br_down := br_down b; br_sent := br_sent b; br_written := br_written b; br_closed := true |}
    | _, _, _ => None
    end.

(** ** Two bridges *)

(** A direction: the pieces on their way, and whether the stream's end follows
    them. *)
Record Pipe := { on_way : list bytes; fin : bool }.
Record Path := { left : PathEnd; right : PathEnd; l2r : Pipe; r2l : Pipe }.
Definition path_start : Path :=
  {| left := end_start; right := end_start; l2r := {| on_way := []; fin := false |}; r2l := {| on_way := []; fin := false |} |}.
Definition swap (p : Path) : Path := {| left := right p; right := left p; l2r := r2l p; r2l := l2r p |}.
(** What an event of the left bridge does to its outgoing and its incoming pipe;
    [None] when they do not allow it. A closed connection ends the stream before
    what is still on its way. *)
Definition left_pipes (ev : EndEvent) (p : Path) : option (Pipe * Pipe) :=
  match ev with
  | LocalPiece piece => Some ({| on_way := on_way (l2r p) ++ [piece]; fin := fin (l2r p) |}, r2l p)
  | LocalEnds | SendFails => Some ({| on_way := on_way (l2r p); fin := true |}, r2l p)
  | FlushTimeout | CloseConnection => Some (l2r p, r2l p)
  | PeerClosed => if br_closed (right p) then Some (l2r p, r2l p) else None
  | StreamPiece piece _ =>
      match on_way (r2l p) with
      | x :: rest => if bool_decide (x = piece) && negb (br_closed (right p)) then Some (l2r p, {| on_way := rest; fin := fin (r2l p) |}) else None
      | [] => None
      end
  | StreamEnds => if fin (r2l p) && bool_decide (on_way (r2l p) = []) || br_closed (right p) then Some (l2r p, r2l p) else None
  end.
Definition left_event (ev : EndEvent) (p : Path) : option Path :=
  let_some b := end_step ev (left p) else None in
  let_some (out, inc) := left_pipes ev p else None in
  Some {| left := b; right := right p; l2r := out; r2l := inc |}.
Definition right_event (ev : EndEvent) (p : Path) : option Path := option_map swap (left_event ev (swap p)).
Fixpoint path_run (evs : list (EndEvent + EndEvent)) (p : Path) : option Path :=
  match evs with
  | [] => Some p
  | inl ev :: evs => let_some p := left_event ev p else None in path_run evs p
  | inr ev :: evs => let_some p := right_event ev p else None in path_run evs p
  end.

(** ** What arrives *)

(** Nothing goes wrong for the left end's bytes: its two seconds do not run out,
    its stream takes them, both callers take what they get, and the right end's
    does not end first. *)
Definition undisturbed (ev : EndEvent + EndEvent) : bool :=
  match ev with
  | inl FlushTimeout | inl SendFails | inl (StreamPiece _ false) => false
  | inr (StreamPiece _ false) | inr LocalEnds | inr SendFails => false
  | _ => true
  end.
Record complete (p : Path) : Prop := {
  co_sent : br_sent (left p) = br_written (right p) ++ on_way (l2r p);
  co_fin : fin (l2r p) = true -> br_up (left p) <> Copying;
  co_open : fin (r2l p) = false /\ br_up (right p) = Copying;
  co_down : br_down (right p) = false -> on_way (l2r p) = [] /\ br_up (left p) <> Copying;
  co_right : br_closed (right p) = true -> br_down (right p) = false;
  co_left : br_down (left p) = false \/ br_up (left p) = UpstreamOver \/ br_closed (left p) = true -> br_closed (right p) = true;
}.

Lemma left_event_inv ev p q : left_event ev p = Some q -> exists b out inc,
  end_step ev (left p) = Some b /\ left_pipes ev p = Some (out, inc) /\ q = {| left := b; right := right p; l2r := out; r2l := inc |}.
Proof.
  unfold left_event. destruct (end_step ev (left p)) as [b|]; [|done]. destruct (left_pipes ev p) as [[out inc]|]; [|done].
  intros [= <-]. by exists b, out, inc.
Qed.
Lemma left_complete ev p q : complete p -> undisturbed (inl ev) = true -> left_event ev p = Some q -> complete q.
Proof.
  intros [C1 C2 [C3 C3'] C4 C5 C6] U (b & out & inc & Eb & Ep & ->)%left_event_inv. unfold end_step in Eb. destruct (br_closed (left p)) eqn:Cl; [done|].
  destruct ev; try discriminate U; cbn [left_pipes] in Ep; destruct (br_up (left p)) eqn:Up, (br_down (left p)) eqn:D; try discriminate Eb;
    repeat first [discriminate U | discriminate Ep | discriminate Eb | case_match]; simplify_eq/=;
    (split; cbn; rewrite ?Up, ?D, ?Cl in *; cbn in *; try done; try (by intuition congruence));
    try (by rewrite C1, app_assoc); try (intros F; destruct (C4 F); done); try (intros F; destruct (C2 F); done).
  all: intros _; by rewrite C3 in *.
Qed.
Lemma right_complete ev p q : complete p -> undisturbed (inr ev) = true -> right_event ev p = Some q -> complete q.
Proof.
  intros [C1 C2 [C3 C3'] C4 C5 C6] U E. unfold right_event in E. destruct (left_event ev (swap p)) as [r|] eqn:L; [|done]. injection E as <-.
  apply left_event_inv in L as (b & out & inc & Eb & Ep & ->). cbn [swap left right l2r r2l] in *. unfold end_step in Eb.
  destruct (br_closed (right p)) eqn:Cr; [done|]. rewrite C3' in Eb.
  destruct ev; try discriminate U; cbn [left_pipes] in Ep; destruct (br_down (right p)) eqn:D; try discriminate Eb;
    cbn [swap left right l2r r2l] in Ep; rewrite ?C3 in Ep;
    repeat first [discriminate U | discriminate Ep | discriminate Eb | case_match]; simplify_eq/=;
    (split; cbn; rewrite ?D, ?Cr in *; cbn in *; try done; try (by intuition congruence)).
  - match goal with B : _ && _ = true |- _ => apply andb_true_iff in B as [->%bool_decide_eq_true _] end. by rewrite C1, <-app_assoc.
  - intros _. match goal with B : _ || _ = true |- _ => apply orb_true_iff in B as [[Fn On%bool_decide_eq_true]%andb_true_iff|B] end.
    + split; [done|]. by apply C2.
    + assert (false = true) by auto. done.
Qed.
Lemma start_complete : complete path_start.
Proof. by split; try (by intros []); cbn; intuition congruence. Qed.
Lemma run_complete evs p q : complete p -> forallb undisturbed evs = true -> path_run evs p = Some q -> complete q.
Proof.
  revert p. induction evs as [|[ev|ev] evs IH]; intros p C U R; cbn in *; [by injection R as <-|..]; apply andb_true_iff in U as [U1 U2].
  - destruct (left_event ev p) as [p1|] eqn:E; [|done]. apply (IH p1); [by eapply left_complete|done|done].
  - destruct (right_event ev p) as [p1|] eqn:E; [|done]. apply (IH p1); [by eapply right_complete|done|done].
Qed.

(** A caller that writes and hangs up is heard to the end. Whatever the order of
    events on both sides: what the right caller got is the first part of what the
    left one sent, in order; and while nothing disturbs the path, by the time
    either end closes the connection it is everything, and the left caller had
    ended. *)
Lemma hang_up_is_heard evs p : forallb undisturbed evs = true -> path_run evs path_start = Some p ->
  br_written (right p) `prefix_of` br_sent (left p) /\
  (br_closed (left p) = true \/ br_closed (right p) = true -> br_written (right p) = br_sent (left p) /\ br_up (left p) <> Copying).
Proof.
  intros U R. destruct (run_complete evs _ _ start_complete U R) as [C1 _ _ C4 C5 C6]. split; [by exists (on_way (l2r p))|].
  intros Cl. assert (br_down (right p) = false) as D by (apply C5; destruct Cl; auto). destruct (C4 D) as [E Up]. split; [|done].
  by rewrite C1, E, app_nil_r.
Qed.
(** When the right caller ends first, what is on its way to it is lost, although
    it could still read. *)
Lemma half_close_loses : exists evs p, path_run evs path_start = Some p /\
  br_sent (left p) = [[Byte.x01]] /\ br_written (right p) = [] /\ br_closed (left p) = true /\ br_down (right p) = false.
Proof.
  exists [inr LocalEnds; inl (LocalPiece [Byte.x01]); inl StreamEnds; inl CloseConnection; inr StreamEnds].
  eexists. split; [reflexivity|]. by split_and!.
Qed.
(** A piece, the end, and the close from the other side. *)
Example heard : path_run [inl (LocalPiece [Byte.x01]); inl LocalEnds; inr (StreamPiece [Byte.x01] true); inr StreamEnds; inr CloseConnection;
    inl PeerClosed; inl CloseConnection] path_start =
  Some {| left := {| br_up := UpstreamOver; br_down := true; br_sent := [[Byte.x01]]; br_written := []; br_closed := true |};
          right := {| br_up := Copying; br_down := false; br_sent := []; br_written := [[Byte.x01]]; br_closed := true |};
          l2r := {| on_way := []; fin := true |}; r2l := {| on_way := []; fin := false |} |}.
Proof. reflexivity. Qed.
