(* ===== verification/Tunnel.v ===== *)
(** * Relay tunnels

    rivetlink-sdk/src/relay_tunnel.rs and rivetlink-agent/src/relay/client.rs:
    a byte stream between a client and a host through the relay. The client
    asks for a session and moves its bytes in frames tagged with the session's
    id; the host logs in with its device key and serves the tunnels it
    accepts. A side runs over what its WebSocket delivers; the loop of the host
    is a function of the events its [select!] picks, one by one. *)
From Stdlib Require Import NArith ZArith Lia Strings.String Strings.Byte.
From S2P Require Import Prelude Text Interfaces Instances Protocol Connections Sessions Router.
From S2P Require Import Auth Database Gateway Trusted ClientSession Sealed Handshake Direct Pins P2p Lan.

(** ** Relays that may be dialled *)

Definition authority_ends (x : byte) : bool :=
  Byte.eqb x Byte.x2f || Byte.eqb x Byte.x3f || Byte.eqb x Byte.x23.
Fixpoint authority (b : bytes) : bytes :=
  match b with
  | [] => []
  | x :: b => if authority_ends x then [] else x :: authority b
  end.
Definition LOOPBACK_HOSTS : list string := ["127.0.0.1"; "localhost"; "[::1]"]%string.
Definition INSECURE_RELAY : string := "relay URL must use wss://; plaintext relay WebSockets are unsafe".
Definition require_secure_ws (url : string) : Result unit Sdk.SdkError :=
  if str_starts_with "wss://" url then Ok tt
  else
    match strip_prefix "ws://" url with
    | Some rest =>
        let auth := from_utf8 (authority (as_bytes rest)) in
        let host := match rsplit_once Byte.x3a auth with Some (host, _) => host | None => auth end in
        if negb (bool_decide (Byte.x40 ∈ as_bytes auth)) && bool_decide (host ∈ LOOPBACK_HOSTS)
        then Ok tt else Err (Sdk.Config INSECURE_RELAY)
    | None => Err (Sdk.Config INSECURE_RELAY)
    end.
Definition ensure_secure_relay_url (url : string) : Result unit AgentError :=
  map_err (fun _ => Config "relay_url must use wss://; plaintext relay WebSockets are unsafe")
    (require_secure_ws url).

(** ** The agent logs in *)

Inductive AuthAck :=
| Authenticated (user_id device_id stun : option string)
| OtherAck.
Inductive DeviceChallenge := Challenge (nonce : string) (protocol_version : N).

(** A login that went through: the frames to come and the STUN server. *)
Record RelayClient := { frames_left : list (Result Message string); client_stun : option string }.

Section Login.
Context `{Base64} `{UuidText} `{JsonText} `{Ed25519}.
Context `{!Serde AuthAck} `{!Serde DeviceChallenge}.
(** [{:?}] of a message. *)
Context (show_message : Message -> string).

(** The JSON of the frames the agent builds, field by field. *)
Definition outgoing_auth (token : string) : string :=
  json_text (JObject [("type"%string, JString "AUTH"); ("token"%string, JString token)]).
Definition outgoing_device_hello (device_id : Uuid) : string :=
  json_text (JObject [("type"%string, JString "DEVICE_HELLO");
                      ("device_id"%string, JString (uuid_to_string device_id));
                      ("protocol_version"%string, JNumber (Z.of_N DEVICE_AUTH_PROTOCOL_VERSION))]).
Definition outgoing_device_auth (signature : string) : string :=
  json_text (JObject [("type"%string, JString "DEVICE_AUTH"); ("signature"%string, JString signature)]).

(** The next frame, which must be text; [send] is the outcome of writing one. *)
Definition next_frame (closed : string) (frames : list (Result Message string))
  : Result (Message * list (Result Message string)) AgentError :=
  match frames with
  | [] => Err (Relay closed)
  | Err e :: _ => Err (WebSocket e)
  | Ok m :: frames => Ok (m, frames)
  end.
Definition parse_json {A} `{!Serde A} (text : string) : Result A AgentError :=
  map_err SerdeError (from_json text).

Definition connect_user (url token : string) (dialled : Result unit string)
    (send : string -> Result unit string) (frames : list (Result Message string))
  : list string * Result RelayClient AgentError :=
  match (let? _ := ensure_secure_relay_url url in
         map_err (fun e => Relay ("connect failed: " ++ e)) dialled) with
  | Err e => ([], Err e)
  | Ok _ =>
      let auth := outgoing_auth token in
      ([auth],
       let? _ := map_err WebSocket (send auth) in
       let? first := next_frame "relay closed before AUTH ack" frames in
       match first with
       | (Text text, frames) =>
           let? ack := parse_json text in
           match ack with
           | Authenticated _ _ stun => Ok {| frames_left := frames; client_stun := stun |}
           | OtherAck => Err (Relay ("AUTH rejected: " ++ text))
           end
       | (Close, _) => Err (Relay "relay closed during AUTH")
       | (other, _) => Err (Relay ("unexpected message during AUTH: " ++ show_message other))
       end)
  end.

(** What the device signs for a challenge, if it does. *)
Definition challenge_answer (device_id : Uuid) (signing_key : SigningKey) (text : string)
  : Result string AgentError :=
  let? challenge := parse_json text in
  let 'Challenge nonce version := challenge in
  if negb (version =? DEVICE_AUTH_PROTOCOL_VERSION)%N
  then Err (Relay "relay rejected the secure device-auth protocol version")
  else
    let? nonce := map_err Base64Error (b64_decode nonce) in
    if negb (length nonce =? DEVICE_CHALLENGE_SIZE)%nat then Err (Relay "invalid relay device challenge")
    else Ok (outgoing_device_auth
               (b64_encode (ed_sign signing_key (device_challenge_binding device_id nonce)))).
Definition read_ack (frames : list (Result Message string)) : Result RelayClient AgentError :=
  let? ack := next_frame "relay closed before AUTHENTICATED" frames in
  match ack with
  | (Text text, frames) =>
      let? ack := parse_json text in
      match ack with
      | Authenticated _ _ stun => Ok {| frames_left := frames; client_stun := stun |}
      | OtherAck => Err (Relay ("DEVICE_AUTH rejected: " ++ text))
      end
  | (other, _) => Err (Relay ("unexpected message awaiting AUTHENTICATED: " ++ show_message other))
  end.
(** Returns what was sent as well. *)
Definition connect_device (url : string) (device_id : Uuid) (signing_key : SigningKey)
    (dialled : Result unit string) (send : string -> Result unit string)
    (frames : list (Result Message string)) : list string * Result RelayClient AgentError :=
  match (let? _ := ensure_secure_relay_url url in
         map_err (fun e => Relay ("connect failed: " ++ e)) dialled) with
  | Err e => ([], Err e)
  | Ok _ =>
      let hello := outgoing_device_hello device_id in
      match (let? _ := map_err WebSocket (send hello) in
             let? first := next_frame "relay closed before DEVICE_CHALLENGE" frames in
             match first with
             | (Text text, frames) =>
                 let? answer := challenge_answer device_id signing_key text in Ok (answer, frames)
             | (other, _) => Err (Relay ("unexpected message awaiting challenge: " ++ show_message other))
             end) with
      | Err e => ([hello], Err e)
      | Ok (answer, frames) =>
          ([hello; answer],
           let? _ := map_err WebSocket (send answer) in read_ack frames)
      end
  end.
End Login.

(** ** The host's loops

    A [HostHandler] is a state and its [handle]. An event is what the loop's
    [select!] picks; [send] is the outcome of each write to the socket, by the
    number of writes before it. *)
Inductive RelayEvent :=
| FromRelay (frame : option (Result Message string))
| HeartbeatTick.

Section Loops.
Context {S : Type} (handle : S -> SignalPacket -> S * Result (list string) AgentError).
Context `{!Serde SignalPacket} `{JsonText}.

Definition heartbeat_text : string := json_text (JObject [("type"%string, JString "HEARTBEAT")]).

(** [None]: the loop goes on. *)
Fixpoint send_all (send : nat -> Result unit string) (sent : list string) (frames : list string)
  : list string * Result unit AgentError :=
  match frames with
  | [] => (sent, Ok tt)
  | f :: frames =>
      match send (length sent) with
      | Ok _ => send_all send (sent ++ [f]) frames
      | Err e => (sent, Err (WebSocket e))
      end
  end.
Definition host_turn (send : nat -> Result unit string) (ev : RelayEvent) (h : S) (sent : list string)
  : S * list string * option (Result unit AgentError) :=
  match ev with
  | FromRelay (Some (Ok (Text text))) =>
      match from_json text with
      | Ok packet =>
          match handle h packet with
          | (h, Ok outgoing) =>
              match send_all send sent outgoing with
              | (sent, Ok _) => (h, sent, None)
              | (sent, Err e) => (h, sent, Some (Err e))
              end
          | (h, Err e) => (h, sent, Some (Err e))
          end
      | Err _ => (h, sent, None)
      end
  | FromRelay (Some (Ok Close)) | FromRelay None => (h, sent, Some (Ok tt))
  | FromRelay (Some (Ok _)) => (h, sent, None)
  | FromRelay (Some (Err e)) => (h, sent, Some (Err (WebSocket e)))
  | HeartbeatTick =>
      match send_all send sent [heartbeat_text] with
      | (sent, Ok _) => (h, sent, None)
      | (sent, Err e) => (h, sent, Some (Err e))
      end
  end.
Fixpoint run_host (send : nat -> Result unit string) (events : list RelayEvent) (h : S) (sent : list string)
  : S * list string * option (Result unit AgentError) :=
  match events with
  | [] => (h, sent, None)
  | ev :: events =>
      match host_turn send ev h sent with
      | (h, sent, None) => run_host send events h sent
      | r => r
      end
  end.

(** ** Tunnels of a host

    A task is one accepted tunnel, with its session, or one direct path. A
    tunnel's channel is its number; [carried] is what was put into it. *)
Record TunnelHost := {
  inbound : gmap Uuid nat;
  tunnels : gmap nat (option Uuid);
  offered : gset Uuid;
  next_task : nat;
  carried : gmap nat bytes;
}.
Definition no_tunnels : TunnelHost :=
  {| inbound := ∅; tunnels := ∅; offered := ∅; next_task := 0; carried := ∅ |}.

Definition split_tunnel_frame (frame : bytes) : option (Uuid * bytes) :=
  if (len frame <=? 16)%N then None
  else let_some sid := uuid_from_slice (take 16 frame) else None in Some (sid, drop 16 frame).

(** [passed]: the payload went into the channel before the timeout. *)
Inductive HostEvent :=
| Incoming (frame : option (Result Message string)) (passed : bool)
| WriterEnds
| TaskEnds (task : nat) (completed : bool)
| HostTick.

Definition binary_frame (frame : bytes) (passed : bool) (t : TunnelHost) : TunnelHost :=
  let_some p := split_tunnel_frame frame else t in
  let_some task := inbound t !! p.1 else t in
  if passed then
    {| inbound := inbound t; tunnels := tunnels t; offered := offered t; next_task := next_task t;
       carried := <[task := default [] (carried t !! task) ++ p.2]> (carried t) |}
  else
    {| inbound := delete p.1 (inbound t); tunnels := tunnels t; offered := offered t;
       next_task := next_task t; carried := carried t |}.

Definition accept_tunnel (max_tunnels : nat) (sid : SessionId) (t : TunnelHost) : TunnelHost * SignalPacket :=
  if (max_tunnels <=? size (tunnels t))%nat then (t, SessionRejected sid "host busy")
  else
    ({| inbound := <[sid := next_task t]> (inbound t); tunnels := <[next_task t := Some sid]> (tunnels t);
        offered := offered t; next_task := next_task t + 1; carried := <[next_task t := []]> (carried t) |},
     SessionAccepted sid Controller).
Definition offer_path (max_tunnels : nat) (sid : SessionId) (t : TunnelHost) : TunnelHost :=
  if (size (tunnels t) <? max_tunnels)%nat && bool_decide (sid ∉ offered t) then
    {| inbound := inbound t; tunnels := <[next_task t := None]> (tunnels t);
       offered := {[sid]} ∪ offered t; next_task := next_task t + 1; carried := carried t |}
  else t.
Definition close_inbound (sid : SessionId) (t : TunnelHost) : TunnelHost :=
  {| inbound := delete sid (inbound t); tunnels := tunnels t; offered := offered t;
     next_task := next_task t; carried := carried t |}.
(** A task that is done leaves the set; only one that ran to its end tells
    which tunnel it was. *)
Definition task_ended (task : nat) (completed : bool) (t : TunnelHost) : TunnelHost :=
  match tunnels t !! task with
  | None => t
  | Some kind =>
      let t' := {| inbound := inbound t; tunnels := delete task (tunnels t); offered := offered t;
                   next_task := next_task t; carried := carried t |} in
      match kind with
      | Some sid =>
          if completed then
            {| inbound := delete sid (inbound t'); tunnels := tunnels t'; offered := offered t' ∖ {[sid]};
               next_task := next_task t'; carried := carried t' |}
          else t'
      | None => t'
      end
  end.

(** What an event leads to: frames for the writer, or the end of the loop. *)
Inductive TunnelTurn := Replies (frames : list string) | LoopEnds (r : Result unit AgentError).

Definition text_frame (max_tunnels : nat) (text : string) (h : S) (t : TunnelHost)
  : S * TunnelHost * TunnelTurn :=
  let to_handler packet :=
    match handle h packet with
    | (h, Ok frames) => (h, t, Replies frames)
    | (h, Err e) => (h, t, LoopEnds (Err e))
    end in
  match from_json text with
  | Err _ => (h, t, Replies [])
  | Ok packet =>
      match packet with
      | SessionRequest _ _ version _ (Some sid) =>
          if (version =? RELAY_TUNNEL_VERSION)%N then
            let '(t, reply) := accept_tunnel max_tunnels sid t in
            match to_json reply with
            | Ok text => (h, t, Replies [text])
            | Err e => (h, t, LoopEnds (Err (SerdeError e)))
            end
          else to_handler packet
      | IceCandidate sid _ =>
          if bool_decide (is_Some (inbound t !! sid)) then (h, offer_path max_tunnels sid t, Replies [])
          else to_handler packet
      | SessionClosed sid =>
          if bool_decide (is_Some (inbound t !! sid)) then (h, close_inbound sid t, Replies [])
          else to_handler packet
      | _ => to_handler packet
      end
  end.
Definition tunnel_turn (max_tunnels : nat) (ev : HostEvent) (h : S) (t : TunnelHost)
  : S * TunnelHost * TunnelTurn :=
  match ev with
  | Incoming (Some (Ok (Binary frame))) passed => (h, binary_frame frame passed t, Replies [])
  | Incoming (Some (Ok (Text text))) _ => text_frame max_tunnels text h t
  | Incoming (Some (Ok Close)) _ | Incoming None _ => (h, t, LoopEnds (Ok tt))
  | Incoming (Some (Ok _)) _ => (h, t, Replies [])
  | Incoming (Some (Err e)) _ => (h, t, LoopEnds (Err (WebSocket e)))
  | WriterEnds => (h, t, LoopEnds (Err (WebSocket "relay link write failed")))
  | TaskEnds task completed => (h, task_ended task completed t, Replies [])
  | HostTick => (h, t, Replies [heartbeat_text])
  end.
(** [writing]: the writer still takes frames. *)
Fixpoint run_host_tunnels (max_tunnels : nat) (events : list (HostEvent * bool)) (h : S) (t : TunnelHost)
    (sent : list string) : S * TunnelHost * list string * option (Result unit AgentError) :=
  match events with
  | [] => (h, t, sent, None)
  | (ev, writing) :: events =>
      match tunnel_turn max_tunnels ev h t with
      | (h, t, LoopEnds r) => (h, t, sent, Some r)
      | (h, t, Replies frames) =>
          if negb (writing || (match frames with [] => true | _ => false end))
          then (h, t, sent, Some (Err (WebSocket "relay link closed")))
          else run_host_tunnels max_tunnels events h t (sent ++ frames)
      end
  end.
End Loops.

(** ** Frames of one tunnel *)

Definition tunnel_frame (sid : Uuid) (payload : bytes) : bytes := uuid_as_bytes sid ++ payload.

Section Frames.
Context `{!Serde SignalPacket}.

(** What one end reads from its stream, piece by piece, on its way to the
    relay: a frame each, and the news of the end. *)
Definition closing (sid : Uuid) : list Message :=
  match to_json (SessionClosed sid) with Ok text => [Text text] | Err _ => [] end.
(** The host's side of one tunnel: the pieces it read and the payloads of its
    channel it wrote, until either direction ended. Gives what goes to the
    link, and what the session reads. *)
Definition tunnel_pump (sid : Uuid) (pieces received : list bytes) : list Message * bytes :=
  (map (fun p => Binary (tunnel_frame sid p)) pieces ++ closing sid, concat received).
(** [taken]: how many frames the link took, when not all. *)
Definition upstream (sid : Uuid) (pieces : list bytes) (taken : option nat) : list Message :=
  let frames := map (fun p => Binary (tunnel_frame sid p)) pieces in
  match taken with
  | Some n => take n frames
  | None => frames ++ closing sid
  end.
(** The client's side of what the relay delivers: the bytes written to the
    caller, the signals for a direct path ([queued] by number), and whether it
    is over. [writes]: whether the caller still takes bytes. *)
Fixpoint downstream (sid : Uuid) (incoming : list (Result Message string * bool)) : bytes * list string * bool :=
  match incoming with
  | [] => ([], [], false)
  | (m, open) :: incoming =>
      let more := downstream sid incoming in
      match m with
      | Ok (Binary frame) =>
          if bool_decide (take 16 frame = uuid_as_bytes sid) then
            if open then (drop 16 frame ++ more.1.1, more.1.2, more.2) else ([], [], true)
          else more
      | Ok (Text text) =>
          match from_json text with
          | Ok (SessionClosed s) | Ok (SessionRejected s _) =>
              if decide (s = sid) then ([], [], true) else more
          | Ok (IceCandidate s candidate) =>
              if decide (s = sid) then (more.1.1, (if open then [candidate] else []) ++ more.1.2, more.2) else more
          | _ => more
          end
      | Ok Close | Err _ => ([], [], true)
      | _ => more
      end
  end.
End Frames.

(** ** Opening a tunnel *)

(** A string field of a JSON object, as [serde_json::Value] gives it; an error
    for a text that is no JSON. *)
Class JsonField := { json_field : string -> string -> Result (option string) string }.

Record TunnelParams := {
  relay_ws_url : string;
  token : string;
  tp_device_id : Uuid;
  client_public_key : string;
  requested_capability : SessionCapability;
}.
(** What opening a tunnel meets: the connection, each write, the frames of the
    relay, and whether all of it took at most the time given. *)
Record OpenEnv := {
  dialled : Result unit string;
  sends : string -> Result unit string;
  relay_frames : list (Result Message string);
  in_time : bool;
}.
Inductive Transport := OverRelay | OverP2p.

Section Open.
Context `{!Serde SignalPacket} `{JsonText} `{JsonField}.
(** The text of a JSON value that was read from a text. *)
Context (show_value : string -> string).

Fixpoint next_text (frames : list (Result Message string))
  : Result (string * list (Result Message string)) Sdk.SdkError :=
  match frames with
  | Ok (Text text) :: frames => Ok (text, frames)
  | [] | Ok Close :: _ => Err (Sdk.Relay "relay closed the connection")
  | Err e :: _ => Err (Sdk.Relay e)
  | _ :: frames => next_text frames
  end.
(** The loop of [start_session]: the first verdict on the request. *)
Fixpoint await_verdict (frames : list (Result Message string))
  : Result (SessionId * list (Result Message string)) Sdk.SdkError :=
  match frames with
  | [] | Ok Close :: _ => Err (Sdk.Relay "relay closed the connection")
  | Err e :: _ => Err (Sdk.Relay e)
  | Ok (Text text) :: frames =>
      match from_json text with
      | Ok (SessionAccepted sid _) => Ok (sid, frames)
      | Ok (SessionRejected _ reason) => Err (Sdk.SessionRejected reason)
      | _ => await_verdict frames
      end
  | _ :: frames => await_verdict frames
  end.
Definition tunnel_request (params : TunnelParams) : SignalPacket :=
  SessionRequest (tp_device_id params) (client_public_key params) RELAY_TUNNEL_VERSION
    (requested_capability params) None.
Definition start_session (params : TunnelParams) (env : OpenEnv)
  : Result (SessionId * option string * list (Result Message string)) Sdk.SdkError :=
  let? _ := map_err (fun e => Sdk.Relay ("connect failed: " ++ e)) (dialled env) in
  let? _ := map_err Sdk.Relay (sends env (outgoing_auth (token params))) in
  let? ack := next_text (relay_frames env) in
  let? kind := map_err Sdk.SerdeError (json_field ack.1 "type") in
  if negb (bool_decide (kind = Some "AUTHENTICATED"%string))
  then Err (Sdk.Auth ("unexpected auth response: " ++ show_value ack.1))
  else
    let? stun := map_err Sdk.SerdeError (json_field ack.1 "stun") in
    let? request := map_err Sdk.SerdeError (to_json (tunnel_request params)) in
    let? _ := map_err Sdk.Relay (sends env request) in
    let? verdict := await_verdict ack.2 in
    Ok (verdict.1, stun, verdict.2).
Definition open_tunnel (params : TunnelParams) (env : OpenEnv)
  : Result (SessionId * option string * list (Result Message string)) Sdk.SdkError :=
  let? _ := require_secure_ws (relay_ws_url params) in
  if in_time env then start_session params env
  else Err (Sdk.Relay "relay tunnel did not open in time").
(** Whether a direct stream opens: only when the relay named a STUN server, and
    [attempt] is [p2p::connect] within its time, [None] when it takes longer. *)
Definition open_best (params : TunnelParams) (env : OpenEnv)
    (attempt : string -> option (Result (SocketAddr * bytes) Sdk.SdkError))
  : Result (SessionId * option SocketAddr) Sdk.SdkError :=
  let? opened := open_tunnel params env in
  let '(sid, stun, _) := opened in
  match stun with
  | None => Ok (sid, None)
  | Some stun =>
      match attempt stun with
      | Some (Ok (addr, _)) => Ok (sid, Some addr)
      | _ => Ok (sid, None)
      end
  end.
(** A handshake with the pinned key over each stream; [None] is one that takes
    too long on the direct path. *)
Definition connect_best (params : TunnelParams) (env : OpenEnv)
    (attempt : string -> option (Result (SocketAddr * bytes) Sdk.SdkError)) (pinned_host_b64 : string)
    (direct : option (Result SealedChannel Sdk.SdkError)) (relayed : Result SealedChannel Sdk.SdkError) (p : Pins)
  : Pins * Result (SealedChannel * Transport) Sdk.SdkError :=
  match open_best params env attempt with
  | Err e => (p, Err e)
  | Ok (_, path) =>
      let over_relay p :=
        match connect_key_over pinned_host_b64 relayed p with
        | (p, _, Ok ch) => (p, Ok (ch, OverRelay))
        | (p, _, Err e) => (p, Err e)
        end in
      match path, direct with
      | Some _, Some handshake =>
          match connect_key_over pinned_host_b64 handshake p with
          | (p, _, Ok ch) => (p, Ok (ch, OverP2p))
          | (p, _, Err _) => over_relay p
          end
      | _, _ => over_relay p
      end
  end.
End Open.

(** ** Which relays may be dialled, exactly *)

Lemma authority_spec b : exists rest, b = authority b ++ rest /\
  Forall (fun x => authority_ends x = false) (authority b) /\
  match rest with [] => True | x :: _ => authority_ends x = true end.
Proof.
  induction b as [|x b (rest & E & F & R)]; [by exists []|].
  cbn. destruct (authority_ends x) eqn:Ex; [by exists (x :: b)|].
  exists rest. cbn. split; [by f_equal|]. split; [by constructor|done].
Qed.
Lemma authority_app a rest : Forall (fun x => authority_ends x = false) a ->
  match rest with [] => True | x :: _ => authority_ends x = true end -> authority (a ++ rest) = a.
Proof.
  intros F R. induction F as [|x a Hx F IH]; cbn.
  - destruct rest as [|x rest]; [done|]. cbn. by rewrite R.
  - rewrite Hx. by f_equal.
Qed.

(** A plaintext address of this machine: its authority is a loopback host, with
    a port after a colon or none; the bracketed one needs the colon. *)
Definition local_plaintext (url : string) : Prop :=
  exists host port rest, as_bytes url = as_bytes "ws://" ++ as_bytes host ++ port ++ rest /\
    host ∈ LOOPBACK_HOSTS /\
    match rest with [] => True | x :: _ => authority_ends x = true end /\
    (port = [] /\ host <> "[::1]"%string \/
     exists digits, port = Byte.x3a :: digits /\ Byte.x3a ∉ digits /\ Byte.x40 ∉ digits /\
       Forall (fun x => authority_ends x = false) digits).

Lemma loopback_bytes host : host ∈ LOOPBACK_HOSTS ->
  Forall (fun x => authority_ends x = false) (as_bytes host) /\ Byte.x40 ∉ as_bytes host /\
  (host <> "[::1]"%string -> Byte.x3a ∉ as_bytes host).
Proof.
  assert (forall b : bytes, bool_decide (Byte.x40 ∈ b) = false -> Byte.x40 ∉ b) as N1
    by (intros b H; by apply bool_decide_eq_false in H).
  intros [->|[->|[->|H]%elem_of_cons]%elem_of_cons]%elem_of_cons; [..|by apply not_elem_of_nil in H];
    (split; [by repeat constructor|]; split; [by apply N1|]; try done; intros _; by apply (bool_decide_eq_false (_ ∈ _))).
Qed.

(** Plaintext stays on this machine. An address of a relay is dialled
    exactly when it is a TLS one, or a plaintext one whose host is a loopback
    name: no user part, no longer name that starts with a loopback one and no
    text after the host can make it another machine. *)
Theorem plaintext_stays_local url :
  require_secure_ws url = Ok tt <-> str_starts_with "wss://" url = true \/ local_plaintext url.
Proof.
  unfold require_secure_ws. destruct (str_starts_with "wss://" url) eqn:Ew; [split; auto|].
  assert (forall P, (false = true \/ P) <-> P) as -> by (intros P; split; [intros [?|?]; [discriminate|done]|auto]).
  split.
  - destruct (strip_prefix "ws://" url) as [rest|] eqn:Es; [|done]. apply strip_prefix_spec in Es.
    destruct (authority_spec (as_bytes rest)) as (more & Er & Fa & Rm). set (a := authority (as_bytes rest)) in *.
    destruct (_ && _) eqn:C; [intros _|done]. apply andb_true_iff in C as [C1 C2].
    apply negb_true_iff, bool_decide_eq_false in C1. apply bool_decide_eq_true in C2. rewrite as_bytes_from_utf8 in C1.
    rewrite Er in Es. destruct (rsplit_once Byte.x3a (from_utf8 a)) as [[host port]|] eqn:Ea.
    + apply rsplit_once_spec in Ea as [Ea Hp]. rewrite as_bytes_from_utf8 in Ea.
      exists host, (Byte.x3a :: as_bytes port), more. split; [by rewrite Es, Ea, <-!app_assoc|].
      split; [done|]. split; [done|]. right. exists (as_bytes port). rewrite Ea in C1, Fa.
      apply not_elem_of_app in C1 as [_ [_ C1]%not_elem_of_cons].
      apply Forall_app in Fa as [_ Fa]. apply Forall_cons in Fa as [_ Fa]. done.
    + exists (from_utf8 a), [], more. rewrite as_bytes_from_utf8. split; [by rewrite Es, app_nil_l|].
      split; [done|]. split; [done|]. left. split; [done|]. intros E. rewrite E in Ea. vm_compute in Ea. discriminate.
  - intros (host & port & rest & E & Hh & Hr & Hp).
    destruct (loopback_bytes host Hh) as (Fh & Nh & Ch).
    assert (strip_prefix "ws://" url = Some (from_utf8 (as_bytes host ++ port ++ rest))) as ->.
    { apply strip_prefix_spec. by rewrite as_bytes_from_utf8. }
    rewrite !as_bytes_from_utf8.
    assert (authority (as_bytes host ++ port ++ rest) = as_bytes host ++ port) as ->.
    { rewrite app_assoc. apply authority_app; [|done]. apply Forall_app. split; [done|].
      destruct Hp as [[-> _]|(d & -> & _ & _ & Fd)]; [constructor|]. by constructor. }
    assert (match rsplit_once Byte.x3a (from_utf8 (as_bytes host ++ port)) with
            | Some (h, _) => h | None => from_utf8 (as_bytes host ++ port) end = host /\
            Byte.x40 ∉ as_bytes host ++ port) as [-> Na].
    { destruct Hp as [[-> Hn]|(d & -> & Cd & Nd & _)].
      - rewrite app_nil_r, rsplit_once_none by (rewrite as_bytes_from_utf8; by apply Ch).
        by rewrite from_utf8_as_bytes.
      - rewrite (rsplit_once_app _ _ (as_bytes host) d) by (by rewrite ?as_bytes_from_utf8).
        rewrite from_utf8_as_bytes. split; [done|]. apply not_elem_of_app. split; [done|].
        by apply not_elem_of_cons. }
    by rewrite bool_decide_eq_false_2, bool_decide_eq_true_2.
Qed.

(** The bracketed loopback address is refused without a port. *)
Lemma bracketed_loopback_refused : is_ok (require_secure_ws "ws://[::1]/ws") = false.
Proof. vm_compute. reflexivity. Qed.
Example require_secure_ws_cases :
  map (fun u => is_ok (require_secure_ws u))
    ["wss://relay.example.com/ws"; "ws://127.0.0.1:8080/ws"; "ws://localhost:8080/ws"; "ws://[::1]:8080/ws";
     "ws://relay.example.com/ws"; "ws://127.0.0.1.evil.com:80/ws"; "ws://localhost.evil.com/ws";
     "http://127.0.0.1:8080"; "ws://localhost:80@evil.com/ws"; "ws://evil.com/127.0.0.1:80"]%string =
  [true; true; true; true; false; false; false; false; false; false].
Proof. vm_compute. reflexivity. Qed.

(** ** The login of a host *)

Section LoginSafety.
Context `{Base64} `{UuidText} `{JsonText} `{Ed25519} `{!Serde AuthAck} `{!Serde DeviceChallenge}.
Context (show_message : Message -> string).

Lemma challenge_answer_ok d sk text answer : challenge_answer d sk text = Ok answer ->
  exists nonce, length nonce = DEVICE_CHALLENGE_SIZE /\
    answer = outgoing_device_auth (b64_encode (ed_sign sk (device_challenge_binding d nonce))).
Proof.
  unfold challenge_answer. destruct (parse_json text) as [[b64 v]|]; [|done].
  destruct (negb (v =? _)%N); [done|]. destruct (b64_decode b64) as [nonce|]; [|done]. cbn [map_err].
  destruct (Nat.eqb_spec (length nonce) DEVICE_CHALLENGE_SIZE); [|done]. cbn [negb]. intros [= <-]. by exists nonce.
Qed.
(** The three kinds of message a host's key signs start differently. *)
Lemma login_binding_apart d nonce :
  (forall binding ephemeral, device_challenge_binding d nonce <> signature_message binding ephemeral) /\
  (forall public, device_challenge_binding d nonce <> Lan.IDENTITY_CONTEXT ++ public).
Proof.
  split; [intros b e E|intros p E]; apply (f_equal (take 11)) in E; vm_compute in E; discriminate.
Qed.

(** A login is all a relay can have signed. Whatever relay the agent is
    led to and whatever it answers, the agent sends at most a hello and one
    signature; the signature is over a challenge for this very device, which
    is never a message that a key exchange or an identity proof signs; and
    nothing is sent to a relay that may not be dialled. *)
Theorem login_signs_only_logins url d sk dialled send frames :
  let '(sent, r) := connect_device show_message url d sk dialled send frames in
  (require_secure_ws url <> Ok tt -> sent = []) /\
  (sent = [] \/ sent = [outgoing_device_hello d] \/
   exists nonce, length nonce = DEVICE_CHALLENGE_SIZE /\
     let message := device_challenge_binding d nonce in
     sent = [outgoing_device_hello d; outgoing_device_auth (b64_encode (ed_sign sk message))] /\
     (forall binding ephemeral, message <> signature_message binding ephemeral) /\
     (forall public, message <> Lan.IDENTITY_CONTEXT ++ public)) /\
  (is_ok r = true -> length sent = 2).
Proof.
  unfold connect_device. destruct (ensure_secure_relay_url url) as [[]|] eqn:Eu; [|by split_and!; [|left|]].
  assert (require_secure_ws url = Ok tt) as Es by (unfold ensure_secure_relay_url in Eu; by destruct (require_secure_ws url) as [[]|]).
  destruct dialled; cbn [map_err]; [|by split_and!; [|left|]].
  destruct (send (outgoing_device_hello d)); cbn [map_err]; [|by split_and!; [|right; left|]].
  destruct (next_frame _ frames) as [[m rest]|]; [|by split_and!; [|right; left|]].
  destruct m as [text| | | |]; try by split_and!; [|right; left|].
  destruct (challenge_answer d sk text) as [answer|] eqn:Ea; [|by split_and!; [|right; left|]].
  apply challenge_answer_ok in Ea as (nonce & L & ->). split_and!; [done| |done].
  right; right. exists nonce. split; [done|]. split; [done|]. apply login_binding_apart.
Qed.
End LoginSafety.

(** What serde's tagged enums make of the four texts of a login: each end reads
    the fields the other wrote. *)
Class LoginTexts `{Base64} `{UuidText} `{JsonText} `{!Serde WsHandshakeMessage} `{!Serde WsDeviceFollowup}
    `{!Serde AuthAck} `{!Serde DeviceChallenge} : Prop := {
  hello_text d : from_json (outgoing_device_hello d) = Ok (DeviceHello d DEVICE_AUTH_PROTOCOL_VERSION);
  challenge_text nonce :
    from_json (device_challenge nonce) = Ok (Challenge (b64_encode nonce) DEVICE_AUTH_PROTOCOL_VERSION);
  answer_text signature : from_json (outgoing_device_auth signature) = Ok (DeviceAuth signature);
  ack_text id stun : from_json (authenticated_message Connections.Device id stun) =
    Ok (Authenticated None (Some (uuid_to_string id)) stun);
}.

Section LoginCompletes.
Context `{Base64Laws} `{UuidText} `{JsonText} `{Ed25519Laws} `{Jwt}.
Context `{!Serde WsHandshakeMessage} `{!Serde WsDeviceFollowup} `{!Serde AuthAck} `{!Serde DeviceChallenge}.
Context `{!LoginTexts}.
Context (show_message : Message -> string) (show_time : Z -> string) (show_nat : nat -> string)
  (vk_error : bytes -> string).

(** An honest login goes through. A host whose key is the one the relay
    has for its device, and the relay, talking to each other, end with the
    relay knowing the device and its organisation, and the host connected with
    the relay's STUN server; what each sends is what the other reads. *)
Theorem device_login_completes url d row sk db nonce secret now stun more :
  require_secure_ws url = Ok tt -> length nonce = DEVICE_CHALLENGE_SIZE ->
  db_faults db = [] -> device_rows db !! d = Some row -> dev_deleted_at row = None ->
  trim (Database.public_key row) = b64_encode (verifying_key sk) ->
  exists hello challenge answer,
    let out := {| out_principal_id := dev_id row; out_org_id := dev_organization_id row; out_kind := Connections.Device |} in
    wait_for_auth show_time show_nat vk_error [Ok (Text hello); Ok (Text answer)] nonce (fun _ => Ok tt) secret now db =
      ([challenge], Ok out) /\
    connect_device show_message url d sk (Ok tt) (fun _ => Ok tt)
      (Ok (Text challenge) :: Ok (Text (authenticated_message (out_kind out) (out_principal_id out) stun)) :: more) =
      ([hello; answer], Ok {| frames_left := more; client_stun := stun |}).
Proof.
  intros Hu Hn Hf Hrow Hdel Hkey.
  exists (outgoing_device_hello d), (device_challenge nonce),
    (outgoing_device_auth (b64_encode (ed_sign sk (device_challenge_binding d nonce)))).
  cbv zeta. split.
  - unfold wait_for_auth. cbn [read_text]. rewrite hello_text. cbn [map_err].
    rewrite N.eqb_refl. cbn [negb]. unfold authenticate_device, get_device, query. rewrite Hf, Hrow, decide_True by done.
    rewrite (parse_public_key_round_trip show_nat vk_error sk (Database.public_key row) Hkey). cbn [map_err read_text fst snd].
    rewrite answer_text. cbn [map_err]. rewrite b64_decode_encode. cbn [map_err].
    by rewrite ed_sign_length, ed_verify_sign.
  - unfold connect_device, ensure_secure_relay_url. rewrite Hu. cbn [map_err next_frame].
    unfold challenge_answer, parse_json. rewrite challenge_text. cbn [map_err]. rewrite N.eqb_refl. cbn [negb].
    rewrite b64_decode_encode. cbn [map_err]. rewrite Hn, Nat.eqb_refl. cbn [negb].
    unfold read_ack. cbn [next_frame out_kind out_principal_id]. unfold parse_json. by rewrite ack_text.
Qed.
End LoginCompletes.

(** ** A login at concrete inputs

    A text that names the fields of an object, and readers of the four messages
    that pick their fields, as serde's do. *)
Module FlatJson.
Definition Field : Type := string * (string + Z).
Definition fields_of (j : Json) : list Field :=
  match j with
  | JObject fields =>
      omap (fun f => match f.2 with
                     | JString s => Some (f.1, inl s)
                     | JNumber n => Some (f.1, inr n)
                     | JNull | JObject _ => None
                     end) fields
  | _ => []
  end.
Definition flat_json : JsonText := {| json_text j := bits_text (countable.encode (fields_of j)) |}.
Definition read_fields (s : string) : option (list Field) := 
  match text_bits s with Some p => countable.decode p | None => None end.
Definition field (k : string) (fields : list Field) : option (string + Z) :=
  p ← list_find (fun f => f.1 = k) fields; Some p.2.2.
Definition field_string (k : string) (fields : list Field) : option string :=
  match field k fields with Some (inl s) => Some s | _ => None end.
Definition field_number (k : string) (fields : list Field) : option Z :=
  match field k fields with Some (inr n) => Some n | _ => None end.
Definition reader {A} (read : list Field -> option A) (s : string) : Result A string :=
  ok_or (read_fields s ≫= read) "missing field".
Lemma reader_text {A} (read : list Field -> option A) fields a :
  read (fields_of (JObject fields)) = Some a ->
  reader read (json_text (JsonText := flat_json) (JObject fields)) = Ok a.
Proof.
  intros E. unfold reader, read_fields. cbn [json_text flat_json]. rewrite text_bits_text, countable.decode_encode.
  cbn [mbind option_bind]. by rewrite E.
Qed.
Definition is_type (t : string) (fields : list Field) : bool := bool_decide (field_string "type" fields = Some t).
(** The toy text of an id is its hexadecimal digits between hyphens. *)
Definition read_uuid (s : string) : option Uuid :=
  match unhex (uuid_unhyphenated (as_bytes s)) with Ok b => uuid_from_slice b | Err _ => None end.

(** The writers are not used. *)
Definition hello_serde : Serde WsHandshakeMessage := {|
  to_json _ := Err "unused"%string;
  from_json := reader (fun f =>
    if is_type "DEVICE_HELLO" f then
      d ← field_string "device_id" f ≫= read_uuid; v ← field_number "protocol_version" f;
      Some (DeviceHello d (Z.to_N v))
    else t ← field_string "token" f; Some (UserAuth t));
|}.
Definition answer_serde : Serde WsDeviceFollowup := {|
  to_json _ := Err "unused"%string;
  from_json := reader (fun f => s ← field_string "signature" f; Some (DeviceAuth s));
|}.
Definition ack_serde : Serde AuthAck := {|
  to_json _ := Err "unused"%string;
  from_json := reader (fun f =>
    if is_type "AUTHENTICATED" f
    then Some (Authenticated (field_string "user_id" f) (field_string "device_id" f) (field_string "stun" f))
    else Some OtherAck);
|}.
Definition challenge_serde : Serde DeviceChallenge := {|
  to_json _ := Err "unused"%string;
  from_json := reader (fun f =>
    n ← field_string "nonce" f; v ← field_number "protocol_version" f; Some (Challenge n (Z.to_N v)));
|}.
Lemma read_uuid_text u : read_uuid (uuid_to_string u) = Some u.
Proof.
  unfold read_uuid. cbn [uuid_to_string toy_uuid_text]. rewrite as_bytes_from_utf8, uuid_unhyphenated_hyphenated
    by by rewrite length_hex, uuid_as_bytes_length.
  by rewrite unhex_hex, uuid_from_slice_as_bytes.
Qed.
Lemma flat_login : @LoginTexts toy_base64 toy_uuid_text flat_json hello_serde answer_serde ack_serde challenge_serde.
Proof.
  split.
  - intros d. apply reader_text. set (f := fields_of _). cbv beta.
    replace (is_type "DEVICE_HELLO" f) with true by reflexivity.
    replace (field_string "device_id" f) with (Some (uuid_to_string d)) by reflexivity.
    cbn [mbind option_bind]. rewrite read_uuid_text. reflexivity.
  - intros nonce. by apply reader_text.
  - intros s. by apply reader_text.
  - intros id [s|]; by apply reader_text.
Qed.
End FlatJson.

Lemma device_login_completes_witness :
  let d := uuid_from_u128 9 in
  let db := set_device_rows {[d := witness_device]} db_empty in
  exists hello challenge answer,
    @wait_for_auth toy_base64 FlatJson.flat_json toy_ed25519 toy_jwt FlatJson.hello_serde FlatJson.answer_serde
      (fun _ => EmptyString) (fun _ => EmptyString) (fun _ => EmptyString)
      [Ok (Text hello); Ok (Text answer)] (be_bytes 32 5) (fun _ => Ok tt) "secret" 0 db =
      ([challenge], Ok {| out_principal_id := d; out_org_id := uuid_from_u128 1; out_kind := Connections.Device |}).
Proof.
  intros d db.
  destruct (@device_login_completes toy_base64 toy_base64_laws toy_uuid_text FlatJson.flat_json toy_ed25519 toy_ed25519_laws
    toy_jwt FlatJson.hello_serde FlatJson.answer_serde FlatJson.ack_serde FlatJson.challenge_serde FlatJson.flat_login
    (fun _ => EmptyString) (fun _ => EmptyString) (fun _ => EmptyString) (fun _ => EmptyString)
    "wss://relay.example/ws" d witness_device 77%N db (be_bytes 32 5) "secret" 0%Z None [])
    as (hello & challenge & answer & E & _); try (vm_compute; reflexivity).
  exists hello, challenge, answer. exact E.
Defined.

(** ** Bytes of one tunnel at the host *)

Definition payload (sid : Uuid) (m : Message) : option bytes :=
  match m with
  | Binary frame => match split_tunnel_frame frame with
                    | Some (s, p) => if decide (s = sid) then Some p else None
                    | None => None
                    end
  | _ => None
  end.
Definition payloads (sid : Uuid) (ms : list Message) : list bytes := omap (payload sid) ms.
Definition event_message (ev : HostEvent) : option Message :=
  match ev with Incoming (Some (Ok m)) _ => Some m | _ => None end.

Lemma payload_frame sid p : p <> [] -> payload sid (Binary (tunnel_frame sid p)) = Some p.
Proof.
  intros Hp. unfold payload, split_tunnel_frame, tunnel_frame, len. rewrite length_app, uuid_as_bytes_length.
  destruct (N.leb_spec (N.of_nat (16 + length p)) 16) as [L|_]; [destruct p; [done|cbn in L; lia]|].
  rewrite take_app_exact, drop_app_exact by apply uuid_as_bytes_length. rewrite uuid_from_slice_as_bytes.
  by rewrite decide_True.
Qed.

(** A tunnel's channel belongs to one session, and new tunnels get new ones. *)
Definition owns (sid : Uuid) (task : nat) (t : TunnelHost) : Prop :=
  task < next_task t /\ forall s, inbound t !! s = Some task -> s = sid.
(** What one turn does to the channel [task] of session [sid]. *)
Definition channel_turn (sid : Uuid) (task : nat) (m : option Message) (t t' : TunnelHost) : Prop :=
  owns sid task t' /\
  (inbound t' !! sid = Some task -> inbound t !! sid = Some task /\
     forall b, carried t !! task = Some b ->
       carried t' !! task = Some (b ++ default [] (m ≫= payload sid))) /\
  (inbound t' !! sid <> Some task -> carried t' !! task = carried t !! task).

Section HostTunnels.
Context {S : Type} (handle : S -> SignalPacket -> S * Result (list string) AgentError).
Context `{!Serde SignalPacket} `{JsonText}.

Lemma channel_same sid task m t t' : owns sid task t -> next_task t <= next_task t' ->
  inbound t' = inbound t -> carried t' !! task = carried t !! task -> (m ≫= payload sid) = None ->
  channel_turn sid task m t t'.
Proof.
  intros [L O] Hn Ei Ec Em. split; [split; [lia|by rewrite Ei]|]. rewrite Ei, Ec, Em.
  split; [|done]. intros Hi. split; [done|]. intros b Hb. cbn. by rewrite app_nil_r.
Qed.
(** Closing sessions takes channels away, and leaves what they carried. *)
Lemma channel_drop sid task m t t' s : owns sid task t -> next_task t <= next_task t' ->
  inbound t' = delete s (inbound t) -> carried t' !! task = carried t !! task -> (m ≫= payload sid = None \/ s = sid) ->
  channel_turn sid task m t t'.
Proof.
  intros [L O] Hn Ei Ec Em. split; [split; [lia|]|split].
  - rewrite Ei. intros s' [_ Hs]%lookup_delete_Some. by apply O.
  - rewrite Ei. intros [Hne Hi]%lookup_delete_Some. destruct Em as [Em|]; [|done].
    split; [done|]. intros b Hb. by rewrite Em, Ec, Hb, app_nil_r.
  - done.
Qed.

Lemma binary_frame_channel frame passed sid task t : owns sid task t ->
  channel_turn sid task (Some (Binary frame)) t (binary_frame frame passed t).
Proof.
  intros O. pose proof O as [L Oi]. unfold binary_frame.
  assert (forall s p, split_tunnel_frame frame = Some (s, p) -> payload sid (Binary frame) = if decide (s = sid) then Some p else None) as P
    by (intros s p E; cbn; by rewrite E).
  destruct (split_tunnel_frame frame) as [[s p]|] eqn:E; [|apply channel_same; try done; cbn; by rewrite E].
  specialize (P _ _ eq_refl). cbn [fst snd]. destruct (inbound t !! s) as [i|] eqn:Ei.
  - destruct passed.
    + split; [done|]. cbn [inbound carried]. destruct (decide (s = sid)) as [->|Hs].
      * split; [|intros Hn; rewrite lookup_insert_ne; [done|congruence]]. intros Hi. split; [done|].
        intros b Hb. assert (i = task) as -> by congruence. rewrite lookup_insert_eq, Hb. cbn [mbind option_bind default].
        by rewrite P.
      * assert (i <> task) by (intros ->; by apply Hs, Oi). rewrite lookup_insert_ne by done. split; [|done].
        intros Hi. split; [done|]. intros b Hb. cbn [mbind option_bind]. rewrite P. cbn. by rewrite app_nil_r.
    + apply (channel_drop _ _ _ _ _ s); try done. cbn [mbind option_bind]. rewrite P.
      destruct (decide (s = sid)); [by right|by left].
  - destruct (decide (s = sid)) as [->|Hs].
    + split; [done|]. split; [congruence|done].
    + apply channel_same; try done; cbn [mbind option_bind]; by rewrite P, decide_False.
Qed.

Lemma text_frame_channel max text sid task h h' t t' r : owns sid task t ->
  text_frame handle max text h t = (h', t', Replies r) -> channel_turn sid task (Some (Text text)) t t'.
Proof.
  intros O. pose proof O as [L Oi]. unfold text_frame. cbv zeta.
  assert (forall packet h' t' r, (match handle h packet with
            | (h, Ok frames) => (h, t, Replies frames) | (h, Err e) => (h, t, LoopEnds (Err e)) end) = (h', t', Replies r) ->
          channel_turn sid task (Some (Text text)) t t') as Hh.
  { intros packet h1 t1 r1. destruct (handle h packet) as [h2 [|]]; [|done]. intros [= _ <- _]. by apply channel_same. }
  destruct (from_json text) as [packet|]; [|intros [= _ <- _]; by apply channel_same].
  destruct packet; try apply Hh.
  - destruct session_id as [s|]; [|apply Hh]. destruct (_ =? _)%N; [|apply Hh].
    unfold accept_tunnel. destruct (max <=? _); destruct (to_json _); try done; intros [= _ <- _]; [by apply channel_same|].
    split; [split|]; cbn [next_task inbound carried].
    + lia.
    + intros s' [[-> E]|[Hne Hs]]%lookup_insert_Some; [lia|by apply Oi].
    + assert (next_task t <> task) by lia. rewrite !(lookup_insert_ne (carried t)) by done. split; [|done].
      intros [[-> E]|[Hne Hs]]%lookup_insert_Some; [lia|]. split; [done|]. intros b Hb. by rewrite Hb, app_nil_r.
  - case_bool_decide; [|apply Hh]. intros [= _ <- _]. unfold offer_path.
    destruct (_ && _); apply channel_same; try done. cbn. lia.
  - case_bool_decide; [|apply Hh]. intros [= _ <- _]. apply (channel_drop _ _ _ _ _ session_id); auto.
Qed.

Lemma tunnel_turn_channel max ev sid task h h' t t' r : owns sid task t ->
  tunnel_turn handle max ev h t = (h', t', Replies r) -> channel_turn sid task (event_message ev) t t'.
Proof.
  intros O. unfold tunnel_turn. destruct ev as [[[m|e]|] passed| |i completed|]; try done.
  - destruct m as [text|frame| | |]; try (intros [= _ <- _]; by apply channel_same); [|].
    + by apply text_frame_channel.
    + intros [= _ <- _]. by apply binary_frame_channel.
  - intros [= _ <- _]. unfold task_ended. destruct (tunnels t !! i) as [[s|]|]; [destruct completed|..]; try by apply channel_same.
    apply (channel_drop _ _ _ _ _ s); auto.
  - intros [= _ <- _]. by apply channel_same.
Qed.

(** The channel of a tunnel carries the payloads of its session in order, up to
    where it was taken away. *)
Lemma host_carries max events sid task h h' t t' sent sent' : owns sid task t -> is_Some (carried t !! task) ->
  run_host_tunnels handle max events h t sent = (h', t', sent', None) ->
  owns sid task t' /\ exists ps, ps `prefix_of` payloads sid (omap (fun ev => event_message ev.1) events) /\
    carried t' !! task = Some (default [] (carried t !! task) ++ concat ps) /\
    (inbound t !! sid <> Some task -> ps = [] /\ inbound t' !! sid <> Some task) /\
    (inbound t' !! sid = Some task -> ps = payloads sid (omap (fun ev => event_message ev.1) events)).
Proof.
  revert h t sent. induction events as [|[ev w] events IH]; intros h t sent O [b Hb] E; cbn [run_host_tunnels] in E.
  { injection E as _ <- _. split; [done|]. exists []. rewrite Hb, app_nil_r. split_and!; try done. }
  destruct (tunnel_turn handle max ev h t) as [[h1 t1] [frames|r]] eqn:Et; [|done].
  destruct (negb _); [done|]. pose proof (tunnel_turn_channel _ _ _ _ _ _ _ _ _ O Et) as (O1 & C1 & C2).
  assert (is_Some (carried t1 !! task)) as Hc.
  { destruct (decide (inbound t1 !! sid = Some task)) as [Hi|Hi].
    - destruct (C1 Hi) as [_ Hc]. rewrite (Hc b Hb). eauto.
    - rewrite (C2 Hi). eauto. }
  destruct (IH _ _ _ O1 Hc E) as (O' & ps & P & Ec & Hlost & Hkept). split; [done|]. clear IH E Et.
  set (m := event_message ev) in *. rewrite Hb.
  assert (payloads sid (omap (fun ev => event_message ev.1) ((ev, w) :: events)) =
          option_list (m ≫= payload sid) ++ payloads sid (omap (fun ev => event_message ev.1) events)) as ->.
  { cbn [omap list_omap fst]. fold m. destruct m as [m'|]; [|done]. cbn [payloads omap list_omap mbind option_bind].
    by destruct (payload sid m'). }
  set (rest := payloads sid (omap _ events)) in *.
  destruct (decide (inbound t1 !! sid = Some task)) as [Hi|Hi].
  - destruct (C1 Hi) as [Hi0 Hc1]. specialize (Hc1 b Hb). rewrite Hc1 in Ec. cbn [default] in Ec.
    exists (option_list (m ≫= payload sid) ++ ps). split_and!.
    + by apply prefix_app.
    + rewrite Ec, concat_app. destruct (m ≫= payload sid); cbn; by rewrite <-?app_assoc, ?app_nil_r.
    + done.
    + intros Hi'. by rewrite (Hkept Hi').
  - destruct (Hlost Hi) as [-> Hi']. rewrite (C2 Hi), Hb in Ec. cbn [default] in Ec.
    exists []. split_and!; [apply prefix_nil|done|done|done].
Qed.
End HostTunnels.

(** ** Bytes of one tunnel at the relay *)

Section Hop.
Context {Q : Type} `{MpscSender Q Message} `{!MpscLaws Q Message} `{!Serde SignalPacket}.
(** The session, the connection that sends, and the queue towards the other
    end. *)
Context (sid a : Uuid) (h : WsSender).

Definition connected (st : Router.Relay Q) : Prop :=
  exists b cl, tunnel_peer_conn (manager st) sid a = Some b /\ get_client (connections st) b = Some cl /\
    client_sender cl = h.
(** What others do at the relay: nothing of this tunnel enters the queue, and
    a session or connection that is gone does not come back. *)
Definition others_turn (st st' : Router.Relay Q) : Prop :=
  (connected st' -> connected st) /\
  exists more, waiting (queues st') h = waiting (queues st) h ++ more /\ payloads sid more = [].

Record Hop := { unsent : list bytes; at_relay : Router.Relay Q; arrived : list Message }.
Inductive hop_step (l : Hop) : Hop -> Prop :=
| hop_send p rest : unsent l = p :: rest ->
    hop_step l {| unsent := rest; at_relay := (forward_tunnel_frame (at_relay l) a (tunnel_frame sid p)).1;
                  arrived := arrived l |}
| hop_others st' : others_turn (at_relay l) st' ->
    hop_step l {| unsent := unsent l; at_relay := st'; arrived := arrived l |}
| hop_take m rest qs : waiting (queues (at_relay l)) h = m :: rest -> waiting qs h = rest ->
    hop_step l {| unsent := unsent l; at_relay := with_queues qs (at_relay l); arrived := arrived l ++ [m] |}.

Definition piece_ok (p : bytes) : Prop := p <> [] /\ (len p <= MAX_TUNNEL_PAYLOAD)%N.
Definition waits_for_none (st : Router.Relay Q) : Prop := payloads sid (waiting (queues st) h) = [].

Lemma payloads_app l l' : payloads sid (l ++ l') = payloads sid l ++ payloads sid l'.
Proof. apply omap_app. Qed.

(** One frame of the tunnel at the relay. *)
Lemma forward_own st p : piece_ok p ->
  let st' := (forward_tunnel_frame st a (tunnel_frame sid p)).1 in
  (connected st' -> connected st) /\
  ((connected st /\ payloads sid (waiting (queues st') h) = payloads sid (waiting (queues st) h) ++ [p]) \/
   (~ connected st' /\ payloads sid (waiting (queues st') h) = payloads sid (waiting (queues st) h))).
Proof.
  intros [Hp Lp]. cbv zeta. unfold forward_tunnel_frame.
  assert (len (tunnel_frame sid p) = 16 + len p)%N as Lf.
  { unfold tunnel_frame, len. rewrite length_app, uuid_as_bytes_length. lia. }
  assert (1 <= len p)%N by (destruct p; [done|unfold len; cbn; lia]).
  assert ((len (tunnel_frame sid p) <=? N.of_nat SESSION_ID_LEN)%N || (N.of_nat SESSION_ID_LEN + MAX_TUNNEL_PAYLOAD <? len (tunnel_frame sid p))%N = false) as ->.
  { apply orb_false_iff. rewrite Lf. unfold SESSION_ID_LEN. split; [apply N.leb_gt|apply N.ltb_ge]; lia. }
  assert (take SESSION_ID_LEN (tunnel_frame sid p) = uuid_as_bytes sid) as ->
    by (unfold tunnel_frame; apply take_app_exact, uuid_as_bytes_length).
  rewrite uuid_from_slice_as_bytes.
  destruct (tunnel_peer_conn (manager st) sid a) as [b|] eqn:Eb.
  2: { cbn [fst]. split; [done|]. right. split; [|done]. intros (b & cl & Hb & _). congruence. }
  destruct (get_client (connections st) b) as [cl|] eqn:Ec.
  2: { cbn [fst]. split; [done|]. right. split; [|done]. intros (b' & cl & Hb & Hc & _). congruence. }
  destruct (Connections.send_message _ _ _) as [qs delivered] eqn:Es.
  pose proof (send_message_waiting _ _ _ _ _ h Es) as W.
  destruct delivered; cbn [fst andb] in W |- *.
  - split; [done|]. cbn [queues with_queues]. case_bool_decide as Eh.
    + left. split; [by exists b, cl|]. rewrite W, payloads_app. f_equal. cbn [payloads omap list_omap]. by rewrite payload_frame.
    + right. rewrite W, app_nil_r. split; [|done]. intros (b' & cl' & Hb & Hc & Hs).
      cbn [manager connections with_queues] in *. congruence.
  - assert (forall cs, ~ connected {| connections := cs; manager := (remove_session (manager st) sid).1; queues := qs |}) as N.
    { intros cs (b' & cl' & Hb & _). unfold tunnel_peer_conn, remove_session in Hb. cbn in Hb.
      by rewrite lookup_delete_eq in Hb. }
    cbn. destruct (decide (client_kind cl = User)); cbn; rewrite ?W, ?app_nil_r; (split; [intros C; by destruct (N _ C)|]);
      right; (split; [apply N|done]).
Qed.

(** The relay keeps the order of a tunnel. What has come out of it and what
    waits in it is always a first part of what went in; as long as the session
    and both ends last, it is all of it. *)
Lemma relay_keeps_order pieces st l : Forall piece_ok pieces -> waits_for_none st ->
  rtc hop_step {| unsent := pieces; at_relay := st; arrived := [] |} l ->
  let through := payloads sid (arrived l ++ waiting (queues (at_relay l)) h) in
  through `prefix_of` pieces /\ (connected (at_relay l) -> through ++ unsent l = pieces).
Proof.
  intros F W R.
  assert (exists sent, pieces = sent ++ unsent l /\ payloads sid (arrived l ++ waiting (queues (at_relay l)) h) `prefix_of` sent /\
    (connected (at_relay l) -> payloads sid (arrived l ++ waiting (queues (at_relay l)) h) = sent)) as (sent & E & P & C).
  { refine (invariant_rtc hop_step (fun l => exists sent, pieces = sent ++ unsent l /\
      payloads sid (arrived l ++ waiting (queues (at_relay l)) h) `prefix_of` sent /\
      (connected (at_relay l) -> payloads sid (arrived l ++ waiting (queues (at_relay l)) h) = sent)) _ _ _ R _).
    - intros x y S (sent & E & P & C). destruct S as [p rest Eu|st' [O1 (more & Ew & Em)]|m rest qs Ew Eq]; cbn [unsent at_relay arrived].
      + assert (piece_ok p) as Hp.
        { rewrite E, Eu in F. apply Forall_app in F as [_ F]. by apply Forall_cons in F as [F _]. }
        destruct (forward_own (at_relay x) p Hp) as [C1 [[C2 W2]|[C2 W2]]]; exists (sent ++ [p]);
          (split; [by rewrite E, Eu, <-app_assoc|]); rewrite payloads_app, W2.
        * rewrite app_assoc, <-payloads_app, (C C2). by split.
        * rewrite <-payloads_app. split; [|done]. etrans; [exact P|by apply prefix_app_r].
      + exists sent. rewrite Ew, app_assoc, payloads_app, Em, app_nil_r. split_and!; auto.
      + exists sent. cbn [queues with_queues]. rewrite Eq, <-app_assoc. cbn [app]. rewrite Ew in P, C. by split_and!.
    - exists []. cbn [unsent at_relay arrived app]. unfold waits_for_none in W. by rewrite W. }
  cbv zeta. split.
  - rewrite E. etrans; [exact P|by apply prefix_app_r].
  - intros Hc. by rewrite (C Hc).
Qed.

(** Frames of other senders, the router and ends of other connections are such
    turns of others. *)
Lemma frame_is_others st c frame :
  (forall b cl, tunnel_peer_conn (manager st) sid c = Some b -> get_client (connections st) b = Some cl ->
     client_sender cl <> h) ->
  others_turn st (forward_tunnel_frame st c frame).1.
Proof.
  intros N. assert (others_turn st st) as Same by (split; [done|]; exists []; by rewrite app_nil_r).
  unfold forward_tunnel_frame. destruct (_ || _); [exact Same|].
  destruct (uuid_from_slice _) as [s|] eqn:Eu; [|exact Same].
  destruct (tunnel_peer_conn _ s c) as [b|] eqn:Eb; [|exact Same].
  destruct (get_client _ b) as [cl|] eqn:Ec; [|exact Same].
  destruct (Connections.send_message _ _ _) as [qs delivered] eqn:Es.
  pose proof (send_message_waiting _ _ _ _ _ h Es) as W.
  destruct delivered; cbn [fst andb] in W |- *.
  - split; [done|]. eexists. split; [exact W|]. case_bool_decide as Eh; [|done].
    cbn. unfold split_tunnel_frame. destruct (_ <=? _)%N; [done|].
    change SESSION_ID_LEN with 16 in Eu. rewrite Eu. destruct (decide (s = sid)) as [->|]; [|done].
    by destruct (N _ _ Eb Ec).
  - assert (forall cs, (forall x y, get_client cs x = Some y -> get_client (connections st) x = Some y) ->
      others_turn st {| connections := cs; manager := (remove_session (manager st) s).1; queues := qs |}) as G.
    { intros cs Hcs. split.
      - intros (b' & cl' & Hb & Hc & Hs). exists b', cl'. split; [|split; [by apply Hcs|done]].
        unfold tunnel_peer_conn, peer_conn, remove_session in *. cbn in Hb.
        destruct (decide (s = sid)) as [->|Hne]; [by rewrite lookup_delete_eq in Hb|by rewrite !lookup_delete_ne in Hb].
      - exists []. rewrite app_nil_r in W. by rewrite app_nil_r. }
    cbn. destruct (decide (client_kind cl = User)); apply G; [|done].
    intros x y. unfold get_client, remove_connection. destruct (inner _ !! b); [|done]. cbn.
    by intros [_ ?]%lookup_delete_Some.
Qed.
Lemma others_refl st : others_turn st st.
Proof. split; [done|]. exists []. by rewrite app_nil_r. Qed.
Lemma others_trans st1 st2 st3 : others_turn st1 st2 -> others_turn st2 st3 -> others_turn st1 st3.
Proof.
  intros [C1 (m1 & W1 & P1)] [C2 (m2 & W2 & P2)]. split; [auto|]. exists (m1 ++ m2).
  by rewrite W2, W1, payloads_app, P1, P2, app_assoc.
Qed.
Lemma relay_send_is_others st c text : others_turn st (relay_send st c text).1.
Proof.
  unfold relay_send. destruct (send_to _ _ _ _) as [qs ok] eqn:E. split; [done|]. cbn [fst queues with_queues].
  destruct (send_to_inv _ _ _ _ _ _ h E) as [[-> _]|(cl & _ & _ & _ & ->)]; [exists []; by rewrite app_nil_r|by exists [Text text]].
Qed.
(** Sessions of the manager that go, or that are none of this one. *)
Lemma with_manager_is_others st m :
  (sessions m !! sid = sessions (manager st) !! sid \/ sessions m !! sid = None) -> others_turn st (with_manager m st).
Proof.
  intros E. split; [|exists []; by rewrite app_nil_r].
  intros (b & cl & Hb & Hc & Hs). exists b, cl. split; [|done]. unfold tunnel_peer_conn, peer_conn in *.
  cbn [manager with_manager] in Hb. destruct E as [E|E]; rewrite E in Hb; done.
Qed.
Lemma remove_session_is_others st s : others_turn st (with_manager (remove_session (manager st) s).1 st).
Proof.
  apply with_manager_is_others. cbn. destruct (decide (s = sid)) as [->|].
  - right. by rewrite lookup_delete_eq.
  - left. by rewrite lookup_delete_ne.
Qed.
Lemma reject_is_others st m s reason : others_turn st (reject st m s reason).
Proof. unfold reject. destruct (to_json _); [apply relay_send_is_others|apply others_refl]. Qed.
Lemma forward_is_others st m s : others_turn st (forward st m s).1.
Proof. unfold forward. destruct (peer_conn _ _ _); [apply relay_send_is_others|apply others_refl]. Qed.
Lemma route_is_others st m fresh now : fresh <> sid -> others_turn st (router_turn st m fresh now).
Proof.
  intros Hf. unfold router_turn. destruct (from_json _) as [packet|]; [|apply others_refl].
  destruct packet; cbn [route_packet]; try apply forward_is_others; try apply others_refl.
  - unfold route_session_request. destruct (negb _); [apply reject_is_others|].
    destruct (routable_device _ _ _) as [dconn|]; [|apply reject_is_others].
    destruct (create_session _ _) as [m' [|]] eqn:Ec; [|apply reject_is_others].
    assert (others_turn st (with_manager m' st)) as O1.
    { apply with_manager_is_others. left. unfold create_session in Ec. repeat case_match; simplify_eq.
      cbn. by rewrite lookup_insert_ne. }
    destruct (to_json _) as [text|]; cbv zeta beta iota.
    + pose proof (relay_send_is_others (with_manager m' st) dconn text) as O2. destruct (relay_send _ _ _) as [st2 ok].
      cbn [fst] in O2. destruct (_ || _); [|by eapply others_trans].
      eapply others_trans; [eapply others_trans; [exact O1|exact O2]|].
      eapply others_trans; [apply remove_session_is_others|apply reject_is_others].
    + cbn [negb orb]. eapply others_trans; [exact O1|].
      eapply others_trans; [apply remove_session_is_others|apply reject_is_others].
  - pose proof (forward_is_others st m session_id) as O. destruct (forward _ _ _) as [st' []]; [|done].
    eapply others_trans; [exact O|apply remove_session_is_others].
  - pose proof (forward_is_others st m session_id) as O. destruct (forward _ _ _) as [st' []]; [|done].
    eapply others_trans; [exact O|apply remove_session_is_others].
Qed.
End Hop.

(** ** From one end to the other *)

Section EndToEnd.
Context `{!Serde SignalPacket}.

Lemma payload_prefix sid frame : payload sid (Binary frame) = Some (drop 16 frame) \/
  (payload sid (Binary frame) = None /\ (take 16 frame = uuid_as_bytes sid -> drop 16 frame = [])).
Proof.
  unfold payload, split_tunnel_frame, len. destruct (N.leb_spec (N.of_nat (length frame)) 16).
  - right. split; [done|]. intros _. apply drop_ge. lia.
  - destruct (uuid_from_slice (take 16 frame)) as [s|] eqn:E.
    + destruct (decide (s = sid)) as [->|Hs]; [by left|]. right. split; [done|]. intros T.
      rewrite T, uuid_from_slice_as_bytes in E. congruence.
    + right. split; [done|]. intros T. by rewrite T, uuid_from_slice_as_bytes in E.
Qed.
Lemma payload_mine sid frame p : payload sid (Binary frame) = Some p -> take 16 frame = uuid_as_bytes sid.
Proof.
  unfold payload, split_tunnel_frame. destruct (_ <=? _)%N; [done|].
  destruct (uuid_from_slice (take 16 frame)) as [s|] eqn:E; [|done].
  destruct (decide (s = sid)) as [->|]; [|done]. intros _. symmetry. by apply uuid_from_slice_Some.
Qed.

(** The client writes the payloads of its session in order, until it ends. *)
Lemma downstream_carries sid incoming :
  exists ps, ps `prefix_of` payloads sid (omap (fun m => ok m.1) incoming) /\
    (downstream sid incoming).1.1 = concat ps /\
    ((downstream sid incoming).2 = false -> ps = payloads sid (omap (fun m => ok m.1) incoming)).
Proof.
  induction incoming as [|[m open] incoming (ps & P & E & K)]; [by exists []|].
  assert (forall r : bytes * list string * bool, r.1.1 = [] -> r.2 = true ->
    exists ps', ps' `prefix_of` payloads sid (omap (fun m => ok m.1) ((m, open) :: incoming)) /\ r.1.1 = concat ps' /\
      (r.2 = false -> ps' = payloads sid (omap (fun m => ok m.1) ((m, open) :: incoming)))) as Stop.
  { intros r E1 E2. exists []. rewrite E1, E2. split_and!; [apply prefix_nil|done|done]. }
  destruct m as [[text|frame| | |]|e]; cbn [downstream]; try (by apply Stop); try (by exists ps).
  - destruct (from_json text) as [packet|]; [|by exists ps].
    destruct packet; try (by exists ps); (destruct (decide _); [try (by apply Stop); by exists ps|by exists ps]).
  - pose proof (payload_prefix sid frame) as D.
    assert (payloads sid (omap (fun m => ok m.1) ((Ok (Binary frame), open) :: incoming)) =
      option_list (payload sid (Binary frame)) ++ payloads sid (omap (fun m => ok m.1) incoming)) as ->.
    { cbn [omap list_omap fst ok payloads]. by destruct (payload sid (Binary frame)). }
    case_bool_decide as T.
    + destruct open; [|exists []; split_and!; [apply prefix_nil|done|done]]. cbn [fst snd].
      destruct D as [D|[D Dn]]; rewrite D.
      * exists (drop 16 frame :: ps). cbn [option_list app concat]. rewrite E.
        split_and!; [by apply prefix_cons|done|]. intros Hf. by rewrite K.
      * exists ps. by rewrite (Dn T), E.
    + destruct (payload sid (Binary frame)) eqn:Ep; [|by exists ps].
      apply payload_mine in Ep. done.
Qed.

Context {Q : Type} `{MpscSender Q Message} `{!MpscLaws Q Message}.

(** C33. A tunnel is a byte stream. Whatever else the relay does and however
    its queue fills, the pieces that one end sends come out at the other end
    in order and whole up to some point: a host's tunnel carries, and a client
    writes, a first part of them and nothing of any other tunnel; and when the
    session lasts, everything was sent and taken, and the other end still
    listens, it is all of them. *)
Theorem tunnel_bytes_in_order sid a h pieces (st : Router.Relay Q) l : Forall piece_ok pieces -> waits_for_none sid h st ->
  rtc (hop_step sid a h) {| unsent := pieces; at_relay := st; arrived := [] |} l ->
  let drained := connected sid a h (at_relay l) /\ unsent l = [] /\ waiting (queues (at_relay l)) h = [] in
  (forall (S : Type) (handle : S -> SignalPacket -> S * Result (list string) AgentError) (J : JsonText)
     max events x x' t t' sent sent' task,
     owns sid task t -> carried t !! task = Some [] ->
     run_host_tunnels (H := J) handle max events x t sent = (x', t', sent', None) ->
     omap (fun ev => event_message ev.1) events = arrived l ->
     exists ps, ps `prefix_of` pieces /\ carried t' !! task = Some (concat ps) /\
       (inbound t' !! sid = Some task -> drained -> ps = pieces)) /\
  (forall incoming, omap (fun m => ok m.1) incoming = arrived l ->
     exists ps, ps `prefix_of` pieces /\ (downstream sid incoming).1.1 = concat ps /\
       ((downstream sid incoming).2 = false -> drained -> ps = pieces)).
Proof.
  intros F W R drained. destruct (relay_keeps_order sid a h pieces st l F W R) as [P C]. rewrite payloads_app in P, C.
  assert (payloads sid (arrived l) `prefix_of` pieces) as Pa by (etrans; [by apply prefix_app_r|exact P]).
  assert (drained -> payloads sid (arrived l) = pieces) as Da.
  { intros (Hc & Hu & Hw). specialize (C Hc). rewrite Hu, Hw in C. cbn [payloads omap list_omap] in C. by rewrite !app_nil_r in C. }
  split.
  - intros S handle J max events x x' t t' sent sent' task O E0 Er Ea.
    destruct (host_carries handle max events sid task x x' t t' sent sent' O ltac:(by eexists) Er) as (_ & ps & Pp & Ec & _ & K).
    rewrite Ea in Pp, K. rewrite E0 in Ec. exists ps. split; [by etrans|]. split; [exact Ec|].
    intros Hi D. by rewrite (K Hi), (Da D).
  - intros incoming Ea. destruct (downstream_carries sid incoming) as (ps & Pp & E & K). rewrite Ea in Pp, K.
    exists ps. split; [by etrans|]. split; [done|]. intros He D. by rewrite (K He), (Da D).
Qed.
End EndToEnd.

(** A relay with one tunnel between connection 1 and the host's connection 2. *)
Definition tunnel_relay : Router.Relay (BoundedQueue Message) :=
  let u := uuid_from_u128 in
  let client c kind := {| client_user_id := u (c + 10)%N; client_org_id := u 1%N; client_kind := kind; client_sender := (c + 20)%N |} in
  let q := {| capacity := OUTGOING_QUEUE; rx_closed := false; items := [] |} in
  {| connections := insert_connection (insert_connection connection_map_new (u 1%N) (client 1%N User)) (u 2%N) (client 2%N Connections.Device);
     manager := {| sessions := {[u 7%N := {| Sessions.session_id := u 7%N; session_org_id := u 1%N; Sessions.device_id := u 12%N;
       session_device_conn := u 2%N; initiator_id := u 11%N; initiator_conn := u 1%N; tunnel := true; started_at := 0 |}]} |};
     queues := <[21%N := q]> {[22%N := q]} |}.
Lemma tunnel_bytes_in_order_witness :
  let u := uuid_from_u128 in
  let pieces := [as_bytes "ab"; as_bytes "c"] in
  let task_frames := map (fun p => Ok (Binary (tunnel_frame (u 7%N) p))) pieces in
  exists ps, ps = pieces /\
    (downstream (Serde0 := toy_serde SignalPacket) (u 7%N) (map (fun m => (m, true)) task_frames)).1.1 = concat ps.
Proof.
  intros u pieces task_frames.
  set (sent p st := (forward_tunnel_frame st (u 1%N) (tunnel_frame (u 7%N) p)).1).
  set (drained (st : Router.Relay (BoundedQueue Message)) := with_queues (<[22%N := {| capacity := OUTGOING_QUEUE; rx_closed := false; items := [] |}]> (queues st)) st).
  set (l := {| unsent := []; at_relay := drained (sent (as_bytes "c") (drained (sent (as_bytes "ab") tunnel_relay)));
               arrived := map (fun p => Binary (tunnel_frame (u 7%N) p)) pieces |}).
  destruct (tunnel_bytes_in_order (Serde0 := toy_serde SignalPacket) (Q := BoundedQueue Message)
    (u 7%N) (u 1%N) 22%N pieces tunnel_relay l) as [_ Client].
  - repeat constructor; try done; intros E; vm_compute in E; discriminate.
  - reflexivity.
  - eapply rtc_l; [by eapply hop_send|]. eapply rtc_l; [apply (hop_take _ _ _ _ (Binary (tunnel_frame (u 7%N) (as_bytes "ab"))) [] (queues (drained tunnel_relay))); vm_compute; reflexivity|].
    eapply rtc_l; [by eapply hop_send|]. eapply rtc_l; [apply (hop_take _ _ _ _ (Binary (tunnel_frame (u 7%N) (as_bytes "c"))) [] (queues (drained tunnel_relay))); vm_compute; reflexivity|].
    apply rtc_refl.
  - destruct (Client (map (fun m => (m, true)) task_frames)) as (ps & _ & E & K); [reflexivity|].
    exists ps. split; [|exact E]. apply K; [reflexivity|]. split_and!; [|reflexivity|reflexivity].
    do 2 eexists. split; [reflexivity|]. split; reflexivity.
Defined.
