(* ===== verification/KeyStore.v ===== *)
(** * Keys on disk

    rivetlink-agent/src/keystore/file.rs and the file of
    rivetlink-sdk/src/identity.rs: a secret that is generated once and read
    until a reset. Random seeds are arguments, and every operation takes the
    faults it meets. *)
From Stdlib Require Import NArith Lia Strings.String Strings.Byte.
From S2P Require Import Prelude Text Interfaces Instances Protocol Trusted ClientSession.

(** [Path::join] with a relative name. *)
Definition path_join (dir name : string) : string :=
  if (dir =? "")%string then name
  else if ends_with "/" dir then (dir ++ name)%string
  else (dir ++ "/" ++ name)%string.

(** What file operations meet. [hidden]: the metadata of an existing file
    cannot be read, so [Path::exists] says no. *)
Record FileEnv := {
  hidden : bool;
  read_fault : option string;
  write_fault : WriteFault;
  remove_fault : nat -> option string;
}.
Definition quiet : FileEnv :=
  {| hidden := false; read_fault := None; write_fault := NoFault; remove_fault _ := None |}.

(** ed25519-dalek and x25519-dalek: secret keys as bytes. *)
Class SecretBytes `{Ed25519} := {
  signing_from_bytes : bytes -> SigningKey;
  signing_to_bytes : SigningKey -> bytes;
  StaticSecret : Type;
  static_from_bytes : bytes -> StaticSecret;
  static_to_bytes : StaticSecret -> bytes;
  static_public : StaticSecret -> bytes;
}.
(** A JSON object ends with its closing brace, so a text cut short is no
    object. *)
Class SerdeTorn (A : Type) `{Serde A} `{SerdePretty A} : Prop := {
  torn_unreadable : forall (a : A) s n, to_json_pretty a = Ok s -> n < length (as_bytes s) ->
    is_ok (from_json (A := A) (from_utf8 (take n (as_bytes s)))) = false;
}.
Class SecretBytesLaws `{SecretBytes} : Prop := {
  signing_to_from_bytes : forall b, length b = 32 -> signing_to_bytes (signing_from_bytes b) = b;
  static_to_bytes_length : forall s, length (static_to_bytes s) = 32;
  static_public_length : forall s, length (static_public s) = 32;
}.

Record StoredKey := { secret_b64 : string; public_b64 : string }.
Record KeyMaterial := { key_secret : bytes; key_public : bytes }.
#[export] Instance StoredKey_eq_dec : EqDecision StoredKey.
Proof. solve_decision. Defined.
#[export] Instance StoredKey_countable : Countable StoredKey.
Proof.
  refine (inj_countable' (fun k => (secret_b64 k, public_b64 k))
    (fun '(s, p) => {| secret_b64 := s; public_b64 := p |}) _). by intros [].
Defined.
Record FileKeyStore := { dir : string }.
Definition signing_path (store : FileKeyStore) : string := path_join (dir store) "signing.json".
Definition encryption_path (store : FileKeyStore) : string := path_join (dir store) "encryption.json".

Section KeyFiles.
Context `{Base64} `{SecretBytes} `{!Serde StoredKey} `{!SerdePretty StoredKey}.

Definition stored_key_new (secret public : bytes) : StoredKey :=
  {| secret_b64 := b64_encode secret; public_b64 := b64_encode public |}.
Definition decode_key (k : StoredKey) : Result KeyMaterial AgentError :=
  let? secret := map_err Base64Error (b64_decode (secret_b64 k)) in
  let? public := map_err Base64Error (b64_decode (public_b64 k)) in
  if negb (length secret =? 32)%nat || negb (length public =? 32)%nat
  then Err (Keystore "invalid key length")
  else Ok {| key_secret := secret; key_public := public |}.

Definition generate_signing (seed : bytes) : StoredKey :=
  let sk := signing_from_bytes seed in stored_key_new (signing_to_bytes sk) (verifying_key sk).
Definition generate_encryption (seed : bytes) : StoredKey :=
  let sk := static_from_bytes seed in stored_key_new (static_to_bytes sk) (static_public sk).

Definition path_exists (env : FileEnv) (path : string) (d : Disk) : bool :=
  negb (hidden env) && bool_decide (is_Some (d !! path)).
Definition load_or (env : FileEnv) (path : string) (generated : StoredKey) (d : Disk)
  : Disk * Result StoredKey AgentError :=
  if path_exists env path d then
    (d, let? body := map_err Io (read_to_string (read_fault env) path d) in
        map_err SerdeError (from_json body))
  else
    match to_json_pretty generated with
    | Err e => (d, Err (SerdeError e))
    | Ok body =>
        let '(d, r) := write_secret (write_fault env) path (as_bytes body) d in
        (d, let? _ := map_err Io r in Ok generated)
    end.
Definition ensure_key (env : FileEnv) (path : string) (generated : StoredKey) (d : Disk)
  : Disk * Result KeyMaterial AgentError :=
  let '(d, stored) := load_or env path generated d in (d, let? stored := stored in decode_key stored).
Definition ensure_signing_key (env : FileEnv) (seed : bytes) (store : FileKeyStore) (d : Disk)
  : Disk * Result KeyMaterial AgentError :=
  ensure_key env (signing_path store) (generate_signing seed) d.
Definition ensure_encryption_key (env : FileEnv) (seed : bytes) (store : FileKeyStore) (d : Disk)
  : Disk * Result KeyMaterial AgentError :=
  ensure_key env (encryption_path store) (generate_encryption seed) d.
Fixpoint remove_files (env : FileEnv) (n : nat) (paths : list string) (d : Disk) : Disk * Result unit AgentError :=
  match paths with
  | [] => (d, Ok tt)
  | p :: paths =>
      if path_exists env p d then
        match remove_fault env n with
        | Some m => (d, Err (Io m))
        | None => remove_files env (S n) paths (delete p d)
        end
      else remove_files env (S n) paths d
  end.
Definition reset (env : FileEnv) (store : FileKeyStore) (d : Disk) : Disk * Result unit AgentError :=
  remove_files env 0 [signing_path store; encryption_path store] d.
End KeyFiles.

(** ** The identity of a client *)

Record StoredIdentity := { identity_secret_b64 : string }.
Section ClientIdentity.
Context `{Base64} `{SecretBytes} `{!Serde StoredIdentity} `{!SerdePretty StoredIdentity}.

Definition sdk_io (m : string) : Sdk.SdkError := Sdk.Io {| io.kind := io.Other; io.text := m |}.
Definition read_identity (body : string) : Result SigningKey Sdk.SdkError :=
  let? stored := map_err Sdk.SerdeError (from_json body) in
  let? raw := map_err Sdk.Base64Error (b64_decode (identity_secret_b64 stored)) in
  if negb (length raw =? 32)%nat then Err (Sdk.Identity "stored key wrong length")
  else Ok (signing_from_bytes raw).
Definition load_or_create (env : FileEnv) (seed : bytes) (path : string) (d : Disk)
  : Disk * Result SigningKey Sdk.SdkError :=
  if path_exists env path d then
    (d, let? body := map_err sdk_io (read_to_string (read_fault env) path d) in read_identity body)
  else
    let key := signing_from_bytes seed in
    match to_json_pretty {| identity_secret_b64 := b64_encode (signing_to_bytes key) |} with
    | Err e => (d, Err (Sdk.SerdeError e))
    | Ok body =>
        let '(d, r) := write_secret (write_fault env) path (as_bytes body) d in
        (d, let? _ := map_err sdk_io r in Ok key)
    end.
Definition identity_default_path (dir : string) : string := path_join dir "client_identity.json".
End ClientIdentity.

(** ** One identity for life *)

Lemma path_join_inj dir a b : path_join dir a = path_join dir b -> a = b.
Proof.
  unfold path_join. destruct (dir =? "")%string; [done|]. intros E. apply (f_equal as_bytes) in E.
  destruct (ends_with "/" dir); rewrite ?as_bytes_app in E; repeat apply app_inv_head in E; by apply as_bytes_inj.
Qed.
Lemma key_paths_differ store : signing_path store <> encryption_path store.
Proof. intros E%path_join_inj. done. Qed.

(** What happens to a key store over its life. *)
Inductive KeyOp := EnsureSigning (seed : bytes) | EnsureEncryption (seed : bytes).
Section Life.
Context `{Base64Laws} `{SecretBytesLaws} `{!Ed25519Laws} `{!Serde StoredKey} `{!SerdePretty StoredKey}.
Context `{!SerdePrettyLaws StoredKey} `{!SerdeTorn StoredKey}.
Context (store : FileKeyStore).

Definition key_step (op : FileEnv * KeyOp) (d : Disk) : Disk * Result KeyMaterial AgentError :=
  match op.2 with
  | EnsureSigning seed => ensure_signing_key op.1 seed store d
  | EnsureEncryption seed => ensure_encryption_key op.1 seed store d
  end.
Fixpoint key_life (ops : list (FileEnv * KeyOp)) (d : Disk) : Disk * list (KeyOp * Result KeyMaterial AgentError) :=
  match ops with
  | [] => (d, [])
  | op :: ops =>
      let '(d, r) := key_step op d in let '(d, rs) := key_life ops d in (d, (op.2, r) :: rs)
  end.
Definition is_signing (op : KeyOp) : bool := match op with EnsureSigning _ => true | EnsureEncryption _ => false end.
Definition op_path (op : KeyOp) : string :=
  if is_signing op then signing_path store else encryption_path store.
Definition op_generated (op : KeyOp) : StoredKey :=
  match op with EnsureSigning seed => generate_signing seed | EnsureEncryption seed => generate_encryption seed end.
(** What a file says. *)
Definition file_key (path : string) (d : Disk) : option KeyMaterial :=
  body ← d !! path; stored ← ok (from_json (from_utf8 body)); ok (decode_key stored).

Lemma key_step_eq op d : key_step op d = ensure_key op.1 (op_path op.2) (op_generated op.2) d.
Proof. by destruct op as [env []]. Qed.
Lemma load_or_other env path g d q : q <> path -> (load_or env path g d).1 !! q = d !! q.
Proof.
  intros N. unfold load_or. destruct (path_exists _ _ _); [done|]. destruct (to_json_pretty g) as [body|]; [|done].
  unfold write_secret. destruct (write_fault env); cbn; by rewrite ?lookup_insert_ne.
Qed.
Lemma load_or_present env path g d b : hidden env = false -> d !! path = Some b ->
  load_or env path g d =
    (d, let? body := map_err Io (read_to_string (read_fault env) path d) in map_err SerdeError (from_json body)).
Proof. intros Hh Hb. unfold load_or, path_exists. by rewrite Hh, Hb, bool_decide_true by eauto. Qed.
Lemma ensure_key_other env path g d q : q <> path -> (ensure_key env path g d).1 !! q = d !! q.
Proof.
  intros N. unfold ensure_key. pose proof (load_or_other env path g d q N) as E. by destruct (load_or _ _ _ _).
Qed.
(** A returned key is the one in the file. *)
Lemma ensure_key_in_file env path g d d' k : ensure_key env path g d = (d', Ok k) -> file_key path d' = Some k.
Proof.
  unfold ensure_key, load_or, file_key. destruct (path_exists env path d) eqn:Ex.
  - intros E. unfold read_to_string in E. destruct (read_fault env); [done|].
    destruct (d !! path) as [b|] eqn:Eb; cbn [fmap option_fmap option_map ok_or map_err] in E; [|done].
    destruct (from_json (from_utf8 b)) as [stored|] eqn:Es; cbn [map_err] in E; [|done].
    apply pair_eq in E as [<- E]. rewrite Eb. cbn. rewrite Es. cbn. by rewrite E.
  - destruct (to_json_pretty g) as [body|] eqn:Eg; [|done].
    unfold write_secret. destruct (write_fault env); cbn; intros E; [|done..].
    injection E as <- E. rewrite lookup_insert_eq. cbn. rewrite from_utf8_as_bytes.
    rewrite (from_to_json_pretty _ _ Eg). cbn. by rewrite E.
Qed.
(** A file is not written again, and what it says is what is returned. *)
Lemma ensure_key_present env path g d b : hidden env = false -> d !! path = Some b ->
  (ensure_key env path g d).1 = d /\ (forall k, (ensure_key env path g d).2 = Ok k -> file_key path d = Some k) /\
  (read_fault env = None -> forall k, file_key path d = Some k -> (ensure_key env path g d).2 = Ok k).
Proof.
  intros Hh Hb. unfold ensure_key. rewrite (load_or_present env path g d b Hh Hb). unfold file_key, read_to_string.
  rewrite Hb. cbn [mbind option_bind fst snd]. split; [done|]. split.
  - destruct (read_fault env); [done|]. cbn [fmap option_fmap option_map ok_or map_err]. intros k.
    destruct (from_json (from_utf8 b)) as [s|]; [|done]. cbn. intros E. by rewrite E.
  - intros ->. cbn [fmap option_fmap option_map ok_or map_err]. intros k.
    destruct (from_json (from_utf8 b)) as [s|]; [|done]. cbn. by destruct (decode_key s) as [k'|]; [intros [= ->]|].
Qed.
(** A file that was not there holds the generated key or nothing readable. *)
Lemma ensure_key_fresh env path g d k : hidden env = false -> d !! path = None ->
  file_key path (ensure_key env path g d).1 = Some k -> decode_key g = Ok k.
Proof.
  intros Hh Hn. unfold ensure_key, load_or, path_exists. rewrite Hh, Hn.
  assert (bool_decide (is_Some (@None bytes)) = false) as -> by (apply bool_decide_eq_false; by intros [? ?]).
  cbn [negb andb]. unfold file_key. destruct (to_json_pretty g) as [body|] eqn:Eg; [|cbn [fst]; by rewrite Hn].
  pose proof (from_to_json_pretty _ _ Eg) as Ef. unfold write_secret.
  assert (forall n, (stored ← ok (from_json (from_utf8 (take n (as_bytes body)))); ok (decode_key stored)) = Some k ->
    decode_key g = Ok k) as T.
  { intros n. destruct (decide (n < length (as_bytes body))) as [L|L].
    - pose proof (torn_unreadable g body n Eg L) as T. by destruct (from_json (from_utf8 (take n _))).
    - rewrite take_ge, from_utf8_as_bytes, Ef by lia. cbn. by destruct (decode_key g) as [?|]; cbn; [intros [= ->]|]. }
  destruct (write_fault env); cbn [fst].
  - rewrite lookup_insert_eq. cbn [mbind option_bind]. intros E. apply (T (length (as_bytes body))).
    by rewrite take_ge by lia.
  - by rewrite Hn.
  - rewrite lookup_insert_eq. apply T.
Qed.
Lemma decode_generated op : (length (match op with EnsureSigning s | EnsureEncryption s => s end) = 32) ->
  exists k, decode_key (op_generated op) = Ok k /\
    match op with
    | EnsureSigning seed => key_secret k = seed /\ key_public k = verifying_key (signing_from_bytes seed)
    | EnsureEncryption seed => key_secret k = static_to_bytes (static_from_bytes seed) /\
        key_public k = static_public (static_from_bytes seed)
    end.
Proof.
  assert (forall s p, length s = 32 -> length p = 32 ->
    decode_key (stored_key_new s p) = Ok {| key_secret := s; key_public := p |}) as D.
  { intros s p Ls Lp. unfold decode_key, stored_key_new. cbn [secret_b64 public_b64].
    rewrite !b64_decode_encode. cbn [map_err]. by rewrite Ls, Lp. }
  intros L. destruct op as [seed|seed]; eexists; (split; [apply D|]); cbn [key_secret key_public];
    rewrite ?signing_to_from_bytes, ?verifying_key_length, ?static_to_bytes_length, ?static_public_length; done.
Qed.

Lemma key_life_file ops d path k : Forall (fun op => hidden op.1 = false) ops ->
  is_Some (d !! path) -> file_key path d = Some k ->
  (path = signing_path store \/ path = encryption_path store) ->
  file_key path (key_life ops d).1 = Some k /\
  Forall (fun r => op_path r.1 = path -> forall k', r.2 = Ok k' -> k' = k) (key_life ops d).2.
Proof.
  intros F. revert d. induction F as [|[env op] ops Hh F IH]; intros d [b Hb] Hk Hp; [by split; [|constructor]|].
  cbn [key_life]. rewrite key_step_eq. cbn [fst snd].
  pose proof (ensure_key_other env (op_path op) (op_generated op) d path) as Other.
  pose proof (ensure_key_present env path (op_generated op) d b Hh Hb) as (P1 & P2 & _).
  assert ((ensure_key env (op_path op) (op_generated op) d).1 !! path = d !! path) as E1.
  { destruct (decide (op_path op = path)) as [->|N]; [by rewrite P1|auto]. }
  destruct (ensure_key env (op_path op) (op_generated op) d) as [d1 r] eqn:Er. cbn [fst] in E1.
  assert (file_key path d1 = Some k) as Hk1 by (unfold file_key; by rewrite E1).
  destruct (IH d1 ltac:(rewrite E1; eauto) Hk1 Hp) as [I1 I2]. destruct (key_life ops d1) as [d2 rs]. cbn [fst snd] in *.
  split; [done|]. constructor; [|done]. cbn [fst snd]. intros Ep k' ->. rewrite Ep in Er.
  rewrite Er in P2. specialize (P2 k' eq_refl). congruence.
Qed.

(** Where the key of a file comes from. *)
Definition op_seed (op : KeyOp) : bytes := match op with EnsureSigning s | EnsureEncryption s => s end.
Definition origin (made : list KeyOp) (path : string) (d : Disk) : Prop :=
  forall k, file_key path d = Some k ->
  exists op, op ∈ made /\ op_path op = path /\ decode_key (op_generated op) = Ok k.
Lemma key_life_origin made ops d path : Forall (fun op => hidden op.1 = false /\ op.2 ∈ made) ops ->
  origin made path d -> origin made path (key_life ops d).1.
Proof.
  intros F. revert d. induction F as [|[env op] ops [Hh Hm] F IH]; intros d O; [done|].
  cbn [key_life]. rewrite key_step_eq. cbn [fst snd] in *.
  destruct (ensure_key env (op_path op) (op_generated op) d) as [d1 r] eqn:Er.
  assert (d1 = (ensure_key env (op_path op) (op_generated op) d).1) as E1 by (by rewrite Er).
  specialize (IH d1). destruct (key_life ops d1) as [d2 rs]. apply IH. clear IH. intros k Hk.
  destruct (decide (op_path op = path)) as [<-|N].
  - destruct (d !! op_path op) as [b|] eqn:Eb.
    + apply O. by rewrite E1, (proj1 (ensure_key_present _ _ _ _ _ Hh Eb)) in Hk.
    + exists op. split; [done|]. split; [done|]. rewrite E1 in Hk. by eapply ensure_key_fresh.
  - apply O. unfold file_key in *. by rewrite E1, ensure_key_other in Hk by congruence.
Qed.
Lemma file_key_present path d k : file_key path d = Some k -> is_Some (d !! path).
Proof. unfold file_key. by destruct (d !! path) eqn:X; [eexists|]. Qed.
Lemma results_in_file ops d op k : Forall (fun op => hidden op.1 = false) ops ->
  (op, Ok k) ∈ (key_life ops d).2 -> file_key (op_path op) (key_life ops d).1 = Some k.
Proof.
  intros F. revert d. induction F as [|[env o] ops Hh F IH]; intros d I; [by apply not_elem_of_nil in I|].
  cbn [key_life] in *. rewrite key_step_eq in *. cbn [fst snd] in *.
  destruct (ensure_key env (op_path o) (op_generated o) d) as [d1 r] eqn:Er. specialize (IH d1).
  assert (op_path o = signing_path store \/ op_path o = encryption_path store) as Ho by (destruct o; auto).
  pose proof (fun k Hk => key_life_file ops d1 (op_path o) k F (file_key_present _ _ _ Hk) Hk Ho) as K.
  destruct (key_life ops d1) as [d2 rs]. cbn [fst snd] in *. apply elem_of_cons in I as [[= -> <-]|I]; [|auto].
  apply K. by eapply ensure_key_in_file.
Qed.
Lemma same_file op op' : is_signing op = is_signing op' -> op_path op = op_path op'.
Proof. unfold op_path. by intros ->. Qed.

(** Everything that is done with a key store, whose metadata may or may not be
    readable at each moment. *)
Inductive StoreOp := Ensure (op : KeyOp) | Reset.
Definition store_step (op : FileEnv * StoreOp) (d : Disk) : Disk :=
  match op.2 with
  | Ensure key => (key_step (op.1, key) d).1
  | Reset => (reset op.1 store d).1
  end.
Definition store_life (ops : list (FileEnv * StoreOp)) (d : Disk) : Disk := fold_left (fun d op => store_step op d) ops d.
(** A reset that says it worked has removed what it saw. *)
Lemma remove_files_ok env n paths d d' : hidden env = false -> remove_files env n paths d = (d', Ok tt) ->
  (forall p, p ∈ paths -> d' !! p = None) /\ (forall q, q ∉ paths -> d' !! q = d !! q).
Proof.
  intros Hh. revert n d. induction paths as [|p paths IH]; intros n d E; cbn [remove_files] in E.
  { simplify_eq. split; [intros ? Hp; by apply elem_of_nil in Hp|done]. }
  assert (forall d1, remove_files env (S n) paths d1 = (d', Ok tt) -> d1 !! p = None -> (forall q, q <> p -> d1 !! q = d !! q) ->
    (forall p', p' ∈ p :: paths -> d' !! p' = None) /\ (forall q, q ∉ p :: paths -> d' !! q = d !! q)) as Step.
  { intros d1 E1 Hp Hq. apply IH in E1 as [I1 I2]. split.
    - intros p' Hp'. destruct (decide (p' ∈ paths)) as [Hin|Hin]; [auto|].
      apply elem_of_cons in Hp' as [->|]; [|done]. by rewrite I2.
    - intros q [Hn Hin]%not_elem_of_cons. by rewrite I2, Hq. }
  unfold path_exists in E. rewrite Hh in E. destruct (bool_decide (is_Some (d !! p))) eqn:B; cbn [negb andb] in E.
  - destruct (remove_fault env n); [done|]. apply (Step _ E); [apply lookup_delete_eq|intros; by apply lookup_delete_ne].
  - apply (Step _ E); [|done]. apply bool_decide_eq_false in B. by destruct (d !! p); [destruct B|].
Qed.

(** C36. A host has one identity until it is reset. Whatever was done with the
    key store before, and from there however the calls for its keys come,
    whatever operation fails in between and whatever the random generator
    gives, as long as a key file that is there can be seen to be there: every
    key that is returned for signing is the same, and so for encryption; a key
    that was created is a matching pair made from one of the seeds of these
    calls; and once a key was returned, a later call whose file operations
    succeed returns it. A reset that succeeds removes both keys, and nothing
    else, so what is returned after it was made after it. *)
Theorem one_identity before ops d (Seeds : Forall (fun op => hidden op.1 = false /\ length (op_seed op.2) = 32) ops) :
  let '(d', results) := key_life ops (store_life before d) in
  (forall op op' k k', (op, Ok k) ∈ results -> (op', Ok k') ∈ results -> is_signing op = is_signing op' -> k = k') /\
  (forall op k, (op, Ok k) ∈ results ->
     store_life before d !! op_path op = None \/
     (exists earlier env, before = earlier ++ [(env, Reset)] /\ hidden env = false /\
        is_ok (reset env store (store_life earlier d)).2 = true) ->
     exists made, made ∈ map snd ops /\ is_signing made = is_signing op /\
     match made with
     | EnsureSigning seed => key_secret k = seed /\ key_public k = verifying_key (signing_from_bytes seed)
     | EnsureEncryption seed => key_secret k = static_to_bytes (static_from_bytes seed) /\
         key_public k = static_public (static_from_bytes seed)
     end) /\
  (forall op k later, (op, Ok k) ∈ results -> is_signing later = is_signing op ->
     (key_step (quiet, later) d').2 = Ok k) /\
  (forall env d1, hidden env = false -> reset env store d' = (d1, Ok tt) ->
     d1 !! signing_path store = None /\ d1 !! encryption_path store = None /\
     forall q, q <> signing_path store -> q <> encryption_path store -> d1 !! q = d' !! q).
Proof.
  set (d0 := store_life before d).
  assert (Forall (fun op => hidden op.1 = false) ops) as F by (eapply Forall_impl; [exact Seeds|by intros ? []]).
  pose proof (fun op k => results_in_file ops d0 op k F) as R.
  assert (forall op, d0 !! op_path op = None -> origin (map snd ops) (op_path op) (key_life ops d0).1) as O.
  { intros op Hn. apply key_life_origin; [|by intros k; unfold file_key; rewrite Hn].
    apply Forall_forall. intros o Ho. rewrite Forall_forall in F. split; [by apply F|]. by apply list_elem_of_fmap_2. }
  assert (forall earlier env op, before = earlier ++ [(env, Reset)] -> hidden env = false ->
    is_ok (reset env store (store_life earlier d)).2 = true -> d0 !! op_path op = None) as Fresh.
  { intros earlier env op E Hh Hr. unfold d0. rewrite E. unfold store_life. rewrite fold_left_app. cbn [fold_left store_step fst snd].
    fold (store_life earlier d). destruct (reset env store (store_life earlier d)) as [d1 [[]|]] eqn:Er; [|done].
    apply (remove_files_ok _ _ _ _ _ Hh Er). unfold op_path. destruct (is_signing op); set_solver. }
  destruct (key_life ops d0) as [d' results]. cbn [fst snd] in *. split_and!.
  - intros op op' k k' I I' E. apply R in I, I'. rewrite (same_file _ _ E) in I. congruence.
  - intros op k I Hn. assert (d0 !! op_path op = None) as Hn' by (destruct Hn as [Hn|(ea & en & E & Hh & Hr)]; [done|by eapply Fresh]).
    destruct (O op Hn' k (R _ _ I)) as (made & Hm & Ep & Ek). exists made. split; [done|]. split.
    { unfold op_path in Ep. pose proof (key_paths_differ store). by destruct (is_signing made), (is_signing op). }
    apply list_elem_of_fmap in Hm as ([env m] & -> & Hm). rewrite Forall_forall in Seeds.
    destruct (Seeds _ Hm) as [_ L]. cbn [snd] in *. destruct (decode_generated m L) as (k' & Ek' & P).
    assert (k' = k) as -> by congruence. by destruct m.
  - intros op k later I E. rewrite key_step_eq. cbn [fst snd]. rewrite (same_file _ _ E).
    pose proof (R _ _ I) as Hk. destruct (file_key_present _ _ _ Hk) as [b Hb].
    by apply (ensure_key_present quiet _ _ _ b eq_refl Hb).
  - intros env d1 Hh Er. destruct (remove_files_ok _ _ _ _ _ Hh Er) as [G K].
    split; [apply G; by left|]. split; [apply G; by right; left|]. intros q N1 N2. apply K. set_solver.
Qed.
End Life.

(** What an identity was loaded from is in its file. *)
Lemma identity_on_disk `{Base64Laws} `{SecretBytesLaws} `{!Serde StoredIdentity} `{!SerdePretty StoredIdentity}
    `{!SerdePrettyLaws StoredIdentity} env sd path d sk d' : length sd = 32 -> load_or_create env sd path d = (d', Ok sk) ->
  exists body, d' !! path = Some body /\ read_identity (from_utf8 body) = Ok sk.
Proof.
  intros L E. unfold load_or_create in E. destruct (path_exists env path d).
  - unfold read_to_string in E. destruct (read_fault env); [done|].
    destruct (d !! path) as [b|] eqn:Eb; cbn in E; [|done]. injection E as <- E. by exists b.
  - destruct (to_json_pretty _) as [body|] eqn:Eg; [|done]. apply from_to_json_pretty in Eg.
    unfold write_secret in E. destruct (write_fault env); [|done..]. cbn in E. injection E as <- <-.
    exists (as_bytes body). split; [by rewrite lookup_insert_eq|].
    unfold read_identity. rewrite from_utf8_as_bytes, Eg. cbn [map_err identity_secret_b64].
    rewrite b64_decode_encode, signing_to_from_bytes by done. cbn [map_err]. by rewrite L.
Qed.
(** A client's identity is its file's as well. *)
Lemma identity_is_kept `{Base64Laws} `{SecretBytesLaws} `{!Serde StoredIdentity} `{!SerdePretty StoredIdentity}
    `{!SerdePrettyLaws StoredIdentity} env seed path d sk d' :
  length seed = 32 -> load_or_create env seed path d = (d', Ok sk) ->
  forall later env', hidden env' = false -> read_fault env' = None -> load_or_create env' later path d' = (d', Ok sk).
Proof.
  intros L E later env' Hh Hr.
  destruct (identity_on_disk _ _ _ _ _ _ L E) as (body & Hb & R).
  unfold load_or_create, path_exists, read_to_string. rewrite Hh, Hr, Hb, bool_decide_true by eauto. cbn. by rewrite R.
Qed.

(** ** At concrete inputs

    A text that ends with a brace, as an object does. *)
Definition braced (p : positive) : string := from_utf8 (as_bytes (bits_text p) ++ [Byte.x7d]).
Definition read_braced (s : string) : option positive :=
  match rev (as_bytes s) with
  | x :: r => if Byte.eqb x Byte.x7d then text_bits (from_utf8 (rev r)) else None
  | [] => None
  end.
Lemma bits_text_no_brace p : Byte.x7d ∉ as_bytes (bits_text p).
Proof.
  assert (forall c r, as_bytes (String c r) = Ascii.byte_of_ascii c :: as_bytes r) as C by done.
  induction p as [p IH|p IH|]; cbn [bits_text]; rewrite C; apply not_elem_of_cons; (split; [done|]);
    [exact IH|exact IH|apply not_elem_of_nil].
Qed.
Lemma read_braced_braced p : read_braced (braced p) = Some p.
Proof.
  unfold read_braced, braced. rewrite as_bytes_from_utf8, rev_app_distr. cbn [rev app].
  rewrite rev_involutive, from_utf8_as_bytes. apply text_bits_text.
Qed.
Definition braced_serde (A : Type) `{Countable A} : Serde A := {|
  to_json a := Ok (braced (encode a));
  from_json s := ok_or (p ← read_braced s; decode p) "expected value";
|}.
Definition braced_pretty (A : Type) `{Countable A} : SerdePretty A := {| to_json_pretty a := Ok (braced (encode a)) |}.
Lemma braced_pretty_laws (A : Type) `{Countable A} : @SerdePrettyLaws A (braced_serde A) (braced_pretty A).
Proof. split. cbn. intros a s [= <-]. by rewrite read_braced_braced; cbn; rewrite decode_encode. Qed.
Lemma braced_torn (A : Type) `{Countable A} : @SerdeTorn A (braced_serde A) (braced_pretty A).
Proof.
  split. cbn [to_json_pretty from_json braced_pretty braced_serde]. intros a s n [= <-] L.
  unfold read_braced, braced in *. rewrite !as_bytes_from_utf8 in *. rewrite length_app in L. cbn [length] in L.
  rewrite take_app_le by lia. destruct (rev (take n _)) as [|x r] eqn:E; [done|].
  destruct (Byte.eqb x Byte.x7d) eqn:Ex; [|done]. apply byte_eqb_eq in Ex as ->. exfalso.
  apply (bits_text_no_brace (encode a)).
  assert (Byte.x7d ∈ rev (take n (as_bytes (bits_text (encode a))))) as I by (rewrite E; by left).
  apply elem_of_rev, elem_of_take in I as (i & Hi & _). by eapply list_elem_of_lookup_2.
Qed.
Definition toy_secret_bytes : @SecretBytes toy_ed25519 := {|
  signing_from_bytes := be_val : bytes -> @SigningKey toy_ed25519;
  signing_to_bytes := be_bytes 32 : @SigningKey toy_ed25519 -> bytes;
  StaticSecret := N;
  static_from_bytes := be_val;
  static_to_bytes := be_bytes 32;
  static_public s := be_bytes 32 (3 * s);
|}.
Lemma toy_secret_bytes_laws : @SecretBytesLaws toy_ed25519 toy_secret_bytes.
Proof.
  split; cbn -[be_bytes be_val]; [|intros; apply length_be_bytes..].
  intros b L. rewrite <-L. apply be_bytes_be_val.
Qed.

(** A write that stops halfway, a key, a failing read, the key again. *)
Definition life_example : list (FileEnv * KeyOp) :=
  [({| hidden := false; read_fault := None; write_fault := OpenFails "disk full"; remove_fault _ := None |},
      EnsureSigning (be_bytes 32 11));
   (quiet, EnsureSigning (be_bytes 32 12)); (quiet, EnsureEncryption (be_bytes 32 13));
   ({| hidden := false; read_fault := Some "busy"%string; write_fault := NoFault; remove_fault _ := None |},
      EnsureSigning (be_bytes 32 14));
   (quiet, EnsureSigning (be_bytes 32 15))].
(** A first key, then a reset. *)
Definition life_before : list (FileEnv * StoreOp) := [(quiet, Ensure (EnsureSigning (be_bytes 32 10))); (quiet, Reset)].
Lemma one_identity_witness :
  let store := {| dir := "keys" |} in
  let life := @key_life toy_base64 toy_ed25519 toy_secret_bytes (braced_serde StoredKey) (braced_pretty StoredKey)
    store life_example (@store_life toy_base64 toy_ed25519 toy_secret_bytes (braced_serde StoredKey) (braced_pretty StoredKey)
      store life_before ∅) in
  map (fun r => ok (r.2)) life.2 =
    [None; Some {| key_secret := be_bytes 32 12; key_public := be_bytes 32 12 |};
     Some {| key_secret := be_bytes 32 13; key_public := be_bytes 32 39 |}; None;
     Some {| key_secret := be_bytes 32 12; key_public := be_bytes 32 12 |}] /\
  (forall op op' k k', (op, Ok k) ∈ life.2 -> (op', Ok k') ∈ life.2 -> is_signing op = is_signing op' -> k = k').
Proof.
  intros store life. split; [vm_compute; reflexivity|].
  pose proof (@one_identity toy_base64 toy_base64_laws toy_ed25519 toy_secret_bytes toy_secret_bytes_laws toy_ed25519_laws
    (braced_serde StoredKey) (braced_pretty StoredKey) (braced_pretty_laws StoredKey) (braced_torn StoredKey)
    store life_before life_example ∅) as T.
  fold life in T. destruct life as [d rs]. apply T. repeat constructor.
Defined.

(** A file whose metadata cannot be read for a moment is taken for one that is
    not there, and its key is replaced. *)
Lemma hidden_key_is_replaced :
  let ensure env seed d := @ensure_signing_key toy_base64 toy_ed25519 toy_secret_bytes (braced_serde StoredKey)
    (braced_pretty StoredKey) env seed {| dir := "keys" |} d in
  let env := {| hidden := true; read_fault := None; write_fault := NoFault; remove_fault _ := None |} in
  let d := (ensure quiet (be_bytes 32 1) ∅).1 in
  ok (ensure quiet (be_bytes 32 2) (ensure env (be_bytes 32 3) d).1).2 <> ok (ensure quiet (be_bytes 32 2) d).2.
Proof. vm_compute. discriminate. Qed.
