(* ===== verification/Server.v ===== *)
(** * The relay server as a program

    rivetlink-server: the configuration from environment variables (config.rs),
    the first-time setup that writes it (cli/init.rs), the route table
    (router.rs), request ids (middleware/request_id.rs) and starting the server
    (main.rs). Axum, PostgreSQL, the random number generator and whoever turns
    the written file into an environment are parameters. *)
From Stdlib Require Import NArith ZArith Lia Strings.String Strings.Byte.
From S2P Require Import Prelude Text Interfaces Instances Auth Database Connections Accounts RateLimit Trusted ClientSession KeyStore.

(** ** Configuration *)

(** [str::parse] of an integer between two bounds: an optional plus sign, or a
    minus sign when the type is signed, and digits. *)
Fixpoint digits_value (acc : N) (b : bytes) : option N :=
  match b with
  | [] => Some acc
  | x :: b => if is_ascii_digit x then digits_value (acc * 10 + (Byte.to_N x - 48)) b else None
  end.
Definition in_range (low high n : Z) : option Z := if (low <=? n)%Z && (n <=? high)%Z then Some n else None.
Definition parse_int (low high : Z) (s : string) : option Z :=
  match as_bytes s with
  | [] => None
  | [x] => if is_ascii_digit x then in_range low high (Z.of_N (Byte.to_N x - 48)) else None
  | x :: b =>
      if Byte.eqb x Byte.x2b then n ← digits_value 0 b; in_range low high (Z.of_N n)
      else if Byte.eqb x Byte.x2d && (low <? 0)%Z then n ← digits_value 0 b; in_range low high (- Z.of_N n)
      else n ← digits_value 0 (x :: b); in_range low high (Z.of_N n)
  end.
Definition parse_i64 : string -> option Z := parse_int (- 2 ^ 63) (2 ^ 63 - 1).
Definition parse_i32 : string -> option Z := parse_int (- 2 ^ 31) (2 ^ 31 - 1).
Definition parse_u64 : string -> option Z := parse_int 0 (2 ^ 64 - 1).
Example integer_texts :
  map parse_i32 ["7"; "-5"; "+5"; "-"; ""; "2147483648"; "-2147483648"; " 5"; "900s"]%string =
    [Some 7; Some (-5); Some 5; None; None; None; Some (-2147483648); None; None]%Z /\
  map parse_u64 ["0"; "-0"; "18446744073709551615"; "18446744073709551616"; "+3"]%string =
    [Some 0; None; Some 18446744073709551615; None; Some 3]%Z.
Proof. vm_compute. done. Qed.

(** The variables that are set and are Unicode. *)
Definition EnvVars : Type := string -> option string.
Record RelayConfig := {
  database_url : string;
  rc_jwt_secret : string;
  bind_addr : string;
  access_token_expiry : Z;
  refresh_token_expiry : Z;
  failed_logins : Z;
  lockout_duration : Z;
  heartbeat_interval_secs : Z;
  disconnect_timeout_secs : Z;
  reconnect_grace_secs : Z;
  stun_server : option string;
  audit_retention_days : Z;
}.
Definition required (env : EnvVars) (key : string) : Result string ServerError :=
  ok_or (env key) (Auth.Config (key ++ " is required")).
Definition optional (env : EnvVars) (key fallback : string) : string := default fallback (env key).
Definition parse_or (parse : string -> option Z) (env : EnvVars) (key : string) (fallback : Z) : Z :=
  default fallback (v ← env key; parse v).
Definition from_env (env : EnvVars) : Result RelayConfig ServerError :=
  let? url := required env "DATABASE_URL" in
  let? secret := required env "JWT_SECRET" in
  let? secret := check_jwt_secret secret in
  Ok {| database_url := url;
        rc_jwt_secret := secret;
        bind_addr := optional env "BIND_ADDR" "0.0.0.0:8080";
        access_token_expiry := parse_or parse_i64 env "ACCESS_TOKEN_EXPIRY_SECS" 900;
        refresh_token_expiry := parse_or parse_i64 env "REFRESH_TOKEN_EXPIRY_SECS" 604800;
        failed_logins := parse_or parse_i32 env "MAX_FAILED_LOGINS" 5;
        lockout_duration := parse_or parse_i64 env "LOCKOUT_DURATION_SECS" 900;
        heartbeat_interval_secs := parse_or parse_u64 env "HEARTBEAT_INTERVAL_SECS" 10;
        disconnect_timeout_secs := parse_or parse_u64 env "DISCONNECT_TIMEOUT_SECS" 30;
        reconnect_grace_secs := parse_or parse_u64 env "RECONNECT_GRACE_SECS" 15;
        stun_server := let s := optional env "STUN_SERVER" "" in if (s =? "")%string then None else Some s;
        audit_retention_days := parse_or parse_i64 env "AUDIT_RETENTION_DAYS" 90 |}.
(** What the handlers of [Accounts] read of it. *)
Definition handlers_config (c : RelayConfig) : ServerConfig :=
  {| jwt_secret := rc_jwt_secret c; access_token_expiry_secs := access_token_expiry c;
     refresh_token_expiry_secs := refresh_token_expiry c; max_failed_logins := failed_logins c;
     lockout_duration_secs := lockout_duration c |}.

(** ** First-time setup *)

Record InitArgs := { output : string; force : bool; ia_database_url : string; ia_bind_addr : string }.
Inductive InitError := AlreadyExists (path : string) | Rng (message : string) | InitIo (message : string).

(** base64's URL_SAFE_NO_PAD: symbols of [A-Za-z0-9_-], four for three bytes;
    of the last symbol of 32 bytes only four bits are used, the others are
    zero. *)
Definition url_index (x : byte) : option N :=
  (if between 65 90 x then Some (Byte.to_N x - 65)
   else if between 97 122 x then Some (Byte.to_N x - 71)
   else if between 48 57 x then Some (Byte.to_N x + 4)
   else if Byte.eqb x Byte.x2d then Some 62 else if Byte.eqb x Byte.x5f then Some 63 else None)%N.
Class UrlBase64 := { url_encode : bytes -> string }.
Class UrlBase64Laws `{UrlBase64} : Prop := {
  url_encode_length : forall b, length b = 32 -> length (as_bytes (url_encode b)) = 43;
  url_encode_alphabet : forall b x, x ∈ as_bytes (url_encode b) -> is_Some (url_index x);
  url_encode_last : forall b, length b = 32 -> exists x n,
    last (as_bytes (url_encode b)) = Some x /\ url_index x = Some n /\ (n mod 4 = 0)%N;
}.

Section Init.
Context `{UrlBase64}.

Definition generate_secret (rng : Result bytes string) : Result string InitError :=
  let? buf := map_err Rng rng in Ok (url_encode buf).
Definition env_lines (secret database_url bind_addr : string) : list string :=
  ["# RivetLink Relay Server — generated by `rivet-relay init`";
   "# DO NOT commit this file to version control.";
   "";
   "# Required";
   "DATABASE_URL=" ++ database_url;
   "JWT_SECRET=" ++ secret;
   "";
   "# Optional (defaults shown)";
   "BIND_ADDR=" ++ bind_addr;
   "RUST_LOG=info";
   "";
   "# Token lifetimes (seconds)";
   "ACCESS_TOKEN_EXPIRY_SECS=900";
   "REFRESH_TOKEN_EXPIRY_SECS=604800";
   "";
   "# Login security";
   "MAX_FAILED_LOGINS=5";
   "LOCKOUT_DURATION_SECS=900";
   "";
   "# WebSocket";
   "HEARTBEAT_INTERVAL_SECS=10";
   "DISCONNECT_TIMEOUT_SECS=30";
   "RECONNECT_GRACE_SECS=15"]%string.
(** Each line ends with a line feed. *)
Definition render_env (secret database_url bind_addr : string) : string :=
  from_utf8 (concat (map (fun l => as_bytes l ++ [Byte.x0a]) (env_lines secret database_url bind_addr))).
Definition write_env_file (env : FileEnv) (path contents : string) (force : bool) (d : Trusted.Disk)
  : Trusted.Disk * Result unit InitError :=
  if path_exists env path d && negb force then (d, Err (AlreadyExists path))
  else let '(d, r) := write_secret (write_fault env) path (as_bytes contents) d in (d, map_err InitIo r).
Definition run_init (env : FileEnv) (rng : Result bytes string) (args : InitArgs) (d : Trusted.Disk)
  : Trusted.Disk * Result (list string) InitError :=
  match generate_secret rng with
  | Err e => (d, Err e)
  | Ok secret =>
      let body := render_env secret (ia_database_url args) (ia_bind_addr args) in
      let '(d, r) := write_env_file env (output args) body (force args) d in
      (d, let? _ := r in
          Ok ["Wrote " ++ output args ++ " with a freshly generated JWT_SECRET."; ""; "Next steps:";
              "  1. Review " ++ output args ++ " and adjust DATABASE_URL if needed.";
              "  2. Start dependencies:   docker compose -f docker/docker-compose.yml up -d";
              "  3. Run the server:       rivet-relay serve"]%string)
  end.
End Init.

(** ** Routes *)

Inductive HttpMethod := GET | POST | OPTIONS.
#[export] Instance HttpMethod_eq_dec : EqDecision HttpMethod.
Proof. solve_decision. Defined.
Inductive Endpoint :=
| HealthProbe | RegisterAccount | LoginAccount | RefreshToken | ListDevices | RegisterDevice | ListSessions | ListAuditLogs
| WsUpgrade.
#[export] Instance Endpoint_eq_dec : EqDecision Endpoint.
Proof. solve_decision. Defined.
Definition AUTH_RATE_LIMIT_MAX : N := 10.
Definition AUTH_RATE_LIMIT_WINDOW : N := from_secs 60.
Definition MAX_REQUEST_BODY : N := 64 * 1024.
Record Route := { r_method : HttpMethod; r_path : string; r_endpoint : Endpoint; r_limited : bool }.
Definition route (path : string) (m : HttpMethod) (e : Endpoint) : Route :=
  {| r_method := m; r_path := path; r_endpoint := e; r_limited := false |}.
(** [route_layer]: the limiter in front of the routes added so far. *)
Definition limit (rs : list Route) : list Route :=
  map (fun r => {| r_method := r_method r; r_path := r_path r; r_endpoint := r_endpoint r; r_limited := true |}) rs.
Definition auth_routes : list Route :=
  limit [route "/auth/register" POST RegisterAccount; route "/auth/login" POST LoginAccount; route "/auth/refresh" POST RefreshToken].
Definition routes : list Route :=
  [route "/health" GET HealthProbe] ++ auth_routes ++
  [route "/devices" GET ListDevices; route "/devices/register" POST RegisterDevice; route "/sessions" GET ListSessions;
   route "/audit-logs" GET ListAuditLogs; route "/ws" GET WsUpgrade].
(** The router: its table, its one limiter and its body limit. *)
Record AppRouter := { table : list Route; auth_limiter : RateLimiter; max_body : N; cors_methods : list HttpMethod; cors_headers : list string; cors_max_age : N }.
Definition create_router (now : N) : AppRouter :=
  {| table := routes; auth_limiter := rate_limiter_new AUTH_RATE_LIMIT_MAX AUTH_RATE_LIMIT_WINDOW now;
     max_body := MAX_REQUEST_BODY; cors_methods := [GET; POST; OPTIONS]; cors_headers := ["content-type"; "authorization"]%string;
     cors_max_age := from_secs 3600 |}.

(** [RequestIdMiddleware::call] around the inner service. *)
Record HttpResponse := { res_status : N; res_headers : gmap string string; res_body : string }.
Definition request_id_call {Request E : Type} (inner : Request -> Result HttpResponse E) (request_id : string) (request : Request)
  : Result HttpResponse E :=
  let? response := inner request in
  Ok {| res_status := res_status response; res_headers := <["x-request-id"%string := request_id]> (res_headers response);
        res_body := res_body response |}.
Definition health : list (string * string) := [("status", "ok"); ("version", "0.1.0")]%string.

(** ** Starting *)

Inductive ExitCode := SUCCESS | FAILURE.
Inductive ServerStep :=
| DbConnected (url : string)
| MigrationsApplied
| RouterSpawned (queue : N)
| PruneSpawned (audit_retention_days : Z)
| Listening (addr : string)
| Served.
(** What each step of the start meets. *)
Record ServeEnv := {
  se_vars : EnvVars;
  se_connect : string -> Result unit string;
  se_migrate : Result unit string;
  se_bind : string -> Result unit string;
  se_serve : Result unit string;
}.
Definition SIGNALING_QUEUE : N := 1024.
Definition serve (env : ServeEnv) : list ServerStep * ExitCode :=
  match from_env (se_vars env) with
  | Err _ => ([], FAILURE)
  | Ok config =>
      match se_connect env (database_url config) with
      | Err _ => ([], FAILURE)
      | Ok _ =>
          let done_ := [DbConnected (database_url config)] in
          match se_migrate env with
          | Err _ => (done_, FAILURE)
          | Ok _ =>
              let done_ := done_ ++ [MigrationsApplied; RouterSpawned SIGNALING_QUEUE; PruneSpawned (audit_retention_days config)] in
              match se_bind env (bind_addr config) with
              | Err _ => (done_, FAILURE)
              | Ok _ =>
                  let done_ := done_ ++ [Listening (bind_addr config)] in
                  match se_serve env with
                  | Err _ => (done_, FAILURE)
                  | Ok _ => (done_ ++ [Served], SUCCESS)
                  end
              end
          end
      end
  end.
Inductive RelayCommand := InitCommand (args : InitArgs) | ServeCommand.
Definition relay_main `{UrlBase64} (command : option RelayCommand) (file_env : FileEnv) (rng : Result bytes string) (env : ServeEnv)
    (d : Trusted.Disk) : Trusted.Disk * list ServerStep * ExitCode :=
  match default ServeCommand command with
  | InitCommand args =>
      let '(d, r) := run_init file_env rng args d in
      (d, [], match r with Ok _ => SUCCESS | Err _ => FAILURE end)
  | ServeCommand => (d, (serve env).1, (serve env).2)
  end.

(** ** What the setup writes *)

Definition one_line (s : string) : Prop := Byte.x0a ∉ as_bytes s /\ Byte.x0d ∉ as_bytes s.
(** Who reads the file is not a part of the program: [docker compose --env-file],
    as the README has it, or whatever else starts the server with an
    environment. What is relied on is what their documentations have in common
    for plain files: empty lines and lines that start with a number sign are
    skipped, a line KEY=value sets KEY to the value as it stands when that has
    nothing but letters, digits and a few marks (no quotes, blanks, dollar
    signs, number signs or backslashes), and the last one of a name counts. *)
Definition plain_byte (x : byte) : bool :=
  between 48 57 x || between 65 90 x || between 97 122 x || existsb (Byte.eqb x) (as_bytes "-_./:@%+=,?").
Definition plain_value (s : string) : bool := negb (s =? "")%string && forallb plain_byte (as_bytes s).
Definition plain_key (s : string) : bool :=
  negb (s =? "")%string && forallb (fun x => between 65 90 x || Byte.eqb x Byte.x5f) (as_bytes s).
Inductive EnvLine := BlankLine | CommentLine (text : string) | SetLine (key value : string).
Definition line_text (l : EnvLine) : string :=
  match l with BlankLine => "" | CommentLine text => "#" ++ text | SetLine key value => key ++ "=" ++ value end.
Definition env_line_ok (l : EnvLine) : Prop :=
  match l with
  | BlankLine => True
  | CommentLine text => one_line text
  | SetLine key value => plain_key key = true /\ plain_value value = true
  end.
Definition env_file (ls : list EnvLine) : string := from_utf8 (concat (map (fun l => as_bytes (line_text l) ++ [Byte.x0a]) ls)).
Definition set_by (l : EnvLine) : option (string * string) := match l with SetLine key value => Some (key, value) | _ => None end.
Definition sets (ls : list EnvLine) : EnvVars := fun key => snd <$> find (fun p => String.eqb p.1 key) (rev (omap set_by ls)).
Class PlainEnvReader (read_env : string -> EnvVars) : Prop :=
  read_plain_file : forall ls, Forall env_line_ok ls -> forall key, read_env (env_file ls) key = sets ls key.

Definition only (url secret addr : string) : EnvVars := fun key =>
  if (key =? "DATABASE_URL")%string then Some url
  else if (key =? "JWT_SECRET")%string then Some secret
  else if (key =? "BIND_ADDR")%string then Some addr else None.
Definition setup_config (url secret addr : string) : RelayConfig :=
  {| database_url := url; rc_jwt_secret := secret; bind_addr := addr; access_token_expiry := 900; refresh_token_expiry := 604800;
     failed_logins := 5; lockout_duration := 900; heartbeat_interval_secs := 10; disconnect_timeout_secs := 30;
     reconnect_grace_secs := 15; stun_server := None; audit_retention_days := 90 |}.

Lemma lines_terminated ls : Forall one_line ls ->
  lines (from_utf8 (concat (map (fun l => as_bytes l ++ [Byte.x0a]) ls))) = ls.
Proof.
  intros F. unfold lines. rewrite as_bytes_from_utf8.
  replace (map (fun l => as_bytes l ++ [Byte.x0a]) ls) with (map (fun p => p ++ [Byte.x0a]) (map as_bytes ls)) by (by rewrite map_map).
  rewrite concat_terminated, split_join.
  - rewrite lines_of_terminated.
    + rewrite map_map. rewrite <-(map_id ls) at 2. apply map_ext. intros s. apply from_utf8_as_bytes.
    + apply Forall_forall. intros p (l & -> & Hl)%list_elem_of_fmap. rewrite Forall_forall in F. by apply F.
  - by destruct (map as_bytes ls).
  - apply list.Forall_app. split; [|repeat constructor; apply not_elem_of_nil].
    apply Forall_forall. intros p (l & -> & Hl)%list_elem_of_fmap. rewrite Forall_forall in F. by apply F.
Qed.
(** The file of the setup is a plain one. *)
Definition setup_lines (secret url addr : string) : list EnvLine :=
  [CommentLine " RivetLink Relay Server — generated by `rivet-relay init`"; CommentLine " DO NOT commit this file to version control.";
   BlankLine; CommentLine " Required"; SetLine "DATABASE_URL" url; SetLine "JWT_SECRET" secret;
   BlankLine; CommentLine " Optional (defaults shown)"; SetLine "BIND_ADDR" addr; SetLine "RUST_LOG" "info";
   BlankLine; CommentLine " Token lifetimes (seconds)"; SetLine "ACCESS_TOKEN_EXPIRY_SECS" "900"; SetLine "REFRESH_TOKEN_EXPIRY_SECS" "604800";
   BlankLine; CommentLine " Login security"; SetLine "MAX_FAILED_LOGINS" "5"; SetLine "LOCKOUT_DURATION_SECS" "900";
   BlankLine; CommentLine " WebSocket"; SetLine "HEARTBEAT_INTERVAL_SECS" "10"; SetLine "DISCONNECT_TIMEOUT_SECS" "30";
   SetLine "RECONNECT_GRACE_SECS" "15"].
Lemma render_setup secret url addr : render_env secret url addr = env_file (setup_lines secret url addr).
Proof. reflexivity. Qed.
Lemma one_line_decide s : bool_decide (Byte.x0a ∈ as_bytes s \/ Byte.x0d ∈ as_bytes s) = false -> one_line s.
Proof. intros H%bool_decide_eq_false. split; intros I; apply H; auto. Qed.
Lemma setup_lines_ok secret url addr : plain_value secret = true -> plain_value url = true -> plain_value addr = true ->
  Forall env_line_ok (setup_lines secret url addr).
Proof.
  intros S U A. unfold setup_lines.
  repeat (apply Forall_cons_2; [first [exact I|apply one_line_decide; vm_compute; reflexivity|split; [reflexivity|done]]|]). constructor.
Qed.

(** ** The secret is good *)

Lemma symbol_keeps x r : is_Some (url_index x) ->
  strip_first whitespace (x :: r) = None /\ strip_first (map (@rev _) whitespace) (x :: r) = None.
Proof. intros [n Hn]. destruct x; try discriminate Hn; split; reflexivity. Qed.
Lemma symbols_plain s : as_bytes s <> [] -> (forall x, x ∈ as_bytes s -> is_Some (url_index x)) -> plain_value s = true.
Proof.
  intros Ne F. unfold plain_value. apply andb_true_iff. split; [by destruct s|]. apply forallb_forall.
  intros x Hx%list_elem_of_In%F. destruct Hx as [n Hn]. destruct x; first [reflexivity|discriminate Hn].
Qed.
Lemma symbols_trimmed s : as_bytes s <> [] -> (forall x, x ∈ as_bytes s -> is_Some (url_index x)) -> trimmed s = true.
Proof.
  intros Ne F. unfold trimmed. destruct (as_bytes s) as [|x r] eqn:E; [done|].
  rewrite (proj1 (symbol_keeps x r (F _ ltac:(left)))).
  destruct (rev (x :: r)) as [|y q] eqn:R; [by apply (f_equal (@length _)) in R; rewrite length_rev in R|].
  rewrite (proj2 (symbol_keeps y q (F _ ltac:(apply elem_of_rev; rewrite R; left)))). done.
Qed.
Lemma published_not_generated s : s ∈ PUBLISHED_JWT_SECRETS -> length (as_bytes s) = 43 ->
  exists x n, last (as_bytes s) = Some x /\ url_index x = Some n /\ (n mod 4 <> 0)%N.
Proof.
  intros [->|[->|[]%elem_of_nil]%elem_of_cons]%elem_of_cons L; vm_compute in L; [|discriminate L].
  eexists _, _. split; [vm_compute; reflexivity|]. split; [vm_compute; reflexivity|]. vm_compute. discriminate.
Qed.

Section Setup.
Context `{UrlBase64Laws}.

Lemma generated_secret_good buf : length buf = 32 ->
  check_jwt_secret (url_encode buf) = Ok (url_encode buf) /\ plain_value (url_encode buf) = true.
Proof.
  intros L. pose proof (url_encode_length buf L) as L43. pose proof (url_encode_alphabet buf) as F.
  destruct (url_encode_last buf L) as (x & n & Lx & Hx & M). split; [|apply symbols_plain; [by destruct (as_bytes _)|done]].
  apply check_jwt_secret_iff. split; [unfold slen, len; lia|].
  rewrite trim_trimmed by (apply symbols_trimmed; [by destruct (as_bytes _)|done]).
  intros P. destruct (published_not_generated _ P L43) as (y & m & Ly & Hy & N). congruence.
Qed.
Lemma setup_loads url secret addr vars : check_jwt_secret secret = Ok secret ->
  (forall key, vars key = sets (setup_lines secret url addr) key) \/ (forall key, vars key = only url secret addr key) ->
  from_env vars = Ok (setup_config url secret addr).
Proof.
  intros C V. assert (forall e, (forall key, vars key = e key) -> from_env e = from_env vars) as Ext.
  { intros e E. unfold from_env, required, optional, parse_or. by rewrite !E. }
  destruct V as [V|V]; rewrite <-(Ext _ V); unfold from_env, required, optional, parse_or, sets, only;
    cbn -[check_jwt_secret]; rewrite C; reflexivity.
Qed.

(** C38. The setup writes a configuration the server starts with. When it
    succeeds on a database URL and an address without special characters, it
    has written exactly its file, over an existing one only when forced (or when
    its metadata cannot be read, so that it is not seen); and every reader of
    environment files that treats plain lines as documented makes of it an
    environment the server accepts, with a secret from the random bytes that is
    strong and is none of the published ones, with the given URL and address,
    and otherwise with the very values the server takes when nothing else is
    set. A file that can be seen to be there is left alone unless forced, and
    the command fails. *)
Theorem setup_makes_a_configuration read_env (Reader : PlainEnvReader read_env) env rng args d :
  (forall buf, rng = Ok buf -> length buf = 32) -> plain_value (ia_database_url args) = true -> plain_value (ia_bind_addr args) = true ->
  let '(d', r) := run_init env rng args d in
  (is_ok r = true -> exists buf file, rng = Ok buf /\ d' = <[output args := file]> d /\
     (force args = true \/ hidden env = true \/ d !! output args = None) /\
     let config := setup_config (ia_database_url args) (url_encode buf) (ia_bind_addr args) in
     from_env (read_env (from_utf8 file)) = Ok config /\
     from_env (only (ia_database_url args) (url_encode buf) (ia_bind_addr args)) = Ok config) /\
  (hidden env = false -> force args = false -> is_Some (d !! output args) -> d' = d /\ is_ok r = false) /\
  (forall other, other <> output args -> d' !! other = d !! other).
Proof.
  intros R U A. unfold run_init, generate_secret. destruct rng as [buf|e]; cbn [map_err].
  2:{ split; [done|]. done. }
  specialize (R buf eq_refl). destruct (generated_secret_good buf R) as [C S]. unfold write_env_file, path_exists.
  set (file := as_bytes (render_env (url_encode buf) (ia_database_url args) (ia_bind_addr args))).
  destruct (negb (hidden env) && bool_decide (is_Some (d !! output args)) && negb (force args)) eqn:E.
  { split; [done|]. done. }
  assert (hidden env = false -> force args = false -> is_Some (d !! output args) -> False) as Free.
  { intros Hh Hf Hs. rewrite Hh, Hf, bool_decide_true in E by done. done. }
  destruct (write_fault env) as [|m|n m]; cbn [write_secret map_err is_ok].
  - split; [|split; [intros; by destruct Free|intros; by rewrite lookup_insert_ne]].
    intros _. exists buf, file. split; [done|]. split; [done|]. split.
    + destruct (force args); [by left|]. destruct (hidden env); [by right; left|]. right. right.
      apply eq_None_not_Some. intros Hs. by apply Free.
    + split; (apply setup_loads; [done|]); [left|by right].
      intros key. unfold file. rewrite from_utf8_as_bytes, render_setup. by apply Reader, setup_lines_ok.
  - split; [done|]. split; [intros; by destruct Free|done].
  - split; [done|]. split; [intros; by destruct Free|]. intros other N. by rewrite lookup_insert_ne.
Qed.
End Setup.

(** The encoding itself, for running the setup. *)
Definition url_symbol (n : N) : byte :=
  byte_of_N (if n <? 26 then n + 65 else if n <? 52 then n + 71 else if n <? 62 then n - 4 else if n =? 62 then 45 else 95)%N.
Fixpoint url_text (b : bytes) : bytes :=
  match b with
  | x :: y :: z :: b =>
      let n := (Byte.to_N x * 65536 + Byte.to_N y * 256 + Byte.to_N z)%N in
      url_symbol (n / 262144) :: url_symbol (n / 4096 mod 64) :: url_symbol (n / 64 mod 64) :: url_symbol (n mod 64) :: url_text b
  | [x; y] =>
      let n := (Byte.to_N x * 1024 + Byte.to_N y * 4)%N in
      [url_symbol (n / 4096); url_symbol (n / 64 mod 64); url_symbol (n mod 64)]
  | [x] => let n := (Byte.to_N x * 16)%N in [url_symbol (n / 64); url_symbol (n mod 64)]
  | [] => []
  end.
#[export] Instance rfc_url_base64 : UrlBase64 := {| url_encode b := from_utf8 (url_text b) |}.
Lemma url_symbol_index n : (n < 64)%N -> url_index (url_symbol n) = Some n.
Proof.
  intros L. assert (forallb (fun n => bool_decide (url_index (url_symbol (N.of_nat n)) = Some (N.of_nat n))) (seq 0 64) = true) as E
    by (vm_compute; reflexivity).
  rewrite forallb_forall in E. specialize (E (N.to_nat n)). rewrite N2Nat.id, in_seq, bool_decide_eq_true in E. apply E. lia.
Qed.
Lemma to_N_small (x : byte) : (Byte.to_N x < 256)%N.
Proof. pose proof (Byte.to_N_bounded x). lia. Qed.
Lemma url_text_alphabet b : Forall (fun x => is_Some (url_index x)) (url_text b).
Proof.
  induction b as [b IH] using (induction_ltof1 _ (@length byte)). unfold ltof in IH.
  destruct b as [|x [|y [|z b]]]; cbn [url_text]; [constructor|..];
    pose proof (to_N_small x); try pose proof (to_N_small y); try pose proof (to_N_small z);
    repeat (apply Forall_cons_2; [rewrite url_symbol_index; [by eexists|first [by apply N.mod_lt|apply N.Div0.div_lt_upper_bound; lia]]|]);
    [constructor..|]. apply IH. cbn. lia.
Qed.
#[export] Instance rfc_url_base64_laws : UrlBase64Laws.
Proof.
  split; cbn [url_encode rfc_url_base64]; intros b; rewrite as_bytes_from_utf8.
  - intros L. do 33 (destruct b as [|? b]; [discriminate L || done|]). discriminate L.
  - intros x. apply (proj1 (Forall_forall _ _) (url_text_alphabet b)).
  - intros L. do 33 (destruct b as [|? b]; [discriminate L || idtac|]); [|discriminate L].
    cbn [url_text last]. eexists _, _. split; [reflexivity|].
    match goal with |- context [url_symbol (?m mod 64)] => set (n := m) end.
    split; [apply url_symbol_index; by apply N.mod_lt|].
    apply N.Div0.mod_divides. pose proof (N.div_mod' n 64) as D. subst n.
    match goal with |- context [(?m mod 64)%N] => set (n := m) in *; set (q := (n / 64)%N) in * end.
    exists (Byte.to_N b30 * 256 + Byte.to_N b31 - 16 * q)%N. set (r := (n mod 64)%N) in *. subst n. clearbody q r. lia.
Qed.
Definition setup_args : InitArgs :=
  {| output := ".env"; force := false; ia_database_url := "postgres://rivet@db/rivet?sslmode=require"; ia_bind_addr := "0.0.0.0:8080" |}.
(** One reader of plain files: comments are skipped, and a name ends at the
    first equals sign. *)
Definition simple_assignment (line : string) : option (string * string) :=
  if str_starts_with "#" line then None else split_once Byte.x3d line.
Definition simple_reader (file : string) : EnvVars :=
  fun key => snd <$> find (fun p => String.eqb p.1 key) (rev (omap simple_assignment (lines file))).
Lemma simple_assignment_line l : env_line_ok l -> simple_assignment (line_text l) = set_by l /\ one_line (line_text l).
Proof.
  destruct l as [|text|key value]; cbn [env_line_ok line_text set_by].
  - intros _. split; [reflexivity|]. by apply one_line_decide.
  - intros [H1 H2]. split; [reflexivity|]. unfold one_line. rewrite as_bytes_app. change (as_bytes "#") with [Byte.x23].
    split; apply not_elem_of_cons; done.
  - intros [[Nk K]%andb_true_iff [Nv V]%andb_true_iff]. rewrite forallb_forall in K, V.
    assert (forall x, (between 65 90 x || Byte.eqb x Byte.x5f) = false -> x ∉ as_bytes key) as Out
      by (intros x Hx I%list_elem_of_In%K; congruence).
    assert (forall x, plain_byte x = false -> x ∉ as_bytes value) as Out' by (intros x Hx I%list_elem_of_In%V; congruence).
    split.
    + unfold simple_assignment. replace (str_starts_with "#" _) with false.
      * unfold split_once. rewrite as_bytes_app. change (as_bytes ("=" ++ value)) with (Byte.x3d :: as_bytes value).
        rewrite split_once_b_app by (by apply Out). by rewrite !from_utf8_as_bytes.
      * symmetry. apply not_true_is_false. intros [r E]%str_starts_with_spec. change (as_bytes "#") with [Byte.x23] in E.
        rewrite as_bytes_app in E. destruct key as [|c key]; [done|]. apply (Out Byte.x23); [reflexivity|].
        change (as_bytes (String c key)) with (Ascii.byte_of_ascii c :: as_bytes key) in *. injection E as -> _. left.
    + unfold one_line. rewrite !as_bytes_app, !not_elem_of_app. change (as_bytes "=") with [Byte.x3d].
      split; (split; [by apply Out|]; split; [apply not_elem_of_cons; split; [done|apply not_elem_of_nil]|by apply Out']).
Qed.
#[export] Instance simple_reader_plain : PlainEnvReader simple_reader.
Proof.
  intros ls F key. unfold simple_reader, sets, env_file.
  replace (map (fun l => as_bytes (line_text l) ++ [Byte.x0a]) ls)
    with (map (fun l => as_bytes l ++ [Byte.x0a]) (map line_text ls)) by (by rewrite map_map).
  rewrite lines_terminated.
  - do 3 f_equal. induction F as [|l ls Hl F IH]; [done|]. cbn. rewrite (proj1 (simple_assignment_line l Hl)). by rewrite IH.
  - apply list.Forall_fmap. eapply Forall_impl; [exact F|]. intros l Hl. by apply simple_assignment_line.
Qed.
Lemma setup_makes_a_configuration_witness :
  let '(d', r) := run_init quiet (Ok (replicate 32 Byte.xa5)) setup_args ∅ in
  is_ok r = true /\ exists file, d' !! ".env"%string = Some file /\
    from_env (simple_reader (from_utf8 file)) =
      Ok (setup_config "postgres://rivet@db/rivet?sslmode=require" (url_encode (replicate 32 Byte.xa5)) "0.0.0.0:8080").
Proof.
  pose proof (setup_makes_a_configuration simple_reader _ quiet (Ok (replicate 32 Byte.xa5)) setup_args ∅
    ltac:(by intros buf [= <-]) ltac:(vm_compute; reflexivity) ltac:(vm_compute; reflexivity)) as W.
  assert (is_ok (run_init quiet (Ok (replicate 32 Byte.xa5)) setup_args ∅).2 = true) as Y by reflexivity.
  destruct (run_init _ _ setup_args ∅) as [d' r]. split; [exact Y|]. destruct W as (W & _ & _).
  destruct (W Y) as (buf & file & [= <-] & -> & _ & C & _). exists file. split; [by rewrite lookup_insert_eq|exact C].
Defined.

(** ** Starting and routing *)

(** The server serves only when every step before succeeded, in this order, on
    the address of its configuration; it ends with success exactly when serving
    does. *)
Lemma serve_order env : let '(steps, code) := serve env in
  (exists rest config, steps ++ rest =
     [DbConnected (database_url config); MigrationsApplied; RouterSpawned 1024; PruneSpawned (audit_retention_days config);
      Listening (bind_addr config); Served] /\ (steps <> [] -> from_env (se_vars env) = Ok config)) /\
  (code = SUCCESS <-> Served ∈ steps) /\
  (code = SUCCESS <-> exists config, from_env (se_vars env) = Ok config /\ se_connect env (database_url config) = Ok tt /\
     se_migrate env = Ok tt /\ se_bind env (bind_addr config) = Ok tt /\ se_serve env = Ok tt).
Proof.
  unfold serve. destruct (from_env (se_vars env)) as [config|e] eqn:C.
  2:{ split; [eexists _, (setup_config "" "" ""); split; [reflexivity|done]|]. split; split; try done.
      - intros []%elem_of_nil.
      - by intros (? & ? & _). }
  destruct (se_connect env (database_url config)) as [[]|] eqn:S1;
    [destruct (se_migrate env) as [[]|] eqn:S2; [destruct (se_bind env (bind_addr config)) as [[]|] eqn:S3; [destruct (se_serve env) as [[]|] eqn:S4|]|]|];
    cbn [app];
    (split; [eexists _, config; split; [first [reflexivity|symmetry; apply app_nil_r]|done]|]); split; split; try done.
  all: try (intros I; repeat (apply elem_of_cons in I as [I|I]; [discriminate I|]); by apply elem_of_nil in I).
  all: try (intros (? & [= <-] & ? & ? & ? & ?); congruence).
  - intros _. do 5 right. left.
  - intros _. exists config. split_and!; done.
Qed.
(** The routes: no path twice for a method, and the limiter is in front of
    exactly the three that take credentials without a token. *)
Lemma limited_routes now : let r := create_router now in
  NoDup (map (fun r => (r_path r, r_method r)) (table r)) /\
  map r_endpoint (filter (fun r => r_limited r = true) (table r)) = [RegisterAccount; LoginAccount; RefreshToken] /\
  max_requests (auth_limiter r) = 10%N /\ window (auth_limiter r) = from_secs 60.
Proof. cbv zeta. split; [apply (bool_decide_unpack _); vm_compute; exact I|]. done. Qed.
(** A response carries the id of its request; errors pass. *)
Lemma request_id_call_spec {Request E} (inner : Request -> Result HttpResponse E) id request :
  match inner request, request_id_call inner id request with
  | Ok response, Ok tagged => res_status tagged = res_status response /\ res_body tagged = res_body response /\
      res_headers tagged !! "x-request-id"%string = Some id /\
      forall name, name <> "x-request-id"%string -> res_headers tagged !! name = res_headers response !! name
  | Err e, Err e' => e = e'
  | _, _ => False
  end.
Proof.
  unfold request_id_call. destruct (inner request) as [response|e]; [|done]. split_and!; [done..|apply lookup_insert_eq|].
  intros name N. by apply lookup_insert_ne.
Qed.
(** Values that no server can run with are accepted: no heartbeat interval at
    all, and tokens that have expired when they are issued. *)
Lemma unusable_values_accepted secret : check_jwt_secret secret = Ok secret ->
  exists config, from_env (fun key =>
      if (key =? "HEARTBEAT_INTERVAL_SECS")%string then Some "0"%string
      else if (key =? "ACCESS_TOKEN_EXPIRY_SECS")%string then Some "-900"%string
      else only "postgres://db" secret "127.0.0.1:8080" key) = Ok config /\
    heartbeat_interval_secs config = 0%Z /\ access_token_expiry config = (-900)%Z.
Proof. intros C. unfold from_env, required, optional, parse_or, only. cbn -[check_jwt_secret]. rewrite C. by eexists. Qed.
