(* ===== verification/Worker.v ===== *)
(** * The console session worker

    rivetlink-agent/src/console/worker.rs: the process inside a graphical
    session that captures, injects input and shares files for the broker. What
    the session environment says, the requests' handlers, the framing of the
    local socket, and the request loop with the tasks it spawns, as a
    transition system of packets written to the broker. The capture backends,
    Mutter's clipboard and the monitors are answers of the environment. *)
From Stdlib Require Import NArith ZArith Lia Strings.String Strings.Byte.
From S2P Require Import Prelude Text Interfaces Instances Protocol Trusted Host SharedFolder Lan.

Definition MAX_IPC_FRAME : N := 512 * 1024.
Definition MAX_CAPTURE_TIMEOUT_MS : N := 15000.
Definition MAX_CAPTURE_PNG_BYTES : N := 8 * 1024 * 1024.

(** ** Messages *)

Module WIn.
Inductive ConsoleInput :=
| PointerMove (x y : N)
| PointerButton (button : Ptr.PtrButton) (down : bool)
| Scroll (dx dy : Z)
| Key (code : string) (down : bool).
#[global] Instance ConsoleInput_eq_dec : EqDecision ConsoleInput.
Proof. solve_decision. Defined.
End WIn.
Abbreviation WorkerInput := WIn.ConsoleInput.

Module WReq.
Inductive WorkerRequest :=
| Ping
| Capture (timeout_ms : N)
| StartDesktopStream (fps : N) (h264 : bool) (display : option N)
| ListDisplays
| RequestKeyframe (congested : bool)
| StopDesktopStream
| Input (event : WorkerInput)
| ClipboardEnable
| ClipboardSet (text : string)
| FileUploadStart (id : N) (path : string) (size : N)
| FileUploadChunk (id : N) (data_b64 : string)
| FileUploadEnd (id : N)
| ListSharedFiles
| ReadSharedFile (path : string) (offset : N)
| Stop.
#[global] Instance WorkerRequest_eq_dec : EqDecision WorkerRequest.
Proof. solve_decision. Defined.
End WReq.
Abbreviation WorkerRequest := WReq.WorkerRequest.

Inductive WorkerErrorCode :=
| NoGraphicalSession
| InvalidRequest
| GdmCaptureUnavailable
| GdmInputUnavailable
| ScreenCastUnavailable
| PipeWireUnavailable
| CaptureAuthorizationDenied
| CompositorFailure
| FrameEncodingFailed
| SharingUnavailable
| ClipboardUnavailable
| FileRejected
| FileIoFailed.
#[export] Instance WorkerErrorCode_eq_dec : EqDecision WorkerErrorCode.
Proof. solve_decision. Defined.

Module WResp.
Inductive WorkerResponse :=
| Ready (state : HostConsoleState) (display_switch : bool)
| Pong
| Displays (displays : list DisplayInfo)
| Capture (png_b64 : string)
| DesktopStreamStarted
| DesktopFrame (delta : FrameDelta)
| DesktopVideo (frame : VideoFrame)
| DesktopStreamStopped
| DesktopStreamEnded (code : WorkerErrorCode)
| InputAccepted
| ClipboardEnabled
| ClipboardAccepted
| ClipboardChanged (text : string)
| FileAccepted
| FileUploaded (path : string)
| SharedFiles (entries : list SharedEntry)
| SharedFileData (data_b64 : string) (size : N) (eof : bool)
| Error (code : WorkerErrorCode).
#[global] Instance WorkerResponse_eq_dec : EqDecision WorkerResponse.
Proof. solve_decision. Defined.
End WResp.
Abbreviation WorkerResponse := WResp.WorkerResponse.

(** ** The graphical session *)

Inductive GraphicalBackend :=
| Wayland
| X11 (display : string)
| Unknown.
Record GraphicalSession := { gs_state : HostConsoleState; gs_backend : GraphicalBackend }.
Inductive CaptureBackend := CaptureX11 | CaptureMutter.

Definition uses_x11_input (session : GraphicalSession) : bool :=
  match gs_backend session with X11 _ => true | _ => false end.
Definition supports_normal_desktop_stream (session : GraphicalSession) : bool :=
  bool_decide (gs_state session = DesktopReady) &&
  match gs_backend session with Wayland => true | _ => false end.

(** The environment variables; [std::env::var] also wants valid UTF-8. *)
Abbreviation ProcessEnv := (string -> option bytes).
Fixpoint utf8_valid (fuel : nat) (b : bytes) : bool :=
  match fuel, b with
  | _, [] => true
  | S fuel', x :: b' => let '(n, good) := utf8_char x b' in good && utf8_valid fuel' (drop n b)
  | O, _ :: _ => false
  end.
Definition env_var (env : ProcessEnv) (name : string) : option string :=
  let_some raw := env name else None in
  if utf8_valid (length raw) raw then Some (from_utf8 raw) else None.

Definition all_digits (b : bytes) : bool := forallb is_ascii_digit b.
Definition is_local_x11_display (display : string) : bool :=
  let_some number := strip_prefix ":" display else false in
  let '(screen, suffix) :=
    match split_once Byte.x2e number with Some parts => parts | None => (number, ""%string) end in
  negb (slen screen =? 0)%N && all_digits (as_bytes screen) &&
  ((slen suffix =? 0)%N || all_digits (as_bytes suffix)).
(** [is_file] is the file system's answer. *)
Definition x11_backend_from_environment (env : ProcessEnv) (is_file : bytes -> bool)
  : option GraphicalBackend :=
  let_some display := env_var env "DISPLAY" else None in
  if negb (is_local_x11_display display) then None
  else
    let_some authority := env "XAUTHORITY"%string else None in
    if negb (starts_with_b (as_bytes "/") authority) || negb (is_file authority) then None
    else Some (X11 display).
Definition graphical_session (env : ProcessEnv) (is_file : bytes -> bool) : GraphicalSession :=
  {| gs_state :=
       if bool_decide (env_var env "XDG_SESSION_CLASS" = Some "greeter"%string) ||
          bool_decide (env_var env "USER" = Some "gdm"%string)
       then GdmLogin else DesktopReady;
     gs_backend :=
       if bool_decide (env_var env "XDG_SESSION_TYPE" = Some "wayland"%string) then Wayland
       else if bool_decide (env_var env "XDG_SESSION_TYPE" = Some "x11"%string)
       then default Unknown (x11_backend_from_environment env is_file)
       else Unknown |}.
Definition require_graphical_session (env : ProcessEnv) (session : GraphicalSession)
  : Result unit AgentError :=
  if uses_x11_input session then Ok tt
  else if bool_decide (is_Some (env "XDG_RUNTIME_DIR"%string)) &&
          bool_decide (is_Some (env "DBUS_SESSION_BUS_ADDRESS"%string))
  then Ok tt
  else Err (Config "console worker requires an active login-manager or GNOME graphical session").

Definition capture_backend (session : GraphicalSession) : Result CaptureBackend AgentError :=
  match gs_state session, gs_backend session with
  | GdmLogin, X11 _ | DesktopReady, X11 _ => Ok CaptureX11
  | DesktopReady, Wayland => Ok CaptureMutter
  | GdmLogin, Wayland => Err (Config "the protected Wayland login display cannot be captured; RivetLink requires the optional local LightDM X11 login mode for pre-login capture")
  | GdmLogin, Unknown => Err (Config "login display server is not a supported local Xorg session")
  | SessionLocked, _ => Err (Config "the locked physical display cannot be captured through a supported backend")
  | _, _ => Err (Config "graphical console capture is unavailable while the session is transitioning")
  end.

(** ** logind *)

Record ActiveSeatSession := {
  seat_uid : N; seat_name : string; seat_class : string; seat_type : string; seat_active : bool;
}.
Record SeatFields := {
  f_uid : option N; f_seat : option string; f_class : option string; f_type : option string;
  f_active : option bool;
}.
Definition logind_line (f : SeatFields) (line : string) : option SeatFields :=
  let_some (key, value) := split_once Byte.x3d line else None in
  Some
    (if bool_decide (key = "User"%string) then
       {| f_uid := parse_u32 value; f_seat := f_seat f; f_class := f_class f; f_type := f_type f; f_active := f_active f |}
     else if bool_decide (key = "Seat"%string) then
       {| f_uid := f_uid f; f_seat := Some value; f_class := f_class f; f_type := f_type f; f_active := f_active f |}
     else if bool_decide (key = "Class"%string) then
       {| f_uid := f_uid f; f_seat := f_seat f; f_class := Some value; f_type := f_type f; f_active := f_active f |}
     else if bool_decide (key = "Type"%string) then
       {| f_uid := f_uid f; f_seat := f_seat f; f_class := f_class f; f_type := Some value; f_active := f_active f |}
     else if bool_decide (key = "Active"%string) then
       {| f_uid := f_uid f; f_seat := f_seat f; f_class := f_class f; f_type := f_type f;
          f_active := if bool_decide (value = "yes"%string) then Some true
                      else if bool_decide (value = "no"%string) then Some false else None |}
     else f).
Fixpoint logind_lines (f : SeatFields) (ls : list string) : option SeatFields :=
  match ls with
  | [] => Some f
  | l :: rest => let_some f := logind_line f l else None in logind_lines f rest
  end.
Definition parse_logind_session_details (output : string) : option ActiveSeatSession :=
  let_some f := logind_lines {| f_uid := None; f_seat := None; f_class := None; f_type := None; f_active := None |}
                  (lines output) else None in
  let_some uid := f_uid f else None in
  let_some seat := f_seat f else None in
  let_some class := f_class f else None in
  let_some session_type := f_type f else None in
  let_some active := f_active f else None in
  Some {| seat_uid := uid; seat_name := seat; seat_class := class; seat_type := session_type;
          seat_active := active |}.
(** The outputs of the [loginctl] and [id] processes, absent when they fail. *)
Definition active_logind_sessions (list_output : option bytes) (show_session : string -> option bytes)
  : list ActiveSeatSession :=
  let_some output := list_output else [] in
  omap (fun line =>
      id ← head (split_whitespace line);
      shown ← show_session id;
      parse_logind_session_details (from_utf8_lossy shown))
    (lines (from_utf8_lossy output)).
Definition worker_uid (id_output : option bytes) : option N :=
  let_some output := id_output else None in
  if utf8_valid (length output) output then parse_u32 (trim (from_utf8 output)) else None.
Definition active_session_matches_worker (candidate : ActiveSeatSession) (worker_uid : N)
  (session : GraphicalSession) : bool :=
  if negb (seat_active candidate) || negb (bool_decide (seat_name candidate = "seat0"%string)) ||
     negb (seat_uid candidate =? worker_uid)%N then false
  else
    let expected_class := if bool_decide (gs_state session = GdmLogin) then "greeter"%string else "user"%string in
    if negb (bool_decide (seat_class candidate = expected_class)) then false
    else match gs_backend session with
         | Wayland => bool_decide (seat_type candidate = "wayland"%string)
         | X11 _ => bool_decide (seat_type candidate = "x11"%string)
         | Unknown => false
         end.
Definition worker_owns_active_seat (id_output list_output : option bytes)
  (show_session : string -> option bytes) (session : GraphicalSession) : bool :=
  let_some uid := worker_uid id_output else false in
  existsb (fun candidate => active_session_matches_worker candidate uid session)
    (active_logind_sessions list_output show_session).

(** ** Handlers *)

Inductive InputAction :=
| ActMove (x y : N)
| ActButton (button : Ptr.PtrButton) (down : bool)
| ActScroll (dx dy : Z)
| ActKey (code : string) (down : bool).
(** An [InputHandle], by what it was spawned for: an X11 display, or a monitor
    of the Mutter session. *)
Inductive InputHandle :=
| SpawnX11 (display : string)
| Spawn (display : option N).
#[export] Instance InputHandle_eq_dec : EqDecision InputHandle.
Proof. solve_decision. Defined.
#[export] Instance InputAction_eq_dec : EqDecision InputAction.
Proof. solve_decision. Defined.

(** Answers of the session to one request. An absent answer is a task that
    panicked or timed out; [listing] is the order a directory is read in. *)
Record WorkerEnv := {
  x11_capture_png : string -> option (Result bytes AgentError);
  mutter_capture_png : N -> HostConsoleState -> option (Result bytes AgentError);
  monitors : option (list DisplayInfo);
  bridge_start : Result unit AgentError;
  bridge_set : Result unit AgentError;
  home : option string;
  listing : list (string * Node) -> list (string * Node);
}.

Definition error_response (code : WorkerErrorCode) : WorkerResponse := WResp.Error code.

(** The capture task; the timeout is in milliseconds. *)
Definition session_capture_png (env : WorkerEnv) (session : GraphicalSession) (timeout : N)
  : option (Result bytes AgentError) :=
  match capture_backend session with
  | Err e => Some (Err e)
  | Ok CaptureX11 =>
      match gs_backend session with
      | X11 display => x11_capture_png env display
      | _ => None
      end
  | Ok CaptureMutter => mutter_capture_png env timeout (gs_state session)
  end.

Definition capture_error_code (state : HostConsoleState) (error : AgentError) : WorkerErrorCode :=
  let text := to_ascii_lowercase (AgentError_display error) in
  if str_contains "access denied" text || str_contains "not authorized" text
  then CaptureAuthorizationDenied
  else if str_contains "pipewire" text || str_contains "gst-launch" text || str_contains "gstreamer" text
  then PipeWireUnavailable
  else if str_contains "encode" text || str_contains "png" text
  then FrameEncodingFailed
  else if bool_decide (state = GdmLogin) || bool_decide (state = SessionLocked)
  then GdmCaptureUnavailable
  else if str_contains "screencast" text || str_contains "session creation inhibited" text
  then ScreenCastUnavailable
  else CompositorFailure.

Definition is_valid_key_code (code : string) : bool :=
  negb (slen code =? 0)%N && (slen code <=? 64)%N &&
  forallb (fun b => is_ascii_alphanumeric b || Byte.eqb b Byte.x2d) (as_bytes code).

(** The handle after the event and the action queued on it, if any. *)
Definition input_action (event : WorkerInput) : option InputAction :=
  match event with
  | WIn.PointerMove x y => Some (ActMove x y)
  | WIn.PointerButton button down => Some (ActButton button down)
  | WIn.Scroll dx dy => Some (ActScroll dx dy)
  | WIn.Key code down => if is_valid_key_code code then Some (ActKey code down) else None
  end.
Definition apply_input (session : GraphicalSession) (handle : option InputHandle) (display : option N)
  (event : WorkerInput) : option InputHandle * option (InputHandle * InputAction) * WorkerResponse :=
  if bool_decide (gs_state session = SessionLocked) then (handle, None, error_response GdmInputUnavailable)
  else if bool_decide (gs_state session = GdmLogin) && negb (uses_x11_input session)
  then (handle, None, error_response GdmInputUnavailable)
  else
    match input_action event with
    | None => (handle, None, error_response InvalidRequest)
    | Some action =>
        let h := match handle with
                 | Some h => h
                 | None => match gs_backend session with X11 d => SpawnX11 d | _ => Spawn display end
                 end in
        (Some h, Some (h, action), WResp.InputAccepted)
    end.

(** Whether the bridge runs afterwards. *)
Definition enable_clipboard (env : WorkerEnv) (session : GraphicalSession) (clipboard : bool)
  : bool * WorkerResponse :=
  if negb (supports_normal_desktop_stream session) then (clipboard, error_response SharingUnavailable)
  else if clipboard then (true, WResp.ClipboardEnabled)
  else match bridge_start env with
       | Ok _ => (true, WResp.ClipboardEnabled)
       | Err _ => (false, error_response ClipboardUnavailable)
       end.
Definition set_clipboard (env : WorkerEnv) (clipboard : bool) (text : string) : WorkerResponse :=
  if negb clipboard then error_response ClipboardUnavailable
  else if (MAX_CLIPBOARD_BYTES <? slen text)%N then error_response InvalidRequest
  else match bridge_set env with
       | Ok _ => WResp.ClipboardAccepted
       | Err _ => error_response ClipboardUnavailable
       end.

Definition ShareError_code (e : ShareError) : WorkerErrorCode :=
  match e with Rejected => FileRejected | ShareIo => FileIoFailed end.
Definition share_response (r : Result WorkerResponse ShareError) : WorkerResponse :=
  match r with Ok response => response | Err e => error_response (ShareError_code e) end.

Section Handlers.
Context `{Base64}.

Definition capture (env : WorkerEnv) (timeout_ms : N) (session : GraphicalSession) : WorkerResponse :=
  let timeout_ms := N.min (N.max timeout_ms 1) MAX_CAPTURE_TIMEOUT_MS in
  match session_capture_png env session timeout_ms with
  | Some (Ok png) =>
      if (len png <=? MAX_CAPTURE_PNG_BYTES)%N then WResp.Capture (b64_encode png)
      else error_response FrameEncodingFailed
  | Some (Err error) => error_response (capture_error_code (gs_state session) error)
  | None => error_response CompositorFailure
  end.

(** The folder is created on first use. A listing visits at most 5001 folders
    ([SharedFolder.list_shared_ends]). *)
Definition folder_request (env : WorkerEnv) (folder : SharedFolder) (d : Disk) (request : WorkerRequest)
  : SharedFolder * Disk * Result WorkerResponse ShareError :=
  let map_ok {A : Type} (f : A -> WorkerResponse) (r : Result A ShareError) : Result WorkerResponse ShareError :=
    match r with Ok a => Ok (f a) | Err e => Err e end in
  match request with
  | WReq.FileUploadStart id path size =>
      let '(folder, d, r) := start_upload id path size folder d in
      (folder, d, map_ok (fun _ => WResp.FileAccepted) r)
  | WReq.FileUploadChunk id data_b64 =>
      match b64_decode data_b64 with
      | Ok data =>
          let '(folder, d, r) := write_chunk id data folder d in
          (folder, d, map_ok (fun _ => WResp.FileAccepted) r)
      | Err _ => let '(folder, d) := abort_upload id folder d in (folder, d, Err Rejected)
      end
  | WReq.FileUploadEnd id =>
      let '(folder, d, r) := finish_upload id folder d in (folder, d, map_ok WResp.FileUploaded r)
  | WReq.ListSharedFiles =>
      match list_shared (listing env) (N.to_nat 5001) folder d with
      | Some (d, r) => (folder, d, map_ok WResp.SharedFiles r)
      | None => (folder, d, Err ShareIo)
      end
  | WReq.ReadSharedFile path offset =>
      let '(d, r) := read_chunk path offset folder d in
      (folder, d, map_ok (fun '(data, size, eof) => WResp.SharedFileData (b64_encode data) size eof) r)
  | _ => (folder, d, Err Rejected)
  end.
Definition shared_folder_request (env : WorkerEnv) (session : GraphicalSession)
  (shared : option SharedFolder) (d : Disk) (request : WorkerRequest)
  : option SharedFolder * Disk * WorkerResponse :=
  if negb (supports_normal_desktop_stream session) then (shared, d, error_response SharingUnavailable)
  else
    match (match shared with Some folder => Some folder | None => for_current_user (home env) end) with
    | None => (None, d, error_response FileIoFailed)
    | Some folder =>
        let '(folder, d, r) := folder_request env folder d request in (Some folder, d, share_response r)
    end.
End Handlers.

(** ** The framing of the local socket

    One packet at a time, on the bytes of the stream. *)
Section Framing.
Context {A : Type} `{!Serde A}.

Definition write_packet (value : A) : Result bytes AgentError :=
  let? body := map_err SerdeError (to_json value) in
  if (u32_max <? slen body)%N then Err (Config "console IPC response exceeds u32")
  else Ok (be_bytes 4 (slen body) ++ as_bytes body).
Definition early_end : AgentError := Io "early eof".
(** The value and what follows it in the stream. *)
Definition read_packet_with_limit (maximum : N) (stream : bytes) : Result (A * bytes) AgentError :=
  if (len stream <? 4)%N then Err early_end
  else
    let size := be_val (take 4 stream) in
    if (maximum <? size)%N then Err (Config "console IPC request exceeds the maximum size")
    else
      let rest := drop 4 stream in
      if (len rest <? size)%N then Err early_end
      else
        let? value := map_err SerdeError (from_json (from_utf8 (take (N.to_nat size) rest))) in
        Ok (value, drop (N.to_nat size) rest).
Definition read_packet (stream : bytes) : Result (A * bytes) AgentError :=
  read_packet_with_limit MAX_IPC_FRAME stream.
End Framing.

(** ** Video feedback (capture/screencast.rs) *)

Record VideoControl := { vc_keyframe : bool; vc_congested : bool }.
Definition video_control_default : VideoControl := {| vc_keyframe := false; vc_congested := false |}.
Definition request_keyframe (c : VideoControl) : VideoControl :=
  {| vc_keyframe := true; vc_congested := vc_congested c |}.
Definition report_congestion (c : VideoControl) : VideoControl :=
  {| vc_keyframe := true; vc_congested := true |}.

(** ** The request loop and its tasks

    [w_out] is every packet written to the broker. The main task is between
    two requests, or inside the handling of one; a stream task is the one
    [StartDesktopStream] spawns. Every write is one step: packets are written
    under a lock. A stream task is never removed; its number is its index. *)

Inductive StreamPc :=
| Forwarding
| WritingFrame (frame : StreamFrame)
| CaptureEnding
| Ending (code : WorkerErrorCode)
| Announcing (code : WorkerErrorCode)
| Finished.
Record StreamTask := { pc : StreamPc; stop_sent : bool }.

Inductive MainPc :=
| Reading
| Replying (response : WorkerResponse)
| Starting (h264 : bool) (display : option N)
| Stopping (task : option nat)
| Served (result : Result unit AgentError).

Record Worker := {
  w_session : GraphicalSession;
  w_input : option InputHandle;
  w_stream_display : option N;
  w_clipboard : bool;
  w_shared : option SharedFolder;
  w_disk : Disk;
  w_desktop : option nat;
  w_video : option VideoControl;
  w_active : bool;
  w_tasks : list StreamTask;
  w_main : MainPc;
  w_out : list WorkerResponse;
  (** The requests taken, and the actions queued on injectors. *)
  w_taken : list WorkerRequest;
  w_injected : list (InputHandle * InputAction);
}.

Definition worker_start (session : GraphicalSession) (d : Disk) : Worker :=
  {| w_session := session; w_input := None; w_stream_display := None; w_clipboard := false;
     w_shared := None; w_disk := d; w_desktop := None; w_video := None; w_active := false;
     w_tasks := []; w_main := Reading; w_out := [WResp.Ready (gs_state session) true];
     w_taken := []; w_injected := [] |}.

Definition with_main (m : MainPc) (w : Worker) : Worker :=
  {| w_session := w_session w; w_input := w_input w; w_stream_display := w_stream_display w;
     w_clipboard := w_clipboard w; w_shared := w_shared w; w_disk := w_disk w; w_desktop := w_desktop w;
     w_video := w_video w; w_active := w_active w; w_tasks := w_tasks w; w_main := m; w_out := w_out w;
     w_taken := w_taken w; w_injected := w_injected w |}.
Definition with_out (r : WorkerResponse) (w : Worker) : Worker :=
  {| w_session := w_session w; w_input := w_input w; w_stream_display := w_stream_display w;
     w_clipboard := w_clipboard w; w_shared := w_shared w; w_disk := w_disk w; w_desktop := w_desktop w;
     w_video := w_video w; w_active := w_active w; w_tasks := w_tasks w; w_main := w_main w;
     w_out := w_out w ++ [r]; w_taken := w_taken w; w_injected := w_injected w |}.
Definition with_taken (req : WorkerRequest) (w : Worker) : Worker :=
  {| w_session := w_session w; w_input := w_input w; w_stream_display := w_stream_display w;
     w_clipboard := w_clipboard w; w_shared := w_shared w; w_disk := w_disk w; w_desktop := w_desktop w;
     w_video := w_video w; w_active := w_active w; w_tasks := w_tasks w; w_main := w_main w;
     w_out := w_out w; w_taken := w_taken w ++ [req]; w_injected := w_injected w |}.
(** The stream: its task, its control and the flag. *)
Definition with_stream (desktop : option nat) (video : option VideoControl) (active : bool)
  (tasks : list StreamTask) (w : Worker) : Worker :=
  {| w_session := w_session w; w_input := w_input w; w_stream_display := w_stream_display w;
     w_clipboard := w_clipboard w; w_shared := w_shared w; w_disk := w_disk w; w_desktop := desktop;
     w_video := video; w_active := active; w_tasks := tasks; w_main := w_main w; w_out := w_out w;
     w_taken := w_taken w; w_injected := w_injected w |}.
Definition with_input (input : option InputHandle) (display : option N)
  (action : option (InputHandle * InputAction)) (w : Worker) : Worker :=
  {| w_session := w_session w; w_input := input; w_stream_display := display;
     w_clipboard := w_clipboard w; w_shared := w_shared w; w_disk := w_disk w; w_desktop := w_desktop w;
     w_video := w_video w; w_active := w_active w; w_tasks := w_tasks w; w_main := w_main w; w_out := w_out w;
     w_taken := w_taken w; w_injected := w_injected w ++ option_list action |}.
Definition with_sharing (clipboard : bool) (shared : option SharedFolder) (d : Disk) (w : Worker) : Worker :=
  {| w_session := w_session w; w_input := w_input w; w_stream_display := w_stream_display w;
     w_clipboard := clipboard; w_shared := shared; w_disk := d; w_desktop := w_desktop w;
     w_video := w_video w; w_active := w_active w; w_tasks := w_tasks w; w_main := w_main w; w_out := w_out w;
     w_taken := w_taken w; w_injected := w_injected w |}.
Definition set_task (i : nat) (t : StreamTask) (w : Worker) : Worker :=
  with_stream (w_desktop w) (w_video w) (w_active w) (<[i := t]> (w_tasks w)) w.

(** The end of the loop drops its locals: the shared folder cleans up, the
    clipboard bridge stops. *)
Definition serve_end (r : Result unit AgentError) (w : Worker) : Worker :=
  let d := match w_shared w with Some folder => (drop_folder folder (w_disk w)).2 | None => w_disk w end in
  with_main (Served r) (with_sharing false None d w).

Section Loop.
Context `{Base64}.

(** From a request that was read to its reply, or to the next wait. *)
Definition take_request (env : WorkerEnv) (request : WorkerRequest) (w : Worker) : Worker :=
  let w := with_taken request w in
  let reply r w := with_main (Replying r) w in
  match request with
  | WReq.Ping => reply WResp.Pong w
  | WReq.Capture timeout_ms => reply (capture env timeout_ms (w_session w)) w
  | WReq.ListDisplays =>
      reply (WResp.Displays (if supports_normal_desktop_stream (w_session w)
                             then default [] (monitors env) else [])) w
  | WReq.StartDesktopStream _ h264 display =>
      if negb (supports_normal_desktop_stream (w_session w))
      then reply (error_response ScreenCastUnavailable) w
      else if w_active w then reply (error_response InvalidRequest) w
      else with_main (Starting h264 display) (with_stream (w_desktop w) (w_video w) true (w_tasks w) w)
  | WReq.StopDesktopStream =>
      let tasks := match w_desktop w with
                   | Some i => alter (fun t => {| pc := pc t; stop_sent := true |}) i (w_tasks w)
                   | None => w_tasks w
                   end in
      with_main (Stopping (w_desktop w)) (with_stream None (w_video w) (w_active w) tasks w)
  | WReq.RequestKeyframe congested =>
      with_stream (w_desktop w)
        (option_map (if congested then report_congestion else request_keyframe) (w_video w))
        (w_active w) (w_tasks w) w
  | WReq.Input event =>
      let '(input, action, r) := apply_input (w_session w) (w_input w) (w_stream_display w) event in
      reply r (with_input input (w_stream_display w) action w)
  | WReq.ClipboardEnable =>
      let '(clipboard, r) := enable_clipboard env (w_session w) (w_clipboard w) in
      reply r (with_sharing clipboard (w_shared w) (w_disk w) w)
  | WReq.ClipboardSet text => reply (set_clipboard env (w_clipboard w) text) w
  | WReq.FileUploadStart _ _ _ | WReq.FileUploadChunk _ _ | WReq.FileUploadEnd _
  | WReq.ListSharedFiles | WReq.ReadSharedFile _ _ =>
      let '(shared, d, r) := shared_folder_request env (w_session w) (w_shared w) (w_disk w) request in
      reply r (with_sharing (w_clipboard w) shared d w)
  | WReq.Stop =>
      let tasks := match w_desktop w with
                   | Some i => alter (fun t => {| pc := Finished; stop_sent := stop_sent t |}) i (w_tasks w)
                   | None => w_tasks w
                   end in
      serve_end (Ok tt) (with_stream None (w_video w) (w_active w) tasks w)
  end.

(** The main task goes on; [None] when it waits. [connected] is whether the
    socket still takes packets. *)
Definition main_step (connected : bool) (w : Worker) : option Worker :=
  let write r w := if connected then with_main Reading (with_out r w)
                   else serve_end (Err (Io "broken pipe")) w in
  match w_main w with
  | Reading => if connected then None else Some (serve_end (Err early_end) w)
  | Served _ => None
  | Replying r => Some (write r w)
  | Starting h264 display =>
      if negb connected then Some (serve_end (Err (Io "broken pipe")) w)
      else
        let w := with_main Reading (with_out WResp.DesktopStreamStarted w) in
        let w := if bool_decide (display = w_stream_display w) then w else with_input None display None w in
        Some (with_stream (Some (length (w_tasks w)))
                (if h264 then Some video_control_default else None) (w_active w)
                (w_tasks w ++ [{| pc := Forwarding; stop_sent := false |}]) w)
  | Stopping task =>
      let finished := match task with
                      | Some i => match w_tasks w !! i with Some t => pc t | None => Finished end
                      | None => Finished
                      end in
      match finished with
      | Finished => Some (with_main (Replying WResp.DesktopStreamStopped)
                            (with_stream (w_desktop w) None false (w_tasks w) w))
      | _ => None
      end
  end.

(** What a waiting stream task meets: a frame, its stop signal, the end of the
    frames; then the outcome of the capture ([None]: the thread panicked). *)
Inductive StreamEvent :=
| GotFrame (frame : StreamFrame)
| GotStop
| FramesClosed
| CaptureOutcome (outcome : option (Result unit AgentError))
| Proceed.

Definition frame_packet (frame : StreamFrame) : WorkerResponse :=
  match frame with
  | Tiles delta => WResp.DesktopFrame delta
  | Video frame => WResp.DesktopVideo frame
  end.
Definition stream_end_code (outcome : option (Result unit AgentError)) : WorkerErrorCode :=
  match outcome with
  | Some (Ok _) => CompositorFailure
  | Some (Err error) => capture_error_code DesktopReady error
  | None => CompositorFailure
  end.
Definition stream_step (connected : bool) (i : nat) (event : StreamEvent) (w : Worker) : option Worker :=
  let_some t := w_tasks w !! i else None in
  let goto p := {| pc := p; stop_sent := stop_sent t |} in
  match pc t, event with
  | Forwarding, GotFrame frame => Some (set_task i (goto (WritingFrame frame)) w)
  | Forwarding, GotStop => if stop_sent t then Some (set_task i (goto Finished) w) else None
  | Forwarding, FramesClosed => Some (set_task i (goto CaptureEnding) w)
  | WritingFrame frame, Proceed =>
      if connected then Some (set_task i (goto Forwarding) (with_out (frame_packet frame) w))
      else Some (set_task i (goto CaptureEnding) w)
  | CaptureEnding, CaptureOutcome outcome => Some (set_task i (goto (Ending (stream_end_code outcome))) w)
  | Ending code, Proceed =>
      Some (set_task i (goto (Announcing code)) (with_stream (w_desktop w) (w_video w) false (w_tasks w) w))
  | Announcing code, Proceed =>
      Some (set_task i (goto Finished) (if connected then with_out (WResp.DesktopStreamEnded code) w else w))
  | _, _ => None
  end.

(** Any interleaving. The broker's side is in the choice of requests; a guard
    on them is [may_take]. *)
Inductive worker_step (may_take : Worker -> WorkerRequest -> Prop) : Worker -> Worker -> Prop :=
| step_take env request w : w_main w = Reading -> may_take w request ->
    worker_step may_take w (take_request env request w)
| step_main connected w w' : main_step connected w = Some w' -> worker_step may_take w w'
| step_stream connected i event w w' : stream_step connected i event w = Some w' ->
    worker_step may_take w w'
| step_clipboard text w : w_clipboard w = true ->
    worker_step may_take w (with_out (WResp.ClipboardChanged text) w).
End Loop.

(** ** Every request has its reply, in order *)

(** Packets a task pushes on its own. *)
Definition is_pushed (r : WorkerResponse) : bool :=
  match r with
  | WResp.DesktopFrame _ | WResp.DesktopVideo _ | WResp.ClipboardChanged _ | WResp.DesktopStreamEnded _ => true
  | _ => false
  end.
Definition replies (out : list WorkerResponse) : list WorkerResponse := filter (fun r => is_pushed r = false) out.
Definition expects_reply (q : WorkerRequest) : bool :=
  match q with WReq.RequestKeyframe _ | WReq.Stop => false | _ => true end.
(** The replies a request may get. *)
Definition answers (q : WorkerRequest) (r : WorkerResponse) : Prop :=
  match r with
  | WResp.Error _ =>
      match q with
      | WReq.Ping | WReq.ListDisplays | WReq.StopDesktopStream | WReq.RequestKeyframe _ | WReq.Stop => False
      | _ => True
      end
  | WResp.Pong => q = WReq.Ping
  | WResp.Displays _ => q = WReq.ListDisplays
  | WResp.Capture _ => exists t, q = WReq.Capture t
  | WResp.DesktopStreamStarted => exists f h d, q = WReq.StartDesktopStream f h d
  | WResp.DesktopStreamStopped => q = WReq.StopDesktopStream
  | WResp.InputAccepted => exists e, q = WReq.Input e
  | WResp.ClipboardEnabled => q = WReq.ClipboardEnable
  | WResp.ClipboardAccepted => exists t, q = WReq.ClipboardSet t
  | WResp.FileAccepted => (exists i p z, q = WReq.FileUploadStart i p z) \/ (exists i b, q = WReq.FileUploadChunk i b)
  | WResp.FileUploaded _ => exists i, q = WReq.FileUploadEnd i
  | WResp.SharedFiles _ => q = WReq.ListSharedFiles
  | WResp.SharedFileData _ _ _ => exists p o, q = WReq.ReadSharedFile p o
  | WResp.Ready _ _ | WResp.DesktopFrame _ | WResp.DesktopVideo _ | WResp.DesktopStreamEnded _
  | WResp.ClipboardChanged _ => False
  end.
Definition asked (w : Worker) : list WorkerRequest := filter (fun q => expects_reply q = true) (w_taken w).
Definition answered (m : MainPc) (asked : list WorkerRequest) (got : list WorkerResponse) : Prop :=
  match m with
  | Reading => Forall2 answers asked got
  | Replying r => Forall2 answers asked (got ++ [r])
  | Starting _ _ => Forall2 answers asked (got ++ [WResp.DesktopStreamStarted])
  | Stopping _ => Forall2 answers asked (got ++ [WResp.DesktopStreamStopped])
  | Served _ => exists qs rest, asked = qs ++ rest /\ length rest <= 1 /\ Forall2 answers qs got
  end.
Definition got (w : Worker) : list WorkerResponse := replies (tail (w_out w)).
Definition answers_ok (w : Worker) : Prop :=
  w_out w <> [] /\ answered (w_main w) (asked w) (got w).

Section Answers.
Context `{Base64}.

Lemma apply_input_answers s h d e : answers (WReq.Input e) (apply_input s h d e).2.
Proof. unfold apply_input. repeat case_match; simpl; eauto. Qed.
Lemma folder_request_answers env folder d q f d' r : folder_request env folder d q = (f, d', r) ->
  match q with
  | WReq.FileUploadStart _ _ _ | WReq.FileUploadChunk _ _ | WReq.FileUploadEnd _
  | WReq.ListSharedFiles | WReq.ReadSharedFile _ _ => answers q (share_response r)
  | _ => True
  end.
Proof.
  intros E. destruct q; try done; unfold folder_request in E; repeat case_match; simplify_eq; simpl; eauto.
Qed.
Lemma shared_folder_request_answers env s sh d q sh' d' r : shared_folder_request env s sh d q = (sh', d', r) ->
  match q with
  | WReq.FileUploadStart _ _ _ | WReq.FileUploadChunk _ _ | WReq.FileUploadEnd _
  | WReq.ListSharedFiles | WReq.ReadSharedFile _ _ => answers q r
  | _ => True
  end.
Proof.
  unfold shared_folder_request. intros E. destruct (negb _); [simplify_eq; by destruct q|].
  destruct (match sh with Some _ => _ | None => _ end) as [folder|]; [|simplify_eq; by destruct q].
  destruct (folder_request env folder d q) as [[f d1] r1] eqn:Ef. simplify_eq.
  by eapply folder_request_answers.
Qed.

Lemma answered_reply q w got : answered Reading (asked w) got -> expects_reply q = true ->
  forall r, answers q r -> Forall2 answers (asked (with_taken q w)) (got ++ [r]).
Proof.
  intros A E r Hr. unfold asked in *. cbn [w_taken with_taken]. rewrite filter_app.
  apply Forall2_app; [exact A|]. rewrite filter_cons_True by done. by repeat constructor.
Qed.
Lemma asked_silent q w : expects_reply q = false -> asked (with_taken q w) = asked w.
Proof.
  intros E. unfold asked. cbn [w_taken with_taken]. rewrite filter_app, filter_cons_False by (by rewrite E).
  by rewrite app_nil_r.
Qed.

(** What handling a request starts. *)
Definition same_stream (w w' : Worker) : Prop :=
  w_desktop w' = w_desktop w /\ w_active w' = w_active w /\ w_tasks w' = w_tasks w.
Definition aborted (w : Worker) : list StreamTask :=
  match w_desktop w with
  | Some i => alter (fun t => {| pc := Finished; stop_sent := stop_sent t |}) i (w_tasks w)
  | None => w_tasks w
  end.
Definition signalled (w : Worker) : list StreamTask :=
  match w_desktop w with
  | Some i => alter (fun t => {| pc := pc t; stop_sent := true |}) i (w_tasks w)
  | None => w_tasks w
  end.
Inductive started (q : WorkerRequest) (w w' : Worker) : Prop :=
| starts_reply r : w_main w' = Replying r -> answers q r -> q <> WReq.StopDesktopStream ->
    r <> WResp.DesktopStreamStarted -> same_stream w w' -> started q w w'
| starts_stream h d : w_main w' = Starting h d -> (exists f, q = WReq.StartDesktopStream f h d) ->
    w_active w = false -> w_active w' = true -> w_desktop w' = w_desktop w -> w_tasks w' = w_tasks w ->
    started q w w'
| starts_stop : w_main w' = Stopping (w_desktop w) -> q = WReq.StopDesktopStream -> w_desktop w' = None ->
    w_active w' = w_active w -> w_tasks w' = signalled w -> started q w w'
| starts_nothing : w_main w' = Reading -> expects_reply q = false -> same_stream w w' -> started q w w'
| starts_end : w_main w' = Served (Ok tt) -> expects_reply q = false -> w_desktop w' = None ->
    w_active w' = w_active w -> w_tasks w' = aborted w -> started q w w'.
Lemma take_request_started env q w : w_main w = Reading -> started q w (take_request env q w).
Proof.
  intros M. destruct q; cbn [take_request];
    try (eapply starts_reply; [reflexivity|done|done|done|done]).
  - eapply starts_reply; [reflexivity| |done| |done]; unfold capture; repeat case_match; simpl; eauto; done.
  - destruct (negb _); [eapply starts_reply; done|]. destruct (w_active _) eqn:A; [eapply starts_reply; done|].
    eapply starts_stream; [reflexivity|by eexists|exact A|done..].
  - eapply starts_nothing; [exact M|done..].
  - eapply starts_stop; done.
  - pose proof (apply_input_answers (w_session w) (w_input w) (w_stream_display w) event) as Ha.
    cbn [w_session w_input w_stream_display with_taken]. destruct (apply_input _ _ _ _) as [[i a] r]. simpl in Ha.
    eapply starts_reply; [reflexivity|done|done| |done]. intros ->. by destruct Ha as (? & ? & ? & ?).
  - destruct (enable_clipboard _ _ _) as [c r] eqn:E. unfold enable_clipboard in E.
    eapply starts_reply; [reflexivity| |done| |done]; repeat case_match; simplify_eq; done.
  - eapply starts_reply; [reflexivity| |done| |done]; unfold set_clipboard; repeat case_match; simpl; eauto; done.
  - destruct (shared_folder_request _ _ _ _ _) as [[sh d] r] eqn:E. apply shared_folder_request_answers in E.
    eapply starts_reply; [reflexivity|exact E|done| |done]. intros ->. by destruct E as (? & ? & ? & ?).
  - destruct (shared_folder_request _ _ _ _ _) as [[sh d] r] eqn:E. apply shared_folder_request_answers in E.
    eapply starts_reply; [reflexivity|exact E|done| |done]. intros ->. by destruct E as (? & ? & ? & ?).
  - destruct (shared_folder_request _ _ _ _ _) as [[sh d] r] eqn:E. apply shared_folder_request_answers in E.
    eapply starts_reply; [reflexivity|exact E|done| |done]. intros ->. by destruct E as (? & ? & ? & ?).
  - destruct (shared_folder_request _ _ _ _ _) as [[sh d] r] eqn:E. apply shared_folder_request_answers in E.
    eapply starts_reply; [reflexivity|exact E|done| |done]. intros ->. by destruct E as (? & ? & ? & ?).
  - destruct (shared_folder_request _ _ _ _ _) as [[sh d] r] eqn:E. apply shared_folder_request_answers in E.
    eapply starts_reply; [reflexivity|exact E|done| |done]. intros ->. by destruct E as (? & ? & ? & ?).
  - eapply starts_end; done.
Qed.
Lemma take_request_logs env q w : w_out (take_request env q w) = w_out w /\
  w_taken (take_request env q w) = w_taken w ++ [q].
Proof. destruct q; cbn [take_request]; repeat case_match; done. Qed.

Lemma take_request_answers env q w : answers_ok w -> w_main w = Reading -> answers_ok (take_request env q w).
Proof.
  intros [N A] M. rewrite M in A. destruct (take_request_logs env q w) as [Eo Et].
  assert (asked (take_request env q w) = asked (with_taken q w)) as Ea by (unfold asked; by rewrite Et).
  unfold answers_ok, got in *. rewrite Eo, Ea. split; [done|].
  destruct (take_request_started env q w M) as [r -> Ha|h d -> [f ->]| -> -> _ _ _| -> E _| -> E _ _ _];
    cbn [answered].
  - apply answered_reply; [done| |done]. destruct q; try done; destruct r; naive_solver.
  - apply answered_reply; simpl; eauto.
  - by apply answered_reply.
  - by rewrite asked_silent.
  - rewrite asked_silent by done. exists (asked w), []. rewrite app_nil_r. by split_and!; [|simpl; lia|].
Qed.

Lemma replies_snoc out r : out <> [] ->
  replies (tail (out ++ [r])) = replies (tail out) ++ (if is_pushed r then [] else [r]).
Proof.
  intros N. destruct out as [|x out]; [done|]. cbn [tail app]. unfold replies. rewrite filter_app.
  f_equal. destruct (is_pushed r) eqn:E.
  - rewrite filter_cons_False; [done|by rewrite E].
  - by rewrite filter_cons_True.
Qed.
(** A packet that was pushed is no reply. *)
Lemma pushed_answers r w : is_pushed r = true -> answers_ok w -> answers_ok (with_out r w).
Proof.
  intros E [N A]. split; [by intros [_ ?]%app_eq_nil|]. unfold got in *. cbn [w_main w_out with_out].
  by rewrite replies_snoc, E, app_nil_r by done.
Qed.
Lemma answers_wait (qs : list WorkerRequest) (rs : list WorkerResponse) r :
  Forall2 answers qs (rs ++ [r]) ->
  exists qs' rest, qs = qs' ++ rest /\ length rest <= 1 /\ Forall2 answers qs' rs.
Proof.
  intros (qs' & rest & F1 & F2 & ->)%Forall2_app_inv_r. exists qs', rest. apply Forall2_length in F2. simpl in F2.
  split_and!; [done|lia|done].
Qed.
Lemma serve_end_answers r w : answers_ok w -> answers_ok (serve_end r w).
Proof.
  intros [N A]. split; [exact N|]. cbn. change (got (serve_end r w)) with (got w).
  change (asked (serve_end r w)) with (asked w).
  destruct (w_main w); cbn in A; try (by eapply answers_wait); [|done].
  exists (asked w), []. rewrite app_nil_r. split_and!; [done|simpl; lia|done].
Qed.
Lemma main_step_answers connected w w' : main_step connected w = Some w' -> answers_ok w -> answers_ok w'.
Proof.
  intros E I. unfold main_step in E.
  assert (forall r, answered (Replying r) (asked w) (got w) ->
    is_pushed r = false -> answers_ok (with_main Reading (with_out r w))) as W.
  { intros r Ha Hp. destruct I as [N _]. split; [by intros [_ ?]%app_eq_nil|].
    unfold got. cbn [w_main w_out with_main with_out]. rewrite replies_snoc, Hp by done. exact Ha. }
  destruct (w_main w) eqn:M; try done.
  - destruct connected; [done|]. simplify_eq. by apply serve_end_answers.
  - destruct connected; simplify_eq; [|by apply serve_end_answers].
    apply W.
    + destruct I as [_ A]. by rewrite M in A.
    + destruct I as [_ A]. rewrite M in A. apply Forall2_app_inv_r in A as (? & l & _ & F & _).
      inversion F as [|q ? ? ? Hq]; subst. by destruct response.
  - destruct connected; simplify_eq; cbn [negb] in E; simplify_eq; [|by apply serve_end_answers].
    assert (answers_ok (with_main Reading (with_out WResp.DesktopStreamStarted w))) as A'.
    { apply W; [|done]. destruct I as [_ A]. by rewrite M in A. }
    destruct A' as [N' A']. by case_bool_decide.
  - destruct (match task with Some _ => _ | None => _ end); simplify_eq.
    destruct I as [N A]. rewrite M in A. by split.
Qed.
Lemma stream_step_answers connected i ev w w' : stream_step connected i ev w = Some w' ->
  answers_ok w -> answers_ok w'.
Proof.
  intros E I. unfold stream_step in E. destruct (w_tasks w !! i) as [t|]; [|done].
  destruct (pc t), ev; try done; try (destruct (stop_sent t); simplify_eq; exact I); simplify_eq; try exact I.
  - destruct connected; simplify_eq; [|exact I]. exact (pushed_answers (frame_packet frame) w ltac:(by destruct frame) I).
  - destruct connected; [|exact I]. by apply (pushed_answers (WResp.DesktopStreamEnded code) w).
Qed.
Lemma worker_step_answers may_take w w' : worker_step may_take w w' -> answers_ok w -> answers_ok w'.
Proof.
  intros S I. destruct S.
  - by apply take_request_answers.
  - by eapply main_step_answers.
  - by eapply stream_step_answers.
  - by apply pushed_answers.
Qed.

Lemma worker_out_grows may_take w w' : worker_step may_take w w' -> exists more, w_out w' = w_out w ++ more.
Proof.
  assert (forall w : Worker, exists more, w_out w = w_out w ++ more) as Z by (intros x; exists []; by rewrite app_nil_r).
  intros []; [| | |by eexists].
  - rewrite (proj1 (take_request_logs _ _ _)). apply Z.
  - unfold main_step in *. repeat case_match; simplify_eq; first [by exists []; rewrite app_nil_r|by eexists].
  - unfold stream_step in *. repeat case_match; simplify_eq; first [by exists []; rewrite app_nil_r|by eexists].
Qed.

(** The worker answers every request once and in order, however its tasks
    interleave, fail or lose the socket: after [Ready], the packets that no
    task pushed are the replies to the requests that expect one, each of a kind
    that belongs to its request; only the last one may be missing, while it is
    handled or when the loop ended. So a broker that reads replies in order
    pairs them rightly. *)
Theorem worker_answers_in_order may_take session d w :
  rtc (worker_step may_take) (worker_start session d) w ->
  exists rest qs, w_out w = WResp.Ready (gs_state session) true :: rest /\
    qs `prefix_of` asked w /\ length (asked w) <= length qs + 1 /\ Forall2 answers qs (replies rest) /\
    (w_main w = Reading -> qs = asked w).
Proof.
  intros R. assert (answers_ok w /\ head (w_out w) = Some (WResp.Ready (gs_state session) true)) as [[N A] Hh].
  { refine (invariant_rtc (worker_step may_take) (fun w => answers_ok w /\ head (w_out w) = Some _) _ _ _ R _).
    - intros x y S [I Hh]. split; [by eapply worker_step_answers|].
      destruct (worker_out_grows _ _ _ S) as [more ->].
      destruct I as [N _]. by destruct (w_out x).
    - split; [|done]. split; [done|]. constructor. }
  destruct (w_out w) as [|x rest] eqn:E; [done|]. simpl in Hh. simplify_eq. exists rest.
  unfold got in A. rewrite E in A. cbn [tail] in A.
  destruct (w_main w) eqn:M; cbn in A.
  - exists (asked w). split_and!; [done..|lia|done|done].
  - apply answers_wait in A as (qs & r & -> & L & F). exists qs. rewrite length_app. split; [done|].
    split; [by apply prefix_app_r|]. split; [lia|]. by split.
  - apply answers_wait in A as (qs & r & -> & L & F). exists qs. rewrite length_app. split; [done|].
    split; [by apply prefix_app_r|]. split; [lia|]. by split.
  - apply answers_wait in A as (qs & r & -> & L & F). exists qs. rewrite length_app. split; [done|].
    split; [by apply prefix_app_r|]. split; [lia|]. by split.
  - destruct A as (qs & r & -> & L & F). exists qs. rewrite length_app. split; [done|].
    split; [by apply prefix_app_r|]. split; [lia|]. by split.
Qed.
End Answers.

(** ** Frames between start and stop

    A reader of the packets: whether a stream is open. The strict reader also
    closes a stream at its end, and knows no end or start that does not fit. *)
Definition scan_step (strict on : bool) (r : WorkerResponse) : option bool :=
  match r with
  | WResp.DesktopStreamStarted => if strict && on then None else Some true
  | WResp.DesktopStreamStopped => Some false
  | WResp.DesktopFrame _ | WResp.DesktopVideo _ => if on then Some on else None
  | WResp.DesktopStreamEnded _ => if strict then (if on then Some false else None) else Some on
  | _ => Some on
  end.
Definition scan (strict : bool) (out : list WorkerResponse) : option bool :=
  foldl (fun s r => s ≫= fun on => scan_step strict on r) (Some false) out.

(** A broker that starts a stream only when it saw the last one end. *)
Definition starts_when_closed (w : Worker) (q : WorkerRequest) : Prop :=
  match q with WReq.StartDesktopStream _ _ _ => scan true (w_out w) = Some false | _ => True end.

(** A task that may still write; a strict reader also waits for its end. *)
Definition live (strict : bool) (t : StreamTask) : bool :=
  match pc t with Finished => false | Announcing _ => strict | _ => true end.
Definition owner (w : Worker) : option nat :=
  match w_main w with Stopping task => task | _ => w_desktop w end.
Record streams_ok (strict : bool) (w : Worker) : Prop := {
  streams_scan : exists on, scan strict (w_out w) = Some on /\
    (forall i t, w_tasks w !! i = Some t -> live strict t = true -> owner w = Some i /\ on = true) /\
    (strict = true -> (exists h d, w_main w = Starting h d) -> on = false);
  streams_active : forall i t, w_tasks w !! i = Some t -> live false t = true -> w_active w = true;
  streams_quiet : ((exists h d, w_main w = Starting h d) \/ w_main w = Replying WResp.DesktopStreamStopped) ->
    forall i t, w_tasks w !! i = Some t -> live strict t = false;
  streams_starting : (exists h d, w_main w = Starting h d) -> w_active w = true;
  streams_stopping : forall task, w_main w = Stopping task -> w_desktop w = None;
  streams_replying : forall r, w_main w = Replying r ->
    is_pushed r = false /\ r <> WResp.DesktopStreamStarted;
}.

Lemma scan_snoc strict out r : scan strict (out ++ [r]) = scan strict out ≫= fun on => scan_step strict on r.
Proof. unfold scan. by rewrite foldl_app. Qed.
Lemma live_strict t : live false t = true -> forall strict, live strict t = true.
Proof. unfold live. by destruct (pc t). Qed.

Section Streams.
Context `{Base64}.

Lemma streams_start strict session d : streams_ok strict (worker_start session d).
Proof.
  split; simpl; try done; try (by intros (? & ? & ?)).
  exists false. split; [done|]. split; [done|]. by intros _ (? & ? & ?).
Qed.

(** The tasks of [w'] that are live were live in [w]. *)
Definition fewer (strict : bool) (ts ts' : list StreamTask) : Prop :=
  forall i t', ts' !! i = Some t' -> live strict t' = true ->
  exists t, ts !! i = Some t /\ live strict t = true /\ (live false t' = true -> live false t = true).
Lemma fewer_refl strict ts : fewer strict ts ts.
Proof. intros i t E L. by exists t. Qed.
Lemma fewer_alter strict f i ts : (forall t, live strict (f t) = true -> live strict t = true) ->
  (forall t, live false (f t) = true -> live false t = true) -> fewer strict ts (alter f i ts).
Proof.
  intros H1 H2 j t' E L. destruct (decide (i = j)) as [->|Hn].
  - rewrite list_lookup_alter_eq in E. destruct (ts !! j) as [t|]; simpl in E; simplify_eq.
    exists t. split; [done|]. split; [by apply H1|apply H2].
  - rewrite list_lookup_alter_ne in E by done. by exists t'.
Qed.

Lemma take_request_streams env q w strict : streams_ok strict w -> w_main w = Reading ->
  (strict = true -> starts_when_closed w q) -> streams_ok strict (take_request env q w).
Proof.
  intros I M G. destruct (take_request_logs env q w) as [Eo _].
  pose proof (take_request_started env q w M) as T. set (w' := take_request env q w) in *. clearbody w'.
  destruct (streams_scan _ _ I) as (on & Es & L & _). pose proof (streams_active _ _ I) as Ac.
  unfold owner in L. rewrite M in L.
  assert (fewer strict (w_tasks w) (w_tasks w')) as F.
  { destruct T as [? ? ? ? ? (_ & _ & ->)|? ? ? ? ? ? ? ->|? ? ? ? ->|? ? (_ & _ & ->)|? ? ? ? ->];
      try apply fewer_refl.
    - unfold signalled. destruct (w_desktop w); [by apply fewer_alter|apply fewer_refl].
    - unfold aborted. destruct (w_desktop w); [by apply fewer_alter|apply fewer_refl]. }
  destruct T as [r M' Ha Hq Hr (D & A & T)|h d M' [f ->] A A' D T|M' -> D A T|M' Eq (D & A & T)|M' Eq D A T].
  - assert (is_pushed r = false /\ r <> WResp.DesktopStreamStopped) as [Hp Hs].
    { split; [by destruct r|]. intros ->. by destruct Hq. }
    split; rewrite ?Eo, ?M', ?D, ?A, ?T; try done; try (by intros (? & ? & ?)).
    + exists on. unfold owner. rewrite M', D. split; [done|]. split; [done|]. by intros _ (? & ? & ?).
    + intros [(? & ? & ?)|?]; congruence.
    + intros r' [= <-]. by split.
  - assert (forall i t, w_tasks w !! i = Some t -> live strict t = false) as Q.
    { intros i t E. destruct (live strict t) eqn:Lt; [exfalso|done]. destruct strict.
      - destruct (L i t E Lt) as [_ ->]. specialize (G eq_refl). simpl in G. congruence.
      - pose proof (Ac i t E Lt). congruence. }
    split; rewrite ?Eo, ?M', ?D, ?A', ?T; try done.
    + exists on. unfold owner. rewrite M', D. split; [done|]. split; [done|].
      intros -> _. specialize (G eq_refl). simpl in G. congruence.
  - split; rewrite ?Eo, ?M', ?D, ?A; try done; try (by intros (? & ? & ?)).
    + exists on. unfold owner. rewrite M'. split; [done|]. split; [|by intros _ (? & ? & ?)].
      intros i t' E Lt. destruct (F i t' E Lt) as (t & Et & Lt' & _). by apply (L i t).
    + intros i t' E Lt. destruct (F i t' E (live_strict _ Lt strict)) as (t & Et & _ & H'). apply (Ac i t Et); auto.
    + intros [(? & ? & ?)|?]; congruence.
  - split; rewrite ?Eo, ?M', ?D, ?A, ?T; try done; try (by intros (? & ? & ?)).
    + exists on. unfold owner. rewrite M', D. split; [done|]. split; [done|]. by intros _ (? & ? & ?).
    + intros [(? & ? & ?)|?]; congruence.
  - split; rewrite ?Eo, ?M', ?D, ?A; try done; try (by intros (? & ? & ?)).
    + exists on. unfold owner. rewrite M', D. split; [done|]. split; [|by intros _ (? & ? & ?)].
      intros i t' E Lt. exfalso. destruct (F i t' E Lt) as (t & Et & Lt' & _).
      destruct (L i t Et Lt') as [Ed _]. rewrite T in E. unfold aborted in E. rewrite Ed in E.
      rewrite list_lookup_alter_eq, Et in E. simpl in E. by simplify_eq.
    + intros i t' E Lt. destruct (F i t' E (live_strict _ Lt strict)) as (t & Et & _ & H'). apply (Ac i t Et); auto.
    + intros [(? & ? & ?)|?]; congruence.
Qed.

(** The main task comes to rest with the stream as it was. *)
Lemma streams_rest strict w m more w' : streams_ok strict w -> same_stream w w' -> w_out w' = w_out w ++ more ->
  w_main w' = m -> match m with Reading | Served _ => True | _ => False end ->
  owner w = w_desktop w ->
  (forall on, scan strict (w_out w) = Some on -> exists on', scan strict (w_out w ++ more) = Some on' /\
     (on' = on \/ forall i t, w_tasks w !! i = Some t -> live strict t = false)) ->
  streams_ok strict w'.
Proof.
  intros I (D & A & T) Eo M Hm Ow Hs. destruct (streams_scan _ _ I) as (on & Es & L & _).
  destruct (Hs on Es) as (on' & Es' & Hon). rewrite Ow in L.
  assert (~ (exists h d, w_main w' = Starting h d)) as Z1 by (rewrite M; intros (? & ? & ->); done).
  assert (w_main w' <> Replying WResp.DesktopStreamStopped) as Z2 by (rewrite M; by intros ->).
  split; rewrite ?Eo, ?A, ?T, ?D.
  - exists on'. split; [done|]. split.
    + intros i t E Lt. destruct (L i t E Lt) as [Ed ->]. unfold owner. rewrite M, D.
      destruct m; try done; (split; [done|]); destruct Hon as [->|Hon]; try done;
        by rewrite (Hon i t E) in Lt.
    + intros _ Hst. by destruct Z1.
  - apply I.
  - by intros [Hst|Hst].
  - by intros Hst.
  - intros task Et. rewrite M in Et. by rewrite Et in Hm.
  - intros r Et. rewrite M in Et. by rewrite Et in Hm.
Qed.

Lemma main_step_streams connected strict w w' : main_step connected w = Some w' ->
  streams_ok strict w -> streams_ok strict w'.
Proof.
  intros E I. unfold main_step in E.
  assert (forall r, owner w = w_desktop w -> streams_ok strict (serve_end r w)) as Z.
  { intros r Ow. apply (streams_rest strict w (Served r) []); try done; [by rewrite app_nil_r|].
    intros on Es. exists on. rewrite app_nil_r. by split; [|left]. }
  destruct (w_main w) as [|r|h dsp|task|] eqn:M; try done.
  - destruct connected; simplify_eq. apply Z. unfold owner. by rewrite M.
  - destruct connected; simplify_eq; [|apply Z; unfold owner; by rewrite M].
    apply (streams_rest strict w Reading [r]); try done; [unfold owner; by rewrite M|].
    destruct (streams_replying _ _ I r M) as [Hp Hs]. intros on Es. rewrite scan_snoc, Es. cbn.
    destruct r; try done; (eexists; split; [reflexivity|]); [by left..| |by left|by left|by left|by left|by left|by left|by left|by left].
    right. apply (streams_quiet _ _ I). by right.
  - destruct connected; simplify_eq; cbn [negb] in E; simplify_eq; [|apply Z; unfold owner; by rewrite M].
    assert (exists h d, w_main w = Starting h d) as Hst by by eexists _, _.
    pose proof (streams_quiet _ _ I (or_introl Hst)) as Q. pose proof (streams_starting _ _ I Hst) as Ac.
    destruct (streams_scan _ _ I) as (on & Es & _ & On).
    assert (scan strict (w_out w ++ [WResp.DesktopStreamStarted]) = Some true) as Es'.
    { rewrite scan_snoc, Es. cbn. destruct strict; [|done]. by rewrite (On eq_refl Hst). }
    match goal with |- streams_ok _ (with_stream _ _ _ _ ?x) => set (x0 := x) end.
    assert (w_out x0 = w_out w ++ [WResp.DesktopStreamStarted] /\ w_active x0 = w_active w /\
      w_tasks x0 = w_tasks w /\ w_main x0 = Reading) as (X1 & X2 & X3 & X4)
      by (unfold x0; by case_bool_decide).
    clearbody x0. split; cbn [w_out w_tasks w_active w_desktop w_main with_stream].
    + exists true. rewrite X1. split; [done|]. split; [|rewrite X4; by intros _ (? & ? & ?)].
      intros i t Ei Lt. split; [|done].
      unfold owner. cbn [w_main w_desktop with_stream]. rewrite X4, X3 in *.
      apply lookup_app_Some in Ei as [Ei|[Hl Ei]]; [by rewrite (Q i t Ei) in Lt|].
      apply list_lookup_singleton_Some in Ei as [Hi _]. f_equal. lia.
    + by rewrite X2.
    + rewrite X4. intros [(? & ? & ?)|?]; done.
    + rewrite X4. by intros (? & ? & ?).
    + rewrite X4. done.
    + rewrite X4. done.
  - destruct (match task with Some _ => _ | None => _ end) eqn:Ef; simplify_eq.
    pose proof (streams_stopping _ _ I task M) as D.
    destruct (streams_scan _ _ I) as (on & Es & L & _). unfold owner in L. rewrite M in L.
    assert (forall i t, w_tasks w !! i = Some t -> live strict t = false) as Q.
    { intros i t Ei. destruct (live strict t) eqn:Lt; [|done]. destruct (L i t Ei Lt) as [-> _].
      rewrite Ei in Ef. unfold live in Lt. by rewrite Ef in Lt. }
    split; cbn [w_out w_tasks w_active w_desktop w_main with_stream with_main]; try done.
    + exists on. split; [done|]. split; [|by intros _ (? & ? & ?)].
      intros i t Ei Lt. by rewrite (Q i t Ei) in Lt.
    + intros i t Ei Lt. pose proof (live_strict t Lt strict) as Ls. by rewrite (Q i t Ei) in Ls.
    + by intros (? & ? & ?).
    + by intros r [= <-].
Qed.

(** A task moves on while the main task stays where it is. *)
Lemma streams_task strict w i t t' active more w' : streams_ok strict w ->
  w_tasks w !! i = Some t -> live strict t = true \/ (live strict t' = false /\ live false t' = false) ->
  (live false t' = true -> live false t = true) ->
  w' = set_task i t' (with_stream (w_desktop w) (w_video w) active (w_tasks w) w') ->
  w_main w' = w_main w -> w_out w' = w_out w ++ more ->
  (active = w_active w \/ live false t = true /\ live false t' = false) ->
  (forall on, scan strict (w_out w) = Some on -> (live strict t = true -> on = true) ->
    exists on', scan strict (w_out w ++ more) = Some on' /\
      (on' = on \/ strict = true /\ live strict t = true /\ live strict t' = false)) ->
  streams_ok strict w'.
Proof.
  intros I Et Lt Lf Ew M Eo Ha Hs. destruct (streams_scan _ _ I) as (on & Es & L & On).
  destruct (Hs on Es ltac:(intros H'; by apply (L i t))) as (on' & Es' & Hon).
  assert (w_tasks w' = <[i := t']> (w_tasks w) /\ w_desktop w' = w_desktop w /\ w_active w' = active)
    as (T & D & A) by (rewrite Ew; done).
  assert (owner w' = owner w) as Ow by (unfold owner; by rewrite M, D).
  assert (forall j u, w_tasks w' !! j = Some u -> live strict u = true -> owner w = Some j /\ on = true /\ (j = i -> u = t')) as Lj.
  { intros j u Ej Lu. rewrite T in Ej. apply list_lookup_insert_Some in Ej as [(<- & <- & _)|[Hn Ej]].
    - destruct Lt as [Lt|[Hx _]]; [|congruence]. destruct (L i t Et Lt). done.
    - destruct (L j u Ej Lu). split_and!; [done|done|congruence]. }
  split; rewrite ?Eo, ?M, ?Ow, ?A.
  - exists on'. split; [done|]. split.
    + intros j u Ej Lu. destruct (Lj j u Ej Lu) as (O & -> & Hu). split; [done|].
      destruct Hon as [->|(-> & Li & Li')]; [done|]. destruct (L i t Et Li) as [O' _].
      assert (j = i) as -> by congruence. rewrite (Hu eq_refl) in Lu. congruence.
    + intros Hst Hx. specialize (On Hst Hx). destruct Hon as [->|(_ & Li & _)]; [done|].
      pose proof (streams_quiet _ _ I (or_introl Hx) i t Et). congruence.
  - intros j u Ej Lu. pose proof (Lj j u Ej (live_strict u Lu strict)) as (O & _ & Hu). rewrite T in Ej.
    apply list_lookup_insert_Some in Ej as [(<- & <- & _)|[Hn Ej]].
    + destruct Ha as [->|[_ ?]]; [|congruence]. by apply (streams_active _ _ I _ _ Et), Lf.
    + destruct Ha as [->|[Li _]]; [by eapply streams_active|].
      destruct (L i t Et (live_strict t Li strict)) as [O' _]. congruence.
  - intros Hq j u Ej. rewrite T in Ej. pose proof (streams_quiet _ _ I Hq) as Q.
    apply list_lookup_insert_Some in Ej as [(<- & <- & _)|[Hn Ej]]; [|by eapply Q].
    destruct Lt as [Lt|[Hx _]]; [|done]. rewrite (Q i t Et) in Lt. done.
  - intros Hst. destruct Ha as [->|[Li _]]; [by eapply streams_starting|].
    pose proof (live_strict t Li strict) as Ls. by rewrite (streams_quiet _ _ I (or_introl Hst) i t Et) in Ls.
  - rewrite D. apply I.
  - apply I.
Qed.
Local Ltac task_moves w i t active more :=
  match goal with |- streams_ok ?strict (set_task _ ?t' _) =>
    eapply (streams_task strict w i t t' active more) end.
Lemma stream_step_streams connected strict i ev w w' : stream_step connected i ev w = Some w' ->
  streams_ok strict w -> streams_ok strict w'.
Proof.
  intros E I. unfold stream_step in E. destruct (w_tasks w !! i) as [t|] eqn:Et; [|done].
  assert (forall on : bool, scan strict (w_out w) = Some on ->
    exists on', scan strict (w_out w ++ []) = Some on' /\ (on' = on \/ strict = true /\ False)) as Z0.
  { intros on Es. exists on. rewrite app_nil_r. by split; [|left]. }
  destruct (pc t) eqn:P, ev; try done; try (destruct (stop_sent t) eqn:Hst; [|done]); simplify_eq.
  all: try (task_moves w i t (w_active w) (@nil WorkerResponse);
    [done|done|by left; unfold live; rewrite P|by unfold live; rewrite P|reflexivity|done|by rewrite app_nil_r|by left|];
    intros on Es _; destruct (Z0 on Es) as (on' & ? & [->|[_ []]]); exists on; by split; [|left]).
  - destruct connected; simplify_eq.
    + task_moves w i t (w_active w) [frame_packet frame];
        [done|done|by left; unfold live; rewrite P|by unfold live; rewrite P|reflexivity|done|done|by left|].
      intros on Es Hon. specialize (Hon ltac:(by unfold live; rewrite P)). subst on. exists true.
      rewrite scan_snoc, Es. destruct frame; (split; [done|by left]).
    + task_moves w i t (w_active w) (@nil WorkerResponse);
        [done|done|by left; unfold live; rewrite P|by unfold live; rewrite P|reflexivity|done|by rewrite app_nil_r|by left|].
      intros on Es _. destruct (Z0 on Es) as (on' & ? & [->|[_ []]]). exists on. by split; [|left].
  - task_moves w i t false (@nil WorkerResponse);
      [done|done|by left; unfold live; rewrite P|done|reflexivity|done|by rewrite app_nil_r| |].
    + right. by unfold live; rewrite P.
    + intros on Es _. destruct (Z0 on Es) as (on' & ? & [->|[_ []]]). exists on. by split; [|left].
  - destruct connected.
    + task_moves w i t (w_active w) [WResp.DesktopStreamEnded code];
        [done|done| |done|reflexivity|done|done|by left|].
      * unfold live at 1. rewrite P. destruct strict; [by left|by right].
      * intros on Es Hon. rewrite scan_snoc, Es. unfold live in Hon. rewrite P in Hon.
        destruct strict; cbn; [|exists on; by split; [|left]].
        rewrite (Hon eq_refl). exists false. split; [done|]. right. unfold live. by rewrite P.
    + task_moves w i t (w_active w) (@nil WorkerResponse);
        [done|done| |done|reflexivity|done|by rewrite app_nil_r|by left|].
      * unfold live at 1. rewrite P. destruct strict; [by left|by right].
      * intros on Es _. destruct (Z0 on Es) as (on' & ? & [->|[_ []]]). exists on. by split; [|left].
Qed.
End Streams.

Definition is_frame (r : WorkerResponse) : bool :=
  match r with WResp.DesktopFrame _ | WResp.DesktopVideo _ => true | _ => false end.
Lemma scan_none strict out : foldl (fun s r => s ≫= fun on => scan_step strict on r) None out = None.
Proof. by induction out. Qed.
Lemma scan_closed strict b on :
  foldl (fun s r => s ≫= fun on => scan_step strict on r) (Some false) b = Some on ->
  WResp.DesktopStreamStarted ∉ b -> Forall (fun r => is_frame r = false) b.
Proof.
  induction b as [|r b IH]; intros E N; [done|]. apply not_elem_of_cons in N as [Hr N]. cbn in E.
  destruct (scan_step strict false r) as [on'|] eqn:Es; [|by rewrite scan_none in E].
  assert (on' = false) as -> by (destruct r, strict; simpl in Es; congruence).
  constructor; [by destruct r|by apply IH].
Qed.

(** *** Starts and ends, counted *)

Definition is_end (r : WorkerResponse) : bool := match r with WResp.DesktopStreamEnded _ => true | _ => false end.
Definition is_start (r : WorkerResponse) : bool := match r with WResp.DesktopStreamStarted => true | _ => false end.
Definition count (p : WorkerResponse -> bool) (out : list WorkerResponse) : nat := length (List.filter p out).
Definition running (ts : list StreamTask) : nat := length (List.filter (live true) ts).

Lemma count_snoc p out r : count p (out ++ [r]) = count p out + (if p r then 1 else 0).
Proof. unfold count. rewrite List.filter_app, length_app. cbn. by destruct (p r). Qed.
Lemma running_set i t t' ts : ts !! i = Some t ->
  running (<[i := t']> ts) + (if live true t then 1 else 0) = running ts + (if live true t' then 1 else 0).
Proof.
  unfold running. revert i. induction ts as [|u ts IH]; intros [|i] E; [done..| |]; cbn in E.
  - injection E as ->. cbn. destruct (live true t), (live true t'); cbn; lia.
  - specialize (IH i E). change (<[S i := t']> (u :: ts)) with (u :: <[i := t']> ts). cbn [List.filter].
    destruct (live true u); cbn [length]; lia.
Qed.
Lemma running_alter f i ts : (forall t, live true (f t) = true -> live true t = true) ->
  length (alter f i ts) = length ts /\ running (alter f i ts) <= running ts.
Proof.
  intros Hf. split; [apply length_alter|]. unfold running. revert i. induction ts as [|u ts IH]; intros i; [done|]. destruct i as [|i].
  - change (alter f 0 (u :: ts)) with (f u :: ts). cbn [List.filter]. specialize (Hf u).
    destruct (live true (f u)), (live true u); cbn [length]; lia.
  - change (alter f (S i) (u :: ts)) with (u :: alter f i ts). cbn [List.filter]. specialize (IH i).
    destruct (live true u); cbn [length]; lia.
Qed.
(** Each answered start is one task, and a task writes its end once. *)
Definition counted (w : Worker) : Prop :=
  count is_start (w_out w) = length (w_tasks w) /\ count is_end (w_out w) + running (w_tasks w) <= length (w_tasks w).
Lemma counted_fewer w w' : counted w -> w_out w' = w_out w -> length (w_tasks w') = length (w_tasks w) ->
  running (w_tasks w') <= running (w_tasks w) -> counted w'.
Proof. intros [C1 C2] Eo Hl Hr. unfold counted. rewrite Eo. split; lia. Qed.
Lemma counted_out w w' r : counted w -> w_out w' = w_out w ++ [r] -> w_tasks w' = w_tasks w ->
  is_pushed r = false \/ is_end r = false -> is_start r = false -> counted w'.
Proof.
  intros [C1 C2] Eo Et Hr Hs. unfold counted. rewrite Eo, Et, !count_snoc, Hs.
  assert (is_end r = false) as -> by (destruct Hr as [Hr|]; [by destruct r|done]). split; lia.
Qed.
Lemma take_request_counted `{Base64} env q w : counted w -> w_main w = Reading -> counted (take_request env q w).
Proof.
  intros C M. refine (counted_fewer w _ C (proj1 (take_request_logs env q w)) _ _);
    (destruct (take_request_started env q w M) as [? ? ? ? ? (_ & _ & ->)|? ? ? ? ? ? ? ->|? ? ? ? ->|? ? (_ & _ & ->)|? ? ? ? ->]; try done;
     unfold signalled, aborted; destruct (w_desktop w); try done; by apply running_alter).
Qed.
Lemma main_step_counted `{Base64} connected w w' : streams_ok false w -> main_step connected w = Some w' -> counted w -> counted w'.
Proof.
  intros I E C. unfold main_step in E.
  assert (forall r, counted (serve_end r w)) as Z by (intros r; by apply (counted_fewer w)).
  destruct (w_main w) as [|r|h dsp|task|] eqn:M; try done.
  - destruct connected; simplify_eq. apply Z.
  - destruct (streams_replying _ _ I r M) as [Hp Hs]. destruct connected; simplify_eq; [|apply Z].
    apply (counted_out w _ r); try done; [by left|by destruct r].
  - destruct connected; simplify_eq; cbn [negb] in E; simplify_eq; [|apply Z]. destruct C as [C1 C2]. unfold counted, running.
    case_bool_decide; cbn [w_out w_tasks with_stream with_main with_out with_input];
      rewrite !count_snoc, List.filter_app, !length_app; cbn [is_start is_end List.filter live pc length];
      unfold running in C2; lia.
  - destruct (match task with Some _ => _ | None => _ end); simplify_eq. by apply (counted_fewer w).
Qed.
Lemma stream_step_counted `{Base64} connected i ev w w' : stream_step connected i ev w = Some w' -> counted w -> counted w'.
Proof.
  intros E [C1 C2]. unfold stream_step in E. destruct (w_tasks w !! i) as [t|] eqn:Et; [|done].
  assert (forall t', length (<[i := t']> (w_tasks w)) = length (w_tasks w)) as Ln by (intros; apply length_insert).
  destruct (pc t) eqn:P, ev; try done; try (destruct (stop_sent t); [|done]); try destruct connected; simplify_eq;
    match goal with |- counted (set_task _ ?t' _) => pose proof (running_set i t t' (w_tasks w) Et) as Rs end;
    unfold live in Rs; rewrite P in Rs; cbn [pc] in Rs;
    unfold counted; cbn [w_out w_tasks set_task with_stream with_out]; rewrite ?count_snoc, Ln; try destruct frame; cbn; lia.
Qed.

(** C12. The broker never sees a frame of a stream it stopped: after a stop was
    answered no packet is a frame until the next start was answered, and none
    comes before the first one, whatever the tasks do; and whatever was asked
    for, the worker never tells of more ends than it told of starts, while a
    stream still runs or has its end to tell, of fewer. The order of the two is
    only as careful as the broker: for one that asks for a stream only when it
    has seen the last one stopped or ended, starts and ends alternate, so each
    end is that of the last start. The worker itself does not enforce this,
    and a broker without that care can get a late end after a new start. *)
Theorem stream_packets_bracketed `{Base64} may_take session d w :
  rtc (worker_step may_take) (worker_start session d) w ->
  (forall a b, w_out w = a ++ WResp.DesktopStreamStopped :: b -> WResp.DesktopStreamStarted ∉ b ->
    Forall (fun r => is_frame r = false) b) /\
  (WResp.DesktopStreamStarted ∉ w_out w -> Forall (fun r => is_frame r = false) (w_out w)) /\
  count is_end (w_out w) + running (w_tasks w) <= count is_start (w_out w) /\
  ((forall x q, may_take x q -> starts_when_closed x q) -> is_Some (scan true (w_out w))).
Proof.
  intros R.
  assert (forall strict, (strict = true -> forall x q, may_take x q -> starts_when_closed x q) ->
    streams_ok strict w /\ (strict = false -> counted w)) as I.
  { intros strict G. refine (invariant_rtc (worker_step may_take) (fun w => streams_ok strict w /\ (strict = false -> counted w)) _ _ _ R _).
    - intros x y S [I C]. destruct S as [? ? ? M| | |text x Hc]; (split; [|intros ->; specialize (C eq_refl)]).
      + apply take_request_streams; auto.
      + by apply take_request_counted.
      + by eapply main_step_streams.
      + by eapply main_step_counted.
      + by eapply stream_step_streams.
      + by eapply stream_step_counted.
      + destruct (streams_scan _ _ I) as (on & Es & L & On). split; try apply I.
        exists on. cbn [w_out with_out]. rewrite scan_snoc, Es. by split.
      + by apply (counted_out x _ (WResp.ClipboardChanged text)); [| | |right|].
    - split; [apply streams_start|]. intros _. split; cbn; lia. }
  destruct (I false ltac:(done)) as [I0 C]. destruct (C eq_refl) as [C1 C2].
  destruct (streams_scan _ _ I0) as (on & Es & _). split_and!.
  - intros a b Eo Hb. rewrite Eo in Es. unfold scan in Es. rewrite foldl_app in Es. cbn [foldl] in Es.
    destruct (foldl _ _ a) as [on'|]; [|cbn in Es; by rewrite scan_none in Es].
    by eapply (scan_closed false b).
  - by eapply scan_closed.
  - by rewrite C1.
  - intros G. destruct (I true (fun _ => G)) as [I1 _]. destruct (streams_scan _ _ I1) as (on' & Es' & _). by eexists.
Qed.

(** ** Concrete runs *)

Inductive Move :=
| MTake (request : WorkerRequest)
| MMain
| MStream (i : nat) (event : StreamEvent).
Section Runs.
Context `{Base64} (env : WorkerEnv).
Definition move (m : Move) (w : Worker) : option Worker :=
  match m with
  | MTake q => match w_main w with Reading => Some (take_request env q w) | _ => None end
  | MMain => main_step true w
  | MStream i ev => stream_step true i ev w
  end.
Fixpoint moves (ms : list Move) (w : Worker) : option Worker :=
  match ms with
  | [] => Some w
  | m :: ms => let_some w := move m w else None in moves ms w
  end.
Fixpoint allowed (careful : Worker -> WorkerRequest -> bool) (ms : list Move) (w : Worker) : bool :=
  match ms with
  | [] => true
  | m :: ms => match m with MTake q => careful w q | _ => true end && from_option (allowed careful ms) true (move m w)
  end.
Lemma allowed_reach may_take careful ms w w' : (forall x q, careful x q = true -> may_take x q) ->
  allowed careful ms w = true -> moves ms w = Some w' -> rtc (worker_step may_take) w w'.
Proof.
  intros Sound.
  revert w. induction ms as [|m ms IH]; intros w A E; cbn in E, A; [by simplify_eq|]. apply andb_true_iff in A as [A A'].
  destruct (move m w) as [w1|] eqn:Em; [|done]. eapply rtc_l; [|by apply IH].
  destruct m; cbn in Em.
  - destruct (w_main w) eqn:M; simplify_eq. apply step_take; [done|by apply Sound].
  - by eapply step_main.
  - by eapply step_stream.
Qed.
Lemma moves_reach ms w w' : moves ms w = Some w' -> rtc (worker_step (fun _ _ => True)) w w'.
Proof.
  apply (allowed_reach _ (fun _ _ => true)); [done|]. revert w. induction ms as [|m ms IH]; intros w; [done|]. cbn.
  apply andb_true_iff. split; [by destruct m|]. by destruct (move m w); cbn.
Qed.
End Runs.

Definition ex_env : WorkerEnv :=
  {| x11_capture_png := fun _ => None; mutter_capture_png := fun _ _ => Some (Ok (as_bytes "png"));
     monitors := None; bridge_start := Ok tt; bridge_set := Ok tt; home := Some "/home/u"%string;
     listing := fun l => l |}.
Definition ex_session : GraphicalSession := {| gs_state := DesktopReady; gs_backend := Wayland |}.
Definition ex_frame : VideoFrame := {| vf_w := 1; vf_h := 1; vf_keyframe := true; vf_data_b64 := "AA" |}.
Definition ex_start : Worker := worker_start ex_session ex_disk.

(** A stream with one frame, stopped; a late event of its task changes nothing. *)
Definition ex_moves : list Move :=
  [MTake WReq.Ping; MMain; MTake (WReq.StartDesktopStream 30 true None); MMain;
   MStream 0 (GotFrame (Video ex_frame)); MTake WReq.StopDesktopStream; MStream 0 Proceed;
   MStream 0 GotStop; MMain; MMain; MTake (WReq.Capture 0)].
Definition ex_end : Worker := default ex_start (moves ex_env ex_moves ex_start).
Lemma ex_reach : rtc (worker_step (fun _ _ => True)) ex_start ex_end.
Proof. apply (moves_reach ex_env ex_moves). vm_compute. reflexivity. Qed.

Lemma worker_answers_in_order_witness :
  (exists rest qs, w_out ex_end = WResp.Ready DesktopReady true :: rest /\
     length (asked ex_end) <= length qs + 1 /\ Forall2 answers qs (replies rest)) /\
  replies (tail (w_out ex_end)) = [WResp.Pong; WResp.DesktopStreamStarted; WResp.DesktopStreamStopped].
Proof.
  split; [|vm_compute; reflexivity].
  destruct (worker_answers_in_order (fun _ _ => True) ex_session ex_disk ex_end ex_reach)
    as (rest & qs & E & _ & L & F & _). by exists rest, qs.
Defined.
(** A second stream is asked for once the end of the first was seen. *)
Definition ex_care : list Move :=
  [MTake (WReq.StartDesktopStream 30 true None); MMain; MStream 0 (GotFrame (Video ex_frame)); MStream 0 Proceed;
   MStream 0 FramesClosed; MStream 0 (CaptureOutcome None); MStream 0 Proceed; MStream 0 Proceed;
   MTake (WReq.StartDesktopStream 30 true None); MMain; MStream 1 (GotFrame (Video ex_frame)); MStream 1 Proceed].
Definition ex_careful : Worker := default ex_start (moves ex_env ex_care ex_start).
Definition start_allowed (w : Worker) (q : WorkerRequest) : bool :=
  match q with
  | WReq.StartDesktopStream _ _ _ => match scan true (w_out w) with Some false => true | _ => false end
  | _ => true
  end.
Lemma ex_careful_reach : rtc (worker_step starts_when_closed) ex_start ex_careful.
Proof.
  apply (allowed_reach ex_env starts_when_closed start_allowed ex_care); [|vm_compute; reflexivity..].
  intros x q. destruct q; try done. cbn. by destruct (scan true (w_out x)) as [[]|].
Qed.
Lemma stream_packets_bracketed_witness :
  w_out ex_careful = [WResp.Ready DesktopReady true; WResp.DesktopStreamStarted; WResp.DesktopVideo ex_frame;
                      WResp.DesktopStreamEnded CompositorFailure; WResp.DesktopStreamStarted; WResp.DesktopVideo ex_frame] /\
  count is_end (w_out ex_careful) + running (w_tasks ex_careful) <= count is_start (w_out ex_careful) /\
  is_Some (scan true (w_out ex_careful)) /\
  existsb is_frame (w_out ex_end) = true /\
  (forall a b, w_out ex_end = a ++ WResp.DesktopStreamStopped :: b -> WResp.DesktopStreamStarted ∉ b ->
    Forall (fun r => is_frame r = false) b).
Proof.
  split; [vm_compute; reflexivity|].
  destruct (stream_packets_bracketed starts_when_closed ex_session ex_disk ex_careful ex_careful_reach) as (_ & _ & C & S).
  split; [exact C|]. split; [by apply S|]. split; [vm_compute; reflexivity|].
  apply (stream_packets_bracketed (fun _ _ => True) ex_session ex_disk ex_end ex_reach).
Defined.

(** Without that care: a stream that ended on its own clears the flag before
    its end is written, so a new stream can be started in between and the late
    end reaches it. *)
Lemma end_reaches_next_stream :
  exists w, rtc (worker_step (fun _ _ => True)) ex_start w /\
    w_out w = [WResp.Ready DesktopReady true; WResp.DesktopStreamStarted; WResp.DesktopStreamStarted;
               WResp.DesktopVideo ex_frame; WResp.DesktopStreamEnded CompositorFailure] /\
    scan true (w_out w) = None.
Proof.
  eexists. split.
  - apply (moves_reach ex_env
      [MTake (WReq.StartDesktopStream 30 true None); MMain; MStream 0 FramesClosed;
       MStream 0 (CaptureOutcome None); MStream 0 Proceed;
       MTake (WReq.StartDesktopStream 30 true None); MMain; MStream 1 (GotFrame (Video ex_frame));
       MStream 1 Proceed; MStream 0 Proceed]).
    vm_compute. reflexivity.
  - split; vm_compute; reflexivity.
Qed.

(** The framing, both ways. *)
Lemma packet_round_trip {A : Type} `{SerdeLaws A} (v : A) b rest maximum :
  write_packet v = Ok b -> (maximum <= u32_max)%N ->
  read_packet_with_limit maximum (b ++ rest) =
    if (maximum <? len b - 4)%N then Err (Config "console IPC request exceeds the maximum size")
    else Ok (v, rest).
Proof.
  unfold write_packet. intros E Hm. destruct (to_json v) as [t|] eqn:J; [|done]. cbn [map_err] in E.
  destruct (N.ltb_spec u32_max (slen t)); [done|]. assert (b = be_bytes 4 (slen t) ++ as_bytes t) as -> by congruence.
  clear E. unfold read_packet_with_limit.
  assert (forall x : bytes, len (be_bytes 4 (slen t) ++ x) = (4 + len x)%N) as El.
  { intros x. unfold len. rewrite length_app, length_be_bytes. lia. }
  rewrite <-app_assoc, !El. destruct (N.ltb_spec (4 + len (as_bytes t ++ rest)) 4); [lia|].
  rewrite take_app_exact, drop_app_exact by apply length_be_bytes.
  rewrite be_val_be_bytes, N.mod_small by (unfold u32_max in *; simpl; lia).
  replace (4 + len (as_bytes t) - 4)%N with (slen t) by (unfold slen; lia).
  destruct (N.ltb_spec maximum (slen t)); [done|].
  destruct (N.ltb_spec (len (as_bytes t ++ rest)) (slen t)) as [Hc|_].
  { unfold slen, len in Hc. rewrite length_app in Hc. lia. }
  rewrite take_app_exact, drop_app_exact by (unfold slen, len; lia).
  by rewrite from_utf8_as_bytes, (from_to_json _ _ J).
Qed.
