(* ===== verification/WorkerProcess.v ===== *)
(** * The console worker's process

    rivetlink-agent/src/console/worker.rs, [run]: waiting for the seat, dialling
    the broker's socket until it is there, serving a connection and dialling
    again. What one connection does is [Worker]'s. *)
From Stdlib Require Import NArith Lia Strings.String.
From S2P Require Import Prelude Text Interfaces Instances Protocol Trusted SharedFolder Host Worker.

(** Durations in nanoseconds. *)
Definition BROKER_SOCKET_WAIT : N := from_secs 12.
Definition BROKER_SOCKET_RETRY : N := 250 * 10 ^ 6.
Definition ACTIVE_SEAT_RETRY : N := from_secs 1.
Definition BROKER_RECONNECT_DELAY : N := from_secs 1.

Inductive DialErrorKind := NotFound | ConnectionRefused | OtherKind (name : string).
Record IoError := { io_kind : DialErrorKind; io_message : string }.
Definition should_retry_broker_connect (kind : DialErrorKind) : bool :=
  match kind with NotFound | ConnectionRefused => true | OtherKind _ => false end.

(** An attempt to connect, and the time when it had its answer. *)
Record Dial := { dl_result : Result unit IoError; dl_at : N }.
(** [connect_to_broker], begun at [start]: what came of it, the sleeps and the
    attempts left over; no outcome when it still tries after the last attempt. *)
Fixpoint dials (deadline : N) (tries : list Dial) : option (Result unit IoError) * list N * list Dial :=
  match tries with
  | [] => (None, [], [])
  | t :: tries =>
      match dl_result t with
      | Ok _ => (Some (Ok tt), [], tries)
      | Err e =>
          if should_retry_broker_connect (io_kind e) && (dl_at t <? deadline)%N
          then let '(r, sleeps, rest) := dials deadline tries in (r, BROKER_SOCKET_RETRY :: sleeps, rest)
          else (Some (Err e), [], tries)
      end
  end.
Definition connect_to_broker (start : N) (tries : list Dial) : option (Result unit IoError) * list N * list Dial :=
  dials (start + BROKER_SOCKET_WAIT) tries.

(** The looks at the seat up to the first that finds the worker's session there;
    the sleeps between them. *)
Fixpoint wait_until_worker_owns_active_seat (looks : list bool) : option (list N) :=
  match looks with
  | [] => None
  | true :: _ => Some []
  | false :: looks => sleeps ← wait_until_worker_owns_active_seat looks; Some (ACTIVE_SEAT_RETRY :: sleeps)
  end.

(** One turn of [run]'s loop: the looks at the seat, the time and the attempts to
    connect, and what serving the connection came to. *)
Record WorkerTurn := { tn_looks : list bool; tn_start : N; tn_dials : list Dial; tn_served : Result unit AgentError }.
Inductive RunOut := OnSeat | Dialled | Served (r : Result unit AgentError) | Sleeps (duration : N).
Definition broker_error (e : IoError) : AgentError := Io ("connect console broker: " ++ io_message e).
Fixpoint run_turns (turns : list WorkerTurn) : list RunOut * option (Result unit AgentError) :=
  match turns with
  | [] => ([], None)
  | t :: turns =>
      match wait_until_worker_owns_active_seat (tn_looks t) with
      | None => ([], None)
      | Some sleeps =>
          let seat := map Sleeps sleeps ++ [OnSeat] in
          let '(connected, waits, _) := connect_to_broker (tn_start t) (tn_dials t) in
          let dialled := seat ++ map Sleeps waits in
          match connected with
          | None => (dialled, None)
          | Some (Err e) => (dialled, Some (Err (broker_error e)))
          | Some (Ok _) =>
              let served := dialled ++ [Dialled; Served (tn_served t)] in
              match tn_served t with
              | Ok _ => (served, Some (Ok tt))
              | Err _ => let '(out, r) := run_turns turns in (served ++ Sleeps BROKER_RECONNECT_DELAY :: out, r)
              end
          end
      end
  end.
Definition run (env : ProcessEnv) (is_file : bytes -> bool) (turns : list WorkerTurn) : list RunOut * option (Result unit AgentError) :=
  let session := graphical_session env is_file in
  match require_graphical_session env session with
  | Err e => ([], Some (Err e))
  | Ok _ => run_turns turns
  end.

(** ** Dialling ends *)

(** The clock of a run of attempts: each has its answer no earlier than a retry
    after the one before it. *)
Fixpoint paced (from : N) (tries : list Dial) : Prop :=
  match tries with
  | [] => True
  | t :: tries => (from <= dl_at t)%N /\ paced (dl_at t + BROKER_SOCKET_RETRY) tries
  end.
Definition retried (deadline : N) (t : Dial) : Prop :=
  exists e, dl_result t = Err e /\ should_retry_broker_connect (io_kind e) = true /\ (dl_at t < deadline)%N.
Lemma dials_spec deadline tries : let '(r, sleeps, rest) := dials deadline tries in
  exists before, Forall (retried deadline) before /\ sleeps = map (fun _ => BROKER_SOCKET_RETRY) before /\
    match r with
    | None => tries = before /\ rest = []
    | Some r => exists t, tries = before ++ t :: rest /\ dl_result t = r /\ ~ retried deadline t
    end.
Proof.
  induction tries as [|t tries IH]; cbn [dials]; [by exists []|]. destruct (dl_result t) as [[]|e] eqn:E.
  - exists []. split_and!; try done. exists t. split_and!; try done. intros (e & E' & _). congruence.
  - destruct (should_retry_broker_connect (io_kind e)) eqn:K; [destruct (N.ltb_spec (dl_at t) deadline)|]; cbn [andb].
    + destruct (dials deadline tries) as [[r sleeps] rest]. destruct IH as (before & F & -> & M). exists (t :: before).
      split; [constructor; [by exists e|done]|]. split; [done|]. destruct r as [r|]; [|by destruct M as [-> ->]].
      destruct M as (t' & -> & M). by exists t'.
    + exists []. split_and!; try done. exists t. split_and!; try done. intros (e' & _ & _ & L). lia.
    + exists []. split_and!; try done. exists t. split_and!; try done. intros (e' & E' & K' & _). congruence.
Qed.
Lemma dials_end deadline from tries : paced from tries -> tries <> [] ->
  (deadline <= from + N.of_nat (length tries - 1) * BROKER_SOCKET_RETRY)%N -> (dials deadline tries).1.1 <> None.
Proof.
  revert from. induction tries as [|t tries IH]; intros from P Ne D; [done|]. cbn [dials paced length] in *. destruct P as [P1 P2].
  destruct (dl_result t) as [[]|e]; [done|]. destruct (should_retry_broker_connect (io_kind e)); [|done].
  destruct (N.ltb_spec (dl_at t) deadline) as [L|]; [|done]. cbn [andb].
  destruct tries as [|t' tries]; [cbn in D; lia|]. specialize (IH (dl_at t + BROKER_SOCKET_RETRY)%N P2 ltac:(done)).
  destruct (dials deadline (t' :: tries)) as [[r sleeps] rest]. apply IH. cbn [length] in *. unfold BROKER_SOCKET_RETRY in *. lia.
Qed.
(** Fifty attempts are enough: the socket is connected, or the error is one that
    is not retried, or the twelve seconds are over. *)
Lemma connect_to_broker_ends start tries : paced start tries -> 50 <= length tries ->
  exists r, (connect_to_broker start tries).1.1 = Some r /\ length (connect_to_broker start tries).1.2 < length tries /\
    forall e, r = Err e -> exists t, t ∈ tries /\ dl_result t = Err e /\
      (should_retry_broker_connect (io_kind e) = false \/ (start + BROKER_SOCKET_WAIT <= dl_at t)%N).
Proof.
  intros P L. unfold connect_to_broker. pose proof (dials_end (start + BROKER_SOCKET_WAIT) start tries P) as E.
  pose proof (dials_spec (start + BROKER_SOCKET_WAIT) tries) as S. destruct (dials _ tries) as [[r sleeps] rest]. cbn [fst snd] in *.
  destruct r as [r|].
  2:{ destruct E; [by destruct tries; cbn in L; [lia|]| |done].
      assert (BROKER_SOCKET_WAIT = 48 * BROKER_SOCKET_RETRY)%N as -> by reflexivity. unfold BROKER_SOCKET_RETRY. lia. }
  destruct S as (before & F & -> & t & Et & Er & N). exists r. split; [done|]. rewrite length_map, Et, length_app. cbn. split; [lia|].
  intros e ->. exists t. split; [apply elem_of_app; right; by left|]. split; [done|].
  destruct (should_retry_broker_connect (io_kind e)) eqn:K; [|by left]. right.
  destruct (N.le_gt_cases (start + BROKER_SOCKET_WAIT) (dl_at t)); [done|]. destruct N. by exists e.
Qed.

(** ** Only from the seat *)

(** Every connection is dialled right after a look that found the worker's
    session on the seat, with only waits for the socket in between; and the
    process ends only when a connection ended orderly, the socket could not be
    dialled, or there is no graphical session. *)
Lemma dialled_from_the_seat env is_file turns : let '(out, r) := run env is_file turns in
  (forall before after, out = before ++ Dialled :: after -> exists b sleeps, before = b ++ OnSeat :: map Sleeps sleeps) /\
  (forall r', r = Some r' -> r' = Ok tt \/ (exists e, r' = Err (broker_error e)) \/
     (out = [] /\ require_graphical_session env (graphical_session env is_file) = r')).
Proof.
  unfold run. destruct (require_graphical_session env _) as [[]|e].
  2:{ split; [by intros [] after E|]. intros r' [= <-]. right. by right. }
  enough (let '(out, r) := run_turns turns in
    (forall before after, out = before ++ Dialled :: after -> exists b sleeps, before = b ++ OnSeat :: map Sleeps sleeps) /\
    (forall r', r = Some r' -> r' = Ok tt \/ exists e, r' = Err (broker_error e))) as G.
  { destruct (run_turns turns) as [out r]. destruct G as [G1 G2]. split; [done|]. intros r' E. destruct (G2 r' E); auto. }
  induction turns as [|t turns IH]; cbn [run_turns]; [split; [by intros [] after E|done]|].
  destruct (wait_until_worker_owns_active_seat (tn_looks t)) as [looks|]; [|split; [by intros [] after E|done]].
  destruct (connect_to_broker _ _) as [[connected waits] rest]. set (dialled := (map Sleeps looks ++ [OnSeat]) ++ map Sleeps waits).
  assert (Dialled ∉ dialled) as N.
  { unfold dialled. rewrite !not_elem_of_app. split_and!; [by intros (x & ? & _)%list_elem_of_fmap|by intros ?%list_elem_of_singleton|by intros (x & ? & _)%list_elem_of_fmap]. }
  assert (forall before after, dialled = before ++ Dialled :: after -> False) as No.
  { intros before after E. apply N. rewrite E. apply elem_of_app. right. by left. }
  destruct connected as [[[]|e]|].
  2:{ split; [intros before after E; by destruct (No _ _ E)|]. intros r' [= <-]. right. by exists e. }
  2:{ split; [intros before after E; by destruct (No _ _ E)|done]. }
  assert (forall tail before after, (forall b a, tail = b ++ Dialled :: a -> exists c sleeps, b = c ++ OnSeat :: map Sleeps sleeps) ->
    (dialled ++ [Dialled; Served (tn_served t)]) ++ tail = before ++ Dialled :: after ->
    exists b sleeps, before = b ++ OnSeat :: map Sleeps sleeps) as One.
  { intros tail before after T E. rewrite <-app_assoc in E. cbn [app] in E.
    destruct (app_eq_app _ _ _ _ E) as [l [[E1 E2]|[E1 E2]]].
    - destruct l as [|x l]; [rewrite app_nil_r in E1; subst before|injection E2 as <- _; by destruct (No _ _ E1)].
      exists (map Sleeps looks), waits. unfold dialled. by rewrite <-app_assoc.
    - destruct l as [|x l]; [rewrite app_nil_r in E1; subst before; exists (map Sleeps looks), waits; unfold dialled; by rewrite <-app_assoc|].
      injection E2 as <- E2. destruct l as [|y l]; [discriminate E2|]. injection E2 as <- E2.
      destruct (T _ _ E2) as (c & sleeps & ->). exists (dialled ++ Dialled :: Served (tn_served t) :: c), sleeps. by rewrite E1, <-app_assoc. }
  destruct (tn_served t) as [[]|e].
  - split; [|intros r' [= <-]; by left]. intros before after E. apply (One [] before after); [by intros []|by rewrite app_nil_r].
  - destruct (run_turns turns) as [out r]. destruct IH as [I1 I2]. split; [|done]. intros before after E.
    apply (One (Sleeps BROKER_RECONNECT_DELAY :: out) before after); [|done].
    intros [|x b] a E'; [discriminate E'|]. injection E' as <- E'. destruct (I1 _ _ E') as (c & sleeps & ->). by exists (Sleeps BROKER_RECONNECT_DELAY :: c), sleeps.
Qed.
