(* ===== verification/Greeter.v ===== *)
(** * The worker of the LightDM greeter

    rivetlink-agent/src/console/lightdm.rs: the root-only launcher that finds
    the greeter of LightDM, starts the console worker as the greeter's account,
    remembers its process and stops it. Processes, accounts and files of the
    system are parameters, one picture of the system for each look at it. *)
From Stdlib Require Import NArith ZArith Lia Strings.String Strings.Byte.
From S2P Require Import Prelude Text Interfaces Instances Protocol Trusted Worker.

Definition LIGHTDM_USER : string := "lightdm".
Definition WORKER_SOCKET : string := "/run/rivetlink/console.sock".
Definition WORKER_PID : string := "/run/rivetlink/lightdm-worker.pid".

(** ** The system *)

Inductive ReadError := NotFound | OtherError (message : string).
Definition error_text (e : ReadError) : string :=
  match e with NotFound => "No such file or directory" | OtherError m => m end.
(** The files of a process, the output of a command that ran, and a file. *)
Record ProcFiles := {
  p_status : Result string ReadError;
  p_environ : Result bytes ReadError;
  p_cmdline : Result bytes ReadError;
}.
Record Output := { succeeded : bool; out : bytes }.
Record FileMeta := { is_file : bool; is_socket : bool; owner : N; mode : N }.
(** One picture of the system; [proc_names] are the entries of /proc that can be
    read, in their order. *)
Record Sys := {
  proc_names : Result (list string) string;
  proc : string -> ProcFiles;
  id_u : Result Output string;
  id_u_lightdm : Result Output string;
  metadata : string -> option FileMeta;
}.

(** ** Parsing *)

(** [str::parse::<i32>]. *)
Definition parse_i32 (s : string) : option Z :=
  match as_bytes s with
  | Byte.x2d :: ((_ :: _) as rest) =>
      n ← parse_digits 0 rest; if (n <=? 2 ^ 31)%N then Some (- Z.of_N n)%Z else None
  | _ => n ← parse_u32 s; if (n <=? 2 ^ 31 - 1)%N then Some (Z.of_N n) else None
  end.
Example integers :
  map parse_i32 ["7"; "-5"; "+5"; "-"; "2147483647"; "2147483648"; "-2147483648"; "x"; "--5"]%string =
  [Some 7; Some (-5); Some 5; None; Some 2147483647; None; Some (-2147483648); None; None]%Z.
Proof. vm_compute. reflexivity. Qed.
Fixpoint find_map {A B} (f : A -> option B) (l : list A) : option B :=
  match l with [] => None | a :: l => match f a with Some b => Some b | None => find_map f l end end.
Definition process_real_uid (status : string) : option N :=
  rest ← find_map (strip_prefix "Uid:") (lines status);
  uid ← head (split_whitespace rest); parse_u32 uid.
Definition process_parent_pid (status : string) : option N :=
  rest ← find_map (strip_prefix "PPid:") (lines status); parse_u32 (trim rest).
Definition utf8_pieces (b : bytes) : list string :=
  omap (fun piece => if utf8_valid (length piece) piece then Some (from_utf8 piece) else None) (split_on Byte.x00 b).
(** A variable of an environment; of several the last counts. *)
Definition env_get (environ : bytes) (key : string) : option string :=
  find_map (fun p => if String.eqb p.1 key then Some p.2 else None)
    (rev (omap (split_once Byte.x3d) (utf8_pieces environ))).

Definition all_digits (b : bytes) : bool := forallb is_ascii_digit b.
Definition is_local_x11_display (display : string) : bool :=
  match strip_prefix ":" display with
  | None => false
  | Some number =>
      let '(screen, suffix) := match split_once Byte.x2e number with Some p => p | None => (number, ""%string) end in
      negb (screen =? "")%string && all_digits (as_bytes screen) && ((suffix =? "")%string || all_digits (as_bytes suffix))
  end.
Example displays :
  map is_local_x11_display [":0"; ":1.0"; ":0."; "localhost:0"; "tcp/host:0"; ":abc"; ":"; ":0.a"]%string =
  [true; true; true; false; false; false; false; false].
Proof. vm_compute. reflexivity. Qed.
Example statuses :
  process_real_uid (from_utf8 (as_bytes "Name: foo" ++ [Byte.x0a] ++ as_bytes "Uid:" ++ [Byte.x09] ++ as_bytes "110 0 0 0")) = Some 110%N /\
  process_parent_pid (from_utf8 (as_bytes "PPid:" ++ [Byte.x09] ++ as_bytes "3409" ++ [Byte.x0a])) = Some 3409%N.
Proof. vm_compute. done. Qed.

(** ** Looking at processes *)

Definition require_root (s : Sys) : Result unit AgentError :=
  let? uid := map_err (fun e => Config ("check LightDM hook identity: " ++ e)) (id_u s) in
  if succeeded uid && (trim (from_utf8_lossy (out uid)) =? "0")%string then Ok tt
  else Err (Config "LightDM greeter integration must be started by LightDM's root hook").
Definition account_id (s : Sys) : Result N AgentError :=
  let? output := map_err (fun e => Config ("look up LightDM account: " ++ e)) (id_u_lightdm s) in
  if negb (succeeded output) then Err (Config "LightDM account is unavailable")
  else ok_or (parse_u32 (trim (from_utf8_lossy (out output)))) (Config "invalid LightDM account UID").
Definition is_absolute (path : string) : bool := str_starts_with "/" path.
(** Neither the group nor others may write: mode bits 0o022. *)
Definition valid_lightdm_authority (s : Sys) (path : string) (lightdm_uid : N) : bool :=
  is_absolute path &&
  match metadata s path with
  | Some m => is_file m && (owner m =? lightdm_uid)%N && (N.land (mode m) 18 =? 0)%N
  | None => false
  end.
(** The authority of one process, when it is the greeter of the display. *)
Definition greeter_authority (s : Sys) (display : string) (lightdm_uid : N) (name : string) : option string :=
  _ ← parse_i32 name;
  status ← ok (p_status (proc s name));
  if negb (bool_decide (process_real_uid status = Some lightdm_uid)) then None
  else
    environ ← ok (p_environ (proc s name));
    if negb (bool_decide (env_get environ "DISPLAY" = Some display)) ||
       negb (bool_decide (env_get environ "XDG_SESSION_CLASS" = Some "greeter"%string))
    then None
    else
      authority ← env_get environ "XAUTHORITY";
      if valid_lightdm_authority s authority lightdm_uid then Some authority else None.
Definition find_lightdm_greeter_authority (s : Sys) (display : string) : Result (option string) AgentError :=
  let? lightdm_uid := account_id s in
  let? names := map_err (fun e => Config ("inspect processes: " ++ e)) (proc_names s) in
  Ok (find_map (greeter_authority s display lightdm_uid) names).

Definition is_our_lightdm_worker (s : Sys) (pid : Z) : Result bool AgentError :=
  let files := proc s (pretty pid) in
  match p_status files with
  | Err NotFound => Ok false
  | Err e => Err (Config ("inspect LightDM worker: " ++ error_text e))
  | Ok status =>
      let? uid := account_id s in
      if negb (bool_decide (process_real_uid status = Some uid)) then Ok false
      else
        let? cmdline := map_err (fun e => Config ("inspect LightDM worker command: " ++ error_text e)) (p_cmdline files) in
        let words := utf8_pieces cmdline in
        Ok (existsb (ends_with "rivet-agent") words && bool_decide ("console-worker"%string ∈ words) &&
            bool_decide ("--socket"%string ∈ words) && bool_decide (WORKER_SOCKET ∈ words))
  end.
(** At most four steps from a process up to the launcher. *)
Fixpoint ancestors (s : Sys) (launcher_pid : N) (fuel : nat) (parent : option N) : bool :=
  match fuel with
  | 0 => false
  | S fuel =>
      match parent with
      | Some p =>
          if (p =? launcher_pid)%N then true
          else if (1 <? p)%N
          then ancestors s launcher_pid fuel (status ← ok (p_status (proc s (pretty p))); process_parent_pid status)
          else false
      | None => false
      end
  end.
Definition is_descendant_of_launcher (s : Sys) (launcher_pid : N) (status : string) : bool :=
  ancestors s launcher_pid 4 (process_parent_pid status).
(** One look for the worker among the processes. *)
Fixpoint look_for_child (s : Sys) (launcher_pid : N) (names : list string) : Result (option Z) AgentError :=
  match names with
  | [] => Ok None
  | name :: names =>
      let_some pid := parse_i32 name else look_for_child s launcher_pid names in
      if (pid <=? 1)%Z then look_for_child s launcher_pid names
      else
        match p_status (proc s name) with
        | Err _ => look_for_child s launcher_pid names
        | Ok status =>
            if negb (is_descendant_of_launcher s launcher_pid status) then look_for_child s launcher_pid names
            else
              let? ours := is_our_lightdm_worker s pid in
              if ours : bool then Ok (Some pid) else look_for_child s launcher_pid names
        end
  end.
(** The looks until the time is over. *)
Fixpoint find_lightdm_worker_child (launcher_pid : N) (looks : list Sys) : Result Z AgentError :=
  match looks with
  | [] => Err (Config "LightDM worker launcher did not create an authorized worker")
  | s :: looks =>
      let? names := map_err (fun e => Config ("inspect worker processes: " ++ e)) (proc_names s) in
      let? found := look_for_child s launcher_pid names in
      match found with Some pid => Ok pid | None => find_lightdm_worker_child launcher_pid looks end
  end.

(** ** Starting, stopping and verifying *)

(** What was started: arguments and environment, the environment being cleared
    before. *)
Record Launch := { l_program : string; l_args : list string; l_env : list (string * string) }.
(** The file with the process of the worker, the signals sent and the workers
    launched. *)
Record Runtime := { pid_file : option string; signals : list Z; launches : list Launch }.
Definition with_pid_file (f : option string) (r : Runtime) : Runtime :=
  {| pid_file := f; signals := signals r; launches := launches r |}.

(** The system around one stop: reading the file, [kill], whether the process
    is still there, and removing the file. *)
Record StopEnv := {
  st_sys : Sys;
  st_read_fault : option string;
  st_kill : Result bool string;
  st_still_there : bool;
  st_remove_fault : option ReadError;
}.
Definition read_pid (fault : option string) (r : Runtime) : Result (option Z) AgentError :=
  match fault with
  | Some m => Err (Config ("read LightDM worker PID file: " ++ m))
  | None =>
      match pid_file r with
      | None => Ok None
      | Some value => let? pid := ok_or (parse_i32 (trim value)) (Config "invalid LightDM worker PID file") in Ok (Some pid)
      end
  end.
Definition terminate (env : StopEnv) (pid : Z) (r : Runtime) : Runtime * Result unit AgentError :=
  let r := match st_kill env with
           | Ok _ => {| pid_file := pid_file r; signals := signals r ++ [pid]; launches := launches r |}
           | Err _ => r
           end in
  (r, match st_kill env with
      | Err e => Err (Config ("stop LightDM worker: " ++ e))
      | Ok success => if negb success && st_still_there env then Err (Config "stop LightDM worker failed") else Ok tt
      end).
Definition remove_pid_file (env : StopEnv) (r : Runtime) : Runtime * Result unit AgentError :=
  match st_remove_fault env with
  | None | Some NotFound => (with_pid_file None r, Ok tt)
  | Some e => (r, Err (Config ("remove LightDM worker PID file: " ++ error_text e)))
  end.
Definition stop (env : StopEnv) (r : Runtime) : Runtime * Result unit AgentError :=
  match require_root (st_sys env) with
  | Err e => (r, Err e)
  | Ok _ =>
      match read_pid (st_read_fault env) r with
      | Err e => (r, Err e)
      | Ok None => (r, Ok tt)
      | Ok (Some pid) =>
          match (if (1 <? pid)%Z then is_our_lightdm_worker (st_sys env) pid else Ok false) with
          | Err e => (r, Err e)
          | Ok ours =>
              let '(r, killed) := if ours : bool then terminate env pid r else (r, Ok tt) in
              match killed with
              | Err e => (r, Err e)
              | Ok _ => remove_pid_file env r
              end
          end
      end
  end.

Definition worker_launch (executable display authority : string) : Launch :=
  {| l_program := "/usr/sbin/runuser";
     l_args := ["--user"; LIGHTDM_USER; "--"; executable; "console-worker"; "--socket"; WORKER_SOCKET];
     l_env := [("PATH", "/usr/bin:/bin"); ("DISPLAY", display); ("XAUTHORITY", authority); ("XDG_SESSION_CLASS", "greeter");
               ("XDG_SESSION_TYPE", "x11"); ("USER", LIGHTDM_USER)] |}%string.
(** The system around one turn of the watch. *)
Record WatchTurn := {
  wt_sys : Sys;
  wt_stop : StopEnv;
  wt_exe : Result string string;
  wt_spawn : Result N string;
  wt_looks : list Sys;
  wt_runtime_dir : bool;
  wt_write : Result unit string;
  wt_rename : Result unit string;
}.
Definition spawn_worker (t : WatchTurn) (display authority : string) (r : Runtime) : Runtime * Result Z AgentError :=
  match wt_exe t with
  | Err e => (r, Err (Config ("locate RivetLink agent: " ++ e)))
  | Ok executable =>
      match wt_spawn t with
      | Err e => (r, Err (Config ("start LightDM console worker: " ++ e)))
      | Ok launcher =>
          ({| pid_file := pid_file r; signals := signals r; launches := launches r ++ [worker_launch executable display authority] |},
           find_lightdm_worker_child launcher (wt_looks t))
      end
  end.
Definition write_worker_pid (t : WatchTurn) (pid : Z) (r : Runtime) : Runtime * Result unit AgentError :=
  if negb (wt_runtime_dir t) then (r, Err (Config "RivetLink runtime directory is unavailable"))
  else
    match wt_write t, wt_rename t with
    | Err e, _ => (r, Err (Config ("write LightDM worker PID: " ++ e)))
    | Ok _, Err e => (r, Err (Config ("activate LightDM worker PID: " ++ e)))
    | Ok _, Ok _ => (with_pid_file (Some (pretty pid)) r, Ok tt)
    end.
Definition broker_socket_is_ready (s : Sys) : bool :=
  match metadata s WORKER_SOCKET with Some m => is_socket m | None => false end.
(** [start]: what the hook of LightDM launches. *)
Definition start (s : Sys) (display : option string) (exe spawned : Result string string) : list Launch * Result unit AgentError :=
  match require_root s with
  | Err e => ([], Err e)
  | Ok _ =>
      match (d ← display; if is_local_x11_display d then Some d else None) with
      | None => ([], Err (Config "LightDM did not provide a local X11 DISPLAY"))
      | Some d =>
          match exe with
          | Err e => ([], Err (Config ("locate RivetLink agent: " ++ e)))
          | Ok executable =>
              match spawned with
              | Err e => ([], Err (Config ("start LightDM worker watcher: " ++ e)))
              | Ok _ => ([{| l_program := executable; l_args := ["console-lightdm-greeter-watch"; "--display"; d]; l_env := [] |}]%string, Ok tt)
              end
          end
      end
  end.
Definition watch_turn (t : WatchTurn) (display : string) (r : Runtime) : Runtime * Result bool AgentError :=
  match find_lightdm_greeter_authority (wt_sys t) display with
  | Err e => (r, Err e)
  | Ok None => (r, Ok false)
  | Ok (Some authority) =>
      if negb (broker_socket_is_ready (wt_sys t)) then (r, Ok false)
      else
        match stop (wt_stop t) r with
        | (r, Err e) => (r, Err e)
        | (r, Ok _) =>
            match spawn_worker t display authority r with
            | (r, Err e) => (r, Err e)
            | (r, Ok pid) =>
                match write_worker_pid t pid r with
                | (r, Err e) => (r, Err e)
                | (r, Ok _) => (r, Ok true)
                end
            end
        end
  end.
Fixpoint watch_loop (turns : list WatchTurn) (display : string) (r : Runtime) : Runtime * Result unit AgentError :=
  match turns with
  | [] => (r, Err (Config "LightDM greeter did not expose an authorized local X11 session"))
  | t :: turns =>
      match watch_turn t display r with
      | (r, Err e) => (r, Err e)
      | (r, Ok true) => (r, Ok tt)
      | (r, Ok false) => watch_loop turns display r
      end
  end.
(** [turns] are the looks until the time is over. *)
Definition watch (s : Sys) (turns : list WatchTurn) (display : string) (r : Runtime) : Runtime * Result unit AgentError :=
  match require_root s with
  | Err e => (r, Err e)
  | Ok _ =>
      if negb (is_local_x11_display display) then (r, Err (Config "invalid LightDM X11 display"))
      else watch_loop turns display r
  end.

Definition lightdm_worker_is_active (s : Sys) (fault : option string) (r : Runtime) : Result bool AgentError :=
  let? pid := read_pid fault r in
  match pid with
  | None => Ok false
  | Some pid => if (1 <? pid)%Z then is_our_lightdm_worker s pid else Ok false
  end.
Definition selected_display_manager_is_lightdm (selection : Result string string) : Result bool AgentError :=
  let? selection := map_err (fun e => Config ("read display-manager selection: " ++ e)) selection in
  Ok (bool_decide (last (str_split Byte.x2f (trim selection)) = Some "lightdm"%string)).
Definition systemd_unit_active (unit_ : string) (status : Result bool string) : Result bool AgentError :=
  map_err (fun e => Config ("inspect " ++ unit_ ++ ": " ++ e)%string) status.
Fixpoint verify_loop (turns : list (Sys * option string)) (r : Runtime) : Result unit AgentError :=
  match turns with
  | [] => Err (Config "LightDM did not start RivetLink's X11 greeter worker within 30 seconds")
  | (s, fault) :: turns =>
      let? active := lightdm_worker_is_active s fault r in
      if active : bool then Ok tt else verify_loop turns r
  end.
Fixpoint no_gdm (units : list string) (unit_status : string -> Result bool string) : Result unit AgentError :=
  match units with
  | [] => Ok tt
  | u :: units =>
      let? active := systemd_unit_active u (unit_status u) in
      if active : bool then Err (Config "GDM is still active; refusing to verify LightDM login mode") else no_gdm units unit_status
  end.
Definition verify (s : Sys) (selection : Result string string) (unit_status : string -> Result bool string)
    (turns : list (Sys * option string)) (r : Runtime) : Result unit AgentError :=
  let? _ := require_root s in
  let? selected := selected_display_manager_is_lightdm selection in
  if negb selected then Err (Config "LightDM is not the selected display manager")
  else
    let? active := systemd_unit_active "lightdm.service" (unit_status "lightdm.service"%string) in
    if negb active then Err (Config "LightDM is not active")
    else
      let? _ := no_gdm ["gdm.service"; "gdm3.service"]%string unit_status in
      verify_loop turns r.

(** ** Only greeters, only own workers *)

(** A digit is no whitespace. *)
Lemma strip_digit x b : is_ascii_digit x = true ->
  strip_first whitespace (x :: b) = None /\ strip_first (map (@rev N) whitespace) (x :: b) = None.
Proof. destruct x; cbn; intros H; try discriminate H; split; reflexivity. Qed.
Lemma digits_trimmed s : Forall (fun x => is_ascii_digit x = true) (as_bytes s) -> trimmed s = true.
Proof.
  intros F. unfold trimmed. assert (Forall (fun x => is_ascii_digit x = true) (rev (as_bytes s))) as R.
  { apply list.Forall_forall. intros x Hx. rewrite elem_of_rev in Hx. revert x Hx. exact (proj1 (list.Forall_forall _ _) F). }
  destruct F as [|x b Hx F]; [reflexivity|]. rewrite (proj1 (strip_digit x b Hx)).
  destruct R as [|y c Hy R]; [reflexivity|]. by rewrite (proj2 (strip_digit y c Hy)).
Qed.
Lemma parse_i32_pretty (pid : Z) : (0 < pid < 2 ^ 31)%Z -> parse_i32 (trim (pretty pid)) = Some pid.
Proof.
  intros H. destruct pid as [|p|p]; try lia. change (pretty (Zpos p)) with (pretty (Npos p)).
  pose proof (pretty_digits (Npos p)) as D. rewrite trim_trimmed by by apply digits_trimmed.
  pose proof (parse_u32_pretty (Npos p) ltac:(unfold u32_max; lia)) as P.
  unfold parse_i32. rewrite P. cbn [mbind option_bind].
  rewrite (proj2 (N.leb_le (Npos p) _)) by (change (2 ^ 31)%Z with 2147483648%Z in H; change (2 ^ 31 - 1)%N with 2147483647%N; lia).
  destruct (as_bytes (pretty (Npos p))) as [|x b]; [done|].
  apply list.Forall_cons in D as [Dx _]. by destruct x.
Qed.
Lemma parse_i32_range s pid : parse_i32 s = Some pid -> (- 2 ^ 31 <= pid < 2 ^ 31)%Z.
Proof.
  unfold parse_i32. intros E. change (2 ^ 31)%Z with 2147483648%Z.
  assert (forall n, (if (n <=? 2 ^ 31 - 1)%N then Some (Z.of_N n) else None) = Some pid -> (-2147483648 <= pid < 2147483648)%Z) as A.
  { intros n. destruct (N.leb_spec n (2 ^ 31 - 1)) as [L|]; [|done]. intros [= <-]. change (2 ^ 31 - 1)%N with 2147483647%N in L. lia. }
  assert (forall o : option N, (n ← o; if (n <=? 2 ^ 31 - 1)%N then Some (Z.of_N n) else None) = Some pid ->
    (-2147483648 <= pid < 2147483648)%Z) as B by (intros [n|]; [apply A|done]).
  destruct (as_bytes s) as [|x [|y b]]; [exact (B _ E)|destruct x; exact (B _ E)|].
  destruct x; try exact (B _ E). destruct (parse_digits 0 (y :: b)) as [n|]; [|done]. cbn in E.
  destruct (N.leb_spec n (2 ^ 31)) as [L|]; [|done]. injection E as <-. change (2 ^ 31)%N with 2147483648%N in L. lia.
Qed.

(** The worker of the greeter: the account of LightDM, and our command. *)
Definition own_worker (s : Sys) (pid : Z) : Prop :=
  exists uid status cmdline,
    account_id s = Ok uid /\ p_status (proc s (pretty pid)) = Ok status /\ process_real_uid status = Some uid /\
    p_cmdline (proc s (pretty pid)) = Ok cmdline /\
    (exists word, word ∈ utf8_pieces cmdline /\ ends_with "rivet-agent" word = true) /\
    "console-worker"%string ∈ utf8_pieces cmdline /\ "--socket"%string ∈ utf8_pieces cmdline /\ WORKER_SOCKET ∈ utf8_pieces cmdline.
(** A process of LightDM's account that greets on the display, with an
    authority file that only that account can write. *)
Definition greets (s : Sys) (display authority : string) : Prop :=
  exists uid names name status environ m,
    account_id s = Ok uid /\ proc_names s = Ok names /\ name ∈ names /\
    p_status (proc s name) = Ok status /\ process_real_uid status = Some uid /\ p_environ (proc s name) = Ok environ /\
    env_get environ "DISPLAY" = Some display /\ env_get environ "XDG_SESSION_CLASS" = Some "greeter"%string /\
    env_get environ "XAUTHORITY" = Some authority /\
    is_absolute authority = true /\ metadata s authority = Some m /\ is_file m = true /\ owner m = uid /\
    N.land (mode m) 18 = 0%N.

Lemma own_worker_iff s pid : is_our_lightdm_worker s pid = Ok true <-> own_worker s pid.
Proof.
  unfold is_our_lightdm_worker, own_worker. split.
  - destruct (p_status _) as [status|[]]; [|done..]. destruct (account_id s) as [uid|]; [|done].
    case_bool_decide as U; [|done]. cbn [negb]. destruct (p_cmdline _) as [cmdline|]; [|done]. cbn [map_err].
    intros [= E]. rewrite !andb_true_iff, !bool_decide_eq_true in E. destruct E as (((E1 & E2) & E3) & E4).
    apply existsb_exists in E1 as (word & Hw & Ew). exists uid, status, cmdline. split_and!; try done.
    exists word. split; [by apply list_elem_of_In|done].
  - intros (uid & status & cmdline & -> & -> & Hu & -> & (word & Hw & Ew) & E2 & E3 & E4).
    rewrite bool_decide_eq_true_2 by done. cbn [negb map_err]. rewrite !bool_decide_eq_true_2 by done.
    rewrite (proj2 (existsb_exists _ _)); [done|]. exists word. split; [by apply list_elem_of_In|done].
Qed.
Lemma find_map_some {A B} (f : A -> option B) l b : find_map f l = Some b -> exists a, a ∈ l /\ f a = Some b.
Proof.
  induction l as [|a l IH]; [done|]. cbn. destruct (f a) as [b'|] eqn:E; [intros [= ->]; exists a; split; [by left|done]|].
  intros (a' & ? & ?)%IH. exists a'. split; [by right|done].
Qed.
Lemma find_greeter_greets s display authority :
  find_lightdm_greeter_authority s display = Ok (Some authority) -> greets s display authority.
Proof.
  unfold find_lightdm_greeter_authority, greets. destruct (account_id s) as [uid|] eqn:U; [|done].
  destruct (proc_names s) as [names|] eqn:N; [|done]. cbn [map_err]. intros [= (name & Hin & E)%find_map_some].
  unfold greeter_authority in E. destruct (parse_i32 name); [|done]. cbn [mbind option_bind] in E.
  destruct (p_status (proc s name)) as [status|] eqn:S; [|done]. cbn [ok mbind option_bind] in E.
  case_bool_decide as R; [|done]. cbn [negb] in E.
  destruct (p_environ (proc s name)) as [environ|] eqn:V; [|done]. cbn [ok mbind option_bind] in E.
  case_bool_decide as D; [|done]. case_bool_decide as C; [|done]. cbn [negb orb] in E.
  destruct (env_get environ "XAUTHORITY") as [a|] eqn:A; [|done]. cbn [mbind option_bind] in E.
  destruct (valid_lightdm_authority s a uid) eqn:W; [|done]. injection E as ->.
  unfold valid_lightdm_authority in W. apply andb_true_iff in W as [W1 W2].
  destruct (metadata s authority) as [m|] eqn:M; [|done]. rewrite !andb_true_iff in W2. destruct W2 as ((W2 & W3) & W4).
  apply N.eqb_eq in W3, W4. exists uid, names, name, status, environ, m. split_and!; done.
Qed.

Lemma look_for_child_own s launcher names pid : look_for_child s launcher names = Ok (Some pid) ->
  (1 < pid < 2 ^ 31)%Z /\ own_worker s pid /\
  exists name status, name ∈ names /\ parse_i32 name = Some pid /\ p_status (proc s name) = Ok status /\
    is_descendant_of_launcher s launcher status = true.
Proof.
  induction names as [|name names IH]; [done|]. cbn [look_for_child].
  assert (look_for_child s launcher names = Ok (Some pid) -> (1 < pid < 2 ^ 31)%Z /\ own_worker s pid /\
    exists name' status, name' ∈ name :: names /\ parse_i32 name' = Some pid /\ p_status (proc s name') = Ok status /\
      is_descendant_of_launcher s launcher status = true) as Rest.
  { intros H. destruct (IH H) as (? & ? & n & st & ? & ? & ? & ?). split_and!; try done; try lia.
    exists n, st. split; [by right|done]. }
  destruct (parse_i32 name) as [p|] eqn:P; [|exact Rest]. destruct (Z.leb_spec p 1) as [|L]; [exact Rest|].
  destruct (p_status (proc s name)) as [status|] eqn:S; [|exact Rest].
  destruct (is_descendant_of_launcher s launcher status) eqn:D; cbn [negb]; [|exact Rest].
  destruct (is_our_lightdm_worker s p) as [[]|] eqn:O; [|exact Rest|done]. intros [= <-].
  pose proof (parse_i32_range _ _ P). split; [lia|]. split; [by apply own_worker_iff|].
  exists name, status. split; [by left|done].
Qed.
Lemma find_child_own launcher looks pid : find_lightdm_worker_child launcher looks = Ok pid ->
  (1 < pid < 2 ^ 31)%Z /\ exists look status name, look ∈ looks /\ own_worker look pid /\
    parse_i32 name = Some pid /\ p_status (proc look name) = Ok status /\ is_descendant_of_launcher look launcher status = true.
Proof.
  induction looks as [|s looks IH]; [done|]. cbn [find_lightdm_worker_child]. destruct (proc_names s) as [names|]; [|done].
  cbn [map_err]. destruct (look_for_child s launcher names) as [[p|]|] eqn:L; [| |done].
  - intros [= <-]. destruct (look_for_child_own _ _ _ _ L) as (? & ? & name & status & ? & ? & ? & ?). split; [done|].
    exists s, status, name. split; [by left|done].
  - intros (? & look & status & name & ? & ?)%IH. split; [done|]. exists look, status, name. split; [by right|done].
Qed.

(** What a stop does, however it ends. *)
Lemma stop_effect env r r' res : stop env r = (r', res) ->
  launches r' = launches r /\
  (signals r' = signals r \/ exists pid, signals r' = signals r ++ [pid] /\ (1 < pid)%Z /\ own_worker (st_sys env) pid /\
     read_pid (st_read_fault env) r = Ok (Some pid)) /\
  (pid_file r' = pid_file r \/ pid_file r' = None).
Proof.
  unfold stop. destruct (require_root _); [|intros [= <- <-]; auto]. destruct (read_pid _ r) as [[pid|]|] eqn:R;
    [|intros [= <- <-]; auto|intros [= <- <-]; auto].
  destruct (if (1 <? pid)%Z then _ else _) as [ours|] eqn:O; [|intros [= <- <-]; auto].
  destruct ours.
  - destruct (Z.ltb_spec 1 pid) as [L|]; [|done]. apply own_worker_iff in O.
    unfold terminate, remove_pid_file. destruct (st_kill env) as [success|]; [|intros [= <- <-]; auto].
    destruct (negb success && st_still_there env).
    + intros [= <- <-]. cbn. split; [done|]. split; [right; by exists pid|by left].
    + destruct (st_remove_fault env) as [[]|]; intros [= <- <-]; cbn; (split; [done|]); (split; [right; by exists pid|auto]).
  - unfold remove_pid_file. destruct (st_remove_fault env) as [[]|]; intros [= <- <-]; cbn; auto.
Qed.

(** The launch of a turn that found the greeter. *)
Definition launch_ok (turns : list WatchTurn) (display : string) (l : Launch) : Prop :=
  exists t executable authority, t ∈ turns /\ l = worker_launch executable display authority /\
    greets (wt_sys t) display authority /\ broker_socket_is_ready (wt_sys t) = true.
Definition signal_ok (turns : list WatchTurn) (pid : Z) : Prop :=
  (1 < pid)%Z /\ exists t, t ∈ turns /\ own_worker (st_sys (wt_stop t)) pid.
Definition recorded (turns : list WatchTurn) (pid : Z) : Prop :=
  (1 < pid < 2 ^ 31)%Z /\ exists t launcher look status name, t ∈ turns /\ wt_spawn t = Ok launcher /\ look ∈ wt_looks t /\
    own_worker look pid /\ parse_i32 name = Some pid /\ p_status (proc look name) = Ok status /\
    is_descendant_of_launcher look launcher status = true.
Record watched (turns : list WatchTurn) (display : string) (r r' : Runtime) (res : Result unit AgentError) : Prop := {
  wd_launches : exists new, launches r' = launches r ++ new /\ length new <= 1 /\ Forall (launch_ok turns display) new /\
    (res = Ok tt -> length new = 1);
  wd_signals : exists sent, signals r' = signals r ++ sent /\ Forall (signal_ok turns) sent;
  wd_recorded : res = Ok tt -> exists pid, pid_file r' = Some (pretty pid) /\ recorded turns pid;
}.
Lemma watched_nothing turns display r e : watched turns display r r (Err e).
Proof.
  split; [exists []|exists []|done]; rewrite app_nil_r; [|done]. split; [done|]. split; [cbn; lia|]. by split.
Qed.
Lemma watch_turn_watched t display r :
  let '(r', res) := watch_turn t display r in
  match res with
  | Ok false => r' = r
  | Ok true => watched [t] display r r' (Ok tt)
  | Err e => watched [t] display r r' (Err e)
  end.
Proof.
  unfold watch_turn.
  pose proof (watched_nothing [t] display r) as Nothing_.
  destruct (find_lightdm_greeter_authority (wt_sys t) display) as [[authority|]|] eqn:F; [|done|apply Nothing_].
  apply find_greeter_greets in F. destruct (broker_socket_is_ready (wt_sys t)) eqn:B; [|done]. cbn [negb].
  destruct (stop (wt_stop t) r) as [r1 stopped] eqn:S. destruct (stop_effect _ _ _ _ S) as (L1 & S1 & _).
  assert (exists sent, signals r1 = signals r ++ sent /\ Forall (signal_ok [t]) sent) as Sig.
  { destruct S1 as [->|(pid & -> & ? & ? & _)]; [exists []; by rewrite app_nil_r|]. exists [pid]. split; [done|].
    constructor; [|done]. split; [done|]. exists t. split; [by left|done]. }
  assert (forall e, watched [t] display r r1 (Err e)) as Stopped.
  { intros e. split; [exists []; rewrite app_nil_r; split_and!; [done|cbn; lia|done|done]|done|done]. }
  destruct stopped; [|apply Stopped]. unfold spawn_worker. destruct (wt_exe t) as [executable|]; [|apply Stopped].
  destruct (wt_spawn t) as [launcher|] eqn:Sp; [|apply Stopped].
  set (l := worker_launch executable display authority).
  assert (launch_ok [t] display l) as Lok by (exists t, executable, authority; split; [by left|done]).
  assert (forall f e, watched [t] display r {| pid_file := f; signals := signals r1; launches := launches r1 ++ [l] |} (Err e)) as Launched.
  { intros f e. split; [exists [l]|done|done]. cbn. rewrite L1. split_and!; [done|done|by constructor|done]. }
  destruct (find_lightdm_worker_child launcher (wt_looks t)) as [pid|] eqn:C; [|apply Launched].
  destruct (find_child_own _ _ _ C) as (R & look & status & name & ? & ? & ? & ? & ?).
  unfold write_worker_pid. destruct (wt_runtime_dir t); cbn [negb]; [|apply Launched].
  destruct (wt_write t); [|apply Launched]. destruct (wt_rename t); [|apply Launched].
  split; [exists [l]|done|].
  - cbn. rewrite L1. split_and!; [done|done|by constructor|done].
  - intros _. exists pid. split; [done|]. split; [done|]. exists t, launcher, look, status, name. split; [by left|]. split_and!; done.
Qed.
Lemma watched_mono turns turns' display r r' res : (forall t, t ∈ turns -> t ∈ turns') ->
  watched turns display r r' res -> watched turns' display r r' res.
Proof.
  intros Sub [(new & L1 & L2 & L3 & L4) (sent & S1 & S2) R]. split.
  - exists new. split_and!; try done. eapply list.Forall_impl; [exact L3|].
    intros l (t & e & a & Ht & ?). exists t, e, a. auto.
  - exists sent. split; [done|]. eapply list.Forall_impl; [exact S2|]. intros pid (? & t & Ht & ?). split; [done|]. exists t. auto.
  - intros E. destruct (R E) as (pid & ? & ? & t & la & lo & st & n & Ht & ?). exists pid. split; [done|]. split; [done|].
    exists t, la, lo, st, n. auto.
Qed.
Lemma watch_loop_watched turns display r : let '(r', res) := watch_loop turns display r in watched turns display r r' res.
Proof.
  revert r. induction turns as [|t turns IH]; intros r; cbn [watch_loop].
  { apply watched_nothing. }
  pose proof (watch_turn_watched t display r) as W.
  destruct (watch_turn t display r) as [r1 [[]|e]].
  - eapply watched_mono; [|exact W]. intros t' ->%list_elem_of_singleton. by left.
  - subst r1. specialize (IH r). destruct (watch_loop turns display r) as [r2 res]. eapply watched_mono; [|exact IH]. by right.
  - eapply watched_mono; [|exact W]. intros t' ->%list_elem_of_singleton. by left.
Qed.

(** C13. The greeter's worker lives under control. The watcher does nothing
    unless root runs it for a local display. However it ends, it launches at
    most one worker, with the display and the authority of a process that runs
    as LightDM's account, greets on that display and whose authority file only
    that account can write; and every process it terminates is a worker of that
    account of our own, recorded before. When it succeeds, what it recorded is
    such a worker, a descendant of the process it launched, with a number above
    1; as long as that is so the verification finds it and a stop terminates
    exactly it, and once the number belongs to another process a stop
    terminates nothing; either way the record is gone after. *)
Theorem greeter_worker_lifecycle s turns display r :
  let '(r', res) := watch s turns display r in
  (r' <> r -> require_root s = Ok tt /\ is_local_x11_display display = true) /\
  watched turns display r r' res /\
  (res = Ok tt -> exists pid, recorded turns pid /\
     forall env, require_root (st_sys env) = Ok tt -> st_read_fault env = None -> st_kill env = Ok true ->
       st_remove_fault env = None ->
       (own_worker (st_sys env) pid ->
          lightdm_worker_is_active (st_sys env) None r' = Ok true /\
          stop env r' = ({| pid_file := None; signals := signals r' ++ [pid]; launches := launches r' |}, Ok tt)) /\
       (is_our_lightdm_worker (st_sys env) pid = Ok false ->
          lightdm_worker_is_active (st_sys env) None r' = Ok false /\ stop env r' = (with_pid_file None r', Ok tt))).
Proof.
  unfold watch. destruct (require_root s) as [[]|e]; [|split; [done|split; [apply watched_nothing|done]]].
  destruct (is_local_x11_display display); cbn [negb]; [|split; [done|split; [apply watched_nothing|done]]].
  pose proof (watch_loop_watched turns display r) as W. destruct (watch_loop turns display r) as [r' res].
  split; [done|]. split; [done|]. intros E. destruct (wd_recorded _ _ _ _ _ W E) as (pid & Hf & R).
  exists pid. split; [done|]. destruct R as ([P1 P2] & _). intros env Hr Hn Hk Hd.
  assert (read_pid None r' = Ok (Some pid)) as Rd by (unfold read_pid; rewrite Hf, parse_i32_pretty by lia; done).
  unfold stop, lightdm_worker_is_active. rewrite Hr, Hn, Rd. rewrite (proj2 (Z.ltb_lt 1 pid)) by lia. split.
  - intros O%own_worker_iff. rewrite O. split; [done|]. unfold terminate, remove_pid_file. by rewrite Hk, Hd.
  - intros O. rewrite O. split; [done|]. unfold remove_pid_file. by rewrite Hd.
Qed.

(** A session: the greeter is process 700, runuser 800, the worker 801. *)
Definition nul (words : list string) : bytes := concat (map (fun w => as_bytes w ++ [Byte.x00]) words).
Definition lines_text (ls : list string) : string := from_utf8 (concat (map (fun l => as_bytes l ++ [Byte.x0a]) ls)).
Definition no_process : ProcFiles := {| p_status := Err NotFound; p_environ := Err NotFound; p_cmdline := Err NotFound |}.
Definition greeter_files : ProcFiles :=
  {| p_status := Ok (lines_text ["Uid: 112 112 112 112"]%string);
     p_environ := Ok (nul ["DISPLAY=:0"; "XDG_SESSION_CLASS=greeter"; "XAUTHORITY=/var/lib/lightdm/.Xauthority"]%string);
     p_cmdline := Ok (nul ["lightdm-gtk-greeter"]%string) |}.
Definition worker_files : ProcFiles :=
  {| p_status := Ok (lines_text ["PPid: 800"; "Uid: 112 112 112 112"]%string); p_environ := Err (OtherError "denied");
     p_cmdline := Ok (nul ["/usr/bin/rivet-agent"; "console-worker"; "--socket"; WORKER_SOCKET]%string) |}.
Definition ex_sys (worker : ProcFiles) : Sys :=
  {| proc_names := Ok ["self"; "700"; "801"]%string;
     proc n := if (n =? "700")%string then greeter_files else if (n =? "801")%string then worker else no_process;
     id_u := Ok {| succeeded := true; out := as_bytes "0" ++ [Byte.x0a] |};
     id_u_lightdm := Ok {| succeeded := true; out := as_bytes "112" ++ [Byte.x0a] |};
     metadata p := if (p =? WORKER_SOCKET)%string then Some {| is_file := false; is_socket := true; owner := 0; mode := 0 |}
                   else if (p =? "/var/lib/lightdm/.Xauthority")%string
                   then Some {| is_file := true; is_socket := false; owner := 112; mode := 384 |} else None |}.
Definition ex_stop (worker : ProcFiles) : StopEnv :=
  {| st_sys := ex_sys worker; st_read_fault := None; st_kill := Ok true; st_still_there := false; st_remove_fault := None |}.
Definition ex_watch (looks : list Sys) : WatchTurn :=
  {| wt_sys := ex_sys no_process; wt_stop := ex_stop no_process; wt_exe := Ok "/usr/bin/rivet-agent"%string; wt_spawn := Ok 800%N;
     wt_looks := looks; wt_runtime_dir := true; wt_write := Ok tt; wt_rename := Ok tt |}.
Definition fresh : Runtime := {| pid_file := None; signals := []; launches := [] |}.
Lemma greeter_worker_lifecycle_witness :
  let turns := [ex_watch [ex_sys no_process; ex_sys worker_files]] in
  let '(r', res) := watch (ex_sys no_process) turns ":0" fresh in
  (res = Ok tt /\ pid_file r' = Some "801"%string /\ length (launches r') = 1) /\
  (r' <> fresh -> require_root (ex_sys no_process) = Ok tt /\ is_local_x11_display ":0" = true) /\
  watched turns ":0" fresh r' res /\
  (res = Ok tt -> exists pid, recorded turns pid /\
     forall env, require_root (st_sys env) = Ok tt -> st_read_fault env = None -> st_kill env = Ok true ->
       st_remove_fault env = None ->
       (own_worker (st_sys env) pid ->
          lightdm_worker_is_active (st_sys env) None r' = Ok true /\
          stop env r' = ({| pid_file := None; signals := signals r' ++ [pid]; launches := launches r' |}, Ok tt)) /\
       (is_our_lightdm_worker (st_sys env) pid = Ok false ->
          lightdm_worker_is_active (st_sys env) None r' = Ok false /\ stop env r' = (with_pid_file None r', Ok tt))).
Proof.
  cbv zeta. pose proof (greeter_worker_lifecycle (ex_sys no_process) [ex_watch [ex_sys no_process; ex_sys worker_files]] ":0" fresh) as G.
  assert (let '(r', res) := watch (ex_sys no_process) [ex_watch [ex_sys no_process; ex_sys worker_files]] ":0" fresh in
    res = Ok tt /\ pid_file r' = Some "801"%string /\ length (launches r') = 1) as C by (vm_compute; done).
  destruct (watch _ _ ":0" fresh) as [r' res]. split; [exact C|exact G].
Defined.

(** A worker that does not show up in time runs on without a record, and the
    next stop does not know it. *)
Lemma unrecorded_worker :
  let '(r', res) := watch (ex_sys no_process) [ex_watch [ex_sys no_process]] ":0" fresh in
  is_ok res = false /\ length (launches r') = 1 /\ pid_file r' = None /\
  stop (ex_stop worker_files) r' = (r', Ok tt).
Proof. vm_compute. done. Qed.
(** A worker that ends between two looks at it makes a stop fail, and with it
    the next watch. *)
Lemma vanished_worker_blocks :
  let gone := {| p_status := p_status worker_files; p_environ := Err NotFound; p_cmdline := Err NotFound |} in
  let r := {| pid_file := Some "801"%string; signals := []; launches := [] |} in
  is_ok (stop (ex_stop gone) r).2 = false /\ (stop (ex_stop gone) r).1 = r.
Proof. vm_compute. done. Qed.
(** A verified installation runs LightDM alone, with a worker. *)
Lemma verify_sound s selection unit_status turns r : verify s selection unit_status turns r = Ok tt ->
  unit_status "lightdm.service"%string = Ok true /\ unit_status "gdm.service"%string = Ok false /\
  unit_status "gdm3.service"%string = Ok false /\
  exists s' fault pid, (s', fault) ∈ turns /\ read_pid fault r = Ok (Some pid) /\ (1 < pid)%Z /\ own_worker s' pid.
Proof.
  unfold verify. destruct (require_root s); [|done]. destruct (selected_display_manager_is_lightdm _) as [[]|]; [|done..]. cbn [negb].
  unfold systemd_unit_active. destruct (unit_status "lightdm.service"%string) as [[]|]; [|done..]. cbn.
  destruct (unit_status "gdm.service"%string) as [[]|]; [done| |done]. cbn.
  destruct (unit_status "gdm3.service"%string) as [[]|]; [done| |done]. cbn. intros V. split_and!; [done..|].
  induction turns as [|[s' fault] turns IH]; [done|]. cbn [verify_loop] in V. unfold lightdm_worker_is_active in V.
  destruct (read_pid fault r) as [[pid|]|] eqn:R; [| |done].
  - destruct (Z.ltb_spec 1 pid).
    + destruct (is_our_lightdm_worker s' pid) as [[]|] eqn:O; [| |done].
      * exists s', fault, pid. split; [by left|]. split_and!; try done. by apply own_worker_iff.
      * destruct (IH V) as (s2 & f2 & p2 & ? & ?). exists s2, f2, p2. split; [by right|done].
    + destruct (IH V) as (s2 & f2 & p2 & ? & ?). exists s2, f2, p2. split; [by right|done].
  - destruct (IH V) as (s2 & f2 & p2 & ? & ?). exists s2, f2, p2. split; [by right|done].
Qed.
