(* ===== verification/Clipboard.v ===== *)
(** * The clipboard bridge

    rivetlink-agent/src/console/clipboard.rs: the task between the clipboard of
    the desktop and the client. Mutter's D-Bus calls and the pipes of
    applications are parameters: each event carries their answers. *)
From Stdlib Require Import NArith Lia Strings.String Strings.Byte.
From S2P Require Import Prelude Text Interfaces Instances Protocol Trusted SharedFolder Lan Worker.

Definition OFFERED_MIME_TYPES : list string :=
  ["text/plain;charset=utf-8"; "text/plain"; "UTF8_STRING"; "STRING"; "TEXT"]%string.
Definition READ_MIME_TYPES : list string := ["text/plain;charset=utf-8"; "UTF8_STRING"; "text/plain"]%string.

(** The text offered to local applications, the last that crossed the bridge,
    and whether the loop goes on. *)
Record Bridge := { offered : option string; last_text : option string; running : bool }.
Definition bridge_start : Bridge := {| offered := None; last_text := None; running := true |}.

(** What the pipe of a copying application gave: nothing in time, or bytes up
    to its end. *)
Inductive PipeRead := CallFails | TimesOut | ReadFails | PipeBytes (b : bytes).
Inductive PipeWrite := WriteCallFails | WriteTimesOut | WriteFails | Written.
Inductive BridgeEvent :=
| SetText (text : string) (set_selection : Result unit string)
| SetClosed
(** A local application pastes; [None] is a signal that cannot be read. *)
| SelectionTransfer (serial : option N) (write : PipeWrite)
| TransfersClosed
(** Another owner of the clipboard; its options, if they can be read, and then
    what is read from it, and whether the client still listens. *)
| OwnerChanged (options : option (bool * list string)) (read : string -> PipeRead) (listens : bool)
| OwnerClosed.
Inductive BridgeOutput :=
| SetSelection (mime_types : list string)
| Pasted (serial : N) (text : string)
| WriteDone (serial : N) (success : bool)
| SelectionRead (mime : string)
| Change (text : string)
| Stop.

(** At most one byte more than the limit is read. *)
Definition read_selection (r : PipeRead) : option string :=
  match r with
  | PipeBytes b =>
      let b := take (N.to_nat MAX_CLIPBOARD_BYTES + 1) b in
      if (len b <=? MAX_CLIPBOARD_BYTES)%N then
        if utf8_valid (length b) b then let text := from_utf8 b in if (text =? "")%string then None else Some text
        else None
      else None
  | _ => None
  end.
Definition serve_transfer (serial : N) (write : PipeWrite) (offered : option string) : list BridgeOutput :=
  match offered with
  | None => [WriteDone serial false]
  | Some text =>
      match write with
      | Written => [Pasted serial text; WriteDone serial true]
      | _ => [WriteDone serial false]
      end
  end.
Definition preferred (mime_types : list string) : option string :=
  find (fun wanted => existsb (String.eqb wanted) mime_types) READ_MIME_TYPES.
Definition ended (s : Bridge) : Bridge * list BridgeOutput :=
  ({| offered := offered s; last_text := last_text s; running := false |}, [Stop]).
(** One turn of [run]. *)
Definition bridge_step (s : Bridge) (ev : BridgeEvent) : Bridge * list BridgeOutput :=
  if negb (running s) then (s, [])
  else
    match ev with
    | SetText text (Ok _) =>
        ({| offered := Some text; last_text := Some text; running := true |}, [SetSelection OFFERED_MIME_TYPES])
    | SetText _ (Err _) => (s, [SetSelection OFFERED_MIME_TYPES])
    | SetClosed | TransfersClosed | OwnerClosed => ended s
    | SelectionTransfer None _ => (s, [])
    | SelectionTransfer (Some serial) write => (s, serve_transfer serial write (offered s))
    | OwnerChanged None _ _ => (s, [])
    | OwnerChanged (Some (ours, mime_types)) read listens =>
        if ours : bool then (s, [])
        else
          let s := {| offered := None; last_text := last_text s; running := true |} in
          let_some mime := preferred mime_types else (s, []) in
          match read_selection (read mime) with
          | Some text =>
              if bool_decide (last_text s = Some text) then (s, [SelectionRead mime])
              else
                let s := {| offered := None; last_text := Some text; running := true |} in
                if listens : bool then (s, [SelectionRead mime; Change text])
                else let '(s, stop) := ended s in (s, SelectionRead mime :: stop)
          | None => (s, [SelectionRead mime])
          end
    end.
Fixpoint bridge_run (s : Bridge) (evs : list BridgeEvent) : Bridge * list BridgeOutput :=
  match evs with
  | [] => (s, [])
  | ev :: evs =>
      let '(s, out) := bridge_step s ev in
      let '(s, more) := bridge_run s evs in (s, out ++ more)
  end.

(** [start]: the calls it makes in order, each answered; [None] is an answer,
    [Some error] a failure. A session whose clipboard cannot be enabled is
    stopped. *)
Inductive StartCall := Session | RdProxy | CreateSession | SessionProxy | ReceiveOwnerChanged | ReceiveTransfers | Start | EnableClipboard | StopSession.
#[export] Instance StartCall_eq_dec : EqDecision StartCall.
Proof. solve_decision. Defined.
Definition dbus_err (error : string) : AgentError := Input ("Mutter clipboard D-Bus error: " ++ error).
Definition START_CALLS : list StartCall :=
  [Session; RdProxy; CreateSession; SessionProxy; ReceiveOwnerChanged; ReceiveTransfers; Start; EnableClipboard].
Fixpoint start_calls (answer : StartCall -> option string) (calls : list StartCall) : list StartCall * Result Bridge AgentError :=
  match calls with
  | [] => ([], Ok bridge_start)
  | call :: calls =>
      match answer call with
      | Some error => (call :: (if decide (call = EnableClipboard) then [StopSession] else []), Err (dbus_err error))
      | None => let '(made, r) := start_calls answer calls in (call :: made, r)
      end
  end.
Definition bridge_open (answer : StartCall -> option string) : list StartCall * Result Bridge AgentError :=
  start_calls answer START_CALLS.
(** [set], to a bridge whose task is gone or not. *)
Definition bridge_set (s : Bridge) (text : string) : Result string AgentError :=
  if running s then Ok text else Err (Input "clipboard bridge stopped").

(** ** No echo *)

(** What crossed the bridge, with whether it went to the client. *)
Definition to_client (o : BridgeOutput) : option (bool * string) :=
  match o with Change text => Some (true, text) | _ => None end.
Definition crossing (s : Bridge) (ev : BridgeEvent) : list (bool * string) :=
  match ev with
  | SetText text (Ok _) => if running s then [(false, text)] else []
  | _ => omap to_client (bridge_step s ev).2
  end.
Fixpoint history (s : Bridge) (evs : list BridgeEvent) : list (bool * string) :=
  match evs with [] => [] | ev :: evs => crossing s ev ++ history (bridge_step s ev).1 evs end.
(** Another owner took the clipboard. *)
Definition takes_over (ev : BridgeEvent) : bool :=
  match ev with OwnerChanged (Some (false, _)) _ _ => true | _ => false end.
Definition sets (ev : BridgeEvent) : bool := match ev with SetText _ (Ok _) => true | _ => false end.
(** The text the client set last, if no other owner took over since. *)
Definition client_owns (evs : list BridgeEvent) (text : string) : Prop :=
  exists before after, evs = before ++ SetText text (Ok tt) :: after /\
    Forall (fun ev => sets ev = false /\ takes_over ev = false) after.
Definition fresh_change (before : list (bool * string)) (text : string) : Prop :=
  last (map snd before) <> Some text /\ (0 < slen text <= MAX_CLIPBOARD_BYTES)%N /\
  utf8_valid (length (as_bytes text)) (as_bytes text) = true.

#[local] Arguments read_selection : simpl never.
Lemma bridge_run_app s evs evs' :
  bridge_run s (evs ++ evs') =
  let '(s1, out1) := bridge_run s evs in let '(s2, out2) := bridge_run s1 evs' in (s2, out1 ++ out2).
Proof.
  revert s. induction evs as [|ev evs IH]; intros s; cbn [app bridge_run].
  - by destruct (bridge_run s evs').
  - destruct (bridge_step s ev) as [s1 out1]. rewrite IH. destruct (bridge_run s1 evs) as [s2 out2].
    destruct (bridge_run s2 evs') as [s3 out3]. by rewrite app_assoc.
Qed.
Lemma history_app s evs evs' : history s (evs ++ evs') = history s evs ++ history (bridge_run s evs).1 evs'.
Proof.
  revert s. induction evs as [|ev evs IH]; intros s; [done|]. cbn [app history bridge_run]. rewrite IH, app_assoc.
  destruct (bridge_step s ev) as [s1 out1]. cbn [fst]. by destruct (bridge_run s1 evs).
Qed.
Lemma read_selection_ok r text : read_selection r = Some text ->
  (0 < slen text <= MAX_CLIPBOARD_BYTES)%N /\ utf8_valid (length (as_bytes text)) (as_bytes text) = true.
Proof.
  unfold read_selection. destruct r as [| | |b]; try done. cbv zeta. set (c := take _ b).
  destruct (N.leb_spec (len c) MAX_CLIPBOARD_BYTES) as [L|]; [|done].
  destruct (utf8_valid (length c) c) eqn:U; [|done]. destruct (String.eqb_spec (from_utf8 c) "") as [|Ne]; [done|].
  intros [= <-]. unfold slen. rewrite as_bytes_from_utf8. split; [|done]. split; [|done].
  destruct c as [|x c]; [by destruct Ne|]. unfold len. cbn [length]. lia.
Qed.
Lemma elem_of_one {A} (x y : A) l : x ∈ y :: l -> x = y \/ x ∈ l.
Proof. apply elem_of_cons. Qed.
(** A list of outputs without the change in question. *)
Ltac no_change H := repeat (apply elem_of_one in H as [H|H]; [discriminate H|]); by apply elem_of_nil in H.
(** A change is not what crossed last. *)
Lemma step_change s ev text : Change text ∈ (bridge_step s ev).2 ->
  last_text s <> Some text /\ (0 < slen text <= MAX_CLIPBOARD_BYTES)%N /\
  utf8_valid (length (as_bytes text)) (as_bytes text) = true.
Proof.
  unfold bridge_step. destruct (running s); cbn [negb]; [|intros H; by apply elem_of_nil in H].
  destruct ev as [t [[]|]| |[n|] wr| |[[[] mimes]|] read listens|]; cbn [snd ended]; try (intros H; no_change H).
  - intros H. exfalso. unfold serve_transfer in H. destruct (offered s), wr; no_change H.
  - destruct (preferred mimes) as [mime|]; [|intros H; no_change H].
    destruct (read_selection (read mime)) as [t|] eqn:R; [|intros H; no_change H]. cbn [last_text].
    case_bool_decide as L; [intros H; no_change H|]. destruct listens; cbn [snd ended]; intros H; [|no_change H].
    apply elem_of_one in H as [H|H]; [discriminate H|]. apply elem_of_one in H as [H|H]; [|by apply elem_of_nil in H].
    injection H as ->. apply read_selection_ok in R. done.
Qed.
Lemma crossing_cases s ev :
  crossing s ev = [] /\ (running (bridge_step s ev).1 = true -> last_text (bridge_step s ev).1 = last_text s) \/
  exists way text, crossing s ev = [(way, text)] /\ last_text (bridge_step s ev).1 = Some text /\
    running (bridge_step s ev).1 = true /\
    (way = true -> Change text ∈ (bridge_step s ev).2).
Proof.
  unfold crossing, bridge_step. destruct (running s) eqn:Rn; cbn [negb]; [|left; by destruct ev as [? []| | | | |]].
  destruct ev as [t [[]|]| |[n|] wr| |[[[] mimes]|] read listens|]; cbn [fst snd ended last_text running omap list_omap to_client]; try (by left).
  - right. by exists false, t.
  - left. unfold serve_transfer. by destruct (offered s), wr.
  - destruct (preferred mimes) as [mime|]; [|by left]. destruct (read_selection (read mime)) as [t|]; [|by left].
    cbn [last_text]. case_bool_decide; [by left|]. destruct listens; cbn [fst snd ended last_text running omap list_omap to_client]; [|by left]. right. exists true, t. split_and!; try done.
    intros _. right. by left.
Qed.

Lemma run_snoc s evs ev :
  (bridge_run s (evs ++ [ev])).1 = (bridge_step (bridge_run s evs).1 ev).1 /\
  (bridge_run s (evs ++ [ev])).2 = (bridge_run s evs).2 ++ (bridge_step (bridge_run s evs).1 ev).2 /\
  history s (evs ++ [ev]) = history s evs ++ crossing (bridge_run s evs).1 ev.
Proof.
  rewrite bridge_run_app, history_app. cbn [bridge_run history]. destruct (bridge_run s evs) as [s1 out1]. cbn [fst].
  destruct (bridge_step s1 ev) as [s2 out2]. by rewrite !app_nil_r.
Qed.
(** The state remembers what crossed last, and offers what the client set. *)
Lemma bridge_state evs : let s := (bridge_run bridge_start evs).1 in
  (running s = true -> last_text s = last (map snd (history bridge_start evs))) /\
  (forall text, running s = true -> offered s = Some text -> client_owns evs text).
Proof.
  cbv zeta. induction evs as [|ev evs [IH1 IH2]] using rev_ind; [done|].
  destruct (run_snoc bridge_start evs ev) as (-> & _ & ->). set (s := (bridge_run bridge_start evs).1) in *. split.
  - intros R. rewrite map_app. assert (running s = true) as Rs.
    { destruct (running s) eqn:E; [done|]. unfold bridge_step in R. rewrite E in R. cbn in R. congruence. }
    destruct (crossing_cases s ev) as [(-> & L)|(way & text & -> & L & _)].
    + rewrite app_nil_r. rewrite L by done. by apply IH1.
    + rewrite L. cbn [map snd]. by rewrite last_snoc.
  - intros text R. clear IH1. assert (running s = true) as Rs.
    { destruct (running s) eqn:E; [done|]. unfold bridge_step in R. rewrite E in R. cbn in R. congruence. }
    specialize (IH2 text Rs).
    assert (forall ev', sets ev' = false -> takes_over ev' = false -> offered s = Some text ->
      client_owns (evs ++ [ev']) text) as Keep.
    { intros ev' H1 H2 (before & after & E & F)%IH2. exists before, (after ++ [ev']). split; [by rewrite E, <-app_assoc|].
      apply list.Forall_app. split; [done|]. by constructor. }
    revert R. unfold bridge_step. rewrite Rs. cbn [negb fst].
    destruct ev as [t [[]|]| |[n|] wr| |[[[] mimes]|] read listens|]; cbn [fst snd ended offered last_text running];
      try (intros _; by apply Keep).
    + intros _ [= <-]. exists evs, []. split; [done|constructor].
    + intros _. destruct (preferred mimes); [|done]. destruct (read_selection _); [|done]. case_bool_decide; [done|]. by destruct listens.
Qed.
Lemma step_pasted s ev serial text : Pasted serial text ∈ (bridge_step s ev).2 -> running s = true /\ offered s = Some text.
Proof.
  unfold bridge_step. destruct (running s); cbn [negb]; [|intros H; by apply elem_of_nil in H].
  destruct ev as [t [[]|]| |[n|] wr| |[[[] mimes]|] read listens|]; cbn [snd ended]; try (intros H; no_change H).
  - unfold serve_transfer. intros H. split; [done|]. destruct (offered s) as [t|], wr; try (no_change H).
    apply elem_of_one in H as [[= _ ->]|H]; [done|no_change H].
  - intros H. exfalso. destruct (preferred mimes) as [mime|]; [|no_change H].
    destruct (read_selection (read mime)) as [t|]; [|no_change H]. cbn [last_text] in H.
    case_bool_decide as L; [no_change H|]. destruct listens; cbn [snd ended] in H; no_change H.
Qed.
Lemma history_split s evs before text after : history s evs = before ++ (true, text) :: after ->
  exists evs1 ev evs2, evs = evs1 ++ ev :: evs2 /\ history s evs1 = before /\
    Change text ∈ (bridge_step (bridge_run s evs1).1 ev).2.
Proof.
  revert after. induction evs as [|ev evs IH] using rev_ind; intros after; [by destruct before|].
  destruct (run_snoc s evs ev) as (_ & _ & ->). set (s1 := (bridge_run s evs).1) in *. intros H.
  destruct (crossing_cases s1 ev) as [(E & _)|(way & t & E & _ & _ & C)]; rewrite E in H.
  - rewrite app_nil_r in H. apply IH in H as (evs1 & ev1 & evs2 & -> & H & C). exists evs1, ev1, (evs2 ++ [ev]).
    by rewrite <-app_assoc.
  - destruct after as [|x after _] using rev_ind.
    + apply app_inj_tail in H as [H [= -> ->]]. exists evs, ev, []. split; [done|]. split; [done|]. by apply C.
    + rewrite app_comm_cons, app_assoc in H. apply app_inj_tail in H as [H _].
      apply IH in H as (evs1 & ev1 & evs2 & -> & H & C'). exists evs1, ev1, (evs2 ++ [ev]). by rewrite <-app_assoc.
Qed.
Lemma stopped_stays s evs : running s = false -> bridge_run s evs = (s, []).
Proof.
  intros R. induction evs as [|ev evs IH]; [done|]. cbn [bridge_run]. unfold bridge_step. rewrite R. cbn [negb]. by rewrite IH.
Qed.

(** C14. Whatever the desktop, the local applications and the client do, a text
    is reported to the client only if it differs from the last text that
    crossed the bridge in either direction (so what the client sets never comes
    back), is not empty, is at most the size limit and is valid UTF-8; and a
    local application is given a text only while the client's is the selection:
    it is the one the client set last, and no other owner took over since. *)
Theorem bridge_no_echo evs :
  (forall before text after, history bridge_start evs = before ++ (true, text) :: after -> fresh_change before text) /\
  (forall evs1 ev evs2 serial text, evs = evs1 ++ ev :: evs2 ->
    Pasted serial text ∈ (bridge_step (bridge_run bridge_start evs1).1 ev).2 -> client_owns evs1 text).
Proof.
  split.
  - intros before text after (evs1 & ev & evs2 & _ & <- & C)%history_split. unfold fresh_change.
    destruct (step_change _ _ _ C) as (L & B & U). split_and!; try done; try apply B.
    destruct (bridge_state evs1) as [St _]. rewrite <-St; [done|].
    destruct (running (bridge_run bridge_start evs1).1) eqn:R; [done|]. unfold bridge_step in C. rewrite R in C.
    by apply elem_of_nil in C.
  - intros evs1 ev evs2 serial text _ (R & O)%step_pasted. by apply (bridge_state evs1).
Qed.
(** The client sets a text; the desktop's echo of it and the next copy are
    read; only the second reaches the client. *)
Definition bridge_trip : list BridgeEvent :=
  [SetText "hi" (Ok tt); SelectionTransfer (Some 7%N) Written;
   OwnerChanged (Some (false, ["text/plain"%string])) (fun _ => PipeBytes (as_bytes "hi")) true;
   OwnerChanged (Some (false, ["text/html"%string; "UTF8_STRING"%string])) (fun _ => PipeBytes (as_bytes "yo")) true;
   SelectionTransfer (Some 8%N) Written; SetClosed; SetText "no" (Ok tt)].
Lemma bridge_trip_runs : (bridge_run bridge_start bridge_trip).2 =
  [SetSelection OFFERED_MIME_TYPES; Pasted 7%N "hi"; WriteDone 7%N true; SelectionRead "text/plain";
   SelectionRead "UTF8_STRING"; Change "yo"; WriteDone 8%N false; Stop] /\
  history bridge_start bridge_trip = [(false, "hi"%string); (true, "yo"%string)].
Proof. split; vm_compute; reflexivity. Qed.
Lemma bridge_no_echo_witness : fresh_change [(false, "hi"%string)] "yo" /\ client_owns [SetText "hi" (Ok tt)] "hi".
Proof.
  destruct (bridge_no_echo bridge_trip) as [H1 H2]. split.
  - apply (H1 _ _ []). apply bridge_trip_runs.
  - apply (H2 [SetText "hi" (Ok tt)] (SelectionTransfer (Some 7%N) Written) (drop 2 bridge_trip) 7%N "hi"%string); [reflexivity|].
    apply list_elem_of_here.
Defined.

(** ** Starting *)

(** A bridge that started has a session with the clipboard enabled; a session
    that was started and is not used is stopped. *)
Lemma bridge_open_stops answer : let '(made, r) := bridge_open answer in
  (r = Ok bridge_start <-> Forall (fun call => answer call = None) START_CALLS) /\
  (EnableClipboard ∈ made -> r <> Ok bridge_start -> StopSession ∈ made).
Proof.
  unfold bridge_open, START_CALLS. cbn [start_calls].
  repeat (match goal with |- context [answer ?c] => destruct (answer c) eqn:? end;
    [split; [split; [discriminate|intros F; repeat (apply Forall_cons in F as [? F]; try congruence)]|];
     cbn; set_solver|]).
  split; [split; [intros _; repeat constructor; done|done]|done].
Qed.
