(* ===== verification/Broker.v ===== *)
(** * The console broker

    rivetlink-agent/src/console/broker.rs: which workers are let in, the pool
    that follows the newest one, the requests to a worker over its socket with
    the reader task that sorts its packets, the keyframe logic of a desktop
    stream, and the claims of viewers on the one stream. The requests run
    against the worker of [Worker] as one transition system. *)
From Stdlib Require Import NArith ZArith Lia Strings.String Strings.Byte.
From S2P Require Import Prelude Text Interfaces Instances Protocol Trusted Host SharedFolder Lan Worker.

Definition MAX_WORKER_RESPONSE : N := 12 * 1024 * 1024.

(** ** Who is let in *)

Definition parse_greeter_session_uid (line : string) : option N :=
  match split_whitespace line with
  | _ :: uid :: name :: _ =>
      let_some uid := parse_u32 uid else None in
      if bool_decide (name = "gdm-greeter"%string) || bool_decide (name = "gdm"%string) ||
         bool_decide (name = "lightdm"%string)
      then Some uid else None
  | _ => None
  end.
(** From the output of [loginctl], absent when it fails. *)
Definition active_greeter_uids (list_output : option bytes) : gset N :=
  match list_output with
  | Some output => list_to_set (omap parse_greeter_session_uid (lines (from_utf8_lossy output)))
  | None => ∅
  end.
(** One round of [spawn_greeter_refresh]: the permitted set and whether the
    task then sleeps. [grant] is the outcome of the ACL calls. *)
Definition refresh_greeters (discovered permitted : gset N) (grant : gset N -> bool) : gset N * bool :=
  let new_uids := discovered ∖ permitted in
  if negb (bool_decide (new_uids = ∅)) && negb (grant new_uids) then (permitted, false)
  else (discovered, true).
Definition worker_allowed (allowed_worker_uids active_greeter_uids : gset N) (uid : N) : bool :=
  bool_decide (uid ∈ allowed_worker_uids) || bool_decide (uid ∈ active_greeter_uids).
(** [accept]: the first connection of an allowed peer, the others are dropped. *)
Fixpoint accept_worker (allowed active : gset N) (peers : list N) : option (N * list N) :=
  match peers with
  | [] => None
  | uid :: rest => if worker_allowed allowed active uid then Some (uid, rest)
                   else accept_worker allowed active rest
  end.

(** ** The pool

    Connections are numbered by their generation. A watcher of a connection
    waits for its end, compares generations, then clears the slot. *)
Inductive WatchPc := Watching | Clearing | WatchDone.
Record Conn := { conn_open : bool; watch_pc : WatchPc }.
Record Pool := {
  (** The watch channel's value, as an index of [conns]. *)
  current : option nat;
  generation : nat;
  conns : list Conn;
  (** The accept task between the counter and the channel. *)
  publishing : option nat;
}.
Definition pool_start : Pool := {| current := None; generation := 0; conns := []; publishing := None |}.
Definition set_conn (i : nat) (c : Conn) (p : Pool) : Pool :=
  {| current := current p; generation := generation p; conns := <[i := c]> (conns p); publishing := publishing p |}.
Inductive pool_step : Pool -> Pool -> Prop :=
| pool_accept p : publishing p = None ->
    pool_step p {| current := current p; generation := generation p + 1; conns := conns p;
                   publishing := Some (generation p) |}
| pool_publish p g : publishing p = Some g ->
    pool_step p {| current := Some g; generation := generation p;
                   conns := conns p ++ [{| conn_open := true; watch_pc := Watching |}]; publishing := None |}
| pool_close p i c : conns p !! i = Some c ->
    pool_step p (set_conn i {| conn_open := false; watch_pc := watch_pc c |} p)
| pool_compare p i c : conns p !! i = Some c -> conn_open c = false -> watch_pc c = Watching ->
    pool_step p (set_conn i {| conn_open := false;
                               watch_pc := if (generation p =? i + 1)%nat then Clearing else WatchDone |} p)
| pool_clear p i c : conns p !! i = Some c -> watch_pc c = Clearing ->
    pool_step p {| current := None; generation := generation p;
                   conns := <[i := {| conn_open := conn_open c; watch_pc := WatchDone |}]> (conns p);
                   publishing := publishing p |}.

(** ** Errors and input *)

Definition worker_error (code : WorkerErrorCode) : AgentError :=
  match code with
  | NoGraphicalSession => Relay "the graphical console session is unavailable"
  | InvalidRequest => Relay "the console worker rejected the request"
  | GdmCaptureUnavailable => Relay "the existing GDM physical display cannot be captured through a supported GNOME API"
  | GdmInputUnavailable => Relay "the existing GDM physical display cannot accept remote input through a supported GNOME API"
  | ScreenCastUnavailable => Relay "the Mutter ScreenCast service is unavailable"
  | PipeWireUnavailable => Relay "the PipeWire capture service is unavailable"
  | CaptureAuthorizationDenied => Relay "the compositor denied console capture"
  | CompositorFailure => Relay "the console compositor could not capture the active display"
  | FrameEncodingFailed => Relay "the console frame could not be encoded"
  | SharingUnavailable => Share "clipboard and file sharing need a logged-in desktop"
  | ClipboardUnavailable => Share "the host clipboard is unavailable"
  | FileRejected => Share (ShareError_message Rejected)
  | FileIoFailed => Share (ShareError_message ShareIo)
  end.
Definition unexpected_share_response (response : WorkerResponse) : AgentError :=
  match response with
  | WResp.Error code => worker_error code
  | _ => Share "the console worker sent an unexpected response"
  end.
Definition ptr_button (b : MouseButton) : Ptr.PtrButton :=
  match b with Left => Ptr.Left | Right => Ptr.Right | Middle => Ptr.Middle end.
(** [inject]: the event as the worker gets it. *)
Definition worker_input (event : ConsoleInputPacket) : WorkerInput :=
  match event with
  | PointerMove x y => WIn.PointerMove x y
  | PointerButton button down => WIn.PointerButton (ptr_button button) down
  | Scroll dx dy => WIn.Scroll dx dy
  | Key code down => WIn.Key code down
  end.

(** ** The operations of a worker client, from the reply they get *)

Abbreviation Reply := (Result WorkerResponse AgentError).
Definition unexpected (what : string) : AgentError := Config ("unexpected console worker " ++ what ++ " response")%string.

Section Replies.
Context `{Base64}.
Definition capture_png (reply : Reply) : Result bytes AgentError :=
  let? response := reply in
  match response with
  | WResp.Capture png_b64 =>
      let? png := map_err Base64Error (b64_decode png_b64) in
      if (MAX_WORKER_RESPONSE <? len png)%N
      then Err (Config "console worker capture exceeds maximum size")
      else Ok png
  | WResp.Error code => Err (worker_error code)
  | _ => Err (unexpected "capture")
  end.
End Replies.
Definition send_input (reply : Reply) : Result unit AgentError :=
  let? response := reply in
  match response with
  | WResp.InputAccepted => Ok tt
  | WResp.Error code => Err (worker_error code)
  | _ => Err (unexpected "input")
  end.
(** [display_switch] and the state of the worker's [Ready]; no request is sent
    when they do not fit. *)
Definition list_displays_needed (state : HostConsoleState) (display_switch : bool) : bool :=
  display_switch && bool_decide (state = DesktopReady).
Definition list_worker_displays (state : HostConsoleState) (display_switch : bool) (reply : Reply)
  : Result (list DisplayInfo) AgentError :=
  if negb (list_displays_needed state display_switch) then Ok []
  else
    let? response := reply in
    match response with
    | WResp.Displays displays => Ok displays
    | WResp.Error code => Err (worker_error code)
    | _ => Err (unexpected "display-list")
    end.
Definition desktop_stopped (reply : Reply) : Result unit AgentError :=
  let? response := reply in
  match response with
  | WResp.DesktopStreamStopped => Ok tt
  | WResp.Error code => Err (worker_error code)
  | _ => Err (unexpected "desktop-stream stop")
  end.
Definition desktop_started (reply : Reply) : Result unit AgentError :=
  let? response := reply in
  match response with
  | WResp.DesktopStreamStarted => Ok tt
  | WResp.Error code => Err (worker_error code)
  | _ => Err (unexpected "desktop-stream")
  end.
(** Sharing. *)
Definition share_reply {A : Type} (expected : WorkerResponse -> option A) (reply : Reply) : Result A AgentError :=
  let? response := reply in ok_or (expected response) (unexpected_share_response response).
Definition clipboard_enabled (reply : Reply) : Result unit AgentError :=
  share_reply (fun r => match r with WResp.ClipboardEnabled => Some tt | _ => None end) reply.
Definition clipboard_accepted (reply : Reply) : Result unit AgentError :=
  share_reply (fun r => match r with WResp.ClipboardAccepted => Some tt | _ => None end) reply.
Definition file_accepted (reply : Reply) : Result unit AgentError :=
  share_reply (fun r => match r with WResp.FileAccepted => Some tt | _ => None end) reply.
Definition file_uploaded (reply : Reply) : Result string AgentError :=
  share_reply (fun r => match r with WResp.FileUploaded path => Some path | _ => None end) reply.
Definition shared_files (reply : Reply) : Result (list SharedEntry) AgentError :=
  share_reply (fun r => match r with WResp.SharedFiles entries => Some entries | _ => None end) reply.
Definition shared_file_data (reply : Reply) : Result (string * N * bool) AgentError :=
  share_reply (fun r => match r with WResp.SharedFileData b s e => Some (b, s, e) | _ => None end) reply.

(** ** Requests over the socket

    The worker with its socket and the broker's side of it: [wire] is what the
    worker has not read; the reader task has read [read_pos] packets and queued
    the replies among them; the request lock has a [holder] that waits for its
    reply. A caller whose future is dropped while it waits leaves the lock. *)
Record Link := {
  wk : Worker;
  wire : list WorkerRequest;
  read_pos : nat;
  responses : list WorkerResponse;
  holder : option WorkerRequest;
  (** The requests written under the lock; how many callers went away; what
      every served caller asked and got, and how many had gone away before. *)
  asked_of : list WorkerRequest;
  gone : nat;
  served : list (WorkerRequest * WorkerResponse * nat);
}.
Definition link_start (w : Worker) : Link :=
  {| wk := w; wire := []; read_pos := 1; responses := []; holder := None; asked_of := []; gone := 0; served := [] |}.
Definition with_worker (w : Worker) (l : Link) : Link :=
  {| wk := w; wire := wire l; read_pos := read_pos l; responses := responses l; holder := holder l;
     asked_of := asked_of l; gone := gone l; served := served l |}.

Section Link.
Context `{Base64}.
Inductive link_step : Link -> Link -> Prop :=
(** [request]: lock and write. A packet is written whole; a caller that goes
    away in the middle of [write_packet] would leave a cut one on the socket,
    which is not modelled. *)
| link_request q l : holder l = None -> expects_reply q = true ->
    link_step l {| wk := wk l; wire := wire l ++ [q]; read_pos := read_pos l; responses := responses l;
                   holder := Some q; asked_of := asked_of l ++ [q]; gone := gone l; served := served l |}
(** [request_keyframe]: a task writes and nobody waits. *)
| link_keyframe congested l :
    link_step l {| wk := wk l; wire := wire l ++ [WReq.RequestKeyframe congested]; read_pos := read_pos l;
                   responses := responses l; holder := holder l; asked_of := asked_of l; gone := gone l;
                   served := served l |}
(** The worker reads a request; or does anything else. *)
| link_take env q rest l : wire l = q :: rest -> w_main (wk l) = Reading ->
    link_step l {| wk := take_request env q (wk l); wire := rest; read_pos := read_pos l;
                   responses := responses l; holder := holder l; asked_of := asked_of l; gone := gone l;
                   served := served l |}
| link_worker w l : worker_step (fun _ _ => False) (wk l) w -> link_step l (with_worker w l)
(** The reader task. *)
| link_read r l : w_out (wk l) !! read_pos l = Some r ->
    link_step l {| wk := wk l; wire := wire l; read_pos := read_pos l + 1;
                   responses := responses l ++ (if is_pushed r then [] else [r]); holder := holder l;
                   asked_of := asked_of l; gone := gone l; served := served l |}
| link_receive q r rest l : holder l = Some q -> responses l = r :: rest ->
    link_step l {| wk := wk l; wire := wire l; read_pos := read_pos l; responses := rest; holder := None;
                   asked_of := asked_of l; gone := gone l; served := served l ++ [(q, r, gone l)] |}
| link_cancel q l : holder l = Some q ->
    link_step l {| wk := wk l; wire := wire l; read_pos := read_pos l; responses := responses l; holder := None;
                   asked_of := asked_of l; gone := gone l + 1; served := served l |}.

(** The replies the broker has or had, in order. *)
Definition replies_so_far (l : Link) : list WorkerResponse :=
  map (fun x => x.1.2) (served l) ++ responses l.
Record link_ok (l : Link) : Prop := {
  link_answers : answers_ok (wk l);
  link_requests : asked_of l = asked (wk l) ++ filter (fun q => expects_reply q = true) (wire l);
  link_replies : read_pos l >= 1 /\ replies_so_far l ++ replies (drop (read_pos l) (w_out (wk l))) = got (wk l);
  link_count : length (asked_of l) = length (served l) + gone l + match holder l with Some _ => 1 | None => 0 end;
  link_holder : forall q, holder l = Some q -> last (asked_of l) = Some q;
  link_served : forall j q r k, served l !! j = Some (q, r, k) -> asked_of l !! (j + k) = Some q;
}.

Lemma worker_step_taken may_take w w' : worker_step may_take w w' ->
  (exists q, w_taken w' = w_taken w ++ [q] /\ may_take w q) \/ w_taken w' = w_taken w.
Proof.
  intros [env q ? ? ?| | |]; [left; exists q; split; [apply take_request_logs|done]| | |by right].
  - right. unfold main_step in *. repeat case_match; by simplify_eq.
  - right. unfold stream_step in *. repeat case_match; by simplify_eq.
Qed.

Lemma replies_grow more l : read_pos l >= 1 -> w_out (wk l) <> [] ->
  replies (tail (w_out (wk l) ++ more)) = got (wk l) ++ replies more /\
  replies (drop (read_pos l) (w_out (wk l) ++ more)) =
    replies (drop (read_pos l) (w_out (wk l))) ++ replies (drop (read_pos l - length (w_out (wk l))) more).
Proof.
  intros Hp N. unfold got. split.
  - destruct (w_out (wk l)); [done|]. cbn [tail app]. unfold replies. by rewrite filter_app.
  - unfold replies. by rewrite drop_app, filter_app.
Qed.

Lemma link_start_ok session d : link_ok (link_start (worker_start session d)).
Proof. split; simpl; try done; [split; [done|constructor]|split; [lia|done]]. Qed.
Lemma link_step_ok l l' : link_step l l' -> link_ok l -> read_pos l <= length (w_out (wk l)) ->
  link_ok l' /\ read_pos l' <= length (w_out (wk l')).
Proof.
  intros S [A R [Hp G] C Hh Hs] P. destruct S as [q l E X|c l|env q rest l E M|w l S|r l E|q r rest l E Er|q l E].
  - split; [|done]. split; simpl; try done.
    + by rewrite R, filter_app, filter_cons_True, <-app_assoc.
    + rewrite length_app, C, E. simpl. lia.
    + intros q' [= <-]. by rewrite last_snoc.
    + intros j q' r k Ej. specialize (Hs _ _ _ _ Ej). by apply lookup_app_l_Some.
  - split; [|done]. split; simpl; try done. by rewrite R, filter_app, filter_cons_False, app_nil_r.
  - destruct (take_request_logs env q (wk l)) as [Eo Et]. split; [|simpl; by rewrite Eo].
    assert (asked (take_request env q (wk l)) = asked (wk l) ++ filter (fun q => expects_reply q = true) [q]) as Ea
      by (unfold asked; by rewrite Et, filter_app).
    split; simpl; try done.
    + by apply take_request_answers.
    + rewrite R, E, Ea, <-app_assoc. f_equal. by rewrite <-filter_app.
    + split; [done|]. unfold got. by rewrite Eo.
  - pose proof (worker_step_answers _ _ _ S A) as A'. destruct (worker_out_grows _ _ _ S) as [more Em].
    assert (asked w = asked (wk l)) as Ea.
    { unfold asked. destruct (worker_step_taken _ _ _ S) as [(q & _ & [])| ->]; done. }
    destruct A as [N _]. destruct (replies_grow more l Hp N) as [G1 G2].
    split; [|simpl; rewrite Em, length_app; lia]. split; simpl; try done.
    + by rewrite Ea.
    + split; [done|]. unfold got at 1. rewrite Em, G1, G2, <-G.
      replace (read_pos l - length (w_out (wk l))) with 0 by lia. by rewrite drop_0, app_assoc.
  - split; [|simpl; apply lookup_lt_Some in E; lia]. split; simpl; try done. split; [lia|].
    rewrite <-G. unfold replies_so_far. simpl. rewrite (drop_S _ _ _ E), Nat.add_1_r. rewrite <-!app_assoc. do 2 f_equal.
    unfold replies. destruct (is_pushed r) eqn:Ep; [by rewrite filter_cons_False by (by rewrite Ep)|].
    by rewrite filter_cons_True.
  - split; [|done]. split; simpl; try done.
    + split; [done|]. rewrite <-G. unfold replies_so_far. simpl. by rewrite Er, map_app, <-!app_assoc.
    + rewrite length_app, C, E. simpl. lia.
    + intros j q' r' k Ej. apply lookup_app_Some in Ej as [Ej|[Hl Ej]]; [by apply Hs in Ej|].
      apply list_lookup_singleton_Some in Ej as [Hj [= <- <- <-]].
      specialize (Hh q E). rewrite last_lookup in Hh. rewrite <-Hh. f_equal. rewrite C, E. lia.
  - split; [|done]. split; simpl; try done. rewrite C, E. lia.
Qed.

(** C17. Requests and replies pair up as long as no caller goes away: in every
    interleaving of callers, the worker's tasks and the reader task, what the
    [j]-th served caller got is a reply to the [j]-th request written, and its
    own request was written as many places later as callers had gone away
    before it. Without any, every caller gets a reply to its own request;
    after the first, all get the reply of an earlier one from then on. *)
Theorem replies_shift_with_cancellations session d l :
  rtc link_step (link_start (worker_start session d)) l ->
  (forall j q r k, served l !! j = Some (q, r, k) ->
     asked_of l !! (j + k) = Some q /\ exists q', asked_of l !! j = Some q' /\ answers q' r) /\
  (gone l = 0 -> forall q r k, (q, r, k) ∈ served l -> answers q r).
Proof.
  intros R. assert (link_ok l /\ read_pos l <= length (w_out (wk l))) as [[A Q [Hp G] C Hh Hs] P].
  { refine (invariant_rtc link_step (fun l => link_ok l /\ read_pos l <= length (w_out (wk l))) _ _ _ R _).
    - intros x y S [I P]. by eapply link_step_ok.
    - split; [apply link_start_ok|]. simpl. lia. }
  assert (forall j q r k, served l !! j = Some (q, r, k) ->
    asked_of l !! (j + k) = Some q /\ exists q', asked_of l !! j = Some q' /\ answers q' r) as H1.
  { intros j q r k Ej. split; [by eapply Hs|].
    assert (got (wk l) !! j = Some r) as Eg.
    { rewrite <-G. unfold replies_so_far. rewrite <-app_assoc. apply lookup_app_l_Some.
      rewrite list_lookup_fmap, Ej. done. }
    destruct A as [_ A].
    assert (exists qs, qs `prefix_of` asked (wk l) /\ exists rs, Forall2 answers qs (got (wk l) ++ rs)) as (qs & [rest E] & rs & F).
    { destruct (w_main (wk l)); cbn in A.
      - exists (asked (wk l)). split; [done|]. exists []. by rewrite app_nil_r.
      - eexists. split; [done|]. by eexists.
      - eexists. split; [done|]. by eexists.
      - eexists. split; [done|]. by eexists.
      - destruct A as (qs & rest & -> & _ & F). exists qs. split; [by apply prefix_app_r|]. exists []. by rewrite app_nil_r. }
    eapply Forall2_lookup_r in F as (q' & Eq & Ha); [|by apply lookup_app_l_Some].
    exists q'. split; [|done]. rewrite Q, E, <-app_assoc. by apply lookup_app_l_Some. }
  split; [done|]. intros Hg q r k [j Ej]%list_elem_of_lookup.
  assert (k = 0) as ->.
  { assert (forall l, rtc link_step (link_start (worker_start session d)) l ->
      Forall (fun x => x.2 <= gone l) (served l)) as F.
    { intros l0 R0. refine (invariant_rtc link_step (fun l => Forall (fun x => x.2 <= gone l) (served l)) _ _ _ R0 _); [|constructor].
      intros x y [] F; simpl; try done.
      - apply Forall_app. split; [done|]. by repeat constructor.
      - eapply Forall_impl; [exact F|]. simpl. lia. }
    specialize (F l R). rewrite Forall_lookup in F. specialize (F j _ Ej). simpl in F. lia. }
  destruct (H1 j q r 0 Ej) as [E1 (q' & E2 & Ha)]. rewrite Nat.add_0_r in E1. congruence.
Qed.
End Link.

(** ** Concrete runs of a link *)

Inductive LMove := LRequest (q : WorkerRequest) | LTake | LMain | LRead | LReceive | LCancel.
Section LinkRuns.
Context `{Base64} (env : WorkerEnv).
Definition lmove (m : LMove) (l : Link) : option Link :=
  match m with
  | LRequest q =>
      match holder l, expects_reply q with
      | None, true =>
          Some {| wk := wk l; wire := wire l ++ [q]; read_pos := read_pos l; responses := responses l;
                  holder := Some q; asked_of := asked_of l ++ [q]; gone := gone l; served := served l |}
      | _, _ => None
      end
  | LTake =>
      match wire l, w_main (wk l) with
      | q :: rest, Reading =>
          Some {| wk := take_request env q (wk l); wire := rest; read_pos := read_pos l;
                  responses := responses l; holder := holder l; asked_of := asked_of l; gone := gone l;
                  served := served l |}
      | _, _ => None
      end
  | LMain => let_some w := main_step true (wk l) else None in Some (with_worker w l)
  | LRead =>
      let_some r := w_out (wk l) !! read_pos l else None in
      Some {| wk := wk l; wire := wire l; read_pos := read_pos l + 1;
              responses := responses l ++ (if is_pushed r then [] else [r]); holder := holder l;
              asked_of := asked_of l; gone := gone l; served := served l |}
  | LReceive =>
      match holder l, responses l with
      | Some q, r :: rest =>
          Some {| wk := wk l; wire := wire l; read_pos := read_pos l; responses := rest; holder := None;
                  asked_of := asked_of l; gone := gone l; served := served l ++ [(q, r, gone l)] |}
      | _, _ => None
      end
  | LCancel =>
      match holder l with
      | Some _ =>
          Some {| wk := wk l; wire := wire l; read_pos := read_pos l; responses := responses l; holder := None;
                  asked_of := asked_of l; gone := gone l + 1; served := served l |}
      | None => None
      end
  end.
Fixpoint lmoves (ms : list LMove) (l : Link) : option Link :=
  match ms with
  | [] => Some l
  | m :: ms => let_some l := lmove m l else None in lmoves ms l
  end.
Lemma lmoves_reach ms l l' : lmoves ms l = Some l' -> rtc link_step l l'.
Proof.
  revert l. induction ms as [|m ms IH]; intros l E; cbn in E; [by simplify_eq|].
  destruct (lmove m l) as [l1|] eqn:Em; [|done]. eapply rtc_l; [|by apply IH]. clear E IH.
  destruct m; cbn in Em.
  - repeat case_match; simplify_eq. by apply link_request.
  - repeat case_match; simplify_eq. by apply link_take.
  - destruct (main_step _ _) eqn:E; simplify_eq. eapply link_worker. by eapply step_main.
  - destruct (_ !! _) eqn:E; simplify_eq. by apply link_read.
  - repeat case_match; simplify_eq. by eapply link_receive.
  - repeat case_match; simplify_eq. by eapply link_cancel.
Qed.
End LinkRuns.

Definition ex_link : Link := link_start ex_start.
Definition one_request (q : WorkerRequest) : list LMove := [LRequest q; LTake; LMain; LRead; LReceive].
Definition ex_input : WorkerRequest := WReq.Input (WIn.Key "KeyA" true).
Definition ex_requests : list LMove := one_request (WReq.Capture 5000) ++ one_request ex_input.
Definition ex_link_end : Link := default ex_link (lmoves ex_env ex_requests ex_link).
Lemma replies_shift_with_cancellations_witness :
  served ex_link_end = [(WReq.Capture 5000, WResp.Capture (b64_encode (as_bytes "png")), 0);
                        (ex_input, WResp.InputAccepted, 0)] /\
  forall q r k, (q, r, k) ∈ served ex_link_end -> answers q r.
Proof.
  split; [vm_compute; reflexivity|].
  apply (replies_shift_with_cancellations ex_session ex_disk ex_link_end); [|vm_compute; reflexivity].
  apply (lmoves_reach ex_env ex_requests). vm_compute. reflexivity.
Defined.

(** A capture whose caller timed out: the next input is refused although it was
    injected, the request after it gets the input's reply, and so on. *)
Lemma cancelled_capture_shifts_replies :
  exists l, rtc link_step ex_link l /\
    served l = [(ex_input, WResp.Capture (b64_encode (as_bytes "png")), 1);
                (WReq.ListSharedFiles, WResp.InputAccepted, 1)] /\
    send_input (Ok (WResp.Capture (b64_encode (as_bytes "png")))) = Err (unexpected "input") /\
    w_injected (wk l) = [(Spawn None, ActKey "KeyA" true)].
Proof.
  eexists. split.
  - apply (lmoves_reach ex_env ([LRequest (WReq.Capture 5000); LCancel] ++
      [LRequest ex_input; LTake; LMain; LRead; LReceive] ++
      [LRequest WReq.ListSharedFiles; LTake; LMain; LRead; LReceive])).
    vm_compute. reflexivity.
  - split_and!; vm_compute; reflexivity.
Qed.

(** ** Reading a desktop stream

    [ConsoleDesktopStream::next], event by event. *)
Record DesktopReader := {
  video : bool;
  awaiting_keyframe : bool;
  keyframe_requested : bool;
  lagged : bool;
  last_viewer_keyframe : option N;
}.
Definition desktop_reader : DesktopReader :=
  {| video := false; awaiting_keyframe := true; keyframe_requested := false; lagged := false;
     last_viewer_keyframe := None |}.
Inductive DesktopEvent :=
| FrameIn (frame : StreamFrame)
| FramesLagged
| FramesGone
| EndedWith (code : WorkerErrorCode)
| EndedLagged
| EndedGone.
Inductive Next :=
| Deliver (frame : StreamFrame)
| GoOn
| Fails (error : AgentError).

(** The keyframe requests made, with their congestion flag, and the outcome. *)
Definition next_event (ev : DesktopEvent) (s : DesktopReader) : DesktopReader * list bool * Next :=
  match ev with
  | FrameIn (Video frame) =>
      if vf_keyframe frame then
        ({| video := true; awaiting_keyframe := false; keyframe_requested := false; lagged := lagged s;
            last_viewer_keyframe := last_viewer_keyframe s |}, [], Deliver (Video frame))
      else if awaiting_keyframe s then
        if keyframe_requested s then
          ({| video := true; awaiting_keyframe := true; keyframe_requested := true; lagged := lagged s;
              last_viewer_keyframe := last_viewer_keyframe s |}, [], GoOn)
        else
          ({| video := true; awaiting_keyframe := true; keyframe_requested := true; lagged := false;
              last_viewer_keyframe := last_viewer_keyframe s |}, [lagged s], GoOn)
      else
        ({| video := true; awaiting_keyframe := false; keyframe_requested := keyframe_requested s;
            lagged := lagged s; last_viewer_keyframe := last_viewer_keyframe s |}, [], Deliver (Video frame))
  | FrameIn frame => (s, [], Deliver frame)
  | FramesLagged =>
      if video s then
        ({| video := video s; awaiting_keyframe := true; keyframe_requested := true; lagged := lagged s;
            last_viewer_keyframe := last_viewer_keyframe s |}, [true], GoOn)
      else
        ({| video := video s; awaiting_keyframe := true; keyframe_requested := false; lagged := true;
            last_viewer_keyframe := last_viewer_keyframe s |}, [], GoOn)
  | FramesGone | EndedGone => (s, [], Fails (Relay "normal desktop stream closed"))
  | EndedWith code => (s, [], Fails (worker_error code))
  | EndedLagged => (s, [], GoOn)
  end.
Definition MIN_GAP : N := 500 * 1000000.
Definition viewer_keyframe (now : N) (s : DesktopReader) : DesktopReader * list bool :=
  if negb (video s) ||
     match last_viewer_keyframe s with Some at_ => (duration_since now at_ <? MIN_GAP)%N | None => false end
  then (s, [])
  else ({| video := video s; awaiting_keyframe := awaiting_keyframe s; keyframe_requested := keyframe_requested s;
           lagged := lagged s; last_viewer_keyframe := Some now |}, [false]).

(** What a viewer's session did: events and its own keyframe requests. *)
Inductive ReaderInput := Event (ev : DesktopEvent) | ViewerKeyframe (now : N).
Inductive ReaderTrace := Lost | Requested (congested : bool) | Passed (frame : StreamFrame) | HeldBack.
Definition reader_input (i : ReaderInput) (s : DesktopReader) : DesktopReader * list ReaderTrace :=
  match i with
  | Event ev =>
      let '(s', requests, next) := next_event ev s in
      let lost := match ev with FramesLagged => [Lost] | _ => [] end in
      (s', lost ++ map Requested requests ++
           match next, ev with
           | Deliver frame, _ => [Passed frame]
           | GoOn, FrameIn _ => [HeldBack]
           | _, _ => []
           end)
  | ViewerKeyframe now => let '(s', requests) := viewer_keyframe now s in (s', map Requested requests)
  end.
Fixpoint reader_run (ins : list ReaderInput) (s : DesktopReader) : DesktopReader * list ReaderTrace :=
  match ins with
  | [] => (s, [])
  | i :: ins => let '(s', t) := reader_input i s in let '(s'', t') := reader_run ins s' in (s'', t ++ t')
  end.

(** A decoder on the trace: [ready] after a keyframe until frames are lost;
    [asked] once a keyframe was requested that is still due. A delta needs
    [ready]; holding one back needs [asked]. *)
Definition decoder_step (s : option (bool * bool)) (t : ReaderTrace) : option (bool * bool) :=
  let_some (ready, asked) := s else None in
  match t with
  | Lost => Some (false, false)
  | Requested _ => Some (ready, true)
  | Passed (Video frame) =>
      if vf_keyframe frame then Some (true, false) else if ready then Some (ready, asked) else None
  | Passed (Tiles _) => Some (ready, asked)
  | HeldBack => if asked then Some (ready, asked) else None
  end.
Definition decoder_ok (s : DesktopReader) (d : bool * bool) : Prop :=
  d.1 = negb (awaiting_keyframe s) /\ (awaiting_keyframe s = true -> keyframe_requested s = true -> d.2 = true).

Lemma reader_input_ok i s d : decoder_ok s d ->
  exists d', foldl decoder_step (Some d) (reader_input i s).2 = Some d' /\ decoder_ok (reader_input i s).1 d'.
Proof.
  destruct d as [ready asked_]. intros [Hr Ha]. cbn [fst snd] in *. subst ready. unfold decoder_ok.
  destruct i as [ev|now]; cbn.
  - destruct ev as [[delta|frame]| | |code| |]; cbn.
    + eexists. split; [reflexivity|]. by split.
    + destruct (vf_keyframe frame) eqn:K; cbn; [rewrite K; eexists; split; [reflexivity|]; by split|].
      destruct (awaiting_keyframe s) eqn:A; cbn.
      * destruct (keyframe_requested s) eqn:Q; cbn; [rewrite (Ha eq_refl eq_refl)|];
          (eexists; split; [reflexivity|by split]).
      * rewrite K. eexists. split; [reflexivity|]. by split.
    + destruct (video s) eqn:V; cbn; (eexists; split; [reflexivity|by split]).
    + eexists. split; [reflexivity|]. by split.
    + eexists. split; [reflexivity|]. by split.
    + eexists. split; [reflexivity|]. by split.
    + eexists. split; [reflexivity|]. by split.
  - unfold viewer_keyframe. destruct (_ || _); cbn; (eexists; split; [reflexivity|]; split; cbn; auto).
Qed.

(** What a viewer is handed can always be decoded: it starts video at a
    keyframe, and after lost frames again; the deltas in between are held
    back, and none without a keyframe having been asked for since the frames
    were lost, so the wait for it ends. *)
Theorem desktop_reader_decodable inputs :
  is_Some (foldl decoder_step (Some (false, false)) (reader_run inputs desktop_reader).2).
Proof.
  assert (forall s d, decoder_ok s d ->
    is_Some (foldl decoder_step (Some d) (reader_run inputs s).2)) as G.
  { induction inputs as [|i ins IH]; intros s d Hd; cbn; [by eexists|].
    destruct (reader_input_ok i s d Hd) as (d' & E & Hd'). destruct (reader_input i s) as [s1 t] eqn:Ei.
    specialize (IH s1 d' Hd'). destruct (reader_run ins s1) as [s2 t']. cbn in *. by rewrite foldl_app, E. }
  apply (G desktop_reader (false, false)). by split.
Qed.

(** ** Claims on the desktop stream

    One worker: [active] is the broker's flag, [running] the viewer for whom
    the worker streams. A viewer is [Ended] when its stream came to an end by
    itself, while it waits for a login screen; it stops the stream at its end
    in any case, unless a failed switch stopped it ([Left true]). *)
Inductive ViewerPc :=
| Arriving (take_over : bool)
| Claiming (id : nat)
| Viewing (id : nat)
| Switching (id : nat)
| Ended (id : nat)
| Leaving
| StopSent
| Left_ (served : bool).
Record Desk := {
  active : bool;
  running : option nat;
  desktop_owner : nat;
  claim_lock : option nat;
  viewers : list ViewerPc;
}.
Definition desk_start (viewers : list bool) : Desk :=
  {| active := false; running := None; desktop_owner := 0; claim_lock := None; viewers := map Arriving viewers |}.
Definition desk (a : bool) (r : option nat) (o : nat) (l : option nat) (v : nat) (p : ViewerPc) (d : Desk) : Desk :=
  {| active := a; running := r; desktop_owner := o; claim_lock := l; viewers := <[v := p]> (viewers d) |}.

(** [may_end]: whether a stream may come to an end by itself. *)
Inductive desk_step (may_end : bool) : Desk -> Desk -> Prop :=
(** [claim_desktop_stream]. *)
| desk_refuse v d : viewers d !! v = Some (Arriving false) -> claim_lock d = None -> active d = true ->
    desk_step may_end d (desk (active d) (running d) (desktop_owner d) None v (Left_ false) d)
| desk_claim v take_over d : viewers d !! v = Some (Arriving take_over) -> claim_lock d = None ->
    take_over = true \/ active d = false ->
    desk_step may_end d (desk (active d) (running d) (desktop_owner d + 1) (Some v) v (Claiming (desktop_owner d + 1)) d)
| desk_claim_timeout v id d : viewers d !! v = Some (Claiming id) -> active d = true ->
    desk_step may_end d (desk (active d) (running d) (desktop_owner d) None v (Left_ false) d)
(** [start_desktop_stream]: the worker refuses while it streams. *)
| desk_start_stream v id d : viewers d !! v = Some (Claiming id) -> active d = false -> running d = None ->
    desk_step may_end d (desk true (Some v) (desktop_owner d) None v (Viewing id) d)
| desk_start_refused v id r d : viewers d !! v = Some (Claiming id) -> active d = false -> running d = Some r ->
    desk_step may_end d (desk false (running d) (desktop_owner d) None v (Left_ false) d)
(** The viewer's loop: taken over, or its client leaves. *)
| desk_taken_over v id d : viewers d !! v = Some (Viewing id) -> desktop_owner d <> id ->
    desk_step may_end d (desk (active d) (running d) (desktop_owner d) (claim_lock d) v Leaving d)
| desk_leave v id d : viewers d !! v = Some (Viewing id) ->
    desk_step may_end d (desk (active d) (running d) (desktop_owner d) (claim_lock d) v Leaving d)
(** [switch_desktop_display]: under the claim lock, by the newest owner. *)
| desk_switch v id d : viewers d !! v = Some (Viewing id) -> claim_lock d = None -> desktop_owner d = id ->
    desk_step may_end d (desk false None (desktop_owner d) (Some v) v (Switching id) d)
| desk_switched v id d : viewers d !! v = Some (Switching id) ->
    desk_step may_end d (desk true (Some v) (desktop_owner d) None v (Viewing id) d)
| desk_switch_failed v id d : viewers d !! v = Some (Switching id) ->
    desk_step may_end d (desk false None (desktop_owner d) None v (Left_ true) d)
(** The worker's stream ends by itself; the viewer reads that. *)
| desk_stream_ends v id d : may_end = true -> running d = Some v -> viewers d !! v = Some (Viewing id) ->
    desk_step may_end d (desk false None (desktop_owner d) (claim_lock d) v (Ended id) d)
| desk_login_wait_over v id d : viewers d !! v = Some (Ended id) ->
    desk_step may_end d (desk (active d) (running d) (desktop_owner d) (claim_lock d) v Leaving d)
(** [stop_desktop_stream]: the flag, then the worker. *)
| desk_stop v d : viewers d !! v = Some Leaving ->
    desk_step may_end d (desk false (running d) (desktop_owner d) (claim_lock d) v StopSent d)
| desk_stopped v d : viewers d !! v = Some StopSent ->
    desk_step may_end d (desk (active d) None (desktop_owner d) (claim_lock d) v (Left_ true) d).

(** Whether the worker streams for this viewer. *)
Definition streams (p : ViewerPc) : bool :=
  match p with Viewing _ | Leaving | StopSent => true | _ => false end.
Record desk_ok (d : Desk) : Prop := {
  desk_running : forall v p, viewers d !! v = Some p -> (streams p = true <-> running d = Some v);
  desk_bound : forall v, running d = Some v -> is_Some (viewers d !! v);
  desk_switching : forall v id, viewers d !! v = Some (Switching id) -> running d = None /\ claim_lock d = Some v;
  desk_locked : forall v id, viewers d !! v = Some (Claiming id) -> claim_lock d = Some v;
  desk_no_end : forall v id, viewers d !! v <> Some (Ended id);
}.

Lemma viewers_desk a r o l v p d u : is_Some (viewers d !! v) ->
  viewers (desk a r o l v p d) !! u = if decide (u = v) then Some p else viewers d !! u.
Proof.
  intros [q E]. cbn. destruct (decide (u = v)) as [->|Hn].
  - rewrite list_lookup_insert_eq; [done|]. by eapply lookup_lt_Some.
  - by rewrite list_lookup_insert_ne.
Qed.
(** A viewer that moves to a state that does not stream, or the one that streams. *)
Lemma desk_move_ok a r o l v p d : desk_ok d -> is_Some (viewers d !! v) ->
  (r = running d \/ r = None /\ (running d = Some v \/ running d = None) \/ r = Some v /\ running d = None) ->
  (streams p = true <-> r = Some v) ->
  (l = claim_lock d \/ claim_lock d = None \/ claim_lock d = Some v) ->
  (forall id, p = Switching id -> r = None /\ l = Some v) ->
  (forall id, p = Claiming id -> l = Some v) -> (forall id, p <> Ended id) ->
  (r = Some v -> running d = None -> claim_lock d = Some v \/ claim_lock d = None) ->
  desk_ok (desk a r o l v p d).
Proof.
  intros [R B W L N] Hv Hr Hp Hl Hs Hc He Hx.
  assert (forall u, viewers (desk a r o l v p d) !! u = if decide (u = v) then Some p else viewers d !! u) as V
    by (intros u; by apply viewers_desk).
  split; cbn [running claim_lock desk].
  - intros u q. rewrite V. destruct (decide (u = v)) as [->|Hn]; [by intros [= <-]|]. intros E.
    rewrite (R u q E). destruct Hr as [->|[[-> [Hr|Hr]]|[-> Hr]]]; [done| |by rewrite Hr|].
    + rewrite Hr. split; congruence.
    + rewrite Hr. split; congruence.
  - intros u Eu. rewrite V. destruct (decide (u = v)); [done|]. apply B.
    destruct Hr as [->|[[-> _]|[-> _]]]; congruence.
  - intros u id. rewrite V. destruct (decide (u = v)) as [->|Hn]; [intros [= E]; by eapply Hs|].
    intros E. destruct (W u id E) as [Ru Lu]. split.
    + destruct Hr as [->|[[-> _]|[-> Hr]]]; [done..|]. destruct (Hx eq_refl Hr); congruence.
    + destruct Hl as [->|[Hl|Hl]]; congruence.
  - intros u id. rewrite V. destruct (decide (u = v)) as [->|Hn]; [intros [= E]; by eapply Hc|].
    intros E. pose proof (L u id E). destruct Hl as [->|[Hl|Hl]]; congruence.
  - intros u id. rewrite V. destruct (decide (u = v)); [intros [= E]; by eapply He|apply N].
Qed.
Lemma desk_step_ok d d' : desk_step false d d' -> desk_ok d -> desk_ok d'.
Proof.
  intros S I. pose proof I as [R B W L N].
  destruct S; try done; try (match goal with E : viewers _ !! _ = Some (Ended _) |- _ => by apply N in E end);
    (eapply desk_move_ok; [exact I|by eexists|..]); try done;
    try (by left); try (match goal with E : viewers ?d !! ?v = Some _ |- _ => pose proof (R v _ E) as Rv end; cbn in Rv |- *).
  all: try match goal with E : viewers ?d !! ?v = Some (Claiming _) |- _ => pose proof (L v _ E) end.
  all: try match goal with E : viewers ?d !! ?v = Some (Switching _) |- _ => destruct (W v _ E) as [? ?] end.
  all: destruct Rv as [Rv1 Rv2]; clear R B W L N I; intuition congruence.
Qed.

(** One viewer at a time, and the newest keeps its stream: while no stream
    ends by itself, in every interleaving of claims with and without
    take-over, display switches, departures and stops, the viewer that is on
    the desktop is the one the worker streams for, so no two are. *)
Theorem viewing_has_the_stream arriving d :
  rtc (desk_step false) (desk_start arriving) d ->
  forall v id, viewers d !! v = Some (Viewing id) ->
  running d = Some v /\ forall u id', viewers d !! u = Some (Viewing id') -> u = v.
Proof.
  intros S. assert (desk_ok d) as I.
  { refine (invariant_rtc (desk_step false) desk_ok _ _ _ S _); [by intros; eapply desk_step_ok|].
    assert (forall v p, map Arriving arriving !! v = Some p -> exists b, p = Arriving b) as A.
    { intros v p E. rewrite list_lookup_fmap in E. destruct (arriving !! v); simplify_eq/=. by eexists. }
    split; cbn; try done; intros v p E; destruct (A v _ E); simplify_eq. done. }
  intros v id E. pose proof (proj1 (desk_running _ I v _ E) eq_refl) as Rv. split; [done|].
  intros u id' Eu. pose proof (proj1 (desk_running _ I u _ Eu) eq_refl). congruence.
Qed.

Lemma viewing_has_the_stream_witness :
  exists d, viewers d !! 1%nat = Some (Viewing 2) /\ running d = Some 1%nat.
Proof.
  set (d0 := desk_start [false; true]).
  set (d1 := desk (active d0) (running d0) 1 (Some 0%nat) 0 (Claiming 1) d0).
  set (d2 := desk true (Some 0%nat) 1 None 0 (Viewing 1) d1).
  set (d3 := desk (active d2) (running d2) 2 (Some 1%nat) 1 (Claiming 2) d2).
  set (d4 := desk (active d3) (running d3) 2 (claim_lock d3) 0 Leaving d3).
  set (d5 := desk false (running d4) 2 (claim_lock d4) 0 StopSent d4).
  set (d6 := desk (active d5) None 2 (claim_lock d5) 0 (Left_ true) d5).
  set (d7 := desk true (Some 1%nat) 2 None 1 (Viewing 2) d6).
  exists d7. split; [reflexivity|].
  refine (proj1 (viewing_has_the_stream [false; true] d7 _ 1 2 eq_refl)).
  eapply rtc_l; [exact (desk_claim false 0 false d0 eq_refl eq_refl (or_intror eq_refl))|].
  eapply rtc_l; [exact (desk_start_stream false 0 1 d1 eq_refl eq_refl eq_refl)|].
  eapply rtc_l; [exact (desk_claim false 1 true d2 eq_refl eq_refl (or_introl eq_refl))|].
  eapply rtc_l; [refine (desk_taken_over false 0 1 d3 eq_refl _); discriminate|].
  eapply rtc_l; [exact (desk_stop false 0 d4 eq_refl)|].
  eapply rtc_l; [exact (desk_stopped false 0 d5 eq_refl)|].
  eapply rtc_l; [exact (desk_start_stream false 1 2 d6 eq_refl eq_refl eq_refl)|].
  apply rtc_refl.
Defined.

(** A stream that ended by itself: its viewer waits for a login screen, another
    one comes, and the first one's stop then ends the stream of the second,
    which is not told. *)
Lemma ended_viewer_stops_successor :
  exists d, rtc (desk_step true) (desk_start [false; false]) d /\
    viewers d = [Left_ true; Viewing 2] /\ desktop_owner d = 2 /\ running d = None.
Proof.
  set (d0 := desk_start [false; false]).
  set (d1 := desk (active d0) (running d0) 1 (Some 0%nat) 0 (Claiming 1) d0).
  set (d2 := desk true (Some 0%nat) 1 None 0 (Viewing 1) d1).
  set (d3 := desk false None 1 None 0 (Ended 1) d2).
  set (d4 := desk (active d3) (running d3) 2 (Some 1%nat) 1 (Claiming 2) d3).
  set (d5 := desk true (Some 1%nat) 2 None 1 (Viewing 2) d4).
  set (d6 := desk (active d5) (running d5) 2 (claim_lock d5) 0 Leaving d5).
  set (d7 := desk false (running d6) 2 (claim_lock d6) 0 StopSent d6).
  exists (desk (active d7) None 2 (claim_lock d7) 0 (Left_ true) d7). split; [|split_and!; reflexivity].
  eapply rtc_l; [exact (desk_claim true 0 false d0 eq_refl eq_refl (or_intror eq_refl))|].
  eapply rtc_l; [exact (desk_start_stream true 0 1 d1 eq_refl eq_refl eq_refl)|].
  eapply rtc_l; [exact (desk_stream_ends true 0 1 d2 eq_refl eq_refl eq_refl)|].
  eapply rtc_l; [exact (desk_claim true 1 false d3 eq_refl eq_refl (or_intror eq_refl))|].
  eapply rtc_l; [exact (desk_start_stream true 1 2 d4 eq_refl eq_refl eq_refl)|].
  eapply rtc_l; [exact (desk_login_wait_over true 0 1 d5 eq_refl)|].
  eapply rtc_l; [exact (desk_stop true 0 d6 eq_refl)|].
  eapply rtc_l; [exact (desk_stopped true 0 d7 eq_refl)|].
  apply rtc_refl.
Qed.

(** ** The pool and its watchers *)

(** The slot holds the newest published worker, or nothing. *)
Lemma pool_current_newest p : rtc pool_step pool_start p ->
  forall g, current p = Some g -> g + 1 = length (conns p).
Proof.
  intros R. assert ((forall g, current p = Some g -> g + 1 = length (conns p)) /\
    generation p = length (conns p) + match publishing p with Some _ => 1 | None => 0 end /\
    (forall g, publishing p = Some g -> g = length (conns p))) as [H _]; [|done].
  refine (invariant_rtc pool_step (fun p => (forall g, current p = Some g -> g + 1 = length (conns p)) /\
    generation p = length (conns p) + match publishing p with Some _ => 1 | None => 0 end /\
    (forall g, publishing p = Some g -> g = length (conns p))) _ _ _ R _); [|by cbn].
  intros x y S (H1 & H2 & H3). destruct S as [p0 E|p0 g E|p0 i c E|p0 i c E|p0 i c E]; cbn;
    rewrite ?length_insert, ?length_app; cbn.
  - rewrite E in *. split_and!; [done|lia|intros g [= <-]; lia].
  - rewrite E in *. rewrite (H3 g eq_refl). split_and!; [intros g' [= <-]; lia|lia|done].
  - done.
  - done.
  - done.
Qed.

(** The clearing of an old worker that compared generations before a new one
    was accepted removes the new one from the pool. *)
Lemma clear_drops_new_worker :
  exists p, rtc pool_step pool_start p /\ current p = None /\ publishing p = None /\
    last (conns p) = Some {| conn_open := true; watch_pc := Watching |}.
Proof.
  eexists. split; [|].
  - eapply rtc_l; [apply pool_accept; reflexivity|]. eapply rtc_l; [eapply pool_publish; reflexivity|].
    eapply rtc_l; [eapply (pool_close _ 0); reflexivity|].
    eapply rtc_l; [eapply (pool_compare _ 0); reflexivity|].
    eapply rtc_l; [apply pool_accept; reflexivity|]. eapply rtc_l; [eapply pool_publish; reflexivity|].
    eapply rtc_l; [eapply (pool_clear _ 0); reflexivity|]. apply rtc_refl.
  - split_and!; reflexivity.
Qed.

(** A greeter whose ACL cannot be granted keeps gone ones authorised, without
    a pause between the attempts. *)
Lemma failed_grant_keeps_old_greeters (old new : N) : old <> new ->
  let '(permitted, sleeps) := refresh_greeters {[new]} {[old]} (fun _ => false) in
  worker_allowed ∅ permitted old = true /\ worker_allowed ∅ permitted new = false /\ sleeps = false.
Proof.
  intros Hn. unfold refresh_greeters. rewrite bool_decide_eq_false_2 by set_solver. cbn.
  unfold worker_allowed. rewrite bool_decide_eq_false_2, (bool_decide_eq_false_2 (new ∈ ∅)) by set_solver.
  rewrite bool_decide_eq_true_2, bool_decide_eq_false_2 by set_solver. done.
Qed.
