(* ===== verification/BrokerClient.v ===== *)
(** * The broker's end of a worker connection

    rivetlink-agent/src/console/broker.rs: binding the socket with its access
    list, the handshake of a connection, the task that sorts a worker's packets
    into its channels, starting and stopping a desktop stream, the keyframe
    requests that coalesce, and the pool as the backend of a host. [Broker] has
    the requests and the claims on top. *)
From Stdlib Require Import NArith Lia Strings.String.
From S2P Require Import Prelude Text Interfaces Instances Protocol Trusted Host SharedFolder Lan Worker Broker.

(** ** The socket *)

(** One call of setfacl: the path and the entry; [None] when it does not
    start. *)
Record Acl := { acl_path : string; acl_spec : string }.
Section Bind.
Context (setfacl : Acl -> Result bool string).
Definition set_acl (path spec action : string) : Result unit AgentError :=
  match setfacl {| acl_path := path; acl_spec := spec |} with
  | Err e => Err (Config (action ++ ": start setfacl: " ++ e))
  | Ok true => Ok tt
  | Ok false => Err (Config (action ++ ": setfacl failed"))
  end.
(** The calls until one fails, in the order of the user ids. *)
Fixpoint grant_each (parent path : string) (uids : list N) : list Acl * Result unit AgentError :=
  match uids with
  | [] => ([], Ok tt)
  | uid :: uids =>
      let enter := {| acl_path := parent; acl_spec := "u:" ++ pretty uid ++ ":x" |} in
      let use := {| acl_path := path; acl_spec := "u:" ++ pretty uid ++ ":rw" |} in
      match set_acl parent (acl_spec enter) "grant console directory traversal" with
      | Err e => ([enter], Err e)
      | Ok _ =>
          match set_acl path (acl_spec use) "grant console socket access" with
          | Err e => ([enter; use], Err e)
          | Ok _ => let '(calls, r) := grant_each parent path uids in (enter :: use :: calls, r)
          end
      end
  end.
Definition grant_worker_socket_access (parent : option string) (path : string) (uids : list N) : list Acl * Result unit AgentError :=
  match parent with
  | None => ([], Err (Config "console broker socket has no parent directory"))
  | Some parent => grant_each parent path uids
  end.
(** [bind] of the listener. *)
Definition broker_bind (parent : option string) (path : string) (allowed_worker_uids : list N) (bind chmod : Result unit string)
  : list Acl * Result unit AgentError :=
  match allowed_worker_uids with
  | [] => ([], Err (Config "console broker requires at least one allowed worker UID"))
  | _ =>
      match bind, chmod with
      | Err e, _ => ([], Err (Config ("bind console broker: " ++ e)))
      | Ok _, Err e => ([], Err (Config ("secure console socket: " ++ e)))
      | Ok _, Ok _ => grant_worker_socket_access parent path allowed_worker_uids
      end
  end.
End Bind.

(** ** A connection *)

(** The channels of a connection: what the reader task sent to the subscribers
    of frames, of ends and of clipboard texts, the queue of replies with the one
    the task waits with, and the flags. [tasks] are the keyframe requests that
    are being written. *)
Record WorkerClient := {
  wc_state : HostConsoleState;
  wc_display_switch : bool;
  desktop_frames : list StreamFrame;
  desktop_ended : list WorkerErrorCode;
  clipboard_changes : list string;
  reply_queue : list WorkerResponse;
  waiting : option WorkerResponse;
  reader_runs : bool;
  desktop_stream_active : bool;
  closed : bool;
  keyframe_in_flight : bool;
  tasks : nat;
}.
Definition REPLY_QUEUE : nat := 16.
(** [from_stream]: the first packet tells the state. *)
Definition from_stream (ready : Reply) : Result WorkerClient AgentError :=
  let? ready := ready in
  match ready with
  | WResp.Ready state display_switch =>
      Ok {| wc_state := state; wc_display_switch := display_switch; desktop_frames := []; desktop_ended := []; clipboard_changes := [];
            reply_queue := []; waiting := None; reader_runs := true; desktop_stream_active := false; closed := false;
            keyframe_in_flight := false; tasks := 0 |}
  | _ => Err (Config "console worker did not send a ready handshake")
  end.

Definition with_flags (active in_flight : bool) (n : nat) (c : WorkerClient) : WorkerClient :=
  {| wc_state := wc_state c; wc_display_switch := wc_display_switch c; desktop_frames := desktop_frames c;
     desktop_ended := desktop_ended c; clipboard_changes := clipboard_changes c; reply_queue := reply_queue c; waiting := waiting c;
     reader_runs := reader_runs c; desktop_stream_active := active; closed := closed c; keyframe_in_flight := in_flight; tasks := n |}.
Definition with_active (active : bool) (c : WorkerClient) : WorkerClient := with_flags active (keyframe_in_flight c) (tasks c) c.
(** The replies, the one that waits for room and whether the task still runs. *)
Definition with_replies (queue : list WorkerResponse) (w : option WorkerResponse) (runs : bool) (c : WorkerClient) : WorkerClient :=
  {| wc_state := wc_state c; wc_display_switch := wc_display_switch c; desktop_frames := desktop_frames c;
     desktop_ended := desktop_ended c; clipboard_changes := clipboard_changes c; reply_queue := queue; waiting := w;
     reader_runs := runs; desktop_stream_active := desktop_stream_active c; closed := closed c;
     keyframe_in_flight := keyframe_in_flight c; tasks := tasks c |}.
Definition sent (frames : list StreamFrame) (ends : list WorkerErrorCode) (texts : list string) (c : WorkerClient) : WorkerClient :=
  {| wc_state := wc_state c; wc_display_switch := wc_display_switch c; desktop_frames := desktop_frames c ++ frames;
     desktop_ended := desktop_ended c ++ ends; clipboard_changes := clipboard_changes c ++ texts; reply_queue := reply_queue c;
     waiting := waiting c; reader_runs := reader_runs c; desktop_stream_active := desktop_stream_active c; closed := closed c;
     keyframe_in_flight := keyframe_in_flight c; tasks := tasks c |}.
Definition close (c : WorkerClient) : WorkerClient :=
  {| wc_state := wc_state c; wc_display_switch := wc_display_switch c; desktop_frames := desktop_frames c;
     desktop_ended := desktop_ended c; clipboard_changes := clipboard_changes c; reply_queue := reply_queue c; waiting := waiting c;
     reader_runs := false; desktop_stream_active := desktop_stream_active c; closed := true;
     keyframe_in_flight := keyframe_in_flight c; tasks := tasks c |}.
(** One packet in the reader task; it reads none while a reply waits. *)
Definition reader_packet (packet : Reply) (c : WorkerClient) : WorkerClient :=
  match packet with
  | Ok (WResp.DesktopFrame delta) => sent [Tiles delta] [] [] c
  | Ok (WResp.DesktopVideo frame) => sent [Video frame] [] [] c
  | Ok (WResp.ClipboardChanged text) => sent [] [] [text] c
  | Ok (WResp.DesktopStreamEnded code) => sent [] [code] [] (with_active false c)
  | Ok response =>
      if (length (reply_queue c) <? REPLY_QUEUE)%nat then with_replies (reply_queue c ++ [response]) None true c
      else with_replies (reply_queue c) (Some response) true c
  | Err _ => close (sent [] [CompositorFailure] [] (with_active false c))
  end.

Inductive ClientStep :=
| Packet (packet : Reply)
(** A request takes a reply, and the task can go on. *)
| TakeReply
(** [start_desktop_stream]: the flag, and what the request came to. *)
| BeginStream
| StreamReply (reply : Reply)
(** [stop_desktop_stream], up to its request. *)
| StopStream
| AskKeyframe (congested : bool)
| KeyframeWritten.
Inductive StepOut :=
| Replied (response : WorkerResponse)
| Refused_ (error : AgentError)
| Asked
| StreamOpened
| StreamFailed (error : AgentError)
| WritesKeyframe (congested : bool).
Definition begin_stream (c : WorkerClient) : WorkerClient * list StepOut :=
  if negb (bool_decide (wc_state c = DesktopReady))
  then (c, [Refused_ (Relay "normal desktop stream is unavailable before an authenticated desktop is ready")])
  else if desktop_stream_active c then (c, [Refused_ (Relay "normal desktop stream is already active")])
  else (with_flags true false (tasks c) c, [Asked]).
Definition stream_reply (reply : Reply) (c : WorkerClient) : WorkerClient * list StepOut :=
  match desktop_started reply with
  | Ok _ => (c, [StreamOpened])
  | Err e => (with_active false c, [StreamFailed e])
  end.
Definition request_keyframe (congested : bool) (c : WorkerClient) : WorkerClient * list StepOut :=
  if keyframe_in_flight c then (c, [])
  else (with_flags (desktop_stream_active c) true (S (tasks c)) c, [WritesKeyframe congested]).
Definition client_step (c : WorkerClient) (s : ClientStep) : WorkerClient * list StepOut :=
  match s with
  | Packet packet =>
      match waiting c with
      | None => if reader_runs c then (reader_packet packet c, []) else (c, [])
      | Some _ => (c, [])
      end
  | TakeReply =>
      match reply_queue c with
      | response :: rest => (with_replies (rest ++ option_list (waiting c)) None (reader_runs c) c, [Replied response])
      | [] => (c, if closed c then [Refused_ (Relay "console worker disconnected")] else [])
      end
  | BeginStream => begin_stream c
  | StreamReply reply => stream_reply reply c
  | StopStream => (with_active false c, [])
  | AskKeyframe congested => request_keyframe congested c
  | KeyframeWritten =>
      match tasks c with S n => (with_flags (desktop_stream_active c) false n c, []) | 0 => (c, []) end
  end.
Fixpoint client_steps (c : WorkerClient) (ss : list ClientStep) : WorkerClient * list StepOut :=
  match ss with
  | [] => (c, [])
  | s :: ss => let '(c, out) := client_step c s in let '(c, more) := client_steps c ss in (c, out ++ more)
  end.

(** ** Sorting *)

Definition as_frame (p : Reply) : option StreamFrame :=
  match p with Ok (WResp.DesktopFrame delta) => Some (Tiles delta) | Ok (WResp.DesktopVideo frame) => Some (Video frame) | _ => None end.
Definition as_end (p : Reply) : option WorkerErrorCode :=
  match p with Ok (WResp.DesktopStreamEnded code) => Some code | Err _ => Some CompositorFailure | _ => None end.
Definition as_text (p : Reply) : option string := match p with Ok (WResp.ClipboardChanged text) => Some text | _ => None end.
Definition as_reply (p : Reply) : option WorkerResponse := match p with Ok r => if is_pushed r then None else Some r | Err _ => None end.
Definition failed (p : Reply) : bool := negb (is_ok p).
Definition replied (o : StepOut) : option WorkerResponse := match o with Replied r => Some r | _ => None end.
Definition asked (o : StepOut) : bool := match o with Asked => true | _ => false end.
(** The packets the task read. *)
Definition reads (c : WorkerClient) (s : ClientStep) : list Reply :=
  match s, waiting c with Packet p, None => if reader_runs c then [p] else [] | _, _ => [] end.
Fixpoint packets_read (c : WorkerClient) (ss : list ClientStep) : list Reply :=
  match ss with [] => [] | s :: ss => reads c s ++ packets_read (client_step c s).1 ss end.

Record client_ok (c : WorkerClient) (out : list StepOut) (ps : list Reply) : Prop := {
  ck_frames : desktop_frames c = omap as_frame ps;
  ck_ends : desktop_ended c = omap as_end ps;
  ck_texts : clipboard_changes c = omap as_text ps;
  ck_replies : omap replied out ++ reply_queue c ++ option_list (waiting c) = omap as_reply ps;
  ck_room : length (reply_queue c) <= REPLY_QUEUE /\ (waiting c <> None -> length (reply_queue c) = REPLY_QUEUE);
  ck_closed : closed c = existsb failed ps /\ reader_runs c = negb (closed c) /\ (closed c = true -> waiting c = None);
  ck_last : forall before p after, ps = before ++ p :: after -> failed p = true -> after = [];
  ck_tasks : (tasks c <= length (List.filter asked out) + (if keyframe_in_flight c then 1 else 0)) /\
    (keyframe_in_flight c = true -> tasks c <> 0);
  ck_active : desktop_stream_active c = true -> wc_state c = DesktopReady;
}.

Lemma steps_snoc c ss s : let '(c1, out) := client_steps c ss in
  client_steps c (ss ++ [s]) = ((client_step c1 s).1, out ++ (client_step c1 s).2) /\
  packets_read c (ss ++ [s]) = packets_read c ss ++ reads c1 s.
Proof.
  revert c. induction ss as [|s' ss IH]; intros c; cbn [app client_steps packets_read].
  - destruct (client_step c s) as [c1 o1]. cbn. by rewrite !app_nil_r.
  - specialize (IH (client_step c s').1). destruct (client_step c s') as [c1 o1]. cbn [fst] in *.
    destruct (client_steps c1 ss) as [c2 o2]. destruct IH as [-> ->]. by rewrite !app_assoc.
Qed.
Lemma last_failure ps p : existsb failed ps = false -> forall before q after,
  ps ++ [p] = before ++ q :: after -> failed q = true -> after = [].
Proof.
  intros N before q after E Fq. destruct after as [|x after _] using rev_ind; [done|]. exfalso.
  rewrite app_comm_cons, app_assoc in E. apply app_inj_tail in E as [-> _]. rewrite existsb_app in N. cbn in N.
  rewrite Fq, orb_true_r in N. discriminate N.
Qed.
Lemma omap_snoc {A B} (f : A -> option B) l x : omap f (l ++ [x]) = omap f l ++ option_list (f x).
Proof. rewrite omap_app. cbn. by destruct (f x). Qed.
Lemma reader_reply r c : is_pushed r = false -> reader_packet (Ok r) c =
  if (length (reply_queue c) <? REPLY_QUEUE)%nat then with_replies (reply_queue c ++ [r]) None true c
  else with_replies (reply_queue c) (Some r) true c.
Proof. by destruct r. Qed.
Lemma reply_packet r : is_pushed r = false ->
  as_frame (Ok r) = None /\ as_end (Ok r) = None /\ as_text (Ok r) = None /\ as_reply (Ok r) = Some r.
Proof. by destruct r. Qed.
(** Reading one packet. *)
Lemma reader_packet_ok c out ps p : client_ok c out ps -> waiting c = None -> reader_runs c = true ->
  client_ok (reader_packet p c) out (ps ++ [p]).
Proof.
  intros [K1 K2 K3 K4 [K5 K5'] (K6 & K7 & K8) K9 [K10 K10'] K11] W R. rewrite R in K7. symmetry in K7. apply negb_true_iff in K7.
  rewrite W in K4. cbn in K4. rewrite app_nil_r in K4. pose proof (last_failure ps p ltac:(congruence)) as Last.
  assert (existsb failed (ps ++ [p]) = failed p) as Ex by (rewrite existsb_app, <-K6, K7; cbn; apply orb_false_r).
  destruct p as [r|e]; [destruct (is_pushed r) eqn:P|].
  - split; rewrite ?omap_snoc, ?Ex; try exact Last; destruct r; try discriminate P; cbn; rewrite ?app_nil_r, ?W; cbn; rewrite ?app_nil_r;
      first [done | congruence | by split | split_and!; congruence | by (split; [done|intros []]) | by rewrite ?K1, ?K2, ?K3 | by rewrite K7].
  - destruct (reply_packet r P) as (E1 & E2 & E3 & E4). rewrite reader_reply by done.
    destruct (Nat.ltb_spec (length (reply_queue c)) REPLY_QUEUE);
      (split; rewrite ?omap_snoc, ?Ex, ?E1, ?E2, ?E3, ?E4; try exact Last; cbn [option_list with_replies desktop_frames desktop_ended
         clipboard_changes reply_queue waiting closed reader_runs tasks keyframe_in_flight desktop_stream_active wc_state]; rewrite ?app_nil_r; try done).
    + by rewrite app_assoc, K4.
    + rewrite length_app. cbn. split; [lia|done].
    + split_and!; [done|by rewrite K7|done].
    + by rewrite app_assoc, K4.
    + split; [done|]. intros _. lia.
    + split_and!; [done|by rewrite K7|]. rewrite K7. done.
  - split; rewrite ?omap_snoc, ?Ex; try exact Last; cbn; rewrite ?app_nil_r, ?W; cbn; rewrite ?app_nil_r;
      first [done | congruence | by split | split_and!; congruence | by (split; [done|intros []]) | by rewrite ?K1, ?K2, ?K3 | by rewrite K7].
Qed.

Lemma other_reads c s : (forall p, s <> Packet p) -> reads c s = [].
Proof. destruct s; try done. intros N. by destruct (N packet). Qed.
Lemma client_step_ok c out ps s : client_ok c out ps ->
  client_ok (client_step c s).1 (out ++ (client_step c s).2) (ps ++ reads c s).
Proof.
  intros K. destruct s as [p| | |reply| |congested|]; [|rewrite other_reads, app_nil_r by done..].
  - cbn [client_step]. unfold reads. destruct (waiting c) as [r|] eqn:W; [by rewrite !app_nil_r|].
    destruct (reader_runs c) eqn:R; cbn [fst snd]; rewrite app_nil_r; [by apply reader_packet_ok|by rewrite app_nil_r].
  - cbn [client_step]. destruct (reply_queue c) as [|r rest] eqn:Q.
    + cbn [fst snd]. destruct K as [K1 K2 K3 K4 K5 K6 K9 [K10 K10'] K11].
      split; try done; [rewrite omap_app, Q in *; by destruct (closed c); cbn; rewrite ?app_nil_r|].
      rewrite List.filter_app, length_app. split; [lia|done].
    + destruct K as [K1 K2 K3 K4 [K5 K5'] (K6 & K7 & K8) K9 [K10 K10'] K11]. split; cbn; try done.
      * rewrite omap_app, <-K4, Q. cbn. by rewrite !app_nil_r, <-!app_assoc.
      * rewrite length_app, Q in *. cbn in *. destruct (waiting c) as [w|] eqn:W; cbn; (split; [|done]); unfold REPLY_QUEUE in *; [|lia].
        assert (S (length rest) = 16) by (by apply K5'). lia.
      * rewrite List.filter_app, length_app. split; [lia|done].
  - cbn [client_step]. unfold begin_stream. destruct K as [K1 K2 K3 K4 K5 K6 K9 [K10 K10'] K11].
    case_bool_decide as Rd; cbn [negb]; [destruct (desktop_stream_active c) eqn:A|]; cbn [fst snd];
      (split; cbn; rewrite ?omap_app, ?List.filter_app, ?length_app; cbn; rewrite ?app_nil_r; try done); split; try done; try lia.
    destruct (keyframe_in_flight c); lia.
  - cbn [client_step]. unfold stream_reply. destruct K as [K1 K2 K3 K4 K5 K6 K9 [K10 K10'] K11].
    destruct (desktop_started reply); cbn [fst snd];
      (split; cbn; rewrite ?omap_app, ?List.filter_app, ?length_app; cbn; rewrite ?app_nil_r; try done); split; try done; lia.
  - cbn [client_step fst snd]. rewrite app_nil_r. destruct K as [K1 K2 K3 K4 K5 K6 K9 K10 K11]. by split.
  - cbn [client_step]. unfold request_keyframe. destruct K as [K1 K2 K3 K4 K5 K6 K9 [K10 K10'] K11].
    destruct (keyframe_in_flight c) eqn:F; cbn [fst snd]; [by split; rewrite ?app_nil_r, ?F|].
    split; cbn; rewrite ?omap_app, ?List.filter_app, ?length_app; cbn; rewrite ?app_nil_r; try done. split; [lia|done].
  - cbn [client_step]. destruct K as [K1 K2 K3 K4 K5 K6 K9 [K10 K10'] K11]. destruct (tasks c) as [|n] eqn:T; cbn [fst snd]; rewrite app_nil_r.
    + split; rewrite ?T; done.
    + split; cbn; try done. split; [|done]. destruct (keyframe_in_flight c); lia.
Qed.

Lemma client_step_fixed c s : wc_state (client_step c s).1 = wc_state c /\ wc_display_switch (client_step c s).1 = wc_display_switch c.
Proof.
  destruct s as [p| | |reply| |congested|]; cbn [client_step]; unfold begin_stream, stream_reply, request_keyframe;
    [destruct (waiting c), (reader_runs c); try done; destruct p as [r|]; [|done]; destruct (is_pushed r) eqn:P;
       [by destruct r|rewrite reader_reply by done; destruct (length (reply_queue c) <? REPLY_QUEUE)%nat; done]|repeat case_match; done..].
Qed.

(** C18. The task sorts exactly. Whatever the worker sends and the broker does on
    a connection: each packet that was read went to one channel in its order, the
    frames to the frames, the clipboard texts to the texts, the ends of streams
    to the ends; and the replies the requests took, those queued and the one
    that waits for room are exactly the others, in order, with at most 16
    queued. A packet that cannot be read is the last one, closes the connection
    and counts as the end of the stream. A stream is active only on a worker
    that reported a ready desktop, and at most one keyframe request more is
    being written than streams were begun. *)
Theorem packets_sorted ready c0 ss : from_stream ready = Ok c0 ->
  let '(c, out) := client_steps c0 ss in let ps := packets_read c0 ss in
  (desktop_frames c = omap as_frame ps /\ clipboard_changes c = omap as_text ps /\ desktop_ended c = omap as_end ps) /\
  (omap replied out ++ reply_queue c ++ option_list (waiting c) = omap as_reply ps /\ length (reply_queue c) <= 16) /\
  (closed c = true <-> exists before e, ps = before ++ [Err e] /\ Forall (fun p => is_ok p = true) before) /\
  (desktop_stream_active c = true -> ready = Ok (WResp.Ready DesktopReady (wc_display_switch c))) /\
  tasks c <= length (List.filter asked out) + 1.
Proof.
  intros F. unfold from_stream in F. destruct ready as [[state switch| | | | | | | | | | | | | | | | |]|e]; try discriminate F. injection F as F.
  assert (client_ok (client_steps c0 ss).1 (client_steps c0 ss).2 (packets_read c0 ss)) as K.
  { induction ss as [|s ss IH] using rev_ind; [subst c0; split; cbn; try done; try (split; [lia|done]); by intros []|]. pose proof (steps_snoc c0 ss s) as S.
    destruct (client_steps c0 ss) as [c out]. destruct S as [-> ->]. cbn [fst snd] in *. by apply client_step_ok. }
  assert (wc_state (client_steps c0 ss).1 = state /\ wc_display_switch (client_steps c0 ss).1 = switch) as [St Sw].
  { clear K. induction ss as [|s ss IH] using rev_ind; [subst c0; by split|]. pose proof (steps_snoc c0 ss s) as S.
    destruct (client_steps c0 ss) as [c out]. destruct S as [-> _]. cbn [fst] in *. destruct IH as [<- <-]. by apply client_step_fixed. }
  destruct (client_steps c0 ss) as [c out]. cbn [fst snd] in *. destruct K as [K1 K2 K3 K4 [K5 _] (K6 & _) K9 [K10 _] K11]. split_and!; try done.
  - rewrite K6. split.
    + intros ([|e] & I%list_elem_of_In & Fp)%existsb_exists; [discriminate Fp|]. apply list_elem_of_split in I as (before & after & E).
      pose proof (K9 _ _ _ E Fp) as ->. exists before, e. split; [done|]. apply Forall_forall. intros q Hq.
      apply list_elem_of_split in Hq as (b1 & b2 & Eb). destruct (is_ok q) eqn:Q; [done|]. exfalso.
      rewrite Eb, <-app_assoc in E. assert (b2 ++ [Err e] = []) as N; [|by destruct b2].
      apply (K9 b1 q); [by rewrite E|]. unfold failed. by rewrite Q.
    + intros (before & e & -> & _). rewrite existsb_app. apply orb_true_r.
  - intros A. rewrite <-Sw. f_equal. f_equal. rewrite <-St. by apply K11.
  - destruct (keyframe_in_flight c); lia.
Qed.

(** A desktop stream with a request in between, then a broken packet. *)
Definition ready_desktop : Reply := Ok (WResp.Ready DesktopReady true).
Definition a_client : WorkerClient :=
  {| wc_state := DesktopReady; wc_display_switch := true; desktop_frames := []; desktop_ended := []; clipboard_changes := [];
     reply_queue := []; waiting := None; reader_runs := true; desktop_stream_active := false; closed := false;
     keyframe_in_flight := false; tasks := 0 |}.
Definition a_session : list ClientStep :=
  [BeginStream; Packet (Ok WResp.DesktopStreamStarted); TakeReply; StreamReply (Ok WResp.DesktopStreamStarted); AskKeyframe true;
   AskKeyframe false; Packet (Ok (WResp.ClipboardChanged "hi")); Packet (Ok WResp.InputAccepted); KeyframeWritten; BeginStream;
   Packet (Err (Config "too long")); TakeReply; Packet (Ok WResp.Pong); TakeReply].
Lemma packets_sorted_witness : let '(c, out) := client_steps a_client a_session in
  out = [Asked; Replied WResp.DesktopStreamStarted; StreamOpened; WritesKeyframe true;
         Refused_ (Relay "normal desktop stream is already active"); Replied WResp.InputAccepted;
         Refused_ (Relay "console worker disconnected")] /\
  clipboard_changes c = ["hi"%string] /\
  (closed c = true <-> exists before e, packets_read a_client a_session = before ++ [Err e] /\ Forall (fun p => is_ok p = true) before).
Proof.
  pose proof (packets_sorted ready_desktop a_client a_session eq_refl) as P.
  assert (let '(c, out) := client_steps a_client a_session in
    out = [Asked; Replied WResp.DesktopStreamStarted; StreamOpened; WritesKeyframe true;
         Refused_ (Relay "normal desktop stream is already active"); Replied WResp.InputAccepted;
         Refused_ (Relay "console worker disconnected")] /\ clipboard_changes c = ["hi"%string]) as C by (vm_compute; done).
  destruct (client_steps a_client a_session) as [c out]. cbv zeta in P. destruct P as (_ & _ & P & _). destruct C as [C1 C2].
  split; [exact C1|]. split; [exact C2|exact P].
Defined.
(** Replies that no request takes any more (their callers went away) fill the
    queue; the task then waits with the next, and the stream stands still. *)
Lemma abandoned_replies_stop_the_stream frame :
  let c := (client_steps a_client (replicate 17 (Packet (Ok (WResp.Capture ""))) ++ [Packet (Ok (WResp.DesktopFrame frame))])).1 in
  desktop_frames c = [] /\ closed c = false /\ length (reply_queue c) = 16 /\ is_Some (waiting c).
Proof. cbv zeta. split_and!; [reflexivity..|by eexists]. Qed.

(** ** The socket *)

(** A broker that is bound has given its workers, and nobody else, the two
    entries they need. *)
Lemma broker_bind_grants setfacl parent path uids bind chmod : let '(calls, r) := broker_bind setfacl parent path uids bind chmod in
  (r = Ok tt -> uids <> [] /\ exists dir, parent = Some dir /\
     calls = concat (map (fun uid => [{| acl_path := dir; acl_spec := "u:" ++ pretty uid ++ ":x" |};
                                      {| acl_path := path; acl_spec := "u:" ++ pretty uid ++ ":rw" |}]) uids)) /\
  (forall a, a ∈ calls -> exists uid, uid ∈ uids /\
     (acl_spec a = "u:" ++ pretty uid ++ ":x" \/ acl_spec a = "u:" ++ pretty uid ++ ":rw"))%string.
Proof.
  unfold broker_bind. destruct uids as [|u us] eqn:Eu; [split; [done|intros a []%elem_of_nil]|]. rewrite <-Eu in *. assert (uids <> []) as Ne by by rewrite Eu.
  clear Eu u us. destruct bind, chmod; try (split; [done|intros a' []%elem_of_nil]). destruct parent as [dir|]; [|split; [done|intros a' []%elem_of_nil]].
  cbn [grant_worker_socket_access]. enough (let '(calls, r) := grant_each setfacl dir path uids in
    (r = Ok tt -> calls = concat (map (fun uid => [{| acl_path := dir; acl_spec := "u:" ++ pretty uid ++ ":x" |};
                                      {| acl_path := path; acl_spec := "u:" ++ pretty uid ++ ":rw" |}]) uids)) /\
    (forall a, a ∈ calls -> exists uid, uid ∈ uids /\
      (acl_spec a = "u:" ++ pretty uid ++ ":x" \/ acl_spec a = "u:" ++ pretty uid ++ ":rw")))%string as G.
  { destruct (grant_each _ _ _ _) as [calls r]. destruct G as [G1 G2]. split; [|done]. intros E. split; [done|]. exists dir. split; [done|by apply G1]. }
  clear Ne. induction uids as [|uid uids IH]; cbn [grant_each]; [split; [done|intros a' []%elem_of_nil]|].
  destruct (set_acl setfacl dir _ _); [|split; [done|]; intros x ->%list_elem_of_singleton; exists uid; split; [by left|by left]].
  destruct (set_acl setfacl path _ _).
  2:{ split; [done|]. intros x [-> | ->%list_elem_of_singleton]%elem_of_cons; exists uid; (split; [by left|]); [by left|by right]. }
  destruct (grant_each _ _ _ uids) as [calls r]. destruct IH as [I1 I2]. split; [intros E; cbn; by rewrite (I1 E)|].
  intros x [-> | [-> | Hx]%elem_of_cons]%elem_of_cons; [exists uid; (split; [by left|by left])|exists uid; (split; [by left|by right])|].
  destruct (I2 x Hx) as (v & Hv & E). exists v. split; [by right|done].
Qed.

(** ** The pool as a host's backends *)

(** [wait_until_ready]: whether a worker is there, at the look and after each
    change; without one and without changes the wait goes on. *)
Fixpoint wait_until_ready (worker : bool) (changes : list (option bool)) : option (Result unit AgentError) :=
  if worker then Some (Ok tt)
  else
    match changes with
    | [] => None
    | None :: _ => Some (Err (Config "console worker supervisor stopped unexpectedly"))
    | Some worker :: changes => wait_until_ready worker changes
    end.
(** [taken_over] of a claim, over the values of the owner it sees; it never
    resolves when the pool goes away. *)
Definition taken_over (id : N) (owners : list N) : bool := existsb (fun owner => negb (owner =? id)%N) owners.

Section Backends.
Context `{Base64}.
(** A worker by what it answers a request on this connection. *)
Context (worker : option (HostConsoleState * (WorkerRequest -> Reply))) (generation : N).

Definition console_state : option (HostConsoleState * N) := w ← worker; Some (w.1, generation).
Definition current_worker : Result (HostConsoleState * (WorkerRequest -> Reply)) AgentError :=
  match worker with Some w => Ok w | None => Err (Relay "no active graphical console worker") end.
Definition policy_timeout (policy : ConsentPolicy) : N :=
  match policy with
  | HeadlessTrustedOnly _ capture_timeout _ | UnattendedConsole _ capture_timeout _ => capture_timeout
  | Prompt => from_secs 10
  end.
(** [u64::try_from(timeout.as_millis())], the largest when it does not fit. *)
Definition timeout_millis (timeout : N) : N := N.min (timeout / 10 ^ 6) u64_max.
Definition pool_capture (policy : ConsentPolicy) : Result bytes AgentError :=
  let? w := current_worker in Broker.capture_png (w.2 (WReq.Capture (timeout_millis (policy_timeout policy)))).
Definition pool_inject (event : ConsoleInputPacket) : Result unit AgentError :=
  let? w := current_worker in send_input (w.2 (WReq.Input (worker_input event))).

(** A picture of the pool is a worker's whole answer to the request with the
    policy's time, within the size limit; without a worker nothing is asked. *)
Lemma pool_capture_exact policy png : pool_capture policy = Ok png -> exists state ask text,
  worker = Some (state, ask) /\ ask (WReq.Capture (timeout_millis (policy_timeout policy))) = Ok (WResp.Capture text) /\
  b64_decode text = Ok png /\ (len png <= MAX_WORKER_RESPONSE)%N.
Proof.
  unfold pool_capture, current_worker. destruct worker as [[state ask]|]; [|done]. cbn [snd]. unfold Broker.capture_png.
  destruct (ask _) as [[]|] eqn:A; try done. destruct (b64_decode png_b64) as [b|] eqn:D; [|done]. cbn [map_err].
  destruct (N.ltb_spec MAX_WORKER_RESPONSE (len b)); [done|]. intros [= <-]. by exists state, ask, png_b64.
Qed.
End Backends.
Lemma ready_or_stopped worker changes : match wait_until_ready worker changes with
  | Some (Ok _) => worker = true \/ Some true ∈ changes
  | Some (Err _) => worker = false /\ None ∈ changes
  | None => worker = false /\ Forall (fun c => c = Some false) changes
  end.
Proof.
  revert worker. induction changes as [|[w|] changes IH]; intros []; cbn [wait_until_ready]; try done; [by left|by left| |by left|].
  - specialize (IH w). destruct (wait_until_ready w changes) as [[]|].
    + right. destruct IH as [-> | IH]; [by left|by right].
    + split; [done|]. right. apply IH.
    + destruct IH as [-> F]. split; [done|by constructor].
  - split; [done|by left].
Qed.
