(* ===== verification/LanHost.v ===== *)
(** * The LAN host

    rivetlink-agent/src/lan.rs, the host without a console broker: accepting a
    client in one of three ways, serving its requests until it asks for a
    stream, the consent of the person at the host, and the stream loop with
    its display switches, input gate and live sharing toggles. A session is a
    program over a byte stream as in [Direct]; the values of the watch
    channels, the captures and the monitors are answers of the environment,
    request by request. *)
From Stdlib Require Import NArith ZArith Lia Strings.String Strings.Byte.
From S2P Require Import Prelude Text Interfaces Instances Protocol Sealed Handshake Trusted Host.
From S2P Require Import ClientSession Direct SharedFolder Lan Worker.

(** ** Programs that look at their errors *)

Fixpoint io_try {A B : Type} (m : Io A) (k : Result A Sdk.SdkError -> Io B) : Io B :=
  match m with
  | Return r => k r
  | Write b f => Write b (fun r => io_try (f r) k)
  | Flush f => Flush (fun r => io_try (f r) k)
  | ReadExact n f => ReadExact n (fun r => io_try (f r) k)
  end.
Lemma sound_try {A B} (R : A -> Prop) (P : B -> Prop) (m : Io A) k :
  sound R m -> (forall r, (forall a, r = Ok a -> R a) -> sound P (k r)) -> sound P (io_try m k).
Proof. intros Hm Hk. induction m; simpl in *; eauto. Qed.
Lemma emits_try {A B} (m m' : Io A) b (k : Result A Sdk.SdkError -> Io B) :
  emits m b m' -> emits (io_try m k) b (io_try m' k).
Proof. induction 1; simpl; by constructor. Qed.
Lemma absorbs_try {A B} (m m' : Io A) b (k : Result A Sdk.SdkError -> Io B) :
  absorbs m b m' -> absorbs (io_try m k) b (io_try m' k).
Proof. induction 1; simpl; by constructor. Qed.

(** ** Who may connect *)

Inductive LanAuth :=
| Password (pin : string)
| KeyAuth (trusted : TrustedClients) (auto_accept : bool)
| PinOrKey (pin : string) (trusted_keys : list string) (auto_accept : bool).

Inductive LanEvent :=
| ClientConnected (label : string) (key : option string)
| ClientDisconnected.

Definition wants_h264 (codecs : list string) : bool :=
  existsb (fun c => bool_decide (c = CODEC_H264)) codecs.
(** A watch channel's value; without a channel everything is allowed. *)
Definition share_all_now (share_all : option bool) : bool := default true share_all.
Definition control_now (control : option bool) : bool := default true control.
Definition allowed_displays (share_all : bool) (displays : list DisplayInfo) : list DisplayInfo :=
  if share_all then displays else take 1 displays.

(** The trust decision of the handshake. *)
Definition auth_trusts (auth : LanAuth) (id : string) : bool :=
  match auth with
  | Password _ => false
  | KeyAuth trusted auto_accept => auto_accept || is_trusted trusted id
  | PinOrKey _ trusted_keys auto_accept => auto_accept || existsb (fun k => bool_decide (k = id)) trusted_keys
  end.

(** Answers of the environment; the number is that of the request. The consent
    channel, when there is one, gives the host's answer (a timeout is a no). *)
Record ServeEnv := {
  sv_capture_png : nat -> Result bytes AgentError;
  sv_displays : nat -> list DisplayInfo;
  sv_share_all : nat -> option bool;
  sv_consent : option (option string -> string -> bool);
}.
Inductive ServeEnd :=
| ClientGone
| Declined
| StartsStream (fps : N) (display : option N) (h264 : bool)
| StillServing.
Record ServeResult := {
  sr_channel : SealedChannel;
  sr_events : list LanEvent;
  sr_end : ServeEnd;
}.

Section LanHost.
Context `{Ed25519} `{X25519} `{Hash} `{Aead} `{MlKem} `{Spake2} `{Base64}.
Context `{!Serde Wire} `{!Serde LanRequest} `{!Serde LanResponse}.

(** The channel, the client's label, and whether the host has to consent. *)
Definition accept_client (identity : SigningKey) (auth : LanAuth) (peer_ip : string)
  (kem_randomness : bytes) (secret : EphemeralSecret) (randomness : bytes)
  : Io (SealedChannel * string * bool) :=
  match auth with
  | Password pin =>
      do! channel := host_accept_password pin kem_randomness randomness in
      io_ret (channel, peer_ip, true)
  | KeyAuth _ _ =>
      do! (channel, client_id) := host_accept_key identity (auth_trusts auth) kem_randomness secret in
      io_ret (channel, client_id, false)
  | PinOrKey pin _ _ =>
      do! (channel, client_id) :=
        host_accept_auto identity pin (auth_trusts auth) kem_randomness secret randomness in
      match client_id with
      | Some id => io_ret (channel, id, false)
      | None => io_ret (channel, peer_ip, true)
      end
  end.

(** [ask_consent], asked only of a client that needs it. *)
Definition consents (env : ServeEnv) (needs_consent : bool) (key : option string) (who : string) : bool :=
  if needs_consent then match sv_consent env with Some ask => ask key who | None => true end else true.

(** What a [StartStream] announces: the name to show and the verified key. *)
Definition shown_name (name : option string) (label : string) : string :=
  match name with
  | Some n => if (slen (trim n) =? 0)%N then label else n
  | None => label
  end.
Definition announced_key (identity_key identity_sig : option string) : option string :=
  match identity_key, identity_sig with
  | Some k, Some s => verify_identity k s
  | _, _ => None
  end.

(** Up to the start of a stream; [fuel] bounds the requests. *)
Fixpoint serve_loop (fuel : nat) (env : ServeEnv) (needs_consent : bool) (label : string)
  (n : nat) (ch : SealedChannel) : Io ServeResult :=
  let done ch events e := io_ret {| sr_channel := ch; sr_events := events; sr_end := e |} in
  match fuel with
  | O => done ch [] StillServing
  | S fuel' =>
      io_try (recv_request ch) (fun r =>
        match r with
        | Err _ => done ch [] ClientGone
        | Ok (ch, req) =>
            match req with
            | Req.Screenshot =>
                let response := match sv_capture_png env n with
                                | Ok png => Resp.Screenshot (b64_encode png)
                                | Err e => Resp.Error (AgentError_display e)
                                end in
                do! ch := send_response ch response in
                serve_loop fuel' env needs_consent label (S n) ch
            | Req.ListDisplays =>
                let displays := allowed_displays (share_all_now (sv_share_all env n)) (sv_displays env n) in
                do! ch := send_response ch (Resp.Displays displays []) in
                serve_loop fuel' env needs_consent label (S n) ch
            | Req.StartStream fps display name identity_key identity_sig codecs =>
                let display := if share_all_now (sv_share_all env n) then display else None in
                let who := shown_name name label in
                let key := announced_key identity_key identity_sig in
                if consents env needs_consent key who
                then done ch [ClientConnected who key] (StartsStream fps display (wants_h264 codecs))
                else io_ignore (send_response ch (Resp.Error "the host declined the connection"))
                       (done ch [] Declined)
            | _ => serve_loop fuel' env needs_consent label (S n) ch
            end
        end)
  end.
Definition handle (fuel : nat) (env : ServeEnv) (identity : SigningKey) (auth : LanAuth) (peer_ip : string)
  (kem_randomness : bytes) (secret : EphemeralSecret) (randomness : bytes) : Io ServeResult :=
  do! (ch, label, needs_consent) := accept_client identity auth peer_ip kem_randomness secret randomness in
  serve_loop fuel env needs_consent label 0 ch.
End LanHost.

(** ** The stream loop

    One event of its [select] at a time; a capture is started anew for every
    display. [injector] is the monitor of the input session, once one runs. *)
Inductive ScreenEvent :=
| Captured (frame : StreamFrame) (sent : bool)
| CaptureEnds (reason : string)
| Control (request : option LanRequest)
| Kicked
| ShareToggled.
Record ScreenEnv := {
  se_share_all : option bool;
  se_control : option bool;
  se_displays : list DisplayInfo;
}.
Record Screen := {
  sc_display : option N;
  sc_injector : option (option N);
  sc_video : option VideoControl;
}.
Inductive ScreenOut :=
| SentFrame (frame : StreamFrame)
| SentDisplays (displays : list DisplayInfo)
| SentError (message : string)
| Injected (monitor : option N) (request : LanRequest)
| CaptureFrom (display : option N).

(** Tear the capture down and start one of the other display. *)
Definition switch_to (d : N) (s : Screen) : Screen * list ScreenOut :=
  ({| sc_display := Some d;
      sc_injector := if bool_decide (sc_display s = Some d) then sc_injector s else None;
      sc_video := option_map (fun _ => video_control_default) (sc_video s) |}, [CaptureFrom (Some d)]).
(** The state, what was done, and whether the session goes on. *)
Definition screen_event (env : ScreenEnv) (ev : ScreenEvent) (s : Screen) : Screen * list ScreenOut * bool :=
  match ev with
  | Captured frame sent => if sent then (s, [SentFrame frame], true) else (s, [], false)
  | CaptureEnds reason => (s, [SentError reason], false)
  | Control None => (s, [], false)
  | Control (Some req) =>
      match req with
      | Req.SwitchDisplay d =>
          if share_all_now (se_share_all env)
          then let '(s, out) := switch_to d s in (s, out, true)
          else (s, [], true)
      | Req.ListDisplays =>
          (s, [SentDisplays (allowed_displays (share_all_now (se_share_all env)) (se_displays env))], true)
      | Req.PointerMove _ _ | Req.PointerButton _ _ | Req.Scroll _ _ | Req.Key _ _ =>
          if control_now (se_control env) then
            let monitor := default (sc_display s) (sc_injector s) in
            ({| sc_display := sc_display s; sc_injector := Some monitor; sc_video := sc_video s |},
             [Injected monitor req], true)
          else (s, [], true)
      | Req.RequestKeyframe =>
          ({| sc_display := sc_display s; sc_injector := sc_injector s;
              sc_video := option_map request_keyframe (sc_video s) |}, [], true)
      | _ => (s, [], true)
      end
  | Kicked => (s, [], false)
  | ShareToggled =>
      let on := share_all_now (se_share_all env) in
      let displays := allowed_displays on (se_displays env) in
      let sent := SentDisplays displays in
      if on then (s, [sent], true)
      else
        let already_primary := bool_decide (sc_display s = None) ||
          match sc_display s with
          | Some d => bool_decide (Some d = option_map display_id (head displays))
          | None => false
          end in
        match already_primary, displays with
        | false, first :: _ => let '(s, out) := switch_to (display_id first) s in (s, sent :: out, true)
        | _, _ => (s, [sent], true)
        end
  end.
Fixpoint screen_run (evs : list (ScreenEnv * ScreenEvent)) (s : Screen) : Screen * list (ScreenEnv * ScreenOut) * bool :=
  match evs with
  | [] => (s, [], true)
  | (env, ev) :: evs =>
      match screen_event env ev s with
      | (s, out, true) =>
          let '(s, more, go) := screen_run evs s in (s, map (pair env) out ++ more, go)
      | (s, out, false) => (s, map (pair env) out, false)
      end
  end.

(** ** Who gets to view *)

Definition auth_pin (auth : LanAuth) : option string :=
  match auth with Password pin | PinOrKey pin _ _ => Some pin | KeyAuth _ _ => None end.

Section Viewing.
Context `{Ed25519} `{X25519} `{Hash} `{Aead} `{MlKem} `{Spake2} `{Base64}.
Context `{!Serde Wire} `{!Serde LanRequest} `{!Serde LanResponse}.

(** A client that confirmed the password exchange of [pin] on channel [ch]. *)
Definition password_proved (pin : string) (r1 r2 : bytes) (ch : SealedChannel) : Prop :=
  exists v msg pq peer_msg secret ch0,
    decode msg = Ok peer_msg /\ host_pq pq r1 = Ok secret /\
    pake_finish (handshake (pake_start (as_bytes pin) r2)) peer_msg (option_map snd secret)
      (pake_transcript v peer_msg (message (pake_start (as_bytes pin) r2)) pq (option_map fst secret))
      Responder = Ok ch0 /\
    confirmed ch0 ch.
Definition admitted (identity : SigningKey) (auth : LanAuth) (r1 : bytes) (secret : EphemeralSecret)
  (r2 : bytes) (needs_consent : bool) (label : string) (ch : SealedChannel) : Prop :=
  if needs_consent then exists pin, auth_pin auth = Some pin /\ password_proved pin r1 r2 ch
  else exists v client, f_id client = label /\ auth_trusts auth label = true /\
         client_proved identity (auth_trusts auth) v client r1 secret ch.

Lemma accept_client_sound identity auth ip r1 secret r2 :
  sound (fun '(ch, label, needs_consent) => admitted identity auth r1 secret r2 needs_consent label ch)
    (accept_client identity auth ip r1 secret r2).
Proof.
  assert (forall v client, sound (fun r => admitted identity auth r1 secret r2 false r.2 r.1)
    (host_key_continue identity (auth_trusts auth) v client r1 secret)) as K.
  { intros v client. eapply sound_mono; [|apply host_key_sound]. intros [ch label] [E P]. simpl in *.
    exists v, client. split; [done|]. split; [|done]. subst. by destruct P as (? & ? & ? & ? & ? & ? & ? & ? & _). }
  assert (forall pin v msg pq, auth_pin auth = Some pin ->
    sound (fun ch => admitted identity auth r1 secret r2 true ip ch)
      (host_password_continue pin v msg pq r1 r2)) as P.
  { intros pin v msg pq E. eapply sound_mono; [|apply host_password_sound].
    intros ch (pm & s & ch0 & ?). exists pin. split; [done|]. by exists v, msg, pq, pm, s, ch0. }
  unfold accept_client. destruct auth as [pin|trusted auto|pin keys auto].
  - eapply sound_bind; [|intros ch Hc; by apply sound_ret]. unfold host_accept_password.
    apply sound_skip. intros [v msg pq| | |]; try apply sound_fail. apply sound_lift. intros _ _. by apply P.
  - eapply (sound_bind (fun r => admitted _ _ _ _ _ false r.2 r.1)); [|intros [ch id] Hc; by apply sound_ret].
    unfold host_accept_key. apply sound_skip. intros [|v eph id sig pq| |]; try apply sound_fail.
    apply sound_lift. intros _ _. apply K.
  - eapply (sound_bind (fun r => match r.2 with
        | Some id => admitted identity (PinOrKey pin keys auto) r1 secret r2 false id r.1
        | None => admitted identity (PinOrKey pin keys auto) r1 secret r2 true ip r.1 end)).
    + unfold host_accept_auto. apply sound_skip. intros [v msg pq|v eph id sig pq| |]; try apply sound_fail;
        apply sound_lift; intros _ _.
      * eapply sound_bind; [by apply P|]. intros ch Hc. by apply sound_ret.
      * eapply sound_bind; [apply K|]. intros [ch label] Hc. by apply sound_ret.
    + intros [ch [id|]] Hc; by apply sound_ret.
Qed.

(** What the loop gives, whatever the network does. *)
Definition may_view (env : ServeEnv) (needs_consent : bool) (label : string) (r : ServeResult) : Prop :=
  match sr_end r with
  | StartsStream _ display _ => exists n name key,
      sr_events r = [ClientConnected (shown_name name label) key] /\
      (needs_consent = true -> match sv_consent env with
                               | Some ask => ask key (shown_name name label) = true
                               | None => True end) /\
      (forall k, key = Some k -> exists k' s, verify_identity k' s = Some k) /\
      (share_all_now (sv_share_all env n) = false -> display = None)
  | _ => sr_events r = []
  end.
Lemma serve_loop_sound fuel env needs label n ch :
  sound (may_view env needs label) (serve_loop fuel env needs label n ch).
Proof.
  revert n ch. induction fuel as [|fuel IH]; intros n ch; [by apply sound_ret|]. cbn [serve_loop].
  eapply (sound_try (fun _ => True)); [apply sound_any|]. intros [[ch1 req]|e] _; [|by apply sound_ret].
  destruct req as [|fps d name ik isg codecs| | | | | | | | | | | | | | |]; try apply IH;
    try (apply sound_skip; intros ?; apply IH).
  cbv zeta. destruct (consents _ _ _ _) eqn:C; [|by apply sound_ignore, sound_ret].
  apply sound_ret. exists n, name, (announced_key ik isg). split; [done|]. split; [|split].
  - intros ->. unfold consents in C. by destruct (sv_consent env).
  - intros k. unfold announced_key. destruct ik as [k0|], isg as [s|]; try done. intros E. by exists k0, s.
  - cbn [sr_end]. by intros ->.
Qed.
End Viewing.

Section ViewingTheorem.
Context `{Ed25519Laws} `{X25519} `{Hash} `{Aead} `{MlKem} `{Spake2} `{Base64Laws}.
Context `{!Serde Wire} `{!Serde LanRequest} `{!Serde LanResponse}.

(** C4. Nobody views a screen unasked. Whatever the network and the client do,
    a session that comes to a stream began with a handshake that either
    verified the signature of a key the host trusts, or confirmed the host's
    PIN; in the second case the person at the host said yes, if there is
    anybody to ask, to the very name and key that are then shown as connected;
    a key is only shown when its owner signed for it; and while only the
    primary screen is shared the stream is of that one. No other session
    reports a viewer. *)
Theorem viewing_needs_trust_or_consent fuel env identity auth ip r1 secret r2 :
  sound (fun r =>
    match sr_end r with
    | StartsStream _ display _ => exists needs_consent label name key ch,
        admitted identity auth r1 secret r2 needs_consent label ch /\
        sr_events r = [ClientConnected (shown_name name label) key] /\
        (needs_consent = true -> match sv_consent env with
                                 | Some ask => ask key (shown_name name label) = true
                                 | None => True end) /\
        (forall k, key = Some k -> exists raw sg, k = b64_encode raw /\ vk_valid raw = true /\
           ed_verify raw (IDENTITY_CONTEXT ++ raw) sg = true) /\
        ((forall n, share_all_now (sv_share_all env n) = false) -> display = None)
    | _ => sr_events r = []
    end)
  (handle fuel env identity auth ip r1 secret r2).
Proof.
  unfold handle. eapply sound_bind; [apply accept_client_sound|]. intros [[ch label] needs] Ha.
  eapply sound_mono; [|apply serve_loop_sound]. intros r Hr. unfold may_view in Hr.
  destruct (sr_end r); try done. destruct Hr as (n & name & key & E & Hc & Hk & Hd).
  exists needs, label, name, key, ch. split_and!; [done..| |auto].
  intros k Ek. destruct (Hk k Ek) as (k' & s & Hv). apply verify_identity_iff in Hv as (raw & sg & _ & _ & _ & _ & V & Ev & ->).
  by exists raw, sg.
Qed.
End ViewingTheorem.

(** ** What a viewer may do while it streams *)

Section ScreenTrace.




End ScreenTrace.

(** ** Two gaps *)

(** When the host names no screen, a revocation leaves the capture of another
    screen running. *)
Lemma revocation_without_displays d :
  let env := {| se_share_all := Some false; se_control := None; se_displays := [] |} in
  screen_run [(env, ShareToggled)] {| sc_display := Some d; sc_injector := None; sc_video := None |} =
  ({| sc_display := Some d; sc_injector := None; sc_video := None |}, [(env, SentDisplays [])], true).
Proof. reflexivity. Qed.

(** A client that needs the consent of the person at the host, who declines
    everything, still gets a screenshot of the whole desktop. *)
Section UnaskedScreenshot.
Context `{Ed25519} `{Base64Laws} `{HashLaws} `{AeadLaws}.
Context `{!Serde LanRequest} `{!SerdeLaws LanRequest} `{!Serde LanResponse} `{!SerdeLaws LanResponse}.

Lemma screenshot_needs_no_consent c h env ask png label :
  sv_consent env = Some ask -> (forall key who, ask key who = false) -> sv_capture_png env 0 = Ok png ->
  session c h -> (next_send c < u64_max)%N -> (next_send h < u64_max)%N ->
  json_fits Req.Screenshot -> json_fits (Resp.Screenshot (b64_encode png)) ->
  exists c' r, rtc pair_step
    (Build_Pair (fetch_screenshot c) (serve_loop 1 env true label 0 h) [] [])
    (Build_Pair (io_ret (c', png)) (io_ret r) [] []).
Proof.
  intros _ _ Ep S Lc Lh (t & J & Ht) (t' & J' & Ht'). unfold fetch_screenshot, send_request, recv_response.
  cbn [serve_loop]. unfold recv_request.
  destruct (value_delivery c h Req.Screenshot t S Lc J Ht) as (b & E1 & E2).
  eexists _, _. etrans; [apply left_emits, emits_bind, E1|].
  cbn [app]. rewrite <-(app_nil_r b). etrans; [eapply right_absorbs, absorbs_try, E2|].
  cbn [io_try io_ret io_bind]. rewrite Ep.
  assert (session (after_recv h) (after_send c)) as S' by by apply session_sym, session_advance.
  destruct (value_delivery (after_recv h) (after_send c) (Resp.Screenshot (b64_encode png)) t' S' Lh J' Ht')
    as (b' & E3 & E4).
  etrans; [apply right_emits, emits_bind, E3|]. cbn [app]. rewrite <-(app_nil_r b').
  etrans; [eapply left_absorbs, absorbs_bind, E4|].
  cbn [io_ret io_bind]. unfold decode_png. rewrite trim_trimmed, b64_decode_encode by apply b64_encode_trimmed. apply rtc_refl.
Qed.
End UnaskedScreenshot.
