(* ===== verification/ConsoleLan.v ===== *)
(** * The physical console over the LAN

    rivetlink-agent/src/lan.rs, the host that serves a machine's own console
    from its broker: the transactions before the desktop (displays, captures
    with their inputs), the viewer of the desktop stream with the keys it holds
    down, and its clipboard and file requests. The trust store is reloaded at
    every decision, so each load is an answer of the environment, and so are
    the worker's replies, the captures, the injections and the clock; what a
    viewer leaves pressed is shown with the worker's own answers to inputs. *)
From Stdlib Require Import NArith ZArith Lia Strings.String Strings.Byte.
From stdpp Require Import sorting.
From S2P Require Import Prelude Text Interfaces Instances Protocol Sealed Handshake Trusted Host.
From S2P Require Import ClientSession Direct SharedFolder Lan Worker Broker LanHost.

(** ** Requests that are input or sharing *)

Definition desktop_input (request : LanRequest) : option ConsoleInputPacket :=
  match request with
  | Req.PointerMove x y => Some (PointerMove x y)
  | Req.PointerButton button down =>
      Some (PointerButton (match button with
                           | Ptr.Left => Left | Ptr.Right => Right | Ptr.Middle => Middle end) down)
  | Req.Scroll dx dy => Some (Scroll dx dy)
  | Req.Key code down => Some (Key code down)
  | _ => None
  end.
Definition is_share_request (request : LanRequest) : bool :=
  match request with
  | Req.EnableSharing | Req.ClipboardSet _ | Req.FileUploadStart _ _ _ | Req.FileUploadChunk _ _
  | Req.FileUploadEnd _ | Req.ListSharedFiles | Req.FileDownload _ _ => true
  | _ => false
  end.

(** ** Keys and buttons held down *)

(** [buttons]: left, right, middle. *)
Record HeldInput := { keys : gset string; buttons : list bool }.
#[export] Instance HeldInput_eq_dec : EqDecision HeldInput.
Proof. solve_decision. Defined.
Definition nothing_held : HeldInput := {| keys := ∅; buttons := [false; false; false] |}.
Definition mouse_index (button : MouseButton) : nat :=
  match button with Left => 0 | Right => 1 | Middle => 2 end.
Definition track (input : ConsoleInputPacket) (h : HeldInput) : HeldInput :=
  match input with
  | Key code true => {| keys := {[code]} ∪ keys h; buttons := buttons h |}
  | Key code false => {| keys := keys h ∖ {[code]}; buttons := buttons h |}
  | PointerButton button down => {| keys := keys h; buttons := <[mouse_index button := down]> (buttons h) |}
  | PointerMove _ _ | Scroll _ _ => h
  end.
(** The keys in the order of the [BTreeSet], then the buttons. *)
Definition releases (h : HeldInput) : list ConsoleInputPacket :=
  map (fun code => Key code false) (merge_sort by_text (elements (keys h))) ++
  omap (fun '(button, down) => if (down : bool) then Some (PointerButton button false) else None)
    (zip [Left; Right; Middle] (buttons h)).
Definition MODIFIERS : list string :=
  ["ShiftLeft"; "ShiftRight"; "ControlLeft"; "ControlRight"; "AltLeft"; "AltRight"; "MetaLeft"; "MetaRight"]%string.
Definition modifiers_held : HeldInput :=
  {| keys := list_to_set MODIFIERS; buttons := [false; false; false] |}.

(** ** Clipboard and files *)

(** [base64_decoded_len]: a text of 4 symbols for 3 bytes, less the padding. *)
Fixpoint count_padding (symbols : bytes) : N :=
  match symbols with
  | b :: rest => if Byte.eqb b Byte.x3d then 1 + count_padding rest else 0
  | [] => 0
  end.
Definition base64_decoded_len (data_b64 : string) : N :=
  slen data_b64 / 4 * 3 - count_padding (reverse (as_bytes data_b64)).
Definition share_message (error : AgentError) : string :=
  match error with
  | Share message => message
  | _ => "the host could not complete the clipboard or file request"
  end.
Definition file_error (id : N) (error : AgentError) : LanResponse := Resp.FileError id (share_message error).

(** The request asked of the worker, what is answered to the viewer, and
    whether the clipboard is on afterwards. Nothing is asked of the worker for
    a clipboard text that is refused, nor here for a download. *)
Definition handle_share_request (reply : WorkerRequest -> Reply) (clipboard_enabled_now : bool)
  (request : LanRequest) : bool * option WorkerRequest * option LanResponse :=
  let on := clipboard_enabled_now in
  let asked q (answer : Reply -> option LanResponse) := (on, Some q, answer (reply q)) in
  let failed id (r : Result unit AgentError) :=
    match r with Ok _ => None | Err e => Some (file_error id e) end in
  match request with
  | Req.EnableSharing =>
      let clipboard := is_ok (clipboard_enabled (reply WReq.ClipboardEnable)) in
      (clipboard, Some WReq.ClipboardEnable, Some (Resp.SharingEnabled clipboard true))
  | Req.ClipboardSet text =>
      if negb on || (MAX_CLIPBOARD_BYTES <? slen text)%N
      then (on, None, Some (Resp.Error "clipboard text was not accepted"))
      else asked (WReq.ClipboardSet text) (fun r =>
             match clipboard_accepted r with Ok _ => None | Err e => Some (Resp.Error (share_message e)) end)
  | Req.FileUploadStart id path size =>
      asked (WReq.FileUploadStart id path size) (fun r => failed id (file_accepted r))
  | Req.FileUploadChunk id data_b64 =>
      asked (WReq.FileUploadChunk id data_b64) (fun r => failed id (file_accepted r))
  | Req.FileUploadEnd id =>
      asked (WReq.FileUploadEnd id) (fun r =>
        Some (match file_uploaded r with Ok path => Resp.FileUploaded id path | Err e => file_error id e end))
  | Req.ListSharedFiles =>
      asked WReq.ListSharedFiles (fun r =>
        Some (match shared_files r with
              | Ok entries => Resp.SharedFiles entries
              | Err e => Resp.Error (share_message e) end))
  | _ => (on, None, None)
  end.

(** The task of one download: chunk after chunk from the worker, whose state
    is [S], until the end, an empty chunk or an error; [None] when the fuel
    runs out first. The viewer's queue takes every response. *)
Fixpoint download {S : Type} (read : N -> S -> S * Result (string * N * bool) AgentError)
  (fuel : nat) (id offset : N) (s : S) : option (S * list LanResponse) :=
  match fuel with
  | O => None
  | Datatypes.S fuel' =>
      let '(s, r) := read offset s in
      match r with
      | Ok (data_b64, size, eof) =>
          let n := base64_decoded_len data_b64 in
          let offset := ((offset + n) mod 2 ^ 64)%N in
          let done := eof || (n =? 0)%N in
          let chunk := Resp.FileChunk id size data_b64 done in
          if done then Some (s, [chunk])
          else match download read fuel' id offset s with
               | Some (s, rest) => Some (s, chunk :: rest)
               | None => None
               end
      | Err error => Some (s, [file_error id error])
      end
  end.
(** [read_shared] of a worker with the desktop. *)
Definition read_shared `{Base64} (env : WorkerEnv) (session : GraphicalSession) (path : string)
  (offset : N) (s : option SharedFolder * Disk)
  : option SharedFolder * Disk * Result (string * N * bool) AgentError :=
  let '(shared, d, response) :=
    shared_folder_request env session s.1 s.2 (WReq.ReadSharedFile path offset) in
  (shared, d, shared_file_data (Ok response)).

(** ** The viewer of the desktop stream

    One event of its [select] at a time. [inject] answers the injections, by
    their number: the worker can change in between. *)
Inductive ClipboardEvent := ClipText (text : string) | ClipLagged | ClipClosed.
Inductive ViewEvent :=
| TakenOver
| NextFrame (frame : StreamFrame) (sent : option bool)
| EngineEnds (login_screen : bool)
| ClipboardEv (ev : ClipboardEvent)
| ShareReady (response : LanResponse)
| ViewerAsks (request : option LanRequest).
(** [NextFrame _ None]: taken over while the frame is being sent. *)
Inductive SwitchOutcome := Switched | SwitchRefused | SwitchFailed.
Record ViewAnswers := {
  an_trust : Result TrustedClients AgentError;
  an_sent : bool;
  an_switch : SwitchOutcome;
  an_reply : WorkerRequest -> Reply;
}.
Inductive ViewOut :=
| Sent (response : LanResponse)
| Injected (input : ConsoleInputPacket) (accepted : bool)
| AsksSwitch (monitor : N)
| AsksKeyframe
| AsksWorker (request : WorkerRequest)
| StartsDownload (id : N) (path : string)
| StopsDesktop.
Record Viewer := {
  held : HeldInput;
  clipboard_on : bool;
  stream_stopped : bool;
  tell_taken_over : bool;
  injections : nat;
}.
Definition set_held (h : HeldInput) (n : nat) (v : Viewer) : Viewer :=
  {| held := h; clipboard_on := clipboard_on v; stream_stopped := stream_stopped v;
     tell_taken_over := tell_taken_over v; injections := n |}.
Definition set_clipboard_on (on : bool) (v : Viewer) : Viewer :=
  {| held := held v; clipboard_on := on; stream_stopped := stream_stopped v;
     tell_taken_over := tell_taken_over v; injections := injections v |}.
Definition set_flags (stopped told : bool) (v : Viewer) : Viewer :=
  {| held := held v; clipboard_on := clipboard_on v; stream_stopped := stopped;
     tell_taken_over := told; injections := injections v |}.

Definition LOGIN_SCREEN_AVAILABLE_MESSAGE : string := "physical-console login screen is available".
Definition TAKEN_OVER_MESSAGE : string := "another device took over this desktop".
Definition frame_response (frame : StreamFrame) : LanResponse :=
  match frame with Tiles delta => Resp.Frame delta | Video video => Resp.Video video end.
Definition may_control_now (trust : Result TrustedClients AgentError) (client : string) : bool :=
  match trust with Ok live => may_control_unattended_console live client | Err _ => false end.

Section ViewerLoop.
Variable inject : nat -> ConsoleInputPacket -> Result unit AgentError.
Variable client : string.

(** [HeldInput::release]: up to the first injection that fails. *)
Fixpoint inject_all (n : nat) (inputs : list ConsoleInputPacket) : nat * list ViewOut :=
  match inputs with
  | [] => (n, [])
  | input :: rest =>
      if is_ok (inject n input)
      then let '(n, out) := inject_all (S n) rest in (n, Injected input true :: out)
      else (S n, [Injected input false])
  end.
Definition release (h : HeldInput) (n : nat) : nat * list ViewOut := inject_all n (releases h).

Definition viewer_start : Viewer * list ViewOut :=
  let '(n, out) := release modifiers_held 0 in
  ({| held := nothing_held; clipboard_on := false; stream_stopped := false; tell_taken_over := false;
      injections := n |}, out).
(** The viewer, what it did, and how the loop ends, if it does. *)
Definition Turn : Type := Viewer * list ViewOut * option (Result unit AgentError).
Definition goes (v : Viewer) (out : list ViewOut) : Turn := (v, out, None).
Definition ends (v : Viewer) (out : list ViewOut) : Turn := (v, out, Some (Ok tt)).
(** [send_share]: a send that fails or stalls ends the session. *)
Definition send_share (a : ViewAnswers) (v : Viewer) (out : list ViewOut) (response : LanResponse) : Turn :=
  if an_sent a then goes v (out ++ [Sent response]) else ends v (out ++ [Sent response]).
Definition view_switch (a : ViewAnswers) (monitor : N) (v : Viewer) : Turn :=
  if negb (may_control_now (an_trust a) client) then goes v []
  else
    let '(n, out) := release (held v) (injections v) in
    let v := set_held nothing_held n v in
    match an_switch a with
    | Switched | SwitchRefused => goes v (out ++ [AsksSwitch monitor])
    | SwitchFailed =>
        ends (set_flags true (tell_taken_over v) v)
          (out ++ [AsksSwitch monitor; Sent (Resp.Error "could not switch display")])
    end.
Definition view_share (a : ViewAnswers) (request : LanRequest) (v : Viewer) : Turn :=
  match an_trust a with
  | Err error => (v, [], Some (Err error))
  | Ok live =>
      if may_control_unattended_console live client then
        let '(on, asked, response) := handle_share_request (an_reply a) (clipboard_on v) request in
        let v := set_clipboard_on on v in
        let out := option_list (option_map AsksWorker asked) ++
          match request with Req.FileDownload id path => [StartsDownload id path] | _ => [] end in
        match response with
        | Some response => send_share a v out response
        | None => goes v out
        end
      else send_share a v []
        (Resp.Error "this trusted device is not authorized for clipboard or file sharing")
  end.
Definition view_input (a : ViewAnswers) (input : ConsoleInputPacket) (v : Viewer) : Turn :=
  match an_trust a with
  | Err error => (v, [], Some (Err error))
  | Ok live =>
      if negb (may_control_unattended_console live client)
      then ends v [Sent (Resp.Error "this trusted device is not authorized for remote input")]
      else
        let v' := set_held (track input (held v)) (S (injections v)) v in
        if is_ok (inject (injections v) input)
        then goes v' [Injected input true]
        else ends v' [Injected input false; Sent (Resp.Error "normal desktop input is unavailable")]
  end.
Definition view_event (a : ViewAnswers) (ev : ViewEvent) (v : Viewer) : Turn :=
  match ev with
  | TakenOver => ends (set_flags (stream_stopped v) true v) []
  | NextFrame frame None => ends v []
  | NextFrame frame (Some sent) =>
      if sent then goes v [Sent (frame_response frame)] else ends v [Sent (frame_response frame)]
  | EngineEnds login_screen =>
      ends v [Sent (Resp.Error (if login_screen then LOGIN_SCREEN_AVAILABLE_MESSAGE
                                else "normal desktop engine ended"))]
  | ClipboardEv ev =>
      if clipboard_on v then
        match ev with
        | ClipText text => send_share a v [] (Resp.ClipboardText text)
        | ClipLagged => goes v []
        | ClipClosed => goes (set_clipboard_on false v) []
        end
      else goes v []
  | ShareReady response => send_share a v [] response
  | ViewerAsks None => ends v []
  | ViewerAsks (Some request) =>
      match request with
      | Req.RequestKeyframe => goes v [AsksKeyframe]
      | Req.SwitchDisplay monitor => view_switch a monitor v
      | _ =>
          if is_share_request request then view_share a request v
          else match desktop_input request with
               | Some input => view_input a input v
               | None => goes v []
               end
      end
  end.
(** After the loop: the held keys, the stream, and the word to a viewer that
    was taken over. *)
Definition viewer_end (v : Viewer) : list ViewOut :=
  (release (held v) (injections v)).2 ++
  (if stream_stopped v then [] else [StopsDesktop]) ++
  (if tell_taken_over v then [Sent (Resp.Error TAKEN_OVER_MESSAGE)] else []).

Fixpoint view_loop (evs : list (ViewAnswers * ViewEvent)) (v : Viewer)
  : list (option ViewAnswers * ViewOut) * option (Result unit AgentError) :=
  match evs with
  | [] => ([], None)
  | (a, ev) :: evs =>
      match view_event a ev v with
      | (v, out, None) =>
          let '(more, r) := view_loop evs v in (map (pair (Some a)) out ++ more, r)
      | (v, out, Some r) => (map (pair (Some a)) out ++ map (pair None) (viewer_end v), Some r)
      end
  end.
(** The whole session of a viewer, from the start of the stream; outputs of an
    event come with the answers it got. *)
Definition viewer_session (evs : list (ViewAnswers * ViewEvent))
  : list (option ViewAnswers * ViewOut) * option (Result unit AgentError) :=
  let '(v, out) := viewer_start in
  let '(more, r) := view_loop evs v in (map (pair None) out ++ more, r).
End ViewerLoop.

(** ** Nothing stays held *)

(** The inputs that took effect, and what they leave pressed on the desktop. *)
Definition accepted_inputs (trace : list (option ViewAnswers * ViewOut)) : list ConsoleInputPacket :=
  omap (fun o => match o.2 with Injected input true => Some input | _ => None end) trace.
Definition pressed (inputs : list ConsoleInputPacket) (h : HeldInput) : HeldInput :=
  foldl (fun h input => track input h) h inputs.
Definition is_release (input : ConsoleInputPacket) : bool :=
  match input with Key _ down | PointerButton _ down => negb down | _ => false end.

(** [h] has every key and button that is pressed on the desktop. *)
Record covers (h desk : HeldInput) : Prop := {
  cov_keys : keys desk ⊆ keys h;
  cov_buttons : length (buttons h) = 3;
  cov_desk : length (buttons desk) = 3;
  cov_down : forall i, buttons desk !! i = Some true -> buttons h !! i = Some true;
}.
Lemma covers_track i h desk : covers h desk -> covers (track i h) (track i desk).
Proof.
  intros [K B D P]. destruct i as [|button down| |code []]; cbn; try (by split).
  - split; cbn; [done|by rewrite length_insert..|]. intros j.
    destruct (decide (j = mouse_index button)) as [->|Hj].
    + rewrite !list_lookup_insert_eq; [done|..]; rewrite ?B, ?D; destruct button; cbn; lia.
    + rewrite !list_lookup_insert_ne by done. apply P.
  - split; cbn; [set_solver|done..].
  - split; cbn; [set_solver|done..].
Qed.
(** A press that did not take effect is only remembered. *)
Lemma covers_press i h desk : is_release i = false -> covers h desk -> covers (track i h) desk.
Proof.
  intros R [K B D P]. destruct i as [|button down| |code []]; cbn in R |- *; try (by split).
  - destruct down; [|done]. split; cbn; [done|by rewrite length_insert|done|]. intros j Hj.
    destruct (decide (j = mouse_index button)) as [->|Hne].
    + rewrite list_lookup_insert_eq; [done|]. rewrite B. destruct button; cbn; lia.
    + rewrite list_lookup_insert_ne by done. by apply P.
  - split; cbn; [set_solver|done..].
Qed.
Lemma pressed_app a b h : pressed (a ++ b) h = pressed b (pressed a h).
Proof. apply foldl_app. Qed.
Lemma pressed_keys ks h : pressed (map (fun c => Key c false) ks) h =
  {| keys := keys h ∖ list_to_set ks; buttons := buttons h |}.
Proof.
  revert h. induction ks as [|k ks IH]; intros [K B]; cbn.
  - f_equal. set_solver.
  - unfold pressed in IH. rewrite IH. cbn. f_equal. set_solver.
Qed.
Lemma pressed_releases h desk : covers h desk -> pressed (releases h) desk = nothing_held.
Proof.
  intros [K B D P]. unfold releases. rewrite pressed_app, pressed_keys.
  assert (keys desk ∖ list_to_set (merge_sort by_text (elements (keys h))) = ∅) as ->.
  { rewrite merge_sort_Permutation. set_solver. }
  destruct (buttons h) as [|h0 [|h1 [|h2 []]]], (buttons desk) as [|d0 [|d1 [|d2 []]]]; try discriminate.
  assert (forall i, nth i [d0; d1; d2] false = true -> nth i [h0; h1; h2] false = true) as P'.
  { intros [|[|[|i]]] E; cbn in *; [specialize (P 0)|specialize (P 1)|specialize (P 2)|by destruct i];
      cbn in P; subst; by injection (P eq_refl). }
  pose proof (P' 0) as P0. pose proof (P' 1) as P1. pose proof (P' 2) as P2. cbn in P0, P1, P2.
  destruct h0, d0; try discriminate (P0 eq_refl); destruct h1, d1; try discriminate (P1 eq_refl);
    destruct h2, d2; try discriminate (P2 eq_refl); reflexivity.
Qed.
Lemma releases_release h : Forall (fun i => is_release i = true) (releases h).
Proof.
  apply Forall_app. split.
  - apply Forall_map, Forall_forall. done.
  - apply Forall_forall. intros i ([b down] & _ & E)%list_elem_of_omap. by destruct down; simplify_eq.
Qed.

(** What a worker with the desktop takes: all but key codes it does not know. *)
Definition takes (i : ConsoleInputPacket) : bool :=
  match i with Key code _ => is_valid_key_code code | _ => true end.
(** The worker as the injector of a session: it
    answers each input, whatever handle and display it is at by then. *)
Definition worker_inject (session : GraphicalSession) (handles : nat -> option InputHandle) (displays : nat -> option N)
  (n : nat) (input : ConsoleInputPacket) : Result unit AgentError :=
  send_input (Ok (apply_input session (handles n) (displays n) (worker_input input)).2).
Lemma worker_takes session handles displays n i : gs_state session = DesktopReady ->
  is_ok (worker_inject session handles displays n i) = takes i.
Proof.
  intros E. unfold worker_inject, apply_input. rewrite E. cbn [bool_decide_eq_false andb].
  rewrite !bool_decide_eq_false_2 by done. cbn [andb].
  destruct i as [x y|button down|dx dy|code down]; cbn; try done. by destruct (is_valid_key_code code).
Qed.
Definition valid_held (h : HeldInput) : Prop := forall c, c ∈ keys h -> is_valid_key_code c = true.
Lemma valid_nothing : valid_held nothing_held.
Proof. intros c Hc. by apply not_elem_of_empty in Hc. Qed.
Lemma valid_covers h desk : covers h desk -> valid_held h -> valid_held desk.
Proof. intros [K _ _ _] V c Hc. by apply V, K. Qed.
Lemma valid_track i h : takes i = true \/ is_release i = true -> valid_held h -> valid_held (track i h).
Proof.
  intros T V. destruct i as [|button down| |code []]; cbn; try done; intros c Hc.
  - apply elem_of_union in Hc as [->%elem_of_singleton|Hc]; [by destruct T|by apply V].
  - apply elem_of_difference in Hc as [Hc _]. by apply V.
Qed.
Lemma releases_taken h : valid_held h -> Forall (fun i => takes i = true) (releases h).
Proof.
  intros V. apply Forall_app. split.
  - apply Forall_map, Forall_forall. intros c Hc. rewrite merge_sort_Permutation in Hc. by apply V, elem_of_elements.
  - apply Forall_forall. intros i ([b down] & _ & E)%list_elem_of_omap. by destruct down; simplify_eq.
Qed.
#[local] Instance by_text_trans : Transitive by_text.
Proof.
  unfold by_text, String.leb. intros a. induction a as [|x a IH]; intros [|y b] [|z c]; cbn; try done.
  specialize (IH b c). unfold Ascii.compare in *.
  destruct (N.compare_spec (Ascii.N_of_ascii x) (Ascii.N_of_ascii y)) as [E1|E1|E1],
    (N.compare_spec (Ascii.N_of_ascii y) (Ascii.N_of_ascii z)) as [E2|E2|E2],
    (N.compare_spec (Ascii.N_of_ascii x) (Ascii.N_of_ascii z)) as [E3|E3|E3]; try done; try lia.
Qed.
#[local] Instance by_text_total : Total by_text.
Proof. intros a b. unfold by_text. destruct (String.leb_total a b); auto. Qed.

Section NothingHeld.
Variable inject : nat -> ConsoleInputPacket -> Result unit AgentError.
Variable client : string.
Hypothesis accepts : forall n i, is_ok (inject n i) = takes i.

Lemma inject_all_ok n inputs : Forall (fun i => takes i = true) inputs ->
  (inject_all inject n inputs).2 = map (fun i => Injected i true) inputs.
Proof.
  intros F. revert n. induction F as [|i inputs R F IH]; intros n; [done|]. cbn [inject_all map].
  rewrite accepts, R. specialize (IH (S n)). destruct (inject_all _ _ _). cbn in *. by rewrite IH.
Qed.
Lemma inject_all_stops n inputs i rest : Forall (fun i => takes i = true) inputs -> takes i = false ->
  (inject_all inject n (inputs ++ i :: rest)).2 = map (fun i => Injected i true) inputs ++ [Injected i false].
Proof.
  intros F Ti. revert n. induction F as [|j inputs R F IH]; intros n; cbn [inject_all map app].
  - by rewrite accepts, Ti.
  - rewrite accepts, R. specialize (IH (S n)). destruct (inject_all _ _ _). cbn in *. by rewrite IH.
Qed.
Lemma accepted_released (a : option ViewAnswers) inputs :
  accepted_inputs (map (pair a) (map (fun i => Injected i true) inputs)) = inputs.
Proof. induction inputs as [|i inputs IH]; [done|]. cbn. f_equal. exact IH. Qed.
Lemma accepted_app x y : accepted_inputs (x ++ y) = accepted_inputs x ++ accepted_inputs y.
Proof. apply omap_app. Qed.
Lemma release_clears (a : option ViewAnswers) h n desk : valid_held h -> covers h desk ->
  pressed (accepted_inputs (map (pair a) (release inject h n).2)) desk = nothing_held.
Proof.
  intros V C. unfold release. rewrite inject_all_ok by by apply releases_taken.
  rewrite accepted_released. by apply pressed_releases.
Qed.
(** The releases stop at a code that is not taken: what comes before it is
    released. *)
Lemma release_until (a : option ViewAnswers) bad h n desk : is_valid_key_code bad = false -> bad ∈ keys h ->
  (forall c, c ∈ keys h -> c = bad \/ is_valid_key_code c = true) -> covers h desk -> valid_held desk ->
  forall code, code ∈ keys (pressed (accepted_inputs (map (pair a) (release inject h n).2)) desk) -> by_text bad code.
Proof.
  intros Nb Hb Hv [K _ _ _] Vd code. unfold release, releases. set (rest := omap _ (zip _ (buttons h))). clearbody rest.
  pose proof (StronglySorted_merge_sort by_text (elements (keys h))) as So.
  pose proof (NoDup_elements (keys h)) as Nd. rewrite <-(merge_sort_Permutation by_text) in Nd.
  assert (forall c, c ∈ merge_sort by_text (elements (keys h)) <-> c ∈ keys h) as El
    by (intros c; rewrite merge_sort_Permutation; apply elem_of_elements).
  destruct (list_elem_of_split (merge_sort by_text (elements (keys h))) bad) as (l1 & l2 & E); [by apply El|].
  rewrite E in *. rewrite map_app. cbn [map]. rewrite <-app_assoc. cbn [app].
  rewrite inject_all_stops; [|apply Forall_map, Forall_forall|exact Nb].
  2:{ intros c Hc. destruct (Hv c) as [->|]; [by apply El, elem_of_app; left| |done].
      apply NoDup_app in Nd as (_ & Nd & _). destruct (Nd bad Hc). by left. }
  rewrite map_app, accepted_app, accepted_released. cbn [map accepted_inputs omap list_omap snd]. rewrite app_nil_r, pressed_keys.
  cbn [keys]. intros [Hc Hn]%elem_of_difference.
  assert (code ∈ l1 ++ bad :: l2) as Hin by by apply El, K.
  apply elem_of_app in Hin as [Hin|[->|Hin]%elem_of_cons]; [by destruct Hn; apply elem_of_list_to_set| |].
  - specialize (Vd bad Hc). congruence.
  - apply StronglySorted_app_1_r in So. apply StronglySorted_inv in So as [_ So]. rewrite Forall_forall in So. by apply So.
Qed.
Lemma covers_nothing : covers nothing_held nothing_held.
Proof. by split. Qed.

Definition turn_desk (a : ViewAnswers) (desk : HeldInput) (t : Turn) : HeldInput :=
  pressed (accepted_inputs (map (pair (Some a)) t.1.2)) desk.
(** All that is down is remembered under codes the worker takes; a press of
    another code ends the loop, and is the only such code remembered then. *)
Definition view_ok (a : ViewAnswers) (ev : ViewEvent) (desk : HeldInput) (t : Turn) : Prop :=
  covers (held t.1.1) (turn_desk a desk t) /\
  (valid_held (held t.1.1) \/
   t.2 <> None /\ exists bad, ev = ViewerAsks (Some (Req.Key bad true)) /\ is_valid_key_code bad = false /\
     bad ∈ keys (held t.1.1) /\ (forall c, c ∈ keys (held t.1.1) -> c = bad \/ is_valid_key_code c = true) /\
     valid_held (turn_desk a desk t)).
Lemma send_share_ok a ev v out response desk : valid_held (held v) ->
  covers (held v) (pressed (accepted_inputs (map (pair (Some a)) out)) desk) ->
  view_ok a ev desk (send_share a v out response).
Proof.
  intros V C. unfold send_share, view_ok, turn_desk, goes, ends. destruct (an_sent a); cbn [fst snd];
    rewrite map_app, accepted_app, pressed_app; (split; [done|by left]).
Qed.
Lemma view_switch_ok a ev monitor v desk : valid_held (held v) -> covers (held v) desk ->
  view_ok a ev desk (view_switch inject client a monitor v).
Proof.
  intros V C. unfold view_switch. destruct (negb _); [by split; [|left]|].
  pose proof (release_clears (Some a) (held v) (injections v) desk V C) as R.
  destruct (release inject (held v) (injections v)) as [n out]. cbn [snd] in R.
  destruct (an_switch a); unfold view_ok, turn_desk, goes, ends; cbn [fst snd]; rewrite map_app, accepted_app, pressed_app, R;
    (split; [apply covers_nothing|left; apply valid_nothing]).
Qed.
Lemma view_share_ok a ev request v desk : valid_held (held v) -> covers (held v) desk ->
  view_ok a ev desk (view_share client a request v).
Proof.
  intros V C. unfold view_share. destruct (an_trust a) as [live|]; [|by split; [|left]].
  destruct (may_control_unattended_console _ _); [|by apply send_share_ok].
  destruct (handle_share_request _ _ _) as [[on asked] response].
  assert (covers (held (set_clipboard_on on v)) (pressed (accepted_inputs (map (pair (Some a))
    (option_list (option_map AsksWorker asked) ++
     match request with Req.FileDownload id path => [StartsDownload id path] | _ => [] end))) desk)) as C'.
  { by destruct asked, request. }
  destruct response; [by apply send_share_ok|split; [exact C'|by left]].
Qed.
Lemma view_input_ok a ev input v desk : (forall code down, input = Key code down -> ev = ViewerAsks (Some (Req.Key code down))) ->
  valid_held (held v) -> covers (held v) desk -> view_ok a ev desk (view_input inject client a input v).
Proof.
  intros Ev V C. unfold view_input. destruct (an_trust a) as [live|]; [|by split; [|left]].
  destruct (negb _); [by split; [|left]|]. rewrite accepts. pose proof (valid_covers _ _ C V) as Vd.
  destruct (takes input) eqn:T; unfold view_ok, turn_desk; cbn [goes ends fst snd held set_held map].
  - split; [by apply covers_track|]. left. apply valid_track; auto.
  - cbn [accepted_inputs omap list_omap snd]. destruct input as [| | |code down]; try discriminate T. cbn [takes] in T.
    destruct down.
    + split; [by apply covers_press|]. right. split; [done|]. exists code. split; [by apply Ev|]. split; [done|].
      split; [cbn; set_solver|]. split; [|done]. cbn. intros c [->%elem_of_singleton|Hc]%elem_of_union; [by left|right; by apply V].
    + split; [|left; apply valid_track; auto]. destruct C as [K B D P]. split; cbn; [|done..].
      intros c Hc. apply elem_of_difference. split; [by apply K|]. intros ->%elem_of_singleton. specialize (Vd code Hc). congruence.
Qed.
Lemma view_event_ok a ev v desk : valid_held (held v) -> covers (held v) desk ->
  view_ok a ev desk (view_event inject client a ev v).
Proof.
  intros V C. assert (forall v' out r, held v' = held v -> accepted_inputs (map (pair (Some a)) out) = [] ->
    view_ok a ev desk (v', out, r)) as Plain.
  { intros v' out r E A. unfold view_ok, turn_desk. cbn [fst snd]. rewrite E, A. by split; [|left]. }
  destruct ev as [|frame [[]|]|login|[text| |]|response|[request|]]; cbn [view_event]; try by apply Plain.
  - destruct (clipboard_on v); [by apply send_share_ok|by apply Plain].
  - destruct (clipboard_on v); by apply Plain.
  - destruct (clipboard_on v); by apply Plain.
  - by apply send_share_ok.
  - destruct request; cbn [is_share_request desktop_input];
      first [by apply Plain | by apply view_switch_ok | by apply view_share_ok
            | apply view_input_ok; [intros ? ? [=]; by subst|done|done]].
Qed.
Definition presses (evs : list (ViewAnswers * ViewEvent)) (bad : string) : Prop :=
  exists a, (a, ViewerAsks (Some (Req.Key bad true))) ∈ evs.
Lemma view_loop_clears evs v desk : valid_held (held v) -> covers (held v) desk ->
  let '(trace, ended) := view_loop inject client evs v in
  ended <> None ->
  pressed (accepted_inputs trace) desk = nothing_held \/
  exists bad, presses evs bad /\ is_valid_key_code bad = false /\
    forall code, code ∈ keys (pressed (accepted_inputs trace) desk) -> by_text bad code.
Proof.
  revert v desk. induction evs as [|[a ev] evs IH]; intros v desk V C; [by intros N; destruct N|]. cbn [view_loop].
  pose proof (view_event_ok a ev v desk V C) as T. unfold view_ok, turn_desk in T.
  destruct (view_event inject client a ev v) as [[v' out] [r|]]; cbn [fst snd] in T; destruct T as [C' T].
  - intros _. rewrite accepted_app, pressed_app. unfold viewer_end. rewrite !map_app, !accepted_app.
    assert (accepted_inputs (map (pair None) (if stream_stopped v' then [] else [StopsDesktop])) = []) as -> by (by destruct (stream_stopped v')).
    assert (accepted_inputs (map (pair None) (if tell_taken_over v' then [Sent (Resp.Error TAKEN_OVER_MESSAGE)] else [])) = [])
      as -> by (by destruct (tell_taken_over v')).
    rewrite !app_nil_r. destruct T as [V'|(_ & bad & -> & Nb & Hb & Hv & Vd)]; [left; by apply release_clears|].
    right. exists bad. split; [exists a; by left|]. split; [done|]. by apply release_until.
  - destruct T as [V'|[N _]]; [|done]. specialize (IH v' _ V' C'). destruct (view_loop inject client evs v') as [more r].
    intros Hr. rewrite accepted_app, pressed_app. destruct (IH Hr) as [|(bad & (a' & Ha) & Nb & Hb)]; [by left|].
    right. exists bad. split; [exists a'; by right|done].
Qed.
Lemma viewer_session_clears evs desk :
  keys desk ⊆ list_to_set MODIFIERS -> buttons desk = [false; false; false] ->
  let '(trace, ended) := viewer_session inject client evs in
  ended <> None ->
  pressed (accepted_inputs trace) desk = nothing_held \/
  exists bad, presses evs bad /\ is_valid_key_code bad = false /\
    forall code, code ∈ keys (pressed (accepted_inputs trace) desk) -> by_text bad code.
Proof.
  intros K B. unfold viewer_session, viewer_start.
  assert (covers modifiers_held desk) as C.
  { split; [done|done|by rewrite B|]. intros i. by rewrite B. }
  assert (valid_held modifiers_held) as V.
  { intros c Hc%elem_of_list_to_set. repeat (apply elem_of_cons in Hc as [->|Hc]; [reflexivity|]). by apply elem_of_nil in Hc. }
  pose proof (release_clears None modifiers_held 0 desk V C) as R.
  destruct (release inject modifiers_held 0) as [n out]. cbn [snd] in R.
  set (v := {| held := nothing_held; clipboard_on := false; stream_stopped := false;
               tell_taken_over := false; injections := n |}).
  pose proof (view_loop_clears evs v nothing_held valid_nothing covers_nothing) as L.
  destruct (view_loop inject client evs v) as [more r]. intros Hr.
  rewrite accepted_app, pressed_app, R. by apply L.
Qed.
End NothingHeld.

(** C11. A viewer leaves nothing held, or it sent a key code that the worker
    does not know. On a machine whose worker answers, whatever the viewer sends
    and however its session ends, once it is over every key and button that was
    pressed through it is released again, and so are the modifiers an earlier
    viewer left; except when it asked for the press of a code that the worker
    refuses: that ends the session, the release of that code is refused too,
    and the releases stop there, so that only keys which come before it in the
    order of the codes are sure to be released. *)
Theorem viewer_leaves_nothing_held session handles displays client evs desk :
  gs_state session = DesktopReady -> keys desk ⊆ list_to_set MODIFIERS -> buttons desk = [false; false; false] ->
  let '(trace, ended) := viewer_session (worker_inject session handles displays) client evs in
  ended <> None ->
  pressed (accepted_inputs trace) desk = nothing_held \/
  exists bad a, (a, ViewerAsks (Some (Req.Key bad true))) ∈ evs /\ is_valid_key_code bad = false /\
    forall code, code ∈ keys (pressed (accepted_inputs trace) desk) -> by_text bad code.
Proof.
  intros E K B.
  pose proof (viewer_session_clears (worker_inject session handles displays) client
    (fun n i => worker_takes session handles displays n i E) evs desk K B) as L.
  destruct (viewer_session _ _ _) as [trace ended]. intros Hr. destruct (L Hr) as [|(bad & (a & Ha) & Nb & Hb)]; [by left|].
  right. by exists bad, a.
Qed.

(** ** Every action of a viewer is permitted when it happens *)

Section Permission.
Variable inject : nat -> ConsoleInputPacket -> Result unit AgentError.
Variable client : string.

Definition allowed_now (o : option ViewAnswers) : Prop :=
  exists a, o = Some a /\ may_control_now (an_trust a) client = true.
Definition permitted (o : option ViewAnswers * ViewOut) : Prop :=
  match o.2 with
  | Injected input _ => is_release input = true \/ allowed_now o.1
  | AsksSwitch _ | AsksWorker _ | StartsDownload _ _ => allowed_now o.1
  | Sent _ | AsksKeyframe | StopsDesktop => True
  end.
Definition all_permitted (o : option ViewAnswers) (out : list ViewOut) : Prop :=
  Forall permitted (map (pair o) out).

Lemma all_permitted_app o a b : all_permitted o (a ++ b) <-> all_permitted o a /\ all_permitted o b.
Proof. unfold all_permitted. by rewrite map_app, Forall_app. Qed.
Lemma all_permitted_cons o x out : permitted (o, x) -> all_permitted o out -> all_permitted o (x :: out).
Proof. by constructor. Qed.
Lemma all_permitted_nil o : all_permitted o [].
Proof. constructor. Qed.
Create HintDb permitted_db.
#[local] Hint Resolve all_permitted_cons all_permitted_nil : permitted_db.
#[local] Hint Extern 1 (permitted _) => (exact I || (by left) || (by right) || assumption) : permitted_db.
Lemma release_permitted o h n : all_permitted o (release inject h n).2.
Proof.
  unfold release. generalize (releases_release h). generalize (releases h). intros inputs F.
  revert n. induction F as [|i inputs R F IH]; intros n; [constructor|]. cbn [inject_all].
  destruct (is_ok _); [|cbn [snd]; auto with permitted_db].
  specialize (IH (S n)). destruct (inject_all _ _ _). cbn [snd] in *. auto with permitted_db.
Qed.
Lemma send_share_permitted a v out response :
  all_permitted (Some a) out -> all_permitted (Some a) (send_share a v out response).1.2.
Proof.
  intros F. unfold send_share. destruct (an_sent a); apply all_permitted_app; auto with permitted_db.
Qed.
Lemma may_control_now_ok a live : an_trust a = Ok live -> may_control_unattended_console live client = true ->
  allowed_now (Some a).
Proof. intros E P. exists a. unfold may_control_now. by rewrite E. Qed.
Lemma view_event_permitted a ev v : all_permitted (Some a) (view_event inject client a ev v).1.2.
Proof.
  assert (forall m, all_permitted (Some a) (view_switch inject client a m v).1.2) as Sw.
  { intros m. unfold view_switch. destruct (may_control_now (an_trust a) client) eqn:P; [|constructor].
    pose proof (release_permitted (Some a) (held v) (injections v)) as R.
    destruct (release _ _ _) as [n out]. cbn [negb snd] in *. assert (allowed_now (Some a)) by by exists a.
    destruct (an_switch a); apply all_permitted_app; auto with permitted_db. }
  assert (forall q, all_permitted (Some a) (view_share client a q v).1.2) as Sh.
  { intros q. unfold view_share. destruct (an_trust a) as [live|] eqn:Et; [|constructor].
    destruct (may_control_unattended_console live client) eqn:P; [|apply send_share_permitted; constructor].
    pose proof (may_control_now_ok _ _ Et P) as A.
    destruct (handle_share_request _ _ _) as [[on asked] response].
    assert (all_permitted (Some a) (option_list (option_map AsksWorker asked) ++
      match q with Req.FileDownload id path => [StartsDownload id path] | _ => [] end)) as F.
    { apply all_permitted_app. split; [destruct asked|destruct q]; cbn; auto with permitted_db. }
    destruct response; [by apply send_share_permitted|exact F]. }
  assert (forall i, all_permitted (Some a) (view_input inject client a i v).1.2) as In.
  { intros i. unfold view_input. destruct (an_trust a) as [live|] eqn:Et; [|constructor].
    destruct (may_control_unattended_console live client) eqn:P; [|cbn; auto with permitted_db].
    pose proof (may_control_now_ok _ _ Et P) as A. cbn [negb].
    destruct (is_ok _); cbn; auto with permitted_db. }
  destruct ev as [|frame [[]|]|login|[text| |]|response|[request|]]; cbn [view_event];
    try (cbn; auto with permitted_db; fail).
  - destruct (clipboard_on v); [by apply send_share_permitted; constructor|constructor].
  - destruct (clipboard_on v); constructor.
  - destruct (clipboard_on v); constructor.
  - apply send_share_permitted. constructor.
  - destruct request; cbn [is_share_request desktop_input]; first [apply Sw|apply Sh|apply In|cbn; auto with permitted_db; fail].
Qed.

(** A viewer acts only with permission. However long the session and
    whatever it asks, each input injected for it, each display switch, each
    request made of the worker and each download happens when the trust store,
    as read at that moment, lets this client control the console; without it
    the only inputs are releases. *)
Theorem viewer_acts_with_permission evs : Forall permitted (viewer_session inject client evs).1.
Proof.
  assert (forall evs v, Forall permitted (view_loop inject client evs v).1) as L.
  { clear evs. induction evs as [|[a ev] evs IH]; intros v; [constructor|]. cbn [view_loop].
    pose proof (view_event_permitted a ev v) as P.
    destruct (view_event inject client a ev v) as [[v' out] [r|]]; cbn [fst snd] in *.
    - apply Forall_app. split; [exact P|]. apply (all_permitted_app None). split; [apply release_permitted|].
      by destruct (stream_stopped v'), (tell_taken_over v'); repeat constructor.
    - specialize (IH v'). destruct (view_loop inject client evs v') as [more r].
      apply Forall_app. by split. }
  unfold viewer_session, viewer_start. pose proof (release_permitted None modifiers_held 0) as R.
  destruct (release _ _ _) as [n out]. cbn [snd] in R.
  set (v := {| held := nothing_held; clipboard_on := false; stream_stopped := false;
               tell_taken_over := false; injections := n |}).
  specialize (L evs v). destruct (view_loop inject client evs v) as [more r]. apply Forall_app. by split.
Qed.
End Permission.

(** ** Sessions at concrete inputs *)

Definition ex_controller : TrustedEntry :=
  {| name := "laptop"; can_view := true; can_control := true; can_unattended_console := true |}.
Definition ex_viewer : TrustedEntry :=
  {| name := "tablet"; can_view := true; can_control := false; can_unattended_console := true |}.
Definition ex_store : TrustedClients := {| path := "t.json"; entries := {["k" := ex_controller; "v" := ex_viewer]} |}.
Definition ex_answers : ViewAnswers :=
  {| an_trust := Ok ex_store; an_sent := true; an_switch := Switched; an_reply := fun _ => Ok WResp.Pong |}.
Definition asks (requests : list LanRequest) : list (ViewAnswers * ViewEvent) :=
  map (fun q => (ex_answers, ViewerAsks (Some q))) requests.
Definition ex_desk : HeldInput := {| keys := {["ShiftLeft"]}; buttons := [false; false; false] |}.
Definition ex_view : list (ViewAnswers * ViewEvent) :=
  asks [Req.Key "ControlLeft" true; Req.PointerButton Ptr.Left true; Req.Key "KeyC" true;
        Req.Key "KeyC" false; Req.EnableSharing; Req.Key "KeyD" true] ++ [(ex_answers, TakenOver)].

Definition ex_inject := worker_inject ex_session (fun _ => None) (fun _ => None).
Lemma viewer_leaves_nothing_held_witness :
  let s := viewer_session ex_inject "k" ex_view in
  s.2 = Some (Ok tt) /\ length (accepted_inputs s.1) = 16 /\
  pressed (accepted_inputs s.1) ex_desk = nothing_held.
Proof.
  split; [vm_compute; reflexivity|]. split; [vm_compute; reflexivity|].
  pose proof (viewer_leaves_nothing_held ex_session (fun _ => None) (fun _ => None) "k" ex_view ex_desk eq_refl) as H.
  fold ex_inject in H. cbv zeta.
  assert (forall bad a, (a, ViewerAsks (Some (Req.Key bad true))) ∈ ex_view -> is_valid_key_code bad = true) as V.
  { assert (forallb (fun e => match e.2 with ViewerAsks (Some (Req.Key bad true)) => is_valid_key_code bad | _ => true end) ex_view = true)
      as F by (vm_compute; reflexivity).
    rewrite forallb_forall in F. intros bad a Hb%list_elem_of_In. exact (F _ Hb). }
  assert ((viewer_session ex_inject "k" ex_view).2 <> None) as Ne by (vm_compute; discriminate).
  destruct (viewer_session ex_inject "k" ex_view) as [trace ended].
  destruct H as [H|(bad & a & Hb & Nb & _)]; [by apply (bool_decide_unpack _); vm_compute|reflexivity|exact Ne|exact H|].
  rewrite (V bad a Hb) in Nb. discriminate Nb.
Defined.

(** A viewer that sends a code the worker rejects ends its session, and the
    release of that code is rejected too: it comes first, and the releases
    after it are skipped, so the key it held stays pressed. *)
Lemma rejected_key_leaves_others_held :
  let s := viewer_session ex_inject "k" (asks [Req.Key "KeyD" true; Req.Key "A!" true]) in
  s.2 = Some (Ok tt) /\ pressed (accepted_inputs s.1) nothing_held = track (Key "KeyD" true) nothing_held.
Proof. split; vm_compute; reflexivity. Qed.

(** ** A download from start to end *)

Section Download.
Context `{Base64}.
(** The texts of the standard engine are padded to 4 symbols for 3 bytes. *)
Hypothesis padded : forall b, base64_decoded_len (b64_encode b) = len b.

Lemma read_shared_reads env session folder d path name folders content offset :
  supports_normal_desktop_stream session = true ->
  plain_root (files d) (root folder) -> faults d = [] -> path_parts path = Some (name, folders) ->
  real_dir (files d) (root folder ++ folders) -> ends_with PART_SUFFIX name = false ->
  files d !! (root folder ++ folders ++ [name]) = Some (NFile content) ->
  (offset <= len content <= MAX_FILE_BYTES)%N ->
  let data := take (N.to_nat FILE_CHUNK_BYTES) (drop (N.to_nat offset) content) in
  read_shared env session path offset (Some folder, d) =
  (Some folder, d, Ok (b64_encode data, len content, (len content <=? offset + len data)%N)).
Proof.
  intros Sd P F Ep R Hs En B data. unfold read_shared, shared_folder_request. rewrite Sd. cbn [negb fst snd].
  unfold folder_request. by erewrite read_chunk_reads by done.
Qed.

Definition piece (id size : N) (eof : bool) (data : bytes) : LanResponse :=
  Resp.FileChunk id size (b64_encode data) eof.
Lemma download_from {S} (read : N -> S -> S * Result (string * N * bool) AgentError) s id content C :
  (0 < C <= MAX_FILE_BYTES)%N ->
  (forall offset, (offset <= len content)%N ->
    let data := take (N.to_nat C) (drop (N.to_nat offset) content) in
    read offset s = (s, Ok (b64_encode data, len content, (len content <=? offset + len data)%N))) ->
  (len content <= MAX_FILE_BYTES)%N ->
  forall fuel offset, (offset <= len content)%N ->
  ((len content - offset) / C < N.of_nat fuel)%N ->
  exists init final, download read fuel id offset s =
      Some (s, map (piece id (len content) false) init ++ [piece id (len content) true final]) /\
    concat init ++ final = drop (N.to_nat offset) content.
Proof.
  intros HC Hr Hm. induction fuel as [|fuel IH]; intros offset Ho Hf; [by destruct (N.nlt_0_r _ Hf)|]. cbn [download].
  rewrite Hr by done. rewrite padded.
  set (data := take (N.to_nat C) (drop (N.to_nat offset) content)).
  assert (len data = N.min C (len content - offset)) as Hl.
  { unfold data, len. rewrite length_take, length_drop. unfold len in *. lia. }
  destruct (N.leb_spec (len content) (offset + len data)) as [Hd|Hd]; cbn [orb].
  - exists [], data. split; [done|]. cbn. unfold data. apply take_ge. rewrite length_drop. unfold len in *. lia.
  - assert (len data = C) as Hc by lia. rewrite Hc.
    destruct (N.eqb_spec C 0) as [Hz|_]; [lia|].
    assert ((offset + C) mod 2 ^ 64 = offset + C)%N as ->.
    { apply N.mod_small. unfold MAX_FILE_BYTES in Hm, HC. change (2 ^ 64)%N with 18446744073709551616%N. lia. }
    destruct (IH (offset + C)%N) as (init & final & -> & E); [lia| |].
    {
      assert (len content - offset = (len content - (offset + C)) + 1 * C)%N as E by lia.
      rewrite E, N.div_add in Hf by lia. lia. }
    exists (data :: init), final. split; [done|]. cbn [concat]. rewrite <-app_assoc, E.
    rewrite N2Nat.inj_add, <-drop_drop. unfold data. apply take_drop.
Qed.

(** A download delivers the file. A viewer that asks for a regular file of
    the shared folder gets, when no call fails meanwhile, a finite sequence of
    chunks with its request's number and the file's size, of which exactly the
    last says it is the end, and which joined together are the file: the task
    ends after at most one chunk more than the size holds full ones. *)
Theorem download_round_trip env session folder d id path name folders content fuel :
  supports_normal_desktop_stream session = true ->
  plain_root (files d) (root folder) -> faults d = [] -> path_parts path = Some (name, folders) ->
  real_dir (files d) (root folder ++ folders) -> ends_with PART_SUFFIX name = false ->
  files d !! (root folder ++ folders ++ [name]) = Some (NFile content) ->
  (len content <= MAX_FILE_BYTES)%N -> (len content / FILE_CHUNK_BYTES < N.of_nat fuel)%N ->
  exists init final,
    download (read_shared env session path) fuel id 0 (Some folder, d) =
      Some (Some folder, d, map (piece id (len content) false) init ++ [piece id (len content) true final]) /\
    concat init ++ final = content.
Proof.
  intros Sd P F Ep R Hs En Hm Hf.
  destruct (download_from (read_shared env session path) (Some folder, d) id content FILE_CHUNK_BYTES)
    with (fuel := fuel) (offset := 0%N) as (init & final & E & C); [by split| |done|lia|by rewrite N.sub_0_r|].
  - intros offset Ho. apply (read_shared_reads env session folder d path name folders content offset); auto.
  - by exists init, final.
Qed.
End Download.

(** The standard padding satisfies the hypothesis. *)
Lemma padded_base64_decoded_len b : base64_decoded_len (@b64_encode padded_base64 b) = len b.
Proof.
  unfold base64_decoded_len. cbn [b64_encode padded_base64]. unfold slen. rewrite as_bytes_from_utf8.
  enough (len (base64 b) / 4 * 3 = len b + count_padding (reverse (base64 b)))%N by lia.
  induction b as [|x|x y|x y z b IH] using three_step_ind; cbn [base64].
  - reflexivity.
  - cbn. rewrite base64_symbol_not_pad. reflexivity.
  - cbn. rewrite base64_symbol_not_pad. reflexivity.
  - cbv zeta. unfold len in *. cbn [length]. rewrite !reverse_cons.
    assert (forall l n, count_padding (l ++ [base64_symbol (n mod 64)]) = count_padding l) as A.
    { clear. induction l as [|c l IH]; intros n; cbn; [by rewrite base64_symbol_not_pad|].
      by rewrite IH. }
    rewrite !A. replace (N.of_nat (S (S (S (S (length (base64 b)))))))
      with (N.of_nat (length (base64 b)) + 1 * 4)%N by lia.
    rewrite N.div_add by done. lia.
Qed.

Lemma ex_real : real_dir ex_fs (ex_root ++ []).
Proof.
  change (ex_root ++ []) with ((([] ++ ["home"]) ++ ["u"]) ++ ["RivetLink"]).
  repeat (apply real_dir_snoc; split; [|split; [split; discriminate|vm_compute; reflexivity]]).
  apply real_dir_nil.
Qed.
Lemma download_round_trip_witness :
  (len (as_bytes "hello") = 5)%N /\
  exists init final,
    download (@read_shared padded_base64 ex_env ex_session "a.txt") 1 7 0 (Some ex_folder, ex_disk) =
      Some (Some ex_folder, ex_disk,
            map (@piece padded_base64 7 5 false) init ++ [@piece padded_base64 7 5 true final]) /\
    concat init ++ final = as_bytes "hello".
Proof.
  split; [reflexivity|].
  apply (@download_round_trip padded_base64 padded_base64_decoded_len ex_env ex_session ex_folder ex_disk 7 "a.txt"
           "a.txt" [] (as_bytes "hello") 1);
    first [exact ex_plain|exact ex_real|vm_compute; first [reflexivity|discriminate]].
Defined.

(** ** Before the desktop: one authenticated transaction after another

    Every answer is that of its request's number. A handshake that takes more
    than its ten seconds is cancelled, which has no effect of its own. *)
Record UnattendedConsoleConfig := {
  enabled : bool;
  allow_trusted_clients : bool;
  capture_timeout_secs : N;
  min_capture_interval_secs : N;
  max_capture_bytes : N;
}.
(** A capture that times out is [None]. *)
Record ConsoleEnv := {
  ce_handshake_trust : Result TrustedClients AgentError;
  ce_trust : nat -> Result TrustedClients AgentError;
  ce_state : nat -> option (HostConsoleState * N);
  ce_displays : nat -> Result (list DisplayInfo) AgentError;
  ce_now : nat -> N;
  ce_captured : nat -> N;
  ce_inject : nat -> nat -> ConsoleInputPacket -> Result unit AgentError;
  ce_capture : nat -> option (Result bytes AgentError);
}.
(** What reached the worker, with the number of the request. *)
Inductive ConsoleAct :=
| ConsoleInjected (n : nat) (input : ConsoleInputPacket)
| ConsoleCaptured (n : nat) (with_inputs : bool)
| ConsoleListed (n : nat).
Inductive ConsoleEnd :=
| NotAdmitted (e : Sdk.SdkError)
| ClientClosed
| StartsDesktop (client : string) (fps : N) (h264 : bool)
| Rejected
| Broken (e : AgentError)
| StillOpen.
Record ConsoleResult := { cr_log : list ConsoleAct; cr_end : ConsoleEnd }.

Definition SdkError_display (e : Sdk.SdkError) : string :=
  (match e with
  | Sdk.Config m => "config error: " ++ m
  | Sdk.Identity m => "identity error: " ++ m
  | Sdk.Http m => "http error: " ++ m
  | Sdk.NotAuthenticated => "not authenticated — call login() first"
  | Sdk.Auth m => "authentication failed: " ++ m
  | Sdk.Relay m => "relay error: " ++ m
  | Sdk.Lan m => "local network error: " ++ m
  | Sdk.WebSocket m => "websocket error: " ++ m
  | Sdk.SessionRejected m => "session rejected by host: " ++ m
  | Sdk.Crypto m => "crypto error: " ++ m
  | Sdk.Discovery m => "discovery error: " ++ m
  | Sdk.Io e => "io error: " ++ io.text e
  | Sdk.SerdeError m => "serialization error: " ++ m
  | Sdk.Base64Error m => "invalid base64: " ++ m
  end)%string.
Definition lan_error (e : Sdk.SdkError) : AgentError := Trusted.Lan (SdkError_display e).
Definition is_lan_health_probe_disconnect (error : AgentError) : bool :=
  match error with Trusted.Lan message => str_contains "early eof" message | _ => false end.
Definition sharing_features : list string := ["clipboard"; "files"]%string.

Section ConsoleClient.
Context `{Ed25519} `{X25519} `{Hash} `{Aead} `{MlKem} `{Base64}.
Context `{!Serde Wire} `{!Serde LanRequest} `{!Serde LanResponse}.
Variable env : ConsoleEnv.
Variable limits : UnattendedConsoleConfig.

(** The channel, the time of the last capture, what was done, and the error
    that ends the session. *)
Definition CaptureTurn : Type := SealedChannel * option N * list ConsoleAct * option AgentError.
Definition console_answer (ch : SealedChannel) (last : option N) (log : list ConsoleAct) (response : LanResponse)
  : Io CaptureTurn :=
  io_try (send_response ch response) (fun r =>
    match r with
    | Ok ch => io_ret (ch, last, log, None)
    | Err e => io_ret (ch, last, log, Some (lan_error e))
    end).
(** The inputs in order, up to the first that fails. *)
Fixpoint console_inject (n k : nat) (inputs : list ConsoleInputPacket) : list ConsoleAct * option AgentError :=
  match inputs with
  | [] => ([], None)
  | input :: rest =>
      match ce_inject env n k input with
      | Ok _ => let '(log, r) := console_inject n (S k) rest in (ConsoleInjected n input :: log, r)
      | Err e => ([ConsoleInjected n input], Some e)
      end
  end.
Definition capture_response (n : nat) : LanResponse :=
  match ce_capture env n with
  | Some (Ok png) =>
      if (len png <=? max_capture_bytes limits)%N
      then Resp.ConsoleCapture (b64_encode png) (option_map fst (ce_state env n)) (option_map snd (ce_state env n))
      else Resp.Error "screenshot exceeds the configured safety limit"
  | Some (Err _) => Resp.Error "physical-console capture failed"
  | None => Resp.Error "physical-console capture timed out"
  end.
Definition serve_console_capture_request (client : string) (n : nat) (ch : SealedChannel) (last : option N)
  (inputs : list ConsoleInputPacket) : Io CaptureTurn :=
  let too_soon := match last with
    | Some at_ => (duration_since (ce_now env n) at_ <? from_secs (min_capture_interval_secs limits))%N
    | None => false end in
  let without_inputs := match inputs with [] => true | _ => false end in
  let proceed log :=
    console_answer ch (Some (ce_captured env n)) (log ++ [ConsoleCaptured n (negb without_inputs)])
      (capture_response n) in
  if without_inputs && too_soon
  then console_answer ch last [] (Resp.Error "screenshot request rate limit reached; try again shortly")
  else if without_inputs then proceed []
  else
    match ce_trust env n with
    | Err e => io_ret (ch, last, [], Some e)
    | Ok live =>
        if negb (may_control_unattended_console live client)
        then console_answer ch last []
               (Resp.Error "this trusted device is not authorized for physical-console input")
        else match console_inject n 0 inputs with
             | (log, Some e) => io_ret (ch, last, log, Some e)
             | (log, None) => proceed log
             end
    end.

Definition console_displays (client : string) (n : nat) : list ConsoleAct * LanResponse :=
  let may_control := may_control_now (ce_trust env n) client in
  match ce_state env n with
  | Some (DesktopReady, _) =>
      if may_control
      then ([ConsoleListed n], Resp.Displays (match ce_displays env n with Ok ds => ds | Err _ => [] end) sharing_features)
      else ([], Resp.Displays [] [])
  | _ => ([], Resp.Error "normal desktop engine is not ready")
  end.

Fixpoint console_loop (fuel : nat) (client : string) (n : nat) (ch : SealedChannel) (last : option N)
  (log : list ConsoleAct) : Io ConsoleResult :=
  let done log e := io_ret {| cr_log := log; cr_end := e |} in
  let continue fuel' (turn : Io CaptureTurn) :=
    do! (ch, last, more, e) := turn in
    match e with
    | Some e => done (log ++ more) (Broken e)
    | None => console_loop fuel' client (S n) ch last (log ++ more)
    end in
  match fuel with
  | O => done log StillOpen
  | S fuel' =>
      io_try (recv_request ch) (fun r =>
        match r with
        | Err _ => done log ClientClosed
        | Ok (ch, request) =>
            match request with
            | Req.ListDisplays =>
                let '(more, response) := console_displays client n in
                continue fuel' (console_answer ch last more response)
            | Req.StartStream fps _ _ _ _ codecs => done log (StartsDesktop client fps (wants_h264 codecs))
            | Req.ConsoleCapture inputs =>
                continue fuel' (serve_console_capture_request client n ch last inputs)
            | _ =>
                io_ignore (send_response ch (Resp.Error "this physical-console listener accepts console capture before login or the normal desktop stream after login"))
                  (done log Rejected)
            end
        end)
  end.
(** A key that may view the console, by the store as it is at the handshake. *)
Definition console_trusts (id : string) : bool :=
  match ce_handshake_trust env with
  | Ok live => may_view_unattended_console live id
  | Err _ => false
  end.
Definition serve_physical_console_client (fuel : nat) (identity : SigningKey) (kem_randomness : bytes)
  (secret : EphemeralSecret) : Io ConsoleResult :=
  io_try (host_accept_key identity console_trusts kem_randomness secret) (fun r =>
    match r with
    | Err e => io_ret {| cr_log := []; cr_end := NotAdmitted e |}
    | Ok (ch, client) => console_loop fuel client 0 ch None []
    end).
End ConsoleClient.

(** ** What an authenticated client gets *)

Section ConsoleTrust.
Context `{Ed25519} `{X25519} `{Hash} `{Aead} `{MlKem} `{Base64}.
Context `{!Serde Wire} `{!Serde LanRequest} `{!Serde LanResponse}.
Variable env : ConsoleEnv.
Variable limits : UnattendedConsoleConfig.
Variable client : string.

Definition captured_at (log : list ConsoleAct) : option N :=
  foldl (fun last act => match act with ConsoleCaptured n _ => Some (ce_captured env n) | _ => last end) None log.
Definition spaced (log : list ConsoleAct) (n : nat) : Prop :=
  forall at_, captured_at log = Some at_ ->
    (from_secs (min_capture_interval_secs limits) <= duration_since (ce_now env n) at_)%N.
(** An act after the acts of [log]. *)
Definition act_ok (log : list ConsoleAct) (act : ConsoleAct) : Prop :=
  match act with
  | ConsoleInjected n _ => may_control_now (ce_trust env n) client = true
  | ConsoleListed n => may_control_now (ce_trust env n) client = true /\
      exists g, ce_state env n = Some (DesktopReady, g)
  | ConsoleCaptured n true => may_control_now (ce_trust env n) client = true
  | ConsoleCaptured n false => spaced log n
  end.
Definition log_ok (log : list ConsoleAct) : Prop :=
  forall before act after, log = before ++ act :: after -> act_ok before act.

Lemma log_ok_nil : log_ok [].
Proof. by intros [] ? ?. Qed.
Lemma log_ok_snoc log act : log_ok log -> act_ok log act -> log_ok (log ++ [act]).
Proof.
  intros L A before x after E. destruct after as [|y after _] using rev_ind.
  - by apply app_inj_tail in E as [<- <-].
  - rewrite app_comm_cons, app_assoc in E. apply app_inj_tail in E as [E _]. by apply (L before x after).
Qed.
Lemma captured_snoc log act : captured_at (log ++ [act]) =
  match act with ConsoleCaptured n _ => Some (ce_captured env n) | _ => captured_at log end.
Proof. unfold captured_at. by rewrite foldl_snoc. Qed.

Definition turn_ok (log : list ConsoleAct) (t : CaptureTurn) : Prop :=
  let '(ch, last, more, e) := t in log_ok (log ++ more) /\ captured_at (log ++ more) = last.
Lemma console_answer_ok log ch last more response :
  log_ok (log ++ more) -> captured_at (log ++ more) = last ->
  sound (turn_ok log) (console_answer ch last more response).
Proof.
  intros L C. unfold console_answer. eapply (sound_try (fun _ => True)); [apply sound_any|].
  intros [ch'|e] _; by apply sound_ret.
Qed.
Lemma console_inject_ok log n k inputs : may_control_now (ce_trust env n) client = true -> log_ok log ->
  log_ok (log ++ (console_inject env n k inputs).1) /\
  captured_at (log ++ (console_inject env n k inputs).1) = captured_at log.
Proof.
  intros P. revert log k. induction inputs as [|input rest IH]; intros log k L; cbn [console_inject].
  { by rewrite app_nil_r. }
  assert (log_ok (log ++ [ConsoleInjected n input])) as L' by by apply log_ok_snoc.
  destruct (ce_inject env n k input); [|cbn [fst]; by rewrite captured_snoc].
  specialize (IH _ (S k) L'). destruct (console_inject env n (S k) rest) as [more r]. cbn [fst] in *.
  rewrite cons_middle, app_assoc. destruct IH as [IH1 IH2]. split; [done|]. by rewrite IH2, captured_snoc.
Qed.
Lemma capture_request_ok log n ch inputs : log_ok log ->
  sound (turn_ok log)
    (serve_console_capture_request env limits client n ch (captured_at log) inputs).
Proof.
  intros L. unfold serve_console_capture_request. cbv zeta.
  destruct inputs as [|input inputs]; cbn [andb negb].
  - destruct (match captured_at log with Some _ => _ | None => _ end) eqn:E;
      [apply console_answer_ok; by rewrite app_nil_r|].
    apply console_answer_ok; cbn [app]; [|by rewrite captured_snoc]. apply log_ok_snoc; [done|].
    intros at_ Ha. rewrite Ha in E. by apply N.ltb_ge.
  - destruct (ce_trust env n) as [live|e] eqn:Et; [|apply sound_ret; unfold turn_ok; by rewrite app_nil_r].
    destruct (may_control_unattended_console live client) eqn:P; cbn [negb];
      [|apply console_answer_ok; by rewrite app_nil_r].
    assert (may_control_now (ce_trust env n) client = true) as A by (unfold may_control_now; by rewrite Et).
    destruct (console_inject_ok log n 0 (input :: inputs) A L) as [L1 C1].
    destruct (console_inject env n 0 (input :: inputs)) as [more [e|]]; cbn [fst] in *; [by apply sound_ret|].
    apply console_answer_ok; rewrite app_assoc; [|by rewrite captured_snoc]. by apply log_ok_snoc.
Qed.
Lemma console_displays_ok log n : log_ok log ->
  log_ok (log ++ (console_displays env client n).1) /\
  captured_at (log ++ (console_displays env client n).1) = captured_at log.
Proof.
  intros L. unfold console_displays. destruct (ce_state env n) as [[[] g]|] eqn:Es; cbn [fst]; rewrite ?app_nil_r; try done.
  destruct (may_control_now _ _) eqn:P; cbn [fst]; rewrite ?app_nil_r; [|done].
  rewrite captured_snoc. split; [|done]. apply log_ok_snoc; [done|]. by split; [|exists g].
Qed.
Lemma console_loop_ok fuel n ch log : log_ok log ->
  sound (fun r => log_ok (cr_log r) /\ (forall e, cr_end r <> NotAdmitted e) /\
                  forall c fps h264, cr_end r = StartsDesktop c fps h264 -> c = client)
    (console_loop env limits fuel client n ch (captured_at log) log).
Proof.
  revert n ch log. induction fuel as [|fuel IH]; intros n ch log L; cbn [console_loop]; [by apply sound_ret|].
  assert (forall turn, sound (turn_ok log) turn ->
    sound (fun r => log_ok (cr_log r) /\ (forall e, cr_end r <> NotAdmitted e) /\
                    forall c fps h264, cr_end r = StartsDesktop c fps h264 -> c = client)
      (do! (ch, last, more, e) := turn in
       match e with
       | Some e => io_ret {| cr_log := log ++ more; cr_end := Broken e |}
       | None => console_loop env limits fuel client (S n) ch last (log ++ more)
       end)) as K.
  { intros turn Ht. eapply sound_bind; [exact Ht|]. intros [[[ch' last] more] [e|]] [L' C'].
    - by apply sound_ret.
    - rewrite <-C'. by apply IH. }
  eapply (sound_try (fun _ => True)); [apply sound_any|]. intros [[ch' request]|e] _; [|by apply sound_ret].
  destruct request; try (by apply sound_ignore, sound_ret).
  - apply sound_ret. cbn. split; [done|]. split; [done|]. by intros c fps' h [= <-].
  - pose proof (console_displays_ok log n L) as [L' C'].
    destruct (console_displays env client n) as [more response]. cbn [fst] in *.
    apply K. by apply console_answer_ok.
  - apply K. by apply capture_request_ok.
Qed.
End ConsoleTrust.

Section ConsoleTheorem.
Context `{Ed25519} `{X25519} `{Hash} `{Aead} `{MlKem} `{Base64}.
Context `{!Serde Wire} `{!Serde LanRequest} `{!Serde LanResponse}.

(** C6. The physical console is served to its owner's devices only. Whatever
    the network and the peer do, nothing is captured, injected or listed and
    no desktop stream starts before the peer proved a key that may view the
    console by the trust store read in its handshake. After that every input,
    every capture that comes with inputs and every list of monitors happens
    while the store, read again, lets this key control the console, captures
    without inputs keep the configured distance from the last capture of the
    session, and a desktop stream starts for this very key. *)
Theorem console_serves_trusted_keys fuel env limits identity r1 secret :
  sound (fun r =>
    match cr_end r with
    | NotAdmitted _ => cr_log r = []
    | e => exists v fields ch client,
        f_id fields = client /\ console_trusts env client = true /\
        client_proved identity (console_trusts env) v fields r1 secret ch /\
        log_ok env limits client (cr_log r) /\
        forall c fps h264, e = StartsDesktop c fps h264 -> c = client
    end)
  (serve_physical_console_client env limits fuel identity r1 secret).
Proof.
  unfold serve_physical_console_client.
  eapply (sound_try (fun r => exists v fields, f_id fields = r.2 /\
    client_proved identity (console_trusts env) v fields r1 secret r.1)).
  - unfold host_accept_key. apply sound_skip. intros [|v eph id sig pq| |]; try apply sound_fail.
    apply sound_lift. intros _ _. eapply sound_mono; [|apply host_key_sound].
    intros [ch label] [-> P]. eexists v, _. split; [done|exact P].
  - intros [[ch client]|e] Hr; [|by apply sound_ret].
    destruct (Hr _ eq_refl) as (v & fields & E & P). cbn [fst snd] in *.
    assert (console_trusts env client = true) as T
      by (destruct P as (? & ? & ? & ? & ? & ? & ? & T & _); by rewrite <-E).
    eapply sound_mono; [|apply (console_loop_ok env limits client fuel 0 ch []), log_ok_nil].
    intros r (L & Na & St). destruct (cr_end r) eqn:Er; [by destruct (Na e)| | | | |];
      by exists v, fields, ch, client.
Qed.
End ConsoleTheorem.

(** A device that may view but not control the console is admitted, and its
    capture requests reach the worker. *)
Definition view_only_env : ConsoleEnv :=
  {| ce_handshake_trust := Ok ex_store; ce_trust := fun _ => Ok ex_store;
     ce_state := fun _ => Some (GdmLogin, 1%N); ce_displays := fun _ => Ok []; ce_now := fun _ => 0%N;
     ce_captured := fun _ => 0%N; ce_inject := fun _ _ _ => Ok tt; ce_capture := fun _ => Some (Ok []) |}.
Lemma view_only_device_captures limits ch :
  console_trusts view_only_env "v" = true /\
  may_control_now (ce_trust view_only_env 0) "v" = false /\
  serve_console_capture_request view_only_env limits "v" 0 ch None [] =
    console_answer ch (Some 0%N) [ConsoleCaptured 0 false] (capture_response view_only_env limits 0).
Proof. split_and!; reflexivity. Qed.
