(* ===== verification/Listeners.v ===== *)
(** * The listeners of a host

    rivetlink-agent/src/lan.rs: binding and advertising, the two accept loops
    with their session limits, and how the person at the host hangs up on a
    viewer ([kick], a tokio watch channel). The sessions themselves are those of
    [LanHost] and [ConsoleLan]; here they are spawned, begin to stream and end.
    Sockets and mDNS are parameters. *)
From Stdlib Require Import NArith Lia Strings.String.
From S2P Require Import Prelude Interfaces Instances Protocol Trusted.

Definition MAX_LAN_SESSIONS : nat := 32.
Definition MAX_PHYSICAL_CONSOLE_SESSIONS : nat := 16.

(** ** Binding and advertising *)

Inductive BindError := AddrInUse | OtherBind (message : string).
Definition bind_error_text (e : BindError) : string :=
  match e with AddrInUse => "Address already in use" | OtherBind m => m end.
(** [bind] gives the port that was bound, of a numeric address. *)
Section Bind.
Context {Ip : Type} (parse_ip : string -> option Ip) (bind : Ip -> N -> Result N BindError).
Context (advertise : string -> N -> string -> option string -> Result unit string).

Definition bind_listener_at (address : string) (port : N) : Result N AgentError :=
  let? ip := ok_or (parse_ip address) (Config "invalid LAN bind address") in
  match bind ip port with
  | Ok p => Ok p
  | Err AddrInUse => if negb (port =? 0)%N then map_err (fun e => Io (bind_error_text e)) (bind ip 0) else Err (Io (bind_error_text AddrInUse))
  | Err e => Err (Io (bind_error_text e))
  end.
Definition bind_listener (port : N) : Result N AgentError := bind_listener_at "0.0.0.0" port.
(** [serve_with_events] and [serve_physical_console] up to their accept loops:
    the port they serve and advertise. *)
Definition open_lan (device_name public_key : string) (port : N) : Result N AgentError :=
  let? local_port := bind_listener port in
  let? _ := map_err Lan (advertise device_name local_port public_key None) in Ok local_port.
Definition open_physical_console (device_name public_key bind_address : string) (port : N) : Result N AgentError :=
  let? ip := ok_or (parse_ip bind_address) (Config "invalid LAN bind address") in
  let? local_port := map_err (fun e => Io (bind_error_text e)) (bind ip port) in
  let? _ := map_err Lan (advertise device_name local_port public_key (Some "physical-console"%string)) in Ok local_port.
End Bind.

(** ** The accept loop *)

(** The sending half of the kick channel: how often it was bumped, and whether
    it still exists. *)
Record KickChannel := { bumps : nat; dropped : bool }.
Inductive SessionPhase := Serving | Streaming.
(** A spawned session holds a slot; its receiver of the kick channel has seen
    the bumps up to its accept. *)
Record Session := { s_id : nat; s_phase : SessionPhase; s_seen : option nat }.
Record Listener := {
  accepting : bool;
  free : nat;
  spawned : nat;
  running : list Session;
  kick : option KickChannel;
}.
Definition listener_start (slots : nat) (kicks : bool) : Listener :=
  {| accepting := true; free := slots; spawned := 0; running := [];
     kick := if kicks then Some {| bumps := 0; dropped := false |} else None |}.

Inductive ListenEvent :=
| Accept (result : Result unit string)
(** The session starts to stream, or ends, as [LanHost] and [ConsoleLan] say. *)
| StartsStream (id : nat)
| Ends (id : nat)
(** The [wait_kick] arm of the stream of a session. *)
| KickArm (id : nat)
| Bump
| SenderDropped
(** The future of the listener is dropped. *)
| Cancel.
Inductive ListenOut := Spawned (id : nat) | RefusedLimit | HungUp (id : nat) | Failed (error : AgentError) | Aborted (ids : list nat).

Definition has_id (id : nat) (s : Session) : bool := (s_id s =? id)%nat.
Definition find_session (id : nat) (l : Listener) : option Session := find (has_id id) (running l).
(** The end of a session's task gives its slot back. *)
Definition end_session (id : nat) (l : Listener) : Listener :=
  match find_session id l with
  | Some _ => {| accepting := accepting l; free := S (free l); spawned := spawned l;
                 running := List.filter (fun s => negb (has_id id s)) (running l); kick := kick l |}
  | None => l
  end.
(** The JoinSet and the listener go away together. *)
Definition shut (l : Listener) : Listener :=
  {| accepting := false; free := free l + length (running l); spawned := spawned l; running := []; kick := kick l |}.
(** [changed] of a receiver: a bump it has not seen, or no sender any more. *)
Definition changed_ready (k : KickChannel) (seen : nat) : bool := dropped k || negb (seen =? bumps k)%nat.
Definition kick_ready (l : Listener) (s : Session) : bool :=
  match s_phase s, kick l, s_seen s with
  | Streaming, Some k, Some seen => changed_ready k seen
  | _, _, _ => false
  end.
Definition listen_step (l : Listener) (ev : ListenEvent) : Listener * list ListenOut :=
  match ev with
  | Accept (Ok _) =>
      if negb (accepting l) then (l, [])
      else
        match free l with
        | 0 => (l, [RefusedLimit])
        | S free =>
            let s := {| s_id := spawned l; s_phase := Serving; s_seen := bumps <$> kick l |} in
            ({| accepting := true; free := free; spawned := S (spawned l); running := running l ++ [s]; kick := kick l |},
             [Spawned (spawned l)])
        end
  | Accept (Err e) => if negb (accepting l) then (l, []) else (shut l, [Failed (Io e); Aborted (map s_id (running l))])
  | StartsStream id =>
      ({| accepting := accepting l; free := free l; spawned := spawned l;
          running := map (fun s => if has_id id s then {| s_id := s_id s; s_phase := Streaming; s_seen := s_seen s |} else s) (running l);
          kick := kick l |}, [])
  | Ends id => (end_session id l, [])
  | KickArm id =>
      match find_session id l with
      | Some s => if kick_ready l s then (end_session id l, [HungUp id]) else (l, [])
      | None => (l, [])
      end
  | Bump =>
      ({| accepting := accepting l; free := free l; spawned := spawned l; running := running l;
          kick := (fun k => {| bumps := S (bumps k); dropped := dropped k |}) <$> kick l |}, [])
  | SenderDropped =>
      ({| accepting := accepting l; free := free l; spawned := spawned l; running := running l;
          kick := (fun k => {| bumps := bumps k; dropped := true |}) <$> kick l |}, [])
  | Cancel => if negb (accepting l) then (l, []) else (shut l, [Aborted (map s_id (running l))])
  end.
Fixpoint listen (l : Listener) (evs : list ListenEvent) : Listener * list ListenOut :=
  match evs with
  | [] => (l, [])
  | ev :: evs =>
      let '(l, out) := listen_step l ev in
      let '(l, more) := listen l evs in (l, out ++ more)
  end.
(** [serve_with_events] and [serve_physical_console], which no one hangs up on. *)
Definition lan_listener (kicks : bool) : list ListenEvent -> Listener * list ListenOut := listen (listener_start MAX_LAN_SESSIONS kicks).
Definition physical_console_listener : list ListenEvent -> Listener * list ListenOut :=
  listen (listener_start MAX_PHYSICAL_CONSOLE_SESSIONS false).
(** [run_lan_physical_console] of runner.rs: the listener is started again five
    seconds after it failed; the events of each start, and the waits. *)
Fixpoint run_lan_physical_console (starts : list (Result (list ListenEvent) AgentError)) : list (list ListenOut * N) :=
  match starts with
  | [] => []
  | start :: starts =>
      (match start with Ok evs => (physical_console_listener evs).2 | Err e => [Failed e] end, 5%N) :: run_lan_physical_console starts
  end.

(** [wait_for_login_screen]: a look each second, thirty at most. *)
Definition wait_for_login_screen (looks : list (option HostConsoleState)) : bool :=
  existsb (fun look => bool_decide (look = Some GdmLogin)) (take 30 looks).

(** ** Slots and hang-ups *)

Definition is_bump (ev : ListenEvent) : bool := match ev with Bump => true | _ => false end.
Definition is_drop (ev : ListenEvent) : bool := match ev with SenderDropped => true | _ => false end.
Definition starts (id : nat) (ev : ListenEvent) : bool := match ev with StartsStream i => (id =? i)%nat | _ => false end.
Definition bumped (evs : list ListenEvent) : nat := length (List.filter is_bump evs).

Section Loop.
Variables (slots : nat) (kicks : bool).
Abbreviation run evs := (listen (listener_start slots kicks) evs).1.

(** The session was spawned by the accept between [before] and [after]. *)
Definition spawned_at (evs before after : list ListenEvent) (id : nat) : Prop :=
  evs = before ++ Accept (Ok tt) :: after /\
  (listen_step (run before) (Accept (Ok tt))).2 = [Spawned id].
Record session_ok (evs : list ListenEvent) (s : Session) : Prop := {
  so_spawned : exists before after, spawned_at evs before after (s_id s) /\
    (s_phase s = Streaming <-> existsb (starts (s_id s)) after = true) /\
    s_seen s = (if kicks then Some (bumped before) else None);
}.
Record listener_ok (evs : list ListenEvent) (l : Listener) : Prop := {
  lo_slots : free l + length (running l) = slots;
  lo_ids : NoDup (map s_id (running l));
  lo_below : Forall (fun s => s_id s < spawned l) (running l);
  lo_kick : kick l = (if kicks then Some {| bumps := bumped evs; dropped := existsb is_drop evs |} else None);
  lo_sessions : Forall (session_ok evs) (running l);
  lo_shut : accepting l = false -> running l = [];
}.

Lemma listen_snoc l evs ev : (listen l (evs ++ [ev])).1 = (listen_step (listen l evs).1 ev).1 /\
  (listen l (evs ++ [ev])).2 = (listen l evs).2 ++ (listen_step (listen l evs).1 ev).2.
Proof.
  revert l. induction evs as [|e evs IH]; intros l; cbn [app listen fst snd].
  - destruct (listen_step l ev) as [l1 o1]. cbn. split; [done|apply app_nil_r].
  - destruct (listen_step l e) as [l1 o1]. specialize (IH l1). destruct (listen l1 (evs ++ [ev])) as [l2 o2], (listen l1 evs) as [l3 o3].
    cbn [fst snd] in *. destruct IH as [-> ->]. by rewrite app_assoc.
Qed.
Lemma bumped_app a b : bumped (a ++ b) = bumped a + bumped b.
Proof. unfold bumped. by rewrite List.filter_app, length_app. Qed.
Lemma bumped_exists b : bumped b <> 0 <-> existsb is_bump b = true.
Proof.
  unfold bumped. induction b as [|ev b IH]; [done|]. cbn. destruct (is_bump ev); cbn; [|done]. split; [done|lia].
Qed.
Lemma bumped_other evs ev : is_bump ev = false -> bumped (evs ++ [ev]) = bumped evs.
Proof. intros E. rewrite bumped_app. unfold bumped at 2. cbn. rewrite E. cbn. lia. Qed.
Lemma drops_other evs ev : is_drop ev = false -> existsb is_drop (evs ++ [ev]) = existsb is_drop evs.
Proof. intros E. rewrite existsb_app. cbn. by rewrite E, !orb_false_r. Qed.
Lemma session_ok_more evs ev s : session_ok evs s -> starts (s_id s) ev = false -> session_ok (evs ++ [ev]) s.
Proof.
  intros [(before & after & [E Sp] & St & Se)] N. constructor. exists before, (after ++ [ev]).
  split; [split; [by rewrite E, <-app_assoc|done]|]. split; [|done]. rewrite St, existsb_app. cbn. rewrite N. by rewrite !orb_false_r.
Qed.
Lemma ids_filter f ss : NoDup (map s_id ss) -> NoDup (map s_id (List.filter f ss)).
Proof.
  induction ss as [|s ss IH]; [done|]. cbn. intros [N D]%NoDup_cons. destruct (f s); [|auto]. cbn. constructor; [|auto].
  intros (t & E & Ht)%list_elem_of_fmap. apply N. apply list_elem_of_fmap. exists t. split; [done|].
  apply list_elem_of_In in Ht. apply filter_In in Ht as [Ht _]. by apply list_elem_of_In.
Qed.
Lemma Forall_List_filter {A} (P : A -> Prop) f l : Forall P l -> Forall P (List.filter f l).
Proof. induction 1; cbn; [constructor|]. destruct (f x); auto. Qed.
Lemma one_slot_back id ss s : NoDup (map s_id ss) -> find (has_id id) ss = Some s ->
  S (length (List.filter (fun s => negb (has_id id s)) ss)) = length ss.
Proof.
  induction ss as [|t ss IH]; [done|]. cbn. intros [N D]%NoDup_cons F. destruct (has_id id t) eqn:E; cbn.
  - f_equal. clear IH F D s. apply Nat.eqb_eq in E as <-. induction ss as [|u ss IH]; [done|]. cbn in *.
    apply not_elem_of_cons in N as [N1 N2]. unfold has_id at 1. rewrite (proj2 (Nat.eqb_neq _ _)) by congruence. cbn. f_equal. auto.
  - f_equal. by apply IH.
Qed.

Lemma end_session_ok evs id l : listener_ok evs l -> listener_ok evs (end_session id l).
Proof.
  intros [S1 S2 S3 S4 S5 S6]. unfold end_session, find_session. destruct (find (has_id id) (running l)) as [s|] eqn:F; [|done].
  split; cbn [free running spawned kick accepting]; [|by apply ids_filter|by apply Forall_List_filter|done|by apply Forall_List_filter|].
  - pose proof (one_slot_back _ _ _ S2 F). lia.
  - intros A. rewrite S6 in F by done. discriminate F.
Qed.
Lemma shut_ok evs l : listener_ok evs l -> listener_ok evs (shut l).
Proof.
  intros [S1 S2 S3 S4 S5 S6]. split; cbn; [lia|constructor|constructor|done|constructor|done].
Qed.
(** An event that is no hang-up and starts no stream leaves the sessions known. *)
Lemma listener_ok_more evs ev l : listener_ok evs l -> is_bump ev = false -> is_drop ev = false ->
  (forall id, starts id ev = false) -> listener_ok (evs ++ [ev]) l.
Proof.
  intros [S1 S2 S3 S4 S5 S6] B D St. split; try done.
  - by rewrite S4, bumped_other, drops_other.
  - eapply list.Forall_impl; [exact S5|]. intros s Hs. by apply session_ok_more.
Qed.
Lemma listen_step_ok evs ev : listener_ok evs (run evs) -> listener_ok (evs ++ [ev]) (listen_step (run evs) ev).1.
Proof.
  set (l := run evs). intros K. destruct ev as [[[]|e]|id|id|id| | |].
  - cbn [listen_step]. destruct (accepting l) eqn:A; cbn [negb fst]; [|by apply listener_ok_more].
    destruct (free l) as [|n] eqn:F; [by apply listener_ok_more|]. cbn [fst].
    pose proof (listener_ok_more evs (Accept (Ok tt)) l K eq_refl eq_refl (fun _ => eq_refl)) as [S1 S2 S3 S4 S5 S6].
    destruct K as [_ _ _ K4 _ _]. split; cbn [free running spawned kick accepting].
    + rewrite length_app. cbn. lia.
    + rewrite map_app. apply NoDup_app. split; [done|]. split; [|apply NoDup_singleton].
      intros i (s & -> & Hs)%list_elem_of_fmap Hi%list_elem_of_singleton. rewrite Forall_forall in S3. specialize (S3 _ Hs). cbn in Hi. lia.
    + apply list.Forall_app. split; [|repeat constructor; cbn; lia]. eapply list.Forall_impl; [exact S3|]. intros s Hs. cbn in *. lia.
    + done.
    + apply list.Forall_app. split; [done|]. constructor; [|constructor]. constructor. cbn [s_id s_phase s_seen]. exists evs, []. split; [split; [done|]|].
      * fold l. cbn [listen_step]. by rewrite A, F.
      * split; [by split|]. rewrite K4. by destruct kicks.
    + done.
  - cbn [listen_step]. destruct (accepting l); cbn [negb fst]; apply listener_ok_more; try done. by apply shut_ok.
  - cbn [listen_step fst]. destruct K as [S1 S2 S3 S4 S5 S6]. split; cbn [free running spawned kick accepting].
    + by rewrite length_map.
    + rewrite map_map. erewrite map_ext; [exact S2|]. intros s. by destruct (has_id id s).
    + apply Forall_map. eapply list.Forall_impl; [exact S3|]. intros s Hs. cbn. by destruct (has_id id s).
    + by rewrite S4, bumped_other, drops_other.
    + apply Forall_map. eapply list.Forall_impl; [exact S5|]. intros s Hs. unfold has_id. destruct (Nat.eqb_spec (s_id s) id) as [E|E].
      * destruct Hs as [(before & after & [Ev Sp] & St & Se)]. constructor. cbn [s_id s_phase s_seen]. exists before, (after ++ [StartsStream id]).
        split; [split; [by rewrite Ev, <-app_assoc|done]|]. split; [|done]. split; [intros _|done].
        rewrite existsb_app. cbn. by rewrite (proj2 (Nat.eqb_eq _ _) E), orb_true_r.
      * apply session_ok_more; [done|]. cbn. by apply Nat.eqb_neq.
    + intros A. by rewrite S6.
  - cbn [listen_step fst]. apply listener_ok_more; try done. by apply end_session_ok.
  - cbn [listen_step]. destruct (find_session id l); [|by apply listener_ok_more]. destruct (kick_ready l s); apply listener_ok_more; try done.
    by apply end_session_ok.
  - destruct K as [S1 S2 S3 S4 S5 S6]. split; cbn [listen_step fst free running spawned kick accepting]; try done.
    + rewrite S4, bumped_app, drops_other by done. change (bumped [Bump]) with 1. destruct kicks; [|done]. cbn. by rewrite Nat.add_1_r.
    + eapply list.Forall_impl; [exact S5|]. intros s Hs. by apply session_ok_more.
  - destruct K as [S1 S2 S3 S4 S5 S6]. split; cbn [listen_step fst free running spawned kick accepting]; try done.
    + rewrite S4, bumped_other, existsb_app by done. destruct kicks; [|done]. cbn. by rewrite orb_true_r.
    + eapply list.Forall_impl; [exact S5|]. intros s Hs. by apply session_ok_more.
  - cbn [listen_step]. destruct (accepting l); cbn [negb fst]; apply listener_ok_more; try done. by apply shut_ok.
Qed.
Lemma listen_ok evs : listener_ok evs (run evs).
Proof.
  induction evs as [|ev evs IH] using rev_ind.
  - split; cbn; [lia|constructor|constructor|by destruct kicks|constructor|done].
  - destruct (listen_snoc (listener_start slots kicks) evs ev) as [-> _]. by apply listen_step_ok.
Qed.

(** An accept that spawns a session takes the next number, so each number is
    spawned once. *)
Lemma spawned_grows l evs : spawned l <= spawned (listen l evs).1.
Proof.
  revert l. induction evs as [|ev evs IH]; intros l; cbn [listen]; [done|]. specialize (IH (listen_step l ev).1).
  destruct (listen_step l ev) as [l1 o1] eqn:E. cbn [fst] in IH. destruct (listen l1 evs) as [l2 o2]. cbn [fst] in *. etransitivity; [|exact IH].
  destruct ev as [[[]|e]|id|id|id| | |]; cbn [listen_step] in E; unfold end_session in E;
    repeat case_match; simplify_eq; cbn; lia.
Qed.
Lemma listen_app l evs evs' : (listen l (evs ++ evs')).1 = (listen (listen l evs).1 evs').1.
Proof.
  revert l. induction evs as [|ev evs IH]; intros l; [done|]. cbn [app listen]. destruct (listen_step l ev) as [l1 o1].
  specialize (IH l1). destruct (listen l1 (evs ++ evs')), (listen l1 evs). exact IH.
Qed.
Lemma spawn_number l id : (listen_step l (Accept (Ok tt))).2 = [Spawned id] ->
  id = spawned l /\ spawned (listen_step l (Accept (Ok tt))).1 = S id.
Proof. cbn [listen_step]. destruct (accepting l); [|done]. cbn [negb]. destruct (free l); [done|]. by intros [= <-]. Qed.
Lemma spawned_order evs before after before' rest id : spawned_at evs before after id -> before = before' ++ Accept (Ok tt) :: rest ->
  (listen_step (run before') (Accept (Ok tt))).2 = [Spawned id] -> False.
Proof.
  intros [_ Sp] -> Sp'. apply spawn_number in Sp as [N _]. apply spawn_number in Sp' as [_ N'].
  replace (before' ++ Accept (Ok tt) :: rest) with ((before' ++ [Accept (Ok tt)]) ++ rest) in N by by rewrite <-app_assoc.
  pose proof (spawned_grows (run (before' ++ [Accept (Ok tt)])) rest) as G. rewrite listen_app in N.
  destruct (listen_snoc (listener_start slots kicks) before' (Accept (Ok tt))) as [E _]. rewrite E in *. lia.
Qed.
Lemma spawned_once evs before after before' after' id :
  spawned_at evs before after id -> spawned_at evs before' after' id -> before' = before /\ after' = after.
Proof.
  intros Sp Sp'. pose proof (proj1 Sp) as E. pose proof (proj1 Sp') as E'. rewrite E in E'.
  destruct (app_eq_app _ _ _ _ E') as [rest [[H1 H2]|[H1 H2]]].
  - destruct rest as [|x rest]; [rewrite app_nil_r in H1; subst; by simplify_eq/=|]. injection H2 as <- ->.
    by destruct (spawned_order evs before after before' rest id Sp H1 (proj2 Sp')).
  - destruct rest as [|x rest]; [rewrite app_nil_r in H1; subst; by simplify_eq/=|]. injection H2 as <- ->.
    by destruct (spawned_order evs before' after' before rest id Sp' H1 (proj2 Sp)).
Qed.

(** C5. Slots and hang-ups. Whatever connections come, sessions do and the
    person at the host does: never more sessions run than there are slots, and
    every slot is free or held by one of them; a connection gets a session of
    its own exactly when fewer run, and is refused otherwise. A stream is hung
    up on exactly when a session runs that was spawned by an accept, streams
    since, and since that accept the kick channel was bumped (or the program
    that holds its sender is gone): an earlier kick never reaches it. *)
Theorem listener_slots_and_kicks evs : let l := run evs in
  (length (running l) <= slots /\ free l + length (running l) = slots) /\
  (accepting l = true -> (listen_step l (Accept (Ok tt))).2 =
     if (length (running l) <? slots)%nat then [Spawned (spawned l)] else [RefusedLimit]) /\
  forall id, (listen_step l (KickArm id)).2 = [HungUp id] <->
    kicks = true /\ id ∈ map s_id (running l) /\
    exists before after, spawned_at evs before after id /\ existsb (starts id) after = true /\
      (existsb is_bump after = true \/ existsb is_drop evs = true).
Proof.
  cbv zeta. destruct (listen_ok evs) as [S1 S2 S3 S4 S5 S6]. split; [lia|]. split.
  - intros A. cbn [listen_step]. rewrite A. cbn [negb]. destruct (free (run evs)) eqn:F.
    + by rewrite (proj2 (Nat.ltb_ge _ _)) by lia.
    + by rewrite (proj2 (Nat.ltb_lt _ _)) by lia.
  - intros id. cbn [listen_step]. destruct (find_session id (run evs)) as [s|] eqn:Fs.
    + apply find_some in Fs as [Hs%list_elem_of_In E%Nat.eqb_eq]. pose proof (proj1 (Forall_forall _ _) S5 s Hs) as [(before & after & Sp & St & Se)].
      rewrite E in *. assert (kick_ready (run evs) s = true <-> kicks = true /\ existsb (starts id) after = true /\
        (existsb is_bump after = true \/ existsb is_drop evs = true)) as R.
      { unfold kick_ready. rewrite S4, Se, <-St, <-bumped_exists. destruct Sp as [Ev _].
        assert (bumped evs = bumped before + bumped after) as B by (rewrite Ev, bumped_app; reflexivity).
        destruct (s_phase s), kicks; try (split; [done|naive_solver]). unfold changed_ready. cbn [bumps dropped].
        rewrite orb_true_iff, negb_true_iff, Nat.eqb_neq, B. split; [intros [D|N]|intros (_ & _ & [N|D])]; [auto|split_and!; [done|done|left; lia]|right; lia|auto]. }
      assert (id ∈ map s_id (running (run evs))) as I by (apply list_elem_of_fmap; eauto).
      destruct (kick_ready (run evs) s) eqn:Kr; cbn [snd].
      * split; [|done]. intros _. destruct R as [R _]. destruct (R eq_refl) as (K & T & B). split; [done|]. split; [done|]. by exists before, after.
      * split; [done|]. intros (K & _ & before' & after' & Sp' & T & B). exfalso.
        assert (before' = before /\ after' = after) as [-> ->]; [|destruct R as [_ R]; by discriminate (R (conj K (conj T B)))].
        by apply (spawned_once evs _ _ _ _ id).
    + split; [done|]. intros (_ & (s & E & Hs)%list_elem_of_fmap & _). pose proof (find_none _ _ Fs s ltac:(by apply list_elem_of_In)) as N.
      unfold has_id in N. rewrite E, Nat.eqb_refl in N. discriminate N.
Qed.
End Loop.

(** Two viewers; one is hung up on, and who comes after stays. *)
Definition two_viewers : list ListenEvent :=
  [Accept (Ok tt); StartsStream 0; Bump; KickArm 0; Accept (Ok tt); StartsStream 1; KickArm 1; Bump; Bump; KickArm 1].
Example two_viewers_run : (lan_listener true two_viewers).2 = [Spawned 0; HungUp 0; Spawned 1; HungUp 1] /\
  free (lan_listener true two_viewers).1 = MAX_LAN_SESSIONS /\
  (physical_console_listener two_viewers).2 = [Spawned 0; Spawned 1].
Proof. done. Qed.
(** A client that waits for the consent of the host when another viewer is hung
    up on loses its own stream as soon as it starts. *)
Lemma kick_reaches_who_waits :
  (lan_listener true [Accept (Ok tt); Accept (Ok tt); StartsStream 0; Bump; KickArm 0; StartsStream 1; KickArm 1]).2 =
  [Spawned 0; Spawned 1; HungUp 0; HungUp 1].
Proof. done. Qed.
(** One failed accept ends every session. *)
Lemma failed_accept_ends_all :
  let l := lan_listener true [Accept (Ok tt); StartsStream 0; Accept (Ok tt); StartsStream 1; Accept (Err "Too many open files"%string); Accept (Ok tt)] in
  l.2 = [Spawned 0; Spawned 1; Failed (Io "Too many open files"); Aborted [0; 1]] /\ running l.1 = [].
Proof. done. Qed.

(** ** Ports *)

(** A host listens on the port it was asked for; only when another program has
    that port does a LAN host take one of the system's choice, and a physical
    console never does. *)
Lemma ports_kept {Ip} (parse_ip : string -> option Ip) bind advertise name key address ip port p :
  parse_ip address = Some ip -> (forall q, bind ip port = Ok q -> port <> 0%N -> q = port) -> port <> 0%N ->
  (open_physical_console parse_ip bind advertise name key address port = Ok p -> p = port) /\
  (bind_listener_at parse_ip bind address port = Ok p -> p = port \/ bind ip port = Err AddrInUse /\ bind ip 0%N = Ok p).
Proof.
  intros Ep B N. unfold open_physical_console, bind_listener_at. rewrite Ep. cbn [ok_or]. split.
  - destruct (bind ip port) as [q|]; [|done]. cbn [map_err]. destruct (advertise _ _ _ _); [|done]. intros [= <-]. by apply B.
  - destruct (bind ip port) as [q|[]] eqn:E; [|rewrite (proj2 (N.eqb_neq _ _) N)|done]; cbn [negb].
    + intros [= <-]. left. by apply B.
    + destruct (bind ip 0%N) as [q|]; [|done]. intros [= <-]. by right.
Qed.
