(* ===== verification/AgentConfig.v ===== *)
(** * Configuration files

    rivetlink-agent/src/config.rs and rivetlink-sdk/src/config.rs: what a file
    says when fields are missing, which values are refused, and the addresses
    [IpAddr::from_str] accepts. The JSON of a file is a parameter: it gives the
    fields the file has. *)
From Stdlib Require Import NArith Lia Strings.String Strings.Byte.
From S2P Require Import Prelude Text Interfaces Instances Protocol Trusted ClientSession P2p KeyStore ConsoleLan.

(** ** [IpAddr::from_str] *)

Module AddrParser.
Definition to_digit (radix : N) (x : byte) : option N :=
  let n := Byte.to_N x in
  let d := if between 48 57 x then Some (n - 48)%N
           else if between 97 122 x then Some (n - 87)%N
           else if between 65 90 x then Some (n - 55)%N else None in
  d ← d; if (d <? radix)%N then Some d else None.
Fixpoint digits_run (radix : N) (b : bytes) : list N * bytes :=
  match b with
  | [] => ([], [])
  | x :: r => match to_digit radix x with
              | Some d => let '(ds, rest) := digits_run radix r in (d :: ds, rest)
              | None => ([], b)
              end
  end.
Definition value (radix : N) (ds : list N) : N := fold_left (fun acc d => acc * radix + d)%N ds 0%N.
Definition read_number (radix : N) (max_digits : nat) (allow_zero_prefix : bool) (limit : N) (b : bytes)
  : option (N * bytes) :=
  let '(ds, rest) := digits_run radix b in
  if (max_digits <? length ds)%nat || (length ds =? 0)%nat then None
  else if negb allow_zero_prefix && bool_decide (head ds = Some 0%N) && (1 <? length ds)%nat then None
  else if (value radix ds <? limit)%N then Some (value radix ds, rest) else None.
Definition read_given (c : byte) (b : bytes) : option bytes :=
  match b with x :: r => if Byte.eqb x c then Some r else None | [] => None end.
Definition read_separator {A} (sep : byte) (index : nat) (inner : bytes -> option (A * bytes)) (b : bytes)
  : option (A * bytes) :=
  match index with 0 => inner b | _ => b ← read_given sep b; inner b end.
Definition dot : byte := Byte.x2e.
Definition colon : byte := Byte.x3a.
Definition read_octet (i : nat) (b : bytes) : option (N * bytes) :=
  read_separator dot i (read_number 10 3 false 256) b.
Definition read_ipv4 (b : bytes) : option (N * bytes) :=
  '(o0, b) ← read_octet 0 b; '(o1, b) ← read_octet 1 b; '(o2, b) ← read_octet 2 b; '(o3, b) ← read_octet 3 b;
  Some (((o0 * 256 + o1) * 256 + o2) * 256 + o3, b)%N.
(** Up to [slots] more groups of [limit]; whether they end with an IPv4 address. *)
Fixpoint read_groups (slots i limit : nat) (b : bytes) : list N * bool * bytes :=
  match slots with
  | 0 => ([], false, b)
  | S slots =>
      match (if (i <? limit - 1)%nat then read_separator colon i read_ipv4 b else None) with
      | Some (ip, rest) => ([(ip / 65536)%N; (ip mod 65536)%N], true, rest)
      | None =>
          match read_separator colon i (read_number 16 4 true 65536) b with
          | Some (g, rest) => let '(gs, v4, rest) := read_groups slots (S i) limit rest in (g :: gs, v4, rest)
          | None => ([], false, b)
          end
      end
  end.
Definition of_groups (gs : list N) : N := fold_left (fun acc g => acc * 65536 + g)%N gs 0%N.
Definition read_ipv6 (b : bytes) : option (N * bytes) :=
  let '(front, v4, b) := read_groups 8 0 8 b in
  if (length front =? 8)%nat then Some (of_groups front, b)
  else if v4 then None
  else
    b ← read_given colon b; b ← read_given colon b;
    let limit := 8 - (length front + 1) in
    let '(back, _, b) := read_groups limit 0 limit b in
    Some (of_groups (front ++ repeat 0%N (8 - length front - length back) ++ back), b).
Definition parse_ip_addr (s : string) : option IpAddr :=
  let b := as_bytes s in
  match read_ipv4 b with
  | Some (ip, rest) => match rest with [] => Some (V4 ip) | _ => None end
  | None => match read_ipv6 b with Some (ip, []) => Some (V6 ip) | _ => None end
  end.
Example accepted :
  map parse_ip_addr ["0.0.0.0"; "192.168.1.20"; "::"; "::1"; "fe80::1"; "1:2:3:4:5:6:7:8"; "::ffff:10.0.0.1"]%string =
  [Some (V4 0); Some (V4 3232235796); Some (V6 0); Some (V6 1); Some (V6 0xfe800000000000000000000000000001);
   Some (V6 0x00010002000300040005000600070008); Some (V6 0xffff0a000001)].
Proof. vm_compute. reflexivity. Qed.
Example refused :
  map parse_ip_addr [""; "localhost"; "1.2.3"; "1.2.3.256"; "1.2.3.04"; "1.2.3.4:80"; " 1.2.3.4"; "1:2:3:4:5:6:7:8:9";
    "1:2:3:4:5:6:7::8:9"; "[::1]"; ":::"; "1.2.3.4::"]%string = repeat None 12.
Proof. vm_compute. reflexivity. Qed.
End AddrParser.

(** ** The agent's configuration *)

Record LanConsoleTransportConfig := { lan_enabled : bool; bind_address : string; lan_port : N }.
Record RelayConsoleTransportConfig := { relay_enabled : bool }.
Record ConsoleTransportConfig := { lan : LanConsoleTransportConfig; relay : RelayConsoleTransportConfig }.
Record AgentConfig := {
  relay_url : string;
  relay_http_url : string;
  device_name : string;
  keystore_path : string;
  cfg_device_id : option Uuid;
  heartbeat_secs : N;
  reconnect_cap_secs : N;
  unattended_console : UnattendedConsoleConfig;
  console_transports : ConsoleTransportConfig;
}.

Definition DEFAULT_LAN_PORT : N := 47823.
Definition default_heartbeat : N := 10.
Definition default_reconnect_cap : N := 60.
Definition default_capture_timeout : N := 10.
Definition default_capture_interval : N := 2.
Definition default_max_capture_bytes : N := 8 * 1024 * 1024.
Definition default_lan_bind_address : string := "0.0.0.0".
Definition default_lan : LanConsoleTransportConfig :=
  {| lan_enabled := false; bind_address := default_lan_bind_address; lan_port := DEFAULT_LAN_PORT |}.
Definition default_relay_transport : RelayConsoleTransportConfig := {| relay_enabled := true |}.
Definition default_transports : ConsoleTransportConfig := {| lan := default_lan; relay := default_relay_transport |}.
Definition default_unattended : UnattendedConsoleConfig :=
  {| enabled := false; allow_trusted_clients := false; capture_timeout_secs := default_capture_timeout;
     min_capture_interval_secs := default_capture_interval; max_capture_bytes := default_max_capture_bytes |}.

(** The fields a file has; the derived reader fills in the rest. *)
Record UnattendedFields := {
  f_enabled : option bool;
  f_allow_trusted_clients : option bool;
  f_capture_timeout_secs : option N;
  f_min_capture_interval_secs : option N;
  f_max_capture_bytes : option N;
}.
Record LanFields := { f_lan_enabled : option bool; f_bind_address : option string; f_lan_port : option N }.
Record RelayFields := { f_relay_enabled : option bool }.
Record TransportFields := { f_lan : option LanFields; f_relay : option RelayFields }.
Record ConfigFields := {
  f_relay_url : option string;
  f_relay_http_url : option string;
  f_device_name : option string;
  f_keystore_path : option string;
  f_device_id : option Uuid;
  f_heartbeat_secs : option N;
  f_reconnect_cap_secs : option N;
  f_unattended_console : option UnattendedFields;
  f_headless : option UnattendedFields;
  f_console_transports : option TransportFields;
}.
Definition unattended_of_fields (f : UnattendedFields) : UnattendedConsoleConfig :=
  {| enabled := default false (f_enabled f);
     allow_trusted_clients := default false (f_allow_trusted_clients f);
     capture_timeout_secs := default default_capture_timeout (f_capture_timeout_secs f);
     min_capture_interval_secs := default default_capture_interval (f_min_capture_interval_secs f);
     max_capture_bytes := default default_max_capture_bytes (f_max_capture_bytes f) |}.
Definition lan_of_fields (f : LanFields) : LanConsoleTransportConfig :=
  {| lan_enabled := default false (f_lan_enabled f);
     bind_address := default default_lan_bind_address (f_bind_address f);
     lan_port := default DEFAULT_LAN_PORT (f_lan_port f) |}.
Definition transports_of_fields (f : TransportFields) : ConsoleTransportConfig :=
  {| lan := from_option lan_of_fields default_lan (f_lan f);
     relay := from_option (fun r => {| relay_enabled := default true (f_relay_enabled r) |})
                default_relay_transport (f_relay f) |}.
Definition config_of_fields (f : ConfigFields) : Result AgentConfig string :=
  let? device_name := ok_or (f_device_name f) "missing field `device_name`" in
  let? keystore_path := ok_or (f_keystore_path f) "missing field `keystore_path`" in
  let? unattended :=
    match f_unattended_console f, f_headless f with
    | Some _, Some _ => Err "duplicate field `unattended_console`"%string
    | Some u, None | None, Some u => Ok (unattended_of_fields u)
    | None, None => Ok default_unattended
    end in
  Ok {| relay_url := default ""%string (f_relay_url f);
        relay_http_url := default ""%string (f_relay_http_url f);
        device_name := device_name;
        keystore_path := keystore_path;
        cfg_device_id := f_device_id f;
        heartbeat_secs := default default_heartbeat (f_heartbeat_secs f);
        reconnect_cap_secs := default default_reconnect_cap (f_reconnect_cap_secs f);
        unattended_console := unattended;
        console_transports := from_option transports_of_fields default_transports (f_console_transports f) |}.
(** The derived writer names every field. *)
Definition fields_of_config (c : AgentConfig) : ConfigFields :=
  let u := unattended_console c in
  let t := console_transports c in
  {| f_relay_url := Some (relay_url c); f_relay_http_url := Some (relay_http_url c);
     f_device_name := Some (device_name c); f_keystore_path := Some (keystore_path c);
     f_device_id := cfg_device_id c; f_heartbeat_secs := Some (heartbeat_secs c);
     f_reconnect_cap_secs := Some (reconnect_cap_secs c);
     f_unattended_console := Some {| f_enabled := Some (enabled u);
       f_allow_trusted_clients := Some (allow_trusted_clients u);
       f_capture_timeout_secs := Some (capture_timeout_secs u);
       f_min_capture_interval_secs := Some (min_capture_interval_secs u);
       f_max_capture_bytes := Some (max_capture_bytes u) |};
     f_headless := None;
     f_console_transports := Some {|
       f_lan := Some {| f_lan_enabled := Some (lan_enabled (lan t)); f_bind_address := Some (bind_address (lan t));
                        f_lan_port := Some (lan_port (lan t)) |};
       f_relay := Some {| f_relay_enabled := Some (relay_enabled (relay t)) |} |} |}.

Definition validate (c : AgentConfig) : Result unit AgentError :=
  let u := unattended_console c in
  let t := console_transports c in
  if negb (lan_enabled (lan t)) && negb (relay_enabled (relay t))
  then Err (Config "at least one console transport (lan or relay) must be enabled")
  else if relay_enabled (relay t) && negb (str_starts_with "wss://" (relay_url c))
  then Err (Config "relay_url must use wss://; plaintext relay WebSockets are unsafe")
  else if relay_enabled (relay t) && negb (str_starts_with "https://" (relay_http_url c))
  then Err (Config "relay_http_url must use https://; plaintext relay HTTP is unsafe")
  else if lan_enabled (lan t) && negb (bool_decide (is_Some (AddrParser.parse_ip_addr (bind_address (lan t)))))
  then Err (Config "console_transports.lan.bind_address must be an IP address")
  else if (device_name c =? "")%string then Err (Config "device_name is required")
  else if (heartbeat_secs c =? 0)%N then Err (Config "heartbeat_secs must be > 0")
  else if (capture_timeout_secs u =? 0)%N
  then Err (Config "unattended_console.capture_timeout_secs must be > 0")
  else if (min_capture_interval_secs u =? 0)%N
  then Err (Config "unattended_console.min_capture_interval_secs must be > 0")
  else if (max_capture_bytes u =? 0)%N
  then Err (Config "unattended_console.max_capture_bytes must be > 0")
  else Ok tt.

Section Files.
Context `{!Serde ConfigFields} `{!SerdePretty ConfigFields}.

Definition load_config (env : FileEnv) (path : string) (d : Disk) : Result AgentConfig AgentError :=
  let? body := map_err (fun e => Config ("read " ++ path ++ ": " ++ e)) (read_to_string (read_fault env) path d) in
  let? cfg := map_err SerdeError (let? f := from_json body in config_of_fields f) in
  let? _ := validate cfg in
  Ok cfg.
Definition save_config (env : FileEnv) (c : AgentConfig) (path : string) (d : Disk) : Disk * Result unit AgentError :=
  match to_json_pretty (fields_of_config c) with
  | Err e => (d, Err (SerdeError e))
  | Ok body => let '(d, r) := write_secret (write_fault env) path (as_bytes body) d in (d, map_err Io r)
  end.
End Files.

(** ** The client's configuration *)

Record ClientConfig := { client_ws_url : string; client_http_url : string; identity_path : string }.
Definition validate_client (c : ClientConfig) : Result unit Sdk.SdkError :=
  if negb (str_starts_with "wss://" (client_ws_url c))
  then Err (Sdk.Config "relay_ws_url must use wss://; plaintext relay WebSockets are unsafe")
  else if negb (str_starts_with "https://" (client_http_url c))
  then Err (Sdk.Config "relay_http_url must use https://; plaintext relay HTTP is unsafe")
  else Ok tt.
Section ClientFiles.
Context `{!Serde ClientConfig} `{!SerdePretty ClientConfig}.

Definition load_client_config (env : FileEnv) (path : string) (d : Disk) : Result ClientConfig Sdk.SdkError :=
  let? body := map_err (fun e => Sdk.Config ("read " ++ path ++ ": " ++ e)) (read_to_string (read_fault env) path d) in
  let? cfg := map_err Sdk.SerdeError (from_json body) in
  let? _ := validate_client cfg in
  Ok cfg.
(** The directory is created first; a faulty write is that of the file. *)
Definition save_client_config (env : FileEnv) (directory : Result unit string) (c : ClientConfig) (path : string) (d : Disk)
  : Disk * Result unit Sdk.SdkError :=
  match map_err sdk_io directory with
  | Err e => (d, Err e)
  | Ok _ =>
      match to_json_pretty c with
      | Err e => (d, Err (Sdk.SerdeError e))
      | Ok body => let '(d, r) := write_secret (write_fault env) path (as_bytes body) d in (d, map_err sdk_io r)
      end
  end.
End ClientFiles.

(** ** Configurations that load *)

(** What [validate] accepts. *)
Definition config_valid (c : AgentConfig) : Prop :=
  let u := unattended_console c in
  let t := console_transports c in
  (lan_enabled (lan t) = true \/ relay_enabled (relay t) = true) /\
  (relay_enabled (relay t) = true ->
     str_starts_with "wss://" (relay_url c) = true /\ str_starts_with "https://" (relay_http_url c) = true) /\
  (lan_enabled (lan t) = true -> is_Some (AddrParser.parse_ip_addr (bind_address (lan t)))) /\
  device_name c <> ""%string /\ (0 < heartbeat_secs c)%N /\ (0 < capture_timeout_secs u)%N /\
  (0 < min_capture_interval_secs u)%N /\ (0 < max_capture_bytes u)%N.
Lemma validate_spec c : validate c = Ok tt <-> config_valid c.
Proof.
  unfold validate, config_valid. cbv zeta.
  set (l := lan_enabled _). set (r := relay_enabled _). set (w := str_starts_with "wss://" _).
  set (h := str_starts_with "https://" _). split.
  - intros E. repeat (case_match; [discriminate E|]).
    repeat match goal with
    | H : (_ =? 0)%N = false |- _ => apply N.eqb_neq in H
    | H : String.eqb _ _ = false |- _ => apply String.eqb_neq in H
    end.
    split_and!; try lia; try done.
    + destruct l, r; auto.
    + intros ->. destruct w, h; auto.
    + intros ->. match goal with H : context [bool_decide ?P] |- _ => destruct (bool_decide_reflect P); [done|discriminate H] end.
  - intros (Hlr & Hr & Hl & Hd & H1 & H2 & H3 & H4).
    assert (negb l && negb r = false) as -> by (destruct l, r; naive_solver).
    assert (r && negb w = false) as -> by (destruct r; [|done]; by rewrite (proj1 (Hr eq_refl))).
    assert (r && negb h = false) as -> by (destruct r; [|done]; by rewrite (proj2 (Hr eq_refl))).
    assert (l && negb (bool_decide (is_Some (AddrParser.parse_ip_addr (bind_address (lan (console_transports c)))))) = false) as ->
      by (destruct l; [|done]; by rewrite bool_decide_true by auto).
    rewrite (proj2 (String.eqb_neq _ _) Hd), !(proj2 (N.eqb_neq _ _)) by lia. done.
Qed.

(** A reader that fills in what is missing reads back what the writer wrote. *)
Lemma config_of_fields_of_config c : config_of_fields (fields_of_config c) = Ok c.
Proof. by destruct c as [? ? ? ? ? ? ? [] [[] []]]. Qed.

Section ConfigFiles.
Context `{!Serde ConfigFields} `{!SerdePretty ConfigFields} `{!SerdePrettyLaws ConfigFields}.

(** The configuration a file holds. *)
Definition config_now (path : string) (d : Disk) : option AgentConfig := ok (load_config quiet path d).
Lemma load_config_now env path d c : load_config env path d = Ok c -> config_now path d = Some c /\ config_valid c.
Proof.
  unfold config_now, load_config, read_to_string. destruct (read_fault env); [done|]. cbn [read_fault quiet].
  intros E. assert (validate c = Ok tt) as V.
  { destruct (ok_or _ _); cbn [map_err] in E; [|done]. destruct (let? f := from_json _ in config_of_fields f); cbn [map_err] in E; [|done].
    destruct (validate _) as [[]|] eqn:V; congruence. }
  split; [|by apply validate_spec].
  destruct (ok_or (from_utf8 <$> d !! path) "No such file or directory"); cbn [map_err] in *; [|done]. by rewrite E.
Qed.
Lemma config_now_valid path d c : config_now path d = Some c -> config_valid c.
Proof.
  unfold config_now. destruct (load_config quiet path d) as [c'|] eqn:E; [|done]. intros [= <-].
  by apply load_config_now in E as [_ V].
Qed.
Lemma config_now_same path d d' : d' !! path = d !! path -> config_now path d' = config_now path d.
Proof. intros E. unfold config_now, load_config, read_to_string. by rewrite E. Qed.

Definition writes_whole (env : FileEnv) : Prop := match write_fault env with WriteFails _ _ => False | _ => True end.
(** A save that is not cut short leaves the old file or the new configuration. *)
Lemma save_config_cases env c path d : config_valid c -> writes_whole env ->
  let '(d', r) := save_config env c path d in
  (forall q, q <> path -> d' !! q = d !! q) /\
  match r with
  | Ok _ => config_now path d' = Some c
  | Err _ => d' = d
  end.
Proof.
  intros V W. unfold save_config. destruct (to_json_pretty _) as [body|] eqn:E; [|done].
  apply from_to_json_pretty in E. unfold write_secret. unfold writes_whole in W.
  destruct (write_fault env); cbn [map_err]; [|done..].
  split; [intros q Hq; by rewrite lookup_insert_ne|].
  unfold config_now, load_config, read_to_string. cbn [read_fault quiet]. rewrite lookup_insert_eq.
  cbn [fmap option_fmap option_map ok_or map_err]. rewrite from_utf8_as_bytes, E, config_of_fields_of_config.
  cbn [map_err]. by rewrite (proj2 (validate_spec c) V).
Qed.
End ConfigFiles.

(** Nothing opens by default. A configuration read from a file listens on
    the local network, or admits clients to an unattended console, only where
    the file itself says so; a file that does not speak of transports is
    connected to the relay alone, whatever its age. *)
Theorem nothing_opens_by_default f c : config_of_fields f = Ok c ->
  (lan_enabled (lan (console_transports c)) = true ->
     exists t l, f_console_transports f = Some t /\ f_lan t = Some l /\ f_lan_enabled l = Some true) /\
  (enabled (unattended_console c) = true \/ allow_trusted_clients (unattended_console c) = true ->
     exists u, (f_unattended_console f = Some u \/ f_headless f = Some u) /\
       (enabled (unattended_console c) = true -> f_enabled u = Some true) /\
       (allow_trusted_clients (unattended_console c) = true -> f_allow_trusted_clients u = Some true)) /\
  (f_console_transports f = None -> relay_enabled (relay (console_transports c)) = true).
Proof.
  unfold config_of_fields. intros E.
  assert (forall o : option bool, default false o = true -> o = Some true) as D by (intros [[]|]; naive_solver).
  destruct (ok_or (f_device_name f) _); [|done]. destruct (ok_or (f_keystore_path f) _); [|done].
  assert (exists u, unattended_console c = u /\
    console_transports c = from_option transports_of_fields default_transports (f_console_transports f) /\
    match f_unattended_console f, f_headless f with
    | Some _, Some _ => False
    | Some u', None | None, Some u' => u = unattended_of_fields u'
    | None, None => u = default_unattended
    end) as (u & Eu & -> & M).
  { destruct (f_unattended_console f), (f_headless f); [done|..]; injection E as <-; by eexists. }
  split; [|split].
  - destruct (f_console_transports f) as [[[l|] r]|]; cbn; [|done..]. intros L%D. by exists {| f_lan := Some l; f_relay := r |}, l.
  - rewrite Eu. destruct (f_unattended_console f) as [u1|], (f_headless f) as [u2|]; try done; rewrite M; cbn.
    + intros _. exists u1. split; [by left|]. split; apply D.
    + intros _. exists u2. split; [by right|]. split; apply D.
    + intros [?|?]; discriminate.
  - by intros ->.
Qed.

(** A file as the first releases wrote it, with the old name of the console. *)
Definition old_file : ConfigFields :=
  {| f_relay_url := Some "wss://relay.test/ws"%string; f_relay_http_url := Some "https://relay.test"%string;
     f_device_name := Some "host-1"%string; f_keystore_path := Some "/tmp/keys"%string; f_device_id := None;
     f_heartbeat_secs := None; f_reconnect_cap_secs := None; f_unattended_console := None;
     f_headless := Some {| f_enabled := Some true; f_allow_trusted_clients := Some true; f_capture_timeout_secs := None;
                           f_min_capture_interval_secs := None; f_max_capture_bytes := None |};
     f_console_transports := None |}.
Lemma nothing_opens_by_default_witness : exists c, config_of_fields old_file = Ok c /\ validate c = Ok tt /\
  enabled (unattended_console c) = true /\ lan_enabled (lan (console_transports c)) = false /\
  relay_enabled (relay (console_transports c)) = true.
Proof.
  eexists. split; [reflexivity|]. split; [reflexivity|]. split; [reflexivity|]. split; [reflexivity|].
  eapply (nothing_opens_by_default old_file); reflexivity.
Defined.

#[export] Instance UnattendedFields_eq_dec : EqDecision UnattendedFields.
Proof. solve_decision. Defined.
#[export] Instance UnattendedFields_countable : Countable UnattendedFields.
Proof.
  refine (inj_countable' (fun f => (f_enabled f, f_allow_trusted_clients f, f_capture_timeout_secs f,
      f_min_capture_interval_secs f, f_max_capture_bytes f))
    (fun '(e, a, t, i, b) => {| f_enabled := e; f_allow_trusted_clients := a; f_capture_timeout_secs := t;
      f_min_capture_interval_secs := i; f_max_capture_bytes := b |}) _). by intros [].
Defined.
Definition transport_parts (t : TransportFields)
  : option (option bool * option string * option N) * option (option bool) :=
  ((fun l => (f_lan_enabled l, f_bind_address l, f_lan_port l)) <$> f_lan t, f_relay_enabled <$> f_relay t).
Definition transport_of_parts (p : option (option bool * option string * option N) * option (option bool))
  : TransportFields :=
  {| f_lan := (fun '(e, b, n) => {| f_lan_enabled := e; f_bind_address := b; f_lan_port := n |}) <$> p.1;
     f_relay := (fun e => {| f_relay_enabled := e |}) <$> p.2 |}.
#[export] Instance ConfigFields_eq_dec : EqDecision ConfigFields.
Proof.
  assert (EqDecision LanFields) by solve_decision. assert (EqDecision RelayFields) by solve_decision.
  assert (EqDecision TransportFields) by solve_decision. solve_decision.
Defined.
(** A list of codes, which grows with its parts alone. *)
Definition config_codes (f : ConfigFields) : list positive :=
  [encode (f_relay_url f); encode (f_relay_http_url f); encode (f_device_name f); encode (f_keystore_path f);
   encode (f_device_id f); encode (f_heartbeat_secs f); encode (f_reconnect_cap_secs f);
   encode (f_unattended_console f); encode (f_headless f); encode (transport_parts <$> f_console_transports f)].
Definition config_of_codes (l : list positive) : option ConfigFields :=
  match l with
  | [a; b; c; d; e; g; h; i; j; k] =>
      a ← decode a; b ← decode b; c ← decode c; d ← decode d; e ← decode e; g ← decode g; h ← decode h;
      i ← decode i; j ← decode j; k ← decode k;
      Some {| f_relay_url := a; f_relay_http_url := b; f_device_name := c; f_keystore_path := d;
              f_device_id := e; f_heartbeat_secs := g; f_reconnect_cap_secs := h; f_unattended_console := i;
              f_headless := j; f_console_transports := transport_of_parts <$> k |}
  | _ => None
  end.
Lemma config_of_codes_codes f : config_of_codes (config_codes f) = Some f.
Proof.
  unfold config_of_codes, config_codes. rewrite !decode_encode. destruct f as [a b c d e g h i j t]. cbn.
  destruct t as [t|]; [|done]. destruct t as [l r]. by destruct l as [[]|], r as [[]|].
Qed.
#[export] Instance ConfigFields_countable : Countable ConfigFields := inj_countable _ _ config_of_codes_codes.
