(* ===== verification/Discovery.v ===== *)
(** * Finding hosts on the local network

    The discovery of rivetlink-sdk/src/lan.rs: what a host advertises, how the
    resolutions of one host are gathered, and the address that is offered. mDNS
    is a parameter: it delivers resolved services, each with its properties. *)
From Stdlib Require Import NArith Lia Strings.String Strings.Byte.
From stdpp Require Import sorting.
From S2P Require Import Prelude Text Interfaces Instances Protocol Trusted ClientSession P2p KeyStore AgentConfig.

(** ** [IpAddr::to_string] *)

Definition hex_digits (n : N) : bytes :=
  let d i := hex_digit ((n / 16 ^ i) mod 16)%N in
  if (n <? 16)%N then [d 0%N] else if (n <? 256)%N then [d 1%N; d 0%N] else if (n <? 4096)%N then [d 2%N; d 1%N; d 0%N]
  else [d 3%N; d 2%N; d 1%N; d 0%N].
Definition v4_text (ip : N) : bytes :=
  let o i := as_bytes (pretty (v4_octet i ip)) in
  o 0%N ++ [AddrParser.dot] ++ o 1%N ++ [AddrParser.dot] ++ o 2%N ++ [AddrParser.dot] ++ o 3%N.
Definition v6_segments (ip : N) : list N := map (fun i => (ip / 65536 ^ (7 - N.of_nat i)) mod 65536)%N (seq 0 8).
(** The longest run of zeros, the first of several: where it starts, how long
    it is; [cur] is the run that ends here. *)
Fixpoint zero_run (i : nat) (cur longest : nat * nat) (segments : list N) : nat * nat :=
  match segments with
  | [] => longest
  | s :: segments =>
      if (s =? 0)%N then
        let cur := ((if (cur.2 =? 0)%nat then i else cur.1), S cur.2) in
        zero_run (S i) cur (if (longest.2 <? cur.2)%nat then cur else longest) segments
      else zero_run (S i) (0, 0) longest segments
  end.
Fixpoint segments_text (segments : list N) : bytes :=
  match segments with
  | [] => []
  | [s] => hex_digits s
  | s :: segments => hex_digits s ++ [AddrParser.colon] ++ segments_text segments
  end.
Definition v6_text (ip : N) : bytes :=
  if (ip / 2 ^ 32 =? 65535)%N then as_bytes "::ffff:" ++ v4_text (ip mod 2 ^ 32)%N
  else
    let segments := v6_segments ip in
    let '(start, n) := zero_run 0 (0, 0) (0, 0) segments in
    if (1 <? n)%nat
    then segments_text (take start segments) ++ as_bytes "::" ++ segments_text (drop (start + n) segments)
    else segments_text segments.
Definition ip_to_string (a : IpAddr) : string :=
  from_utf8 (match a with V4 ip => v4_text ip | V6 ip => v6_text ip end).
Example printed :
  map ip_to_string [V4 3232235796; V4 0; V6 0; V6 1; V6 0xfe800000000000000000000000000001;
    V6 0x00010002000300040005000600070008; V6 0xffff0a000001; V6 0x20010db8000000000001000000000001]%N =
  ["192.168.1.20"; "0.0.0.0"; "::"; "::1"; "fe80::1"; "1:2:3:4:5:6:7:8"; "::ffff:10.0.0.1"; "2001:db8::1:0:0:1"]%string.
Proof. vm_compute. reflexivity. Qed.

(** ** Devices *)

Record LanDevice := {
  ld_name : string;
  ld_address : string;
  ld_port : N;
  ld_public_key : option string;
  ld_protocol_version : option N;
  ld_physical_console : bool;
}.
Definition socket_addr (d : LanDevice) : Result SocketAddr Sdk.SdkError :=
  let? ip := ok_or (AddrParser.parse_ip_addr (ld_address d)) (Sdk.Discovery ("bad address: " ++ ld_address d)) in
  Ok {| ip := ip; port := ld_port d |}.
Definition host_identity `{Ed25519} `{Base64} (d : LanDevice) : option bytes :=
  b64 ← ld_public_key d; raw ← ok (b64_decode (trim b64));
  if (length raw =? 32)%nat && vk_valid raw then Some raw else None.

(** ** Gathering *)

Definition TXT_NAME : string := "name".
Definition TXT_PUBKEY : string := "pk".
Definition TXT_VERSION : string := "v".
Definition TXT_MODE : string := "mode".
(** A resolved service, as mDNS gives it. *)
Record ServiceInfo := {
  fullname : string;
  info_port : N;
  info_addresses : list IpAddr;
  property : string -> option string;
}.

(** The order of [IpAddr]: addresses of version 4 first. *)
Definition ip_leb (a b : IpAddr) : bool :=
  match a, b with
  | V4 x, V4 y | V6 x, V6 y => (x <=? y)%N
  | V4 _, V6 _ => true
  | V6 _, V4 _ => false
  end.
Definition v6_is_loopback (ip : N) : bool := (ip =? 1)%N.
Definition addr_rank (a : IpAddr) : N :=
  match a with
  | V4 ip => if v4_is_loopback ip then 4%N else if v4_is_link_local ip then 2%N else 0%N
  | V6 ip => if v6_is_loopback ip then 4%N
             else if (N.land (ip / 2 ^ 112) 0xffc0 =? 0xfe80)%N then 4%N else 1%N
  end.

(** [addresses] stands for a [BTreeSet]; only its least element by rank and
    order is used. *)
Record HostAccumulator := {
  acc_name : option string;
  acc_port : N;
  acc_public_key : option string;
  acc_protocol_version : option N;
  acc_physical_console : bool;
  acc_addresses : list IpAddr;
}.
Definition acc_default : HostAccumulator :=
  {| acc_name := None; acc_port := 0; acc_public_key := None; acc_protocol_version := None;
     acc_physical_console := false; acc_addresses := [] |}.
(** [str::parse::<u16>]. *)
Definition parse_u16 (s : string) : option N := n ← parse_u32 s; if (n <=? u16_max)%N then Some n else None.
Definition from_info (info : ServiceInfo) : option HostAccumulator :=
  match info_addresses info with
  | [] => None
  | addresses =>
      Some {| acc_name := match property info TXT_NAME with
                          | Some name => Some name
                          | None => head (str_split Byte.x2e (fullname info))
                          end;
              acc_port := info_port info;
              acc_public_key := property info TXT_PUBKEY;
              acc_protocol_version := property info TXT_VERSION ≫= parse_u16;
              acc_physical_console := bool_decide (property info TXT_MODE = Some "physical-console"%string);
              acc_addresses := addresses |}
  end.
Definition or_keep {A} (new old : option A) : option A := match new with Some a => Some a | None => old end.
Definition merge (other self : HostAccumulator) : HostAccumulator :=
  {| acc_name := or_keep (acc_name other) (acc_name self);
     acc_port := if (acc_port other =? 0)%N then acc_port self else acc_port other;
     acc_public_key := or_keep (acc_public_key other) (acc_public_key self);
     acc_protocol_version := or_keep (acc_protocol_version other) (acc_protocol_version self);
     acc_physical_console := acc_physical_console self || acc_physical_console other;
     acc_addresses := acc_addresses self ++ acc_addresses other |}.
(** The least address by rank, and the first of these in the order of the set. *)
Definition better (a b : IpAddr) : bool :=
  (addr_rank a <? addr_rank b)%N || (addr_rank a =? addr_rank b)%N && ip_leb a b.
Definition best_address (addresses : list IpAddr) : option IpAddr :=
  fold_left (fun best a => match best with Some b => Some (if better b a then b else a) | None => Some a end) addresses None.
Definition into_device (acc : HostAccumulator) : option LanDevice :=
  best ← best_address (acc_addresses acc);
  if (4 <=? addr_rank best)%N then None
  else Some {| ld_name := default "RivetLink"%string (acc_name acc); ld_address := ip_to_string best; ld_port := acc_port acc;
               ld_public_key := acc_public_key acc; ld_protocol_version := acc_protocol_version acc;
               ld_physical_console := acc_physical_console acc |}.

Definition gather_step (found : gmap string HostAccumulator) (info : ServiceInfo) : gmap string HostAccumulator :=
  match from_info info with
  | None => found
  | Some acc =>
      let key := default (fullname info) (acc_public_key acc) in
      <[key := merge acc (default acc_default (found !! key))]> found
  end.
Definition gather (infos : list ServiceInfo) : gmap string HostAccumulator := fold_left gather_step infos ∅.
Definition by_key (a b : string * HostAccumulator) : Prop := by_text a.1 b.1.
#[export] Instance by_key_dec a b : Decision (by_key a b).
Proof. unfold by_key, by_text. apply _. Defined.
(** [discover_blocking], over what is resolved before the time is over. *)
Definition discover (infos : list ServiceInfo) : list LanDevice :=
  omap (fun p => into_device p.2) (merge_sort by_key (map_to_list (gather infos))).

(** ** Advertising *)

(** The characters of a UTF-8 text are counted by the bytes that do not
    continue one. *)
Definition continues (x : byte) : bool := between 128 191 x.
Definition is_alphanumeric (x : byte) : bool := between 48 57 x || between 65 90 x || between 97 122 x.
Definition hyphen : byte := Byte.x2d.
Fixpoint drop_hyphens (b : bytes) : bytes :=
  match b with x :: r => if Byte.eqb x hyphen then drop_hyphens r else b | [] => [] end.
Definition sanitize_hostname (name : string) : string :=
  let cleaned := map (fun x => if is_alphanumeric x then x else hyphen)
                   (base.filter (fun x => continues x = false) (as_bytes name)) in
  let trimmed := rev (drop_hyphens (rev (drop_hyphens cleaned))) in
  match trimmed with [] => "rivetlink"%string | _ => from_utf8 (map ascii_lower trimmed) end.
Definition hostname (instance : string) : string := (sanitize_hostname instance ++ ".local.")%string.
(** The properties of the service [start_with_mode] registers. *)
Definition advertised (instance public_key : string) (version : N) (mode : option string) : list (string * string) :=
  [(TXT_NAME, instance); (TXT_PUBKEY, public_key); (TXT_VERSION, pretty version)] ++
  match mode with Some mode => [(TXT_MODE, mode)] | None => [] end.


(** ** Gathering is choosing *)

Definition key_of (info : ServiceInfo) (acc : HostAccumulator) : string := default (fullname info) (acc_public_key acc).
(** What the resolutions of one host said, in their order. *)
Definition contributions (infos : list ServiceInfo) (key : string) : list HostAccumulator :=
  omap (fun info => acc ← from_info info; if bool_decide (key_of info acc = key) then Some acc else None) infos.
(** The last value that was said. *)
Definition last_said {A B} (f : A -> option B) (l : list A) : option B := last (omap f l).
(** A host's device, each field chosen on its own. *)
Definition device_of (said : list HostAccumulator) : option LanDevice :=
  best ← best_address (said ≫= acc_addresses);
  if (4 <=? addr_rank best)%N then None
  else Some {| ld_name := default "RivetLink"%string (last_said acc_name said);
               ld_address := ip_to_string best;
               ld_port := default 0%N (last_said (fun a => if (acc_port a =? 0)%N then None else Some (acc_port a)) said);
               ld_public_key := last_said acc_public_key said;
               ld_protocol_version := last_said acc_protocol_version said;
               ld_physical_console := existsb acc_physical_console said |}.

Lemma ip_leb_total a b : ip_leb a b = false -> ip_leb b a = true.
Proof. destruct a, b; simpl; try done; rewrite N.leb_gt, N.leb_le; lia. Qed.
Lemma ip_leb_trans a b c : ip_leb a b = true -> ip_leb b c = true -> ip_leb a c = true.
Proof. destruct a, b, c; simpl; try done; rewrite !N.leb_le; lia. Qed.
Lemma ip_leb_antisym a b : ip_leb a b = true -> ip_leb b a = true -> a = b.
Proof. destruct a, b; simpl; try done; rewrite !N.leb_le; intros; f_equal; lia. Qed.
Lemma better_spec a b :
  better a b = true <-> (addr_rank a < addr_rank b)%N \/ addr_rank a = addr_rank b /\ ip_leb a b = true.
Proof. unfold better. rewrite orb_true_iff, andb_true_iff, N.ltb_lt, N.eqb_eq. done. Qed.
Lemma better_refl a : better a a = true.
Proof. apply better_spec. right. split; [done|]. destruct a; simpl; apply N.leb_refl. Qed.
Lemma better_total a b : better a b = false -> better b a = true.
Proof.
  intros Hab. apply better_spec. destruct (N.lt_trichotomy (addr_rank a) (addr_rank b)) as [H|[H|H]]; [|right|by left].
  - exfalso. apply not_true_iff_false in Hab. apply Hab, better_spec. by left.
  - split; [done|]. apply ip_leb_total. unfold better in Hab. apply orb_false_iff in Hab as [_ Hab].
    by rewrite H, N.eqb_refl in Hab.
Qed.
Lemma better_trans a b c : better a b = true -> better b c = true -> better a c = true.
Proof.
  rewrite !better_spec. intros [H|[H H']] [K|[K K']]; [left; lia..|right].
  split; [congruence|]. by eapply ip_leb_trans.
Qed.
Lemma better_antisym a b : better a b = true -> better b a = true -> a = b.
Proof. rewrite !better_spec. intros [H|[H H']] [K|[K K']]; [lia..|]. by apply ip_leb_antisym. Qed.

Lemma best_address_from l b :
  exists a, fold_left (fun best a => match best with Some b => Some (if better b a then b else a) | None => Some a end) l (Some b)
            = Some a /\ a ∈ b :: l /\ forall c, c ∈ b :: l -> better a c = true.
Proof.
  revert b. induction l as [|x l IH]; intros b; simpl.
  - exists b. split; [done|]. split; [by constructor|]. intros c Hc%list_elem_of_singleton. subst. apply better_refl.
  - destruct (IH (if better b x then b else x)) as (a & Ha & Hin & Hall). exists a. split; [done|]. split.
    + apply elem_of_cons in Hin as [->|Hin]; [destruct (better b x); set_solver|set_solver].
    + assert (better a (if better b x then b else x) = true) as Hx by (apply Hall; set_solver).
      intros c Hc. apply elem_of_cons in Hc as [->|[->|Hc]%elem_of_cons]; [| |apply Hall; set_solver].
      all: destruct (better b x) eqn:E; eauto using better_trans, better_total.
Qed.
Lemma best_address_best l a : best_address l = Some a -> a ∈ l /\ forall c, c ∈ l -> better a c = true.
Proof.
  destruct l as [|b l]; [done|]. unfold best_address. simpl.
  destruct (best_address_from l b) as (a' & -> & H & H'). intros [= <-]. done.
Qed.
Lemma best_address_some l : l <> [] -> is_Some (best_address l).
Proof. destruct l as [|b l]; [done|]. intros _. unfold best_address. simpl. destruct (best_address_from l b) as (a & -> & _). done. Qed.

Lemma last_said_snoc {A B} (f : A -> option B) l x : last_said f (l ++ [x]) = or_keep (f x) (last_said f l).
Proof.
  unfold last_said. rewrite omap_app. cbn [omap list_omap]. destruct (f x) as [b|]; cbn [or_keep].
  - apply last_snoc.
  - by rewrite app_nil_r.
Qed.
Lemma contributions_snoc infos info key :
  contributions (infos ++ [info]) key =
  contributions infos key ++ match from_info info with
                             | Some acc => if bool_decide (key_of info acc = key) then [acc] else []
                             | None => []
                             end.
Proof.
  unfold contributions. rewrite omap_app. f_equal. cbn [omap list_omap].
  destruct (from_info info) as [acc|]; simpl; [|done]. by case_bool_decide.
Qed.
Lemma gather_snoc infos info : gather (infos ++ [info]) = gather_step (gather infos) info.
Proof. unfold gather. by rewrite fold_left_app. Qed.
(** The accumulator of a host is what its resolutions said, merged in order. *)
Lemma gather_lookup infos key :
  gather infos !! key = match contributions infos key with
                        | [] => None
                        | said => Some (fold_left (fun self other => merge other self) said acc_default)
                        end.
Proof.
  induction infos as [|info infos IH] using rev_ind; [apply lookup_empty|].
  rewrite gather_snoc, contributions_snoc. unfold gather_step.
  destruct (from_info info) as [acc|]; [|by rewrite app_nil_r].
  fold (key_of info acc). case_bool_decide as Hk; [subst key; rewrite lookup_insert_eq|].
  - rewrite IH. destruct (contributions infos (key_of info acc)) as [|c cs] eqn:E; [done|].
    cbn [app default]. f_equal. rewrite app_comm_cons, fold_left_app. done.
  - by rewrite lookup_insert_ne, app_nil_r.
Qed.

Lemma merged_fields said :
  let acc := fold_left (fun self other => merge other self) said acc_default in
  acc_name acc = last_said acc_name said /\
  acc_port acc = default 0%N (last_said (fun a => if (acc_port a =? 0)%N then None else Some (acc_port a)) said) /\
  acc_public_key acc = last_said acc_public_key said /\
  acc_protocol_version acc = last_said acc_protocol_version said /\
  acc_physical_console acc = existsb acc_physical_console said /\
  acc_addresses acc = said ≫= acc_addresses.
Proof.
  induction said as [|x said IH] using rev_ind; [done|].
  cbv zeta in *. rewrite fold_left_app. cbn [fold_left]. destruct IH as (IH1 & IH2 & IH3 & IH4 & IH5 & IH6).
  cbn [merge acc_name acc_port acc_public_key acc_protocol_version acc_physical_console acc_addresses].
  rewrite IH1, IH2, IH3, IH4, IH5, IH6, !last_said_snoc, existsb_app, bind_app. cbn [existsb mbind list_bind].
  rewrite orb_false_r, app_nil_r. repeat split. by destruct (acc_port x =? 0)%N.
Qed.
Lemma into_device_merged said :
  into_device (fold_left (fun self other => merge other self) said acc_default) = device_of said.
Proof.
  destruct (merged_fields said) as (H1 & H2 & H3 & H4 & H5 & H6). cbv zeta in *.
  unfold into_device, device_of. by rewrite H1, H2, H3, H4, H5, H6.
Qed.

#[export] Instance by_key_total : Total by_key.
Proof. intros a b. unfold by_key, by_text. destruct (String.leb_total a.1 b.1); auto. Qed.
Lemma omap_fst {A B} (f : string -> option A) (g : string * B -> option A) l :
  (forall p, p ∈ l -> g p = f p.1) -> omap g l = omap f (map fst l).
Proof.
  induction l as [|p l IH]; [done|]. intros H. cbn [omap list_omap map]. rewrite H by left.
  rewrite IH; [done|]. intros q Hq. apply H. by right.
Qed.

Lemma discover_keys infos :
  exists keys,
    NoDup keys /\ Sorted by_text keys /\
    (forall key, key ∈ keys <-> contributions infos key <> []) /\
    discover infos = omap (fun key => device_of (contributions infos key)) keys.
Proof.
  set (l := merge_sort by_key (map_to_list (gather infos))).
  assert (l ≡ₚ map_to_list (gather infos)) as Hl by apply merge_sort_Permutation.
  exists (map fst l). split; [|split; [|split]].
  - change (map fst l) with (l.*1). rewrite Hl. apply NoDup_fst_map_to_list.
  - assert (Sorted by_key l) as Hs by (apply Sorted_merge_sort; apply _). clear Hl.
    induction Hs as [|p q Hq IH Hd]; [constructor|]. cbn [map]. constructor; [done|]. by destruct Hd; constructor.
  - intros key. change (map fst l) with (l.*1). rewrite Hl. rewrite list_elem_of_fmap. split.
    + intros ([k acc] & -> & Hin%elem_of_map_to_list). cbn [fst]. rewrite gather_lookup in Hin.
      by destruct (contributions infos k).
    + intros H. destruct (gather infos !! key) as [acc|] eqn:E.
      * exists (key, acc). split; [done|]. by apply elem_of_map_to_list.
      * rewrite gather_lookup in E. by destruct (contributions infos key).
  - unfold discover. fold l. apply omap_fst. intros [k acc] Hin. rewrite Hl in Hin.
    apply elem_of_map_to_list in Hin. rewrite gather_lookup in Hin. cbn [fst snd].
    destruct (contributions infos k) as [|c cs] eqn:E; [done|]. injection Hin as <-. apply (into_device_merged (c :: cs)).
Qed.
Lemma device_of_address said :
  match device_of said with
  | Some d => exists a, a ∈ (said ≫= acc_addresses) /\ ld_address d = ip_to_string a /\ (addr_rank a < 4)%N /\
                        forall b, b ∈ (said ≫= acc_addresses) -> better a b = true
  | None => forall b, b ∈ (said ≫= acc_addresses) -> (4 <= addr_rank b)%N
  end.
Proof.
  unfold device_of. destruct (best_address (said ≫= acc_addresses)) as [a|] eqn:E.
  - apply best_address_best in E as [Hin Hbest]. cbn [mbind option_bind].
    destruct (N.leb_spec 4 (addr_rank a)); [|by exists a].
    intros b Hb%Hbest%better_spec. lia.
  - destruct (said ≫= acc_addresses) as [|x xs]; [intros b Hb; by apply elem_of_nil in Hb|].
    destruct (best_address_some (x :: xs) ltac:(done)) as [? ?]. simplify_eq.
Qed.
Lemma elem_of_discover infos d :
  d ∈ discover infos <-> exists key, device_of (contributions infos key) = Some d.
Proof.
  destruct (discover_keys infos) as (keys & _ & _ & Hkeys & ->). rewrite list_elem_of_omap. split.
  - intros (k & _ & H). by exists k.
  - intros (k & H). exists k. split; [|done]. apply Hkeys. intros E. by rewrite E in H.
Qed.

(** Discovery gives one device for each host identity and no other: the
    identities are exactly those of the resolutions that carry an address, each
    once and in order; the device of an identity has the last name, key, version
    and port other than 0 that was said, is a physical console when any
    resolution said so, and is left out exactly when its best address cannot be
    dialled; the address it shows is one of its own, and none of its own is
    better. However the resolutions of other hosts are interleaved, they play no
    part in it. *)
Theorem discovery_exact infos :
  exists keys,
    NoDup keys /\ Sorted by_text keys /\
    (forall key, key ∈ keys <-> contributions infos key <> []) /\
    discover infos = omap (fun key => device_of (contributions infos key)) keys /\
    forall key, key ∈ keys ->
      match device_of (contributions infos key) with
      | Some d => exists a, a ∈ (contributions infos key ≫= acc_addresses) /\ ld_address d = ip_to_string a /\
                            (addr_rank a < 4)%N /\
                            forall b, b ∈ (contributions infos key ≫= acc_addresses) -> better a b = true
      | None => forall b, b ∈ (contributions infos key ≫= acc_addresses) -> (4 <= addr_rank b)%N
      end.
Proof.
  destruct (discover_keys infos) as (keys & H1 & H2 & H3 & H4). exists keys. repeat split; try done.
  1-2: apply H3. intros key _. apply device_of_address.
Qed.
(** ** An advertised host is found *)

Lemma digits_run_app radix b rest ds :
  AddrParser.digits_run radix b = (ds, []) ->
  match rest with x :: _ => AddrParser.to_digit radix x = None | [] => True end ->
  AddrParser.digits_run radix (b ++ rest) = (ds, rest).
Proof.
  intros H Hrest. revert ds H. induction b as [|x b IH]; intros ds H; simpl in *.
  - injection H as <-. destruct rest as [|y rest]; [done|]. simpl. by rewrite Hrest.
  - destruct (AddrParser.to_digit radix x); [|done].
    destruct (AddrParser.digits_run radix b) as [ds' rest'] eqn:E. injection H as <- ->. by rewrite (IH ds' eq_refl).
Qed.
(** One number, as far as the parser of octets sees it. *)
Definition octet_text_ok (n : N) : bool :=
  let b := as_bytes (pretty n) in
  let '(ds, rest) := AddrParser.digits_run 10 b in
  (length rest =? 0)%nat && (length ds <=? 3)%nat && negb (length ds =? 0)%nat &&
  negb (bool_decide (head ds = Some 0%N) && (1 <? length ds)%nat) && (AddrParser.value 10 ds =? n)%N.
Lemma octet_texts_ok : forallb octet_text_ok (map N.of_nat (seq 0 256)) = true.
Proof. vm_compute. reflexivity. Qed.
Lemma read_octet_text n rest :
  (n < 256)%N -> match rest with x :: _ => AddrParser.to_digit 10 x = None | [] => True end ->
  AddrParser.read_number 10 3 false 256 (as_bytes (pretty n) ++ rest) = Some (n, rest).
Proof.
  intros Hn Hrest.
  assert (octet_text_ok n = true) as H.
  { pose proof octet_texts_ok as Hall. rewrite forallb_forall in Hall. apply Hall, in_map_iff. exists (N.to_nat n). rewrite in_seq. lia. }
  unfold octet_text_ok in H. destruct (AddrParser.digits_run 10 (as_bytes (pretty n))) as [ds r] eqn:E.
  rewrite !andb_true_iff, negb_true_iff, negb_true_iff in H. destruct H as ((((Hr & H3) & H0) & Hz) & Hv).
  apply Nat.eqb_eq in Hr. destruct r; [|done]. apply N.eqb_eq in Hv. apply Nat.leb_le in H3.
  unfold AddrParser.read_number. rewrite (digits_run_app _ _ _ _ E Hrest), H0.
  destruct (Nat.ltb_spec 3 (length ds)); [lia|]. cbn [orb negb andb]. rewrite Hz, Hv.
  by destruct (N.ltb_spec n 256); [|lia].
Qed.
Lemma v4_octets ip : (ip < 2 ^ 32)%N ->
  (((v4_octet 0 ip * 256 + v4_octet 1 ip) * 256 + v4_octet 2 ip) * 256 + v4_octet 3 ip = ip)%N.
Proof.
  unfold v4_octet. intros H.
  change (256 ^ (3 - 0))%N with (256 * 256 * 256)%N. change (256 ^ (3 - 1))%N with (256 * 256)%N.
  change (256 ^ (3 - 2))%N with 256%N. change (256 ^ (3 - 3))%N with 1%N.
  rewrite <-!N.Div0.div_div, N.div_1_r.
  assert (ip / 256 / 256 / 256 < 256)%N by (rewrite !N.Div0.div_div; apply N.Div0.div_lt_upper_bound; exact H).
  rewrite (N.mod_small (ip / 256 / 256 / 256)) by done.
  pose proof (N.div_mod' ip 256). pose proof (N.div_mod' (ip / 256) 256). pose proof (N.div_mod' (ip / 256 / 256) 256). lia.
Qed.
Lemma v4_octet_lt i ip : (v4_octet i ip < 256)%N.
Proof. unfold v4_octet. by apply N.mod_lt. Qed.
(** A printed IPv4 address is parsed back. *)
Lemma parse_printed_v4 ip : (ip < 2 ^ 32)%N -> AddrParser.parse_ip_addr (ip_to_string (V4 ip)) = Some (V4 ip).
Proof.
  intros H. unfold AddrParser.parse_ip_addr, ip_to_string. rewrite as_bytes_from_utf8.
  assert (AddrParser.read_ipv4 (v4_text ip) = Some (ip, [])) as ->; [|done].
  unfold AddrParser.read_ipv4, AddrParser.read_octet, v4_text, AddrParser.read_separator.
  rewrite read_octet_text by (done || apply v4_octet_lt). cbn [mbind option_bind app AddrParser.read_given].
  rewrite Byte.byte_dec_lb by done. cbn [mbind option_bind].
  rewrite read_octet_text by (done || apply v4_octet_lt). cbn [mbind option_bind app AddrParser.read_given].
  rewrite Byte.byte_dec_lb by done. cbn [mbind option_bind].
  rewrite read_octet_text by (done || apply v4_octet_lt). cbn [mbind option_bind app AddrParser.read_given].
  rewrite Byte.byte_dec_lb by done. cbn [mbind option_bind].
  rewrite <-(app_nil_r (as_bytes (pretty (v4_octet 3 ip)))), read_octet_text by (done || apply v4_octet_lt).
  cbn [mbind option_bind]. by rewrite v4_octets.
Qed.

(** A printed port is parsed back. *)
Lemma parse_u16_pretty (n : N) : (n <= u16_max)%N -> parse_u16 (pretty n) = Some n.
Proof.
  intros H. unfold parse_u16. rewrite parse_u32_pretty by (unfold u16_max, u32_max in *; lia).
  cbn [mbind option_bind]. by destruct (N.leb_spec n u16_max); [|lia].
Qed.

Lemma last_said_const {A B} (f : A -> option B) l o : l <> [] -> (forall a, a ∈ l -> f a = o) -> last_said f l = o.
Proof.
  induction l as [|x l IH] using rev_ind; [done|]. intros _ H. rewrite last_said_snoc, H by set_solver.
  destruct o as [b|]; [done|]. cbn [or_keep]. destruct l as [|y l]; [done|]. apply IH; [done|]. set_solver.
Qed.
Lemma existsb_const {A} (f : A -> bool) l b : l <> [] -> (forall a, a ∈ l -> f a = b) -> existsb f l = b.
Proof.
  induction l as [|x l IH]; [done|]. intros _ H. simpl. rewrite H by left.
  destruct l as [|y l]; [by rewrite orb_false_r|]. rewrite IH; [by destruct b|done|]. intros a Ha. apply H. by right.
Qed.
Lemma elem_of_contributions infos key acc :
  acc ∈ contributions infos key <-> exists info, info ∈ infos /\ from_info info = Some acc /\ key_of info acc = key.
Proof.
  unfold contributions. rewrite list_elem_of_omap. apply exist_proper. intros info. apply and_iff_compat_l.
  destruct (from_info info) as [c|]; simpl; [|by split; [|intros [? _]]].
  case_bool_decide; split; [by intros [= <-]|by intros ([= <-] & _)|done|by intros ([= ->] & ?)].
Qed.
Lemma contributions_one_nil info key acc :
  contributions [info] key = [] -> from_info info = Some acc -> key_of info acc <> key.
Proof.
  intros E H <-. assert (acc ∈ contributions [info] (key_of info acc)) as Hin.
  - apply elem_of_contributions. exists info. split; [by left|done].
  - rewrite E in Hin. by apply elem_of_nil in Hin.
Qed.
(** A device shows the key it was gathered under. *)
Lemma device_key infos key d pk :
  device_of (contributions infos key) = Some d -> ld_public_key d = Some pk -> pk = key.
Proof.
  unfold device_of. destruct (best_address _) as [a|]; [|done]. cbn [mbind option_bind]. destruct (4 <=? addr_rank a)%N; [done|].
  intros [= <-]. cbn [ld_public_key]. unfold last_said. intros H%last_Some_elem_of. apply list_elem_of_omap in H as (acc & Hin & Hpk).
  apply elem_of_contributions in Hin as (info & _ & _ & <-). unfold key_of. by rewrite Hpk.
Qed.

Section Found.
Context (instance public_key : string) (port version : N) (mode : option string).
Definition txt (props : list (string * string)) (key : string) : option string :=
  snd <$> find (fun p => String.eqb p.1 key) props.
(** A resolution of the service registered with these arguments. *)
Definition resolves (info : ServiceInfo) : Prop :=
  info_port info = port /\
  forall key, key ∈ [TXT_NAME; TXT_PUBKEY; TXT_VERSION; TXT_MODE] ->
    property info key = txt (advertised instance public_key version mode) key.

Lemma resolves_accumulates info acc :
  (version <= u16_max)%N -> resolves info -> from_info info = Some acc ->
  acc = {| acc_name := Some instance; acc_port := port; acc_public_key := Some public_key;
           acc_protocol_version := Some version;
           acc_physical_console := bool_decide (mode = Some "physical-console"%string);
           acc_addresses := info_addresses info |}.
Proof.
  intros Hv (Hport & Htxt). unfold from_info.
  rewrite (Htxt TXT_NAME), (Htxt TXT_PUBKEY), (Htxt TXT_VERSION), (Htxt TXT_MODE), Hport by set_solver.
  change (txt (advertised instance public_key version mode) TXT_NAME) with (Some instance).
  change (txt (advertised instance public_key version mode) TXT_PUBKEY) with (Some public_key).
  change (txt (advertised instance public_key version mode) TXT_VERSION) with (Some (pretty version : string)).
  assert (txt (advertised instance public_key version mode) TXT_MODE = mode) as -> by (by destruct mode).
  cbn [mbind option_bind]. rewrite parse_u16_pretty by done.
  destruct (info_addresses info); [done|]. by intros [= <-].
Qed.
End Found.

(** C40. A host that advertises itself is found: whatever resolutions of other
    hosts come with its own, over however many interfaces, when one of its own
    carries a routable IPv4 address the client lists exactly one device with its
    key, with its name, port, version and mode, and the address that device
    shows is a routable IPv4 address of the host that parses back into the
    socket address to connect to. *)
Theorem advertised_host_is_found instance public_key port version mode infos
  (Hversion : (version <= u16_max)%N)
  (Hothers : forall info, info ∈ infos ->
     resolves instance public_key port version mode info \/ contributions [info] public_key = [])
  (Hips : forall info a, info ∈ infos -> V4 a ∈ info_addresses info -> (a < 2 ^ 32)%N)
  (Hroutable : exists info a, info ∈ infos /\ resolves instance public_key port version mode info /\
     a ∈ info_addresses info /\ addr_rank a = 0%N) :
  exists d ip,
    d ∈ discover infos /\
    d = {| ld_name := instance; ld_address := ip_to_string (V4 ip); ld_port := port; ld_public_key := Some public_key;
           ld_protocol_version := Some version;
           ld_physical_console := bool_decide (mode = Some "physical-console"%string) |} /\
    socket_addr d = Ok {| ip := V4 ip; port := port |} /\
    addr_rank (V4 ip) = 0%N /\
    (exists info, info ∈ infos /\ resolves instance public_key port version mode info /\ V4 ip ∈ info_addresses info) /\
    forall d', d' ∈ discover infos -> ld_public_key d' = Some public_key -> d' = d.
Proof.
  set (said := contributions infos public_key).
  assert (forall acc, acc ∈ said -> exists info, info ∈ infos /\ resolves instance public_key port version mode info /\
    acc = {| acc_name := Some instance; acc_port := port; acc_public_key := Some public_key;
             acc_protocol_version := Some version;
             acc_physical_console := bool_decide (mode = Some "physical-console"%string);
             acc_addresses := info_addresses info |}) as Hsaid.
  { intros acc (info & Hin & Hacc & Hk)%elem_of_contributions. exists info. split; [done|].
    destruct (Hothers info Hin) as [Hr|Ho]; [|by destruct (contributions_one_nil _ _ _ Ho Hacc)].
    split; [done|]. by eapply resolves_accumulates. }
  destruct Hroutable as (info & a & Hin & Hr & Ha & Hrank).
  assert (exists acc, from_info info = Some acc) as (acc & Hacc) by (unfold from_info; destruct (info_addresses info); [set_solver|by eexists]).
  pose proof (resolves_accumulates _ _ _ _ _ _ _ Hversion Hr Hacc) as Eacc.
  assert (acc ∈ said) as Hacc_in.
  { apply elem_of_contributions. exists info. split; [done|]. split; [done|]. by rewrite Eacc. }
  assert (said <> []) as Hne by (intros E; rewrite E in Hacc_in; by apply elem_of_nil in Hacc_in).
  assert (a ∈ said ≫= acc_addresses) as Ha_in.
  { apply list_elem_of_bind. exists acc. split; [by rewrite Eacc|done]. }
  pose proof (device_of_address said) as Hdev. destruct (device_of said) as [d|] eqn:Ed; [|specialize (Hdev a Ha_in); lia].
  destruct Hdev as (b & Hb & Haddr & _ & Hbest).
  assert (addr_rank b = 0%N) as Hbrank by (specialize (Hbest a Ha_in); apply better_spec in Hbest as [?|[? _]]; lia).
  destruct b as [ip|ip]; [|exfalso; unfold addr_rank in Hbrank; by repeat case_match].
  assert (exists info, info ∈ infos /\ resolves instance public_key port version mode info /\ V4 ip ∈ info_addresses info) as Hown.
  { apply list_elem_of_bind in Hb as (acc' & Hb & Hin'). destruct (Hsaid _ Hin') as (info' & ? & ? & ->). by exists info'. }
  assert (d = {| ld_name := instance; ld_address := ip_to_string (V4 ip); ld_port := port; ld_public_key := Some public_key;
           ld_protocol_version := Some version;
           ld_physical_console := bool_decide (mode = Some "physical-console"%string) |}) as Hd.
  { clear Hb Hbest. revert Ed. unfold device_of. destruct (best_address _) as [b|]; [|done]. cbn [mbind option_bind].
    destruct (4 <=? addr_rank b)%N; [done|].
    rewrite (last_said_const acc_name said (Some instance)), (last_said_const acc_public_key said (Some public_key)),
      (last_said_const acc_protocol_version said (Some version)),
      (last_said_const _ said (if (port =? 0)%N then None else Some port)),
      (existsb_const _ said (bool_decide (mode = Some "physical-console"%string)));
      try done; try by (intros x (i & _ & _ & ->)%Hsaid).
    intros [= <-]. cbn [ld_address] in Haddr. rewrite Haddr. cbn [default]. f_equal.
    by destruct (N.eqb_spec port 0) as [->|]. }
  exists d, ip. split; [apply elem_of_discover; by exists public_key|]. split; [done|]. split; [|split; [done|split; [done|]]].
  - rewrite Hd. unfold socket_addr. cbn [ld_address ld_port].
    destruct Hown as (i & Hi & _ & Hip). rewrite parse_printed_v4 by (by eapply Hips). done.
  - intros d' (k & Hk)%elem_of_discover Hpk. pose proof (device_key _ _ _ _ Hk Hpk) as <-. fold said in Hk. congruence.
Qed.
Definition txt_service (name : string) (port : N) (addresses : list IpAddr) (props : list (string * string)) : ServiceInfo :=
  {| fullname := name; info_port := port; info_addresses := addresses; property := txt props |}.
(** One host over Ethernet and Wi-Fi, and another host in between. *)
Definition two_interfaces : list ServiceInfo :=
  [txt_service "desk._rivetlink._tcp.local." 47823 [V6 0xfe800000000000000000000000000001; V4 3232235796]
     (advertised "desk" "KEY" 3 None);
   txt_service "gdm._rivetlink._tcp.local." 47823 [V4 2130706433] (advertised "gdm" "OTHER" 3 (Some "physical-console"%string));
   txt_service "desk (2)._rivetlink._tcp.local." 47823 [V4 3232235777] (advertised "desk" "KEY" 3 None)].
Example discovered : map (fun d => (ld_name d, ld_address d, ld_public_key d)) (discover two_interfaces) =
  [("desk", "192.168.1.1", Some "KEY")]%string.
Proof. vm_compute. reflexivity. Qed.
(** Two names of one identity are one device. *)
Lemma one_device_per_identity : length (discover two_interfaces) = 1 /\ length (remove_dups (map fullname two_interfaces)) = 3.
Proof. by vm_compute. Qed.
Lemma advertised_host_is_found_witness :
  exists d ip,
    d ∈ discover two_interfaces /\
    d = {| ld_name := "desk"; ld_address := ip_to_string (V4 ip); ld_port := 47823; ld_public_key := Some "KEY"%string;
           ld_protocol_version := Some 3%N; ld_physical_console := false |} /\
    socket_addr d = Ok {| ip := V4 ip; port := 47823 |} /\
    addr_rank (V4 ip) = 0%N /\
    (exists info, info ∈ two_interfaces /\ resolves "desk" "KEY" 47823 3 None info /\ V4 ip ∈ info_addresses info) /\
    forall d', d' ∈ discover two_interfaces -> ld_public_key d' = Some "KEY"%string -> d' = d.
Proof.
  apply (advertised_host_is_found "desk" "KEY" 47823 3 None two_interfaces).
  - done.
  - intros info Hin. unfold two_interfaces in Hin. repeat (apply elem_of_cons in Hin as [->|Hin]).
    + left. by split.
    + right. reflexivity.
    + left. by split.
    + by apply elem_of_nil in Hin.
  - intros info a Hin Ha. unfold two_interfaces in Hin. repeat (apply elem_of_cons in Hin as [->|Hin]); [..|by apply elem_of_nil in Hin];
      cbn [txt_service info_addresses] in Ha; repeat (apply elem_of_cons in Ha as [[= ?]|Ha]); try (by apply elem_of_nil in Ha);
      subst; done.
  - exists (txt_service "desk._rivetlink._tcp.local." 47823 [V6 0xfe800000000000000000000000000001; V4 3232235796]
     (advertised "desk" "KEY" 3 None)), (V4 3232235796). split; [by left|]. split; [by split|]. split; [|done]. right. by left.
Defined.

(** ** The hostname label *)

Definition label_byte (x : byte) : bool := between 97 122 x || between 48 57 x || Byte.eqb x hyphen.
Lemma lowered_label x : is_alphanumeric x || Byte.eqb x hyphen = true -> label_byte (ascii_lower x) = true.
Proof. destruct x; vm_compute; done. Qed.
Lemma lowered_hyphen x : ascii_lower x = hyphen -> x = hyphen.
Proof. destruct x; vm_compute; done. Qed.
Lemma drop_hyphens_suffix b : exists p, b = p ++ drop_hyphens b /\ head (drop_hyphens b) <> Some hyphen.
Proof.
  induction b as [|x b IH]; simpl; [by exists []|]. destruct (Byte.eqb x hyphen) eqn:E.
  - destruct IH as (p & Hp & H). exists (x :: p). split; [simpl; congruence|done].
  - exists []. split; [done|]. intros [= ->]. by rewrite Byte.byte_dec_lb in E.
Qed.
(** What is registered as a hostname is a label of lower-case letters, digits
    and hyphens, without a hyphen at either end. *)
Lemma sanitize_hostname_label name :
  let label := as_bytes (sanitize_hostname name) in
  label <> [] /\ Forall (fun x => label_byte x = true) label /\ head label <> Some hyphen /\ last label <> Some hyphen.
Proof.
  cbv zeta. unfold sanitize_hostname.
  set (cleaned := map (fun x => if is_alphanumeric x then x else hyphen) (base.filter (fun x => continues x = false) (as_bytes name))).
  assert (Forall (fun x => is_alphanumeric x || Byte.eqb x hyphen = true) cleaned) as Hc.
  { apply list.Forall_fmap, list.Forall_forall. intros x _. simpl. destruct (is_alphanumeric x) eqn:E; [by rewrite E|done]. }
  destruct (drop_hyphens_suffix cleaned) as (p & Ep & Hm). set (m := drop_hyphens cleaned) in *.
  destruct (drop_hyphens_suffix (rev m)) as (q & Eq & Hr). set (r := drop_hyphens (rev m)) in *.
  assert (m = rev r ++ rev q) as Em by (rewrite <-rev_app_distr, <-Eq; symmetry; apply rev_involutive).
  assert (Forall (fun x => is_alphanumeric x || Byte.eqb x hyphen = true) (rev r)) as Ht.
  { rewrite Ep, Em in Hc. apply list.Forall_app in Hc as [_ Hc]. by apply list.Forall_app in Hc as [Hc _]. }
  clearbody m r. destruct (rev r) as [|x t] eqn:Er; [by vm_compute; repeat split; try done; repeat constructor|].
  rewrite as_bytes_from_utf8. split; [done|]. split; [|split].
  - apply list.Forall_fmap. eapply list.Forall_impl; [done|]. intros y. apply lowered_label.
  - cbn [map head]. intros [= E%lowered_hyphen]. subst m x. done.
  - change (map ascii_lower (x :: t)) with (ascii_lower <$> (x :: t)). rewrite fmap_last, <-Er.
    destruct r as [|y r']; [done|]. simpl rev. rewrite last_snoc. simpl. intros [= E%lowered_hyphen]. subst y. done.
Qed.
(** Its length is that of the name: a name of 64 letters is no DNS label, which
    has 63 bytes at most. *)
Lemma sanitize_hostname_unbounded :
  slen (sanitize_hostname (from_utf8 (repeat Byte.x61 64))) = 64%N.
Proof. vm_compute. reflexivity. Qed.
