(* ===== verification/Rest.v ===== *)
(** * The client facade and the REST calls

    rivetlink-sdk/src/rest.rs and client.rs, and rivetlink-agent/src/registration.rs.
    [reqwest] is a parameter: how it reads a URL, and what each request meets.
    Every function also gives the requests it sent. *)
From Stdlib Require Import NArith Lia Strings.String Strings.Byte.
From S2P Require Import Prelude Text Interfaces Instances Protocol Sealed Handshake Trusted Host ClientSession Direct Pins P2p Tunnel.
From S2P Require Import KeyStore AgentConfig.

(** [reqwest::Url]. *)
Class Urls := {
  Url : Type;
  url_parse : string -> Result Url string;
  url_scheme : Url -> string;
  url_query : Url -> option string;
  url_fragment : Url -> option string;
  url_path : Url -> string;
  set_path : string -> Url -> Url;
}.
(** Setting the path changes nothing else. *)
Class UrlsLaws `{Urls} : Prop := {
  set_path_scheme : forall p u, url_scheme (set_path p u) = url_scheme u;
  set_path_query : forall p u, url_query (set_path p u) = url_query u;
  set_path_fragment : forall p u, url_fragment (set_path p u) = url_fragment u;
}.
(** [uuid::Uuid::parse_str]. *)
Class UuidParse := { parse_uuid : string -> Result Uuid string }.

(** [str::trim_end_matches] of one byte. *)
Fixpoint strip_leading (c : byte) (b : bytes) : bytes :=
  match b with x :: r => if Byte.eqb x c then strip_leading c r else b | [] => [] end.
Definition trim_end_matches (c : byte) (s : string) : string := from_utf8 (rev (strip_leading c (rev (as_bytes s)))).

Record Device := {
  dv_id : string;
  dv_hostname : option string;
  dv_platform : option string;
  dv_last_seen : option string;
  dv_online : bool;
  dv_public_key : string;
}.
(** An error of [reqwest], with the status it names, when it names one. *)
Record HttpError := { status : option string; detail : string }.
Inductive Method := Get | Post.
Record HttpRequest `{Urls} := { method : Method; url : Url; bearer : option string; payload_json : option Json }.

Section Rest.
Context `{Urls} `{JsonField} `{!Serde (list Device)}.
(** Building the client, and the text of the answer to a request. *)
Record Http := { builds : Result unit HttpError; answers : HttpRequest -> Result string HttpError }.

Definition http_error (e : HttpError) : Sdk.SdkError :=
  match status e with
  | Some s => Sdk.Http ("relay request failed: " ++ s)
  | None => Sdk.Http ("relay TLS request failed: " ++ detail e)
  end.
(** What [reqwest] says of a body that is not what was asked for. *)
Definition body_error (e : string) : HttpError := {| status := None; detail := e |}.
Definition http_client (h : Http) : Result unit Sdk.SdkError := map_err http_error (builds h).
Definition endpoint (base_url path : string) : Result Url Sdk.SdkError :=
  let? base := map_err (fun e => Sdk.Config ("invalid relay HTTP URL: " ++ e)) (url_parse base_url) in
  if negb (url_scheme base =? "https")%string
  then Err (Sdk.Config "relay_http_url must use https://; plaintext relay HTTP is unsafe")
  else if bool_decide (is_Some (url_query base)) || bool_decide (is_Some (url_fragment base))
  then Err (Sdk.Config "relay_http_url must not contain a query or fragment")
  else Ok (set_path (trim_end_matches Byte.x2f (url_path base) ++ path) base).
(** One request; [read] is what becomes of the text of the answer. *)
Definition call {A} (h : Http) (m : Method) (base_url path : string) (token : option string) (body : option Json)
    (read : string -> Result A Sdk.SdkError) : list HttpRequest * Result A Sdk.SdkError :=
  match (let? _ := http_client h in endpoint base_url path) with
  | Err e => ([], Err e)
  | Ok u =>
      let request := {| method := m; url := u; bearer := token; payload_json := body |} in
      ([request], let? text := map_err http_error (answers h request) in read text)
  end.

(** A string field of the answer, or the error for one without it. *)
Definition string_field (field : string) (missing : Sdk.SdkError) (text : string) : Result string Sdk.SdkError :=
  let? v := map_err (fun e => http_error (body_error e)) (json_field text field) in ok_or v missing.
Definition rest_login (h : Http) (base_url email password : string) : list HttpRequest * Result string Sdk.SdkError :=
  call h Post base_url "/auth/login" None
    (Some (JObject [("email"%string, JString email); ("password"%string, JString password)]))
    (string_field "access_token" (Sdk.Auth "login response missing access_token")).
Definition list_devices (h : Http) (base_url token : string) : list HttpRequest * Result (list Device) Sdk.SdkError :=
  call h Get base_url "/devices" (Some token) None
    (fun text => map_err (fun e => http_error (body_error e)) (from_json text)).
Definition device_id_from_response : string -> Result string Sdk.SdkError :=
  string_field "id" (Sdk.Http "device registration response missing id").
Definition register_device (h : Http) (base_url token public_key hostname : string) (platform : option string)
  : list HttpRequest * Result string Sdk.SdkError :=
  call h Post base_url "/devices/register" (Some token)
    (Some (JObject [("public_key"%string, JString public_key); ("hostname"%string, JString hostname);
                    ("platform"%string, match platform with Some p => JString p | None => JNull end)]))
    device_id_from_response.

(** ** Registering a host *)

Definition Sdk_display (e : Sdk.SdkError) : string := ConsoleLan.SdkError_display e.
Context `{UuidParse} `{Base64}.
Definition agent_register_device (h : Http) (base_url token : string) (public_key : bytes) (device_name : string)
    (platform : option string) : list HttpRequest * Result Uuid AgentError :=
  let '(sent, id) := register_device h base_url token (b64_encode public_key) device_name platform in
  (sent,
   let? id := map_err (fun e => Relay ("secure device registration failed: " ++ Sdk_display e)) id in
   map_err (fun e => Relay ("relay returned invalid device id: " ++ e)) (parse_uuid id)).
End Rest.

(** ** The facade *)

Section Facade.
Context `{Urls} `{JsonField} `{!Serde (list Device)} `{UuidParse} `{Base64} `{SecretBytes}.
Context `{!Serde StoredIdentity} `{!SerdePretty StoredIdentity} `{!Serde ClientConfig}.

Record RivetClient := { config : ClientConfig; identity : SigningKey; client_token : option string }.
Definition client_new (env : FileEnv) (seed : bytes) (cfg : ClientConfig) (d : Disk)
  : Disk * Result RivetClient Sdk.SdkError :=
  match validate_client cfg with
  | Err e => (d, Err e)
  | Ok _ =>
      let '(d, id) := load_or_create env seed (identity_path cfg) d in
      (d, let? id := id in Ok {| config := cfg; identity := id; client_token := None |})
  end.
Definition from_config_file (cfg_env env : FileEnv) (seed : bytes) (path : string) (d : Disk)
  : Disk * Result RivetClient Sdk.SdkError :=
  match load_client_config cfg_env path d with
  | Err e => (d, Err e)
  | Ok cfg => client_new env seed cfg d
  end.
Definition rivet_public_key (c : RivetClient) : string := b64_encode (verifying_key (identity c)).
Definition is_authenticated (c : RivetClient) : bool := bool_decide (is_Some (client_token c)).
Definition token_of (c : RivetClient) : Result string Sdk.SdkError := ok_or (client_token c) Sdk.NotAuthenticated.

Definition client_login (h : Http) (email password : string) (c : RivetClient)
  : list HttpRequest * RivetClient * Result unit Sdk.SdkError :=
  match rest_login h (client_http_url (config c)) email password with
  | (sent, Ok t) => (sent, {| config := config c; identity := identity c; client_token := Some t |}, Ok tt)
  | (sent, Err e) => (sent, c, Err e)
  end.
Definition client_list_devices (h : Http) (c : RivetClient) : list HttpRequest * Result (list Device) Sdk.SdkError :=
  match token_of c with
  | Err e => ([], Err e)
  | Ok t => list_devices h (client_http_url (config c)) t
  end.
Definition client_register_device (h : Http) (public_key hostname : string) (platform : option string) (c : RivetClient)
  : list HttpRequest * Result string Sdk.SdkError :=
  match token_of c with
  | Err e => ([], Err e)
  | Ok t => register_device h (client_http_url (config c)) t public_key hostname platform
  end.
Definition find_device (h : Http) (device_id : string) (c : RivetClient) : list HttpRequest * Result Device Sdk.SdkError :=
  let '(sent, ds) := client_list_devices h c in
  (sent,
   let? ds := ds in
   ok_or (snd <$> list_find (fun d => dv_id d = device_id) ds)
     (Sdk.Config ("device " ++ device_id ++ " not found in your org"))).

(** What a capture and a tunnel are opened with; [input] is the event sent
    before the capture, which asks for the console. *)
Definition capture_params (device : Device) (input : option ConsoleInputPacket) (c : RivetClient)
  : Result CaptureParams Sdk.SdkError :=
  let? device_id := map_err (fun e => Sdk.Config ("invalid device id: " ++ e)) (parse_uuid (dv_id device)) in
  let? t := token_of c in
  Ok {| ClientSession.relay_ws_url := client_ws_url (config c); ClientSession.token := t;
        ClientSession.identity := identity c;
        ClientSession.device_id := device_id; host_public_key_b64 := dv_public_key device;
        ClientSession.requested_capability := match input with Some _ => ConsoleControl | None => Screenshot end;
        console_input := input |}.
Definition tunnel_params (device : Device) (c : RivetClient) : Result TunnelParams Sdk.SdkError :=
  let? device_id := map_err (fun e => Sdk.Config ("invalid device id: " ++ e)) (parse_uuid (dv_id device)) in
  let? t := token_of c in
  Ok {| relay_ws_url := client_ws_url (config c); token := t; tp_device_id := device_id;
        client_public_key := rivet_public_key c; requested_capability := ConsoleControl |}.

(** The session a capture opens, over what the relay delivers; the path it is
    written to is the caller's. *)
Section Sessions.
Context `{X25519} `{Hash} `{Aead} `{UuidText} `{JsonText} `{JsonType} `{!Serde SignalPacket} `{!Serde ConsoleInputPacket}.
Definition open_capture (params : Result CaptureParams Sdk.SdkError) (connect : Result unit string) (secret : EphemeralSecret)
    (write : Result unit io.Error) (link : list (option string)) (frames : list WsFrame) : ClientState * ClientOutcome :=
  match params with
  | Err e => (client_start link, Failed e)
  | Ok p => capture_screenshot p connect secret write link frames
  end.
Definition capture_screenshot_outcome (device : Device) (c : RivetClient)
    : Result unit string -> EphemeralSecret -> Result unit io.Error -> list (option string) -> list WsFrame ->
      ClientState * ClientOutcome :=
  open_capture (capture_params device None c).
Definition console_input_and_capture_outcome (device : Device) (event : ConsoleInputPacket) (c : RivetClient)
    : Result unit string -> EphemeralSecret -> Result unit io.Error -> list (option string) -> list WsFrame ->
      ClientState * ClientOutcome :=
  open_capture (capture_params device (Some event) c).
Definition connect_tunnel (show_value : string -> string) (device : Device) (env : OpenEnv)
    (attempt : string -> option (Result (SocketAddr * bytes) Sdk.SdkError))
    (direct : option (Result SealedChannel Sdk.SdkError)) (relayed : Result SealedChannel Sdk.SdkError) (p : Pins) (c : RivetClient)
  : Pins * Result (SealedChannel * Transport) Sdk.SdkError :=
  match tunnel_params device c with
  | Err e => (p, Err e)
  | Ok params => connect_best show_value params env attempt (dv_public_key device) direct relayed p
  end.
End Sessions.
End Facade.

(** ** Requests at concrete inputs *)

Record ToyUrl := { u_scheme : string; u_query : option string; u_fragment : option string; u_path : string }.
(** What comes before the first colon is the scheme, and the rest the path. *)
#[export] Instance toy_urls : Urls := {
  Url := ToyUrl;
  url_parse s := match split_once Byte.x3a s with
                 | Some (scheme, rest) => Ok {| u_scheme := scheme; u_query := None; u_fragment := None; u_path := rest |}
                 | None => Err "relative URL without a base"%string
                 end;
  url_scheme := u_scheme;
  url_query := u_query;
  url_fragment := u_fragment;
  url_path := u_path;
  set_path p u := {| u_scheme := u_scheme u; u_query := u_query u; u_fragment := u_fragment u; u_path := p |};
}.
#[export] Instance toy_urls_laws : UrlsLaws.
Proof. by split. Qed.
#[export] Instance toy_uuid_parse : UuidParse := { parse_uuid s := ok_or (FlatJson.read_uuid s) "invalid length"%string }.
(** A text is its own fields. *)
#[export] Instance toy_json_field : JsonField := {
  json_field text field :=
    if str_contains field text then Ok (Some (from_utf8 (drop (length (as_bytes field) + 1) (as_bytes text)))) else Ok None;
}.

(** ** Credentials stay on TLS *)

Section Credentials.
Context `{UrlsLaws} `{JsonField} `{!Serde (list Device)} `{UuidParse} `{Base64} `{SecretBytes}.
Context `{!Serde StoredIdentity} `{!SerdePretty StoredIdentity}.

Inductive RestOp :=
| DoLogin (email password : string)
| DoList
| DoRegister (public_key hostname : string) (platform : option string)
| DoFind (device_id : string).
Definition run_rest (op : Http * RestOp) (c : RivetClient) : list HttpRequest * RivetClient :=
  match op.2 with
  | DoLogin email password => (client_login op.1 email password c).1
  | DoList => ((client_list_devices op.1 c).1, c)
  | DoRegister key hostname platform => ((client_register_device op.1 key hostname platform c).1, c)
  | DoFind id => ((find_device op.1 id c).1, c)
  end.
(** Every request with its answer, in order. *)
Fixpoint run_rests (ops : list (Http * RestOp)) (c : RivetClient) : list (HttpRequest * Result string HttpError) :=
  match ops with
  | [] => []
  | op :: ops =>
      let '(sent, c) := run_rest op c in map (fun r => (r, answers op.1 r)) sent ++ run_rests ops c
  end.

Definition over_tls (r : HttpRequest) : Prop :=
  url_scheme (url r) = "https"%string /\ url_query (url r) = None /\ url_fragment (url r) = None.
Lemma endpoint_tls base path u : endpoint base path = Ok u ->
  url_scheme u = "https"%string /\ url_query u = None /\ url_fragment u = None.
Proof.
  unfold endpoint. destruct (url_parse base) as [b|]; cbn [map_err]; [|done].
  destruct (String.eqb_spec (url_scheme b) "https") as [E|]; cbn [negb]; [|done].
  destruct (url_query b) eqn:Q, (url_fragment b) eqn:F; try done.
  cbn. intros [= <-]. by rewrite set_path_scheme, set_path_query, set_path_fragment.
Qed.
(** A call sends nothing, or the one request it was asked for. *)
Lemma call_sends {A} h m base path token body (read : string -> Result A Sdk.SdkError) :
  let '(sent, r) := call h m base path token body read in
  (sent = [] /\ is_ok r = false) \/
  exists q, sent = [q] /\ over_tls q /\ bearer q = token /\ payload_json q = body /\
    (forall a, r = Ok a -> exists text, answers h q = Ok text /\ read text = Ok a).
Proof.
  unfold call. destruct (http_client h); [|by left]. destruct (endpoint base path) as [u|] eqn:E; [|by left].
  right. eexists. split; [done|]. split; [by eapply endpoint_tls|]. split; [done|]. split; [done|]. cbn.
  intros v. destruct (answers _ _) as [text|]; cbn [map_err]; [|done]. eauto.
Qed.
Lemma string_field_ok field missing text v : string_field field missing text = Ok v -> json_field text field = Ok (Some v).
Proof. unfold string_field. by destruct (json_field text field) as [[v'|]|]; cbn; [intros [= ->]|..]. Qed.

(** A token a login brought. *)
Definition issued (trace : list (HttpRequest * Result string HttpError)) (t : string) : Prop :=
  exists r text, (r, Ok text) ∈ trace /\ bearer r = None /\ json_field text "access_token" = Ok (Some t).
Definition accounted (before : list (HttpRequest * Result string HttpError)) (r : HttpRequest) : Prop :=
  over_tls r /\ match bearer r with
                | None => exists email password, payload_json r =
                    Some (JObject [("email"%string, JString email); ("password"%string, JString password)])
                | Some t => issued before t
                end.
Lemma run_rest_ok before op c : (forall t, client_token c = Some t -> issued before t) ->
  let '(sent, c') := run_rest op c in
  Forall (accounted before) sent /\ length sent <= 1 /\ config c' = config c /\
  forall t, client_token c' = Some t -> issued (before ++ map (fun r => (r, answers op.1 r)) sent) t.
Proof.
  intros I.
  assert (forall sent, forall t, client_token c = Some t -> issued (before ++ map (fun r => (r, answers op.1 r)) sent) t) as I'.
  { intros sent t (r & text & Hr & P)%I. exists r, text. split; [|done]. apply elem_of_app. by left. }
  assert (forall {A} m path body (read : string -> Result A Sdk.SdkError) t, client_token c = Some t ->
    Forall (accounted before) (call op.1 m (client_http_url (config c)) path (Some t) body read).1 /\
    length (call op.1 m (client_http_url (config c)) path (Some t) body read).1 <= 1) as Tok.
  { intros A m path body read t Ht. pose proof (call_sends op.1 m (client_http_url (config c)) path (Some t) body read) as C.
    destruct (call _ _ _ _ _ _ _) as [sent r]. destruct C as [[-> _]|(q & -> & T & B & _)]; cbn [fst]; [by split; [|cbn; lia]|].
    split; [|cbn; lia]. apply Forall_singleton. split; [done|]. rewrite B. auto. }
  unfold run_rest. destruct op as [h [email password| |key hostname platform|id]]; cbn [fst snd] in *.
  - unfold client_login, rest_login.
    pose proof (call_sends h Post (client_http_url (config c)) "/auth/login" None
      (Some (JObject [("email"%string, JString email); ("password"%string, JString password)]))
      (string_field "access_token" (Sdk.Auth "login response missing access_token"))) as C.
    destruct (call _ _ _ _ _ _ _) as [sent r]. destruct C as [[-> Hr]|(q & -> & T & B & P & K)].
    + destruct r; [done|]. cbn [fst]. split_and!; try done; [cbn; lia|]. apply I'.
    + assert (Forall (accounted before) [q]) as F
        by (apply Forall_singleton; split; [done|]; rewrite B; by eexists _, _).
      destruct r as [t|e]; cbn [fst]; split_and!; try done; cbn [client_token]; [|apply I'].
      intros t' [= <-]. destruct (K t eq_refl) as (text & Ha & Ht%string_field_ok). exists q, text.
      split; [|done]. apply elem_of_app. right. cbn. rewrite Ha. by left.
  - unfold client_list_devices, token_of. destruct (client_token c) as [t|] eqn:Et; cbn [ok_or].
    + destruct (Tok (list Device) Get "/devices"%string None
        (fun text => map_err (fun e => http_error (body_error e)) (from_json text)) t eq_refl) as [T1 T2]. unfold list_devices. split_and!; [exact T1|exact T2|done|apply I'].
    + split_and!; [constructor|cbn; lia|done|apply I'].
  - unfold client_register_device, token_of. destruct (client_token c) as [t|] eqn:Et; cbn [ok_or].
    + pose proof (fun body => Tok string Post "/devices/register"%string body device_id_from_response t eq_refl) as T.
      split_and!; [apply T|apply T|done|apply I'].
    + split_and!; [constructor|cbn; lia|done|apply I'].
  - unfold find_device, client_list_devices, token_of. destruct (client_token c) as [t|] eqn:Et; cbn [ok_or].
    + destruct (Tok (list Device) Get "/devices"%string None
        (fun text => map_err (fun e => http_error (body_error e)) (from_json text)) t eq_refl) as [T1 T2]. unfold list_devices in *.
      destruct (call h _ _ _ _ _ _) as [sent ds]. split_and!; [exact T1|exact T2|done|apply I'].
    + split_and!; [constructor|cbn; lia|done|apply I'].
Qed.

(** C35. Credentials travel over TLS only. Of all the requests of a client, in
    whatever order it is used and whatever the answers are, every one goes to
    an https address without query or fragment; a login carries no token, and
    any other request carries the token that an earlier login of this client
    was answered with. *)
Theorem credentials_stay_on_tls env seed cfg d d' c ops : client_new env seed cfg d = (d', Ok c) ->
  forall before r answer after, run_rests ops c = before ++ (r, answer) :: after -> accounted before r.
Proof.
  intros N. assert (forall t, client_token c = Some t -> issued [] t) as I.
  { unfold client_new in N. destruct (validate_client cfg); [|done]. destruct (load_or_create _ _ _ _) as [d1 [id|]]; [|done].
    by injection N as _ <-. }
  clear N d d'. intros before r answer after E.
  enough (forall before0, (forall t, client_token c = Some t -> issued before0 t) -> accounted (before0 ++ before) r) as G
    by (apply (G [] I)).
  clear I. revert c before E. induction ops as [|op ops IH]; intros c before E before0 I; [by destruct before|].
  cbn [run_rests] in E. pose proof (run_rest_ok before0 op c I) as R. destruct (run_rest op c) as [sent c1].
  destruct R as (F & L & _ & I1). destruct sent as [|q [|q' sent]]; [| |cbn in L; lia].
  - cbn [map app] in E, I1. rewrite app_nil_r in I1. by eapply IH.
  - cbn [map app] in E. destruct before as [|x before].
    + injection E as <- _ _. rewrite app_nil_r. by inversion F.
    + injection E as <- E. rewrite cons_middle, app_assoc. by eapply IH.
Qed.
End Credentials.

(** A client that logs in and lists its devices, against a relay that accepts. *)
Definition example_client : ClientConfig :=
  {| client_ws_url := "wss://relay.test/ws"; client_http_url := "https://relay.test"; identity_path := "id.json" |}.
#[export] Instance StoredIdentity_eq_dec : EqDecision StoredIdentity.
Proof. solve_decision. Defined.
#[export] Instance StoredIdentity_countable : Countable StoredIdentity.
Proof.
  refine (inj_countable' identity_secret_b64 (fun s => {| identity_secret_b64 := s |}) _). by intros [].
Defined.
Definition no_devices : Serde (list Device) := {| to_json _ := Err ""%string; from_json s := if (s =? "[]")%string then Ok [] else Err "expected value"%string |}.
Definition accepting : Http (H := toy_urls) :=
  {| builds := Ok tt;
     answers r := match bearer r with None => Ok "access_token:t1"%string | Some _ => Ok "[]"%string end |}.
Definition example_start : Disk * Result RivetClient Sdk.SdkError :=
  @client_new toy_base64 toy_ed25519 toy_secret_bytes (braced_serde StoredIdentity) (braced_pretty StoredIdentity)
    quiet (be_bytes 32 5) example_client ∅.
Definition example_state : @RivetClient toy_ed25519 :=
  {| config := example_client; identity := 5%N : @SigningKey toy_ed25519; client_token := None |}.
Lemma credentials_stay_on_tls_witness :
  ok example_start.2 = Some example_state /\
  let trace := run_rests (Serde0 := no_devices) (H := toy_urls) [(accepting, DoList); (accepting, DoLogin "a@b.c" "pw"); (accepting, DoList)]
    example_state in
  map (fun x => bearer x.1) trace = [None; Some "t1"%string] /\
  forall before r answer after, trace = before ++ (r, answer) :: after -> accounted before r.
Proof.
  assert (ok example_start.2 = Some example_state) as E by (vm_cast_no_check (eq_refl (Some example_state))).
  split; [exact E|]. split; [vm_compute; reflexivity|]. intros before r answer after.
  assert (example_start = (example_start.1, Ok example_state)) as S.
  { destruct example_start as [d r']. cbn in *. destruct r' as [c|]; [|discriminate E]. injection E as ->. reflexivity. }
  refine (credentials_stay_on_tls (H := toy_urls) (Serde0 := no_devices) (Serde1 := braced_serde StoredIdentity)
    (SerdePretty0 := braced_pretty StoredIdentity) quiet (be_bytes 32 5) example_client ∅ example_start.1 _ _ S before r answer after).
Defined.
(** A relay that refuses a login answers with a JSON error: the client reports
    an answer without a token, and a refused listing as a failure of TLS. *)
Lemma refusal_reads_as_tls_failure :
  let refusing : Http (H := toy_urls) := {| builds := Ok tt; answers _ := Ok "error: unauthorized"%string |} in
  (rest_login refusing "https://relay.test" "a@b.c" "wrong").2 = Err (Sdk.Auth "login response missing access_token") /\
  (list_devices (Serde0 := no_devices) refusing "https://relay.test" "expired").2 =
    Err (Sdk.Http "relay TLS request failed: expected value").
Proof. split; reflexivity. Qed.
