(* ===== verification/ClientCli.v ===== *)
(** * The support client

    rivetlink-client: the commands of rivet-client (cli.rs, main.rs) on top of
    the SDK of [Rest] and [ClientSession]. What is printed and which file is
    opened in the viewer are outputs; the network is a parameter. *)
From Stdlib Require Import NArith Lia Strings.String Strings.Byte.
From S2P Require Import Prelude Text Interfaces Instances Protocol Trusted ClientSession KeyStore Tunnel AgentConfig Rest.

(** ** Printing *)

(** Characters of a text: bytes that do not continue one. *)
Definition char_count (s : string) : nat :=
  length (List.filter (fun x => negb ((128 <=? Byte.to_N x) && (Byte.to_N x <? 192))%N) (as_bytes s)).
(** [{:<n}] pads with spaces on the right. *)
Definition pad (n : nat) (s : string) : string := s ++ from_utf8 (replicate (n - char_count s) Byte.x20).
Definition device_line (id hostname platform last : string) : string :=
  pad 38 id ++ "  " ++ pad 20 hostname ++ "  " ++ pad 10 platform ++ "  " ++ last.

(** ** Commands *)

Inductive ClientCommand :=
| InitClient (relay_ws_url relay_http_url identity_path : string)
| Whoami
| Devices (email password : string)
| View (email password device out : string) (no_open : bool).
(** [init] without options. *)
Definition default_init : ClientCommand :=
  InitClient "ws://127.0.0.1:8080/ws" "http://127.0.0.1:8080" "client_identity.json".

Section Commands.
Context `{Urls} `{JsonField} `{!Serde (list Device)} `{Base64} `{SecretBytes}.
Context `{!Serde StoredIdentity} `{!SerdePretty StoredIdentity} `{!Serde ClientConfig} `{!SerdePretty ClientConfig}.

(** What one run of the program meets: reading and writing the configuration
    and the identity, a seed, the network, and the outcome of
    [capture_screenshot]: the picture it wrote, or its error. *)
Record ClientEnv := {
  config_io : FileEnv;
  directory : Result unit string;
  identity_io : FileEnv;
  seed : bytes;
  network : Http;
  capture : Device -> RivetClient -> Result bytes Sdk.SdkError;
}.
(** The files after it, the requests, the lines printed and the picture opened. *)
Record Ran := {
  files : Disk;
  requests : list HttpRequest;
  printed : list string;
  opened : option string;
  ended : Result unit Sdk.SdkError;
}.
Definition ran (d : Disk) (sent : list HttpRequest) (lines : list string) (r : Result unit Sdk.SdkError) : Ran :=
  {| files := d; requests := sent; printed := lines; opened := None; ended := r |}.

Definition init_lines (config_path key : string) (c : ClientConfig) : list string :=
  ["Client initialized.";
   "  config:        " ++ config_path;
   "  relay ws:      " ++ client_ws_url c;
   "  relay http:    " ++ client_http_url c;
   "  identity:      " ++ identity_path c;
   "  public key:    " ++ key;
   "";
   "Give the public key above to the host operator if they want to";
   "pre-trust this client (otherwise the host will prompt on first connect)."]%string.
Definition init_client (env : ClientEnv) (config_path : string) (cfg : ClientConfig) (d : Disk) : Ran :=
  match validate_client cfg with
  | Err e => ran d [] [] (Err e)
  | Ok _ =>
      match save_client_config (config_io env) (directory env) cfg config_path d with
      | (d, Err e) => ran d [] [] (Err e)
      | (d, Ok _) =>
          match client_new (identity_io env) (seed env) cfg d with
          | (d, Err e) => ran d [] [] (Err e)
          | (d, Ok client) => ran d [] (init_lines config_path (rivet_public_key client) cfg) (Ok tt)
          end
      end
  end.
Definition whoami (env : ClientEnv) (config_path : string) (d : Disk) : Ran :=
  match load_client_config (config_io env) config_path d with
  | Err e => ran d [] [] (Err e)
  | Ok cfg =>
      match load_or_create (identity_io env) (seed env) (identity_path cfg) d with
      | (d, Err e) => ran d [] [] (Err e)
      | (d, Ok id) => ran d [] [b64_encode (verifying_key id)] (Ok tt)
      end
  end.
(** The start that [devices] and [view] share: a client that is logged in. *)
Definition logged_in (env : ClientEnv) (config_path email password : string) (d : Disk)
    (k : Disk -> list HttpRequest -> RivetClient -> Ran) : Ran :=
  match from_config_file (config_io env) (identity_io env) (seed env) config_path d with
  | (d, Err e) => ran d [] [] (Err e)
  | (d, Ok client) =>
      match client_login (network env) email password client with
      | (sent, _, Err e) => ran d sent [] (Err e)
      | (sent, client, Ok _) => k d sent client
      end
  end.
Definition devices (env : ClientEnv) (config_path email password : string) (d : Disk) : Ran :=
  logged_in env config_path email password d (fun d sent client =>
    match client_list_devices (network env) client with
    | (more, Err e) => ran d (sent ++ more) [] (Err e)
    | (more, Ok []) => ran d (sent ++ more) ["No devices registered in your organization yet."%string] (Ok tt)
    | (more, Ok ds) =>
        ran d (sent ++ more)
          (device_line "DEVICE ID" "HOSTNAME" "PLATFORM" "LAST SEEN" ::
           map (fun dv => device_line (dv_id dv) (default "-"%string (dv_hostname dv)) (default "-"%string (dv_platform dv))
                            (default "never"%string (dv_last_seen dv))) ds) (Ok tt)
    end).
Definition view (env : ClientEnv) (config_path email password device out : string) (no_open : bool) (d : Disk) : Ran :=
  logged_in env config_path email password d (fun d sent client =>
    match find_device (network env) device client with
    | (more, Err e) => ran d (sent ++ more) [] (Err e)
    | (more, Ok target) =>
        let asked := ["Requesting session with host " ++ device ++ "…"; "(the host may prompt its operator to approve this connection)"]%string in
        match capture env target client with
        | Ok image =>
            {| files := <[out := image]> d; requests := sent ++ more; printed := asked ++ ["Screenshot saved to " ++ out]%string;
               opened := if no_open then None else Some out; ended := Ok tt |}
        | Err e => ran d (sent ++ more) asked (Err e)
        end
    end).
Definition client_main (env : ClientEnv) (config_path : string) (command : ClientCommand) (d : Disk) : Ran :=
  match command with
  | InitClient ws http identity =>
      init_client env config_path {| client_ws_url := ws; client_http_url := http; identity_path := identity |} d
  | Whoami => whoami env config_path d
  | Devices email password => devices env config_path email password d
  | View email password device out no_open => view env config_path email password device out no_open d
  end.
Definition exit_success (r : Ran) : bool := is_ok (ended r).
End Commands.

(** ** The key a client shows *)

Section Shown.
Context `{Urls} `{JsonField} `{!Serde (list Device)} `{Base64Laws} `{SecretBytesLaws}.
Context `{!Serde StoredIdentity} `{!SerdePretty StoredIdentity} `{!SerdePrettyLaws StoredIdentity}.
Context `{!Serde ClientConfig} `{!SerdePretty ClientConfig} `{!SerdePrettyLaws ClientConfig}.

(** The files can be read and seen. *)
Definition readable (env : ClientEnv) : Prop :=
  read_fault (config_io env) = None /\ read_fault (identity_io env) = None /\ hidden (identity_io env) = false.

Lemma save_then_load env cfg path d d1 : validate_client cfg = Ok tt ->
  save_client_config (config_io env) (directory env) cfg path d = (d1, Ok tt) ->
  (forall q, q <> path -> d1 !! q = d !! q) /\
  forall later d2, read_fault later = None -> d2 !! path = d1 !! path -> load_client_config later path d2 = Ok cfg.
Proof.
  intros V S. unfold save_client_config in S. destruct (directory env) as [[]|]; cbn [map_err] in S; [|done].
  destruct (to_json_pretty cfg) as [body|] eqn:J; [|done]. apply from_to_json_pretty in J. unfold write_secret in S.
  destruct (write_fault (config_io env)); cbn [map_err] in S; [|done..]. injection S as <-.
  split; [intros q N; by rewrite lookup_insert_ne|]. intros later d2 Rd. rewrite lookup_insert_eq. intros E.
  unfold load_client_config, read_to_string. rewrite Rd, E. cbn [fmap option_fmap option_map ok_or map_err].
  rewrite from_utf8_as_bytes, J. cbn [map_err]. by rewrite V.
Qed.
Lemma identity_frame env sd path d d' r : load_or_create env sd path d = (d', r) -> forall q, q <> path -> d' !! q = d !! q.
Proof.
  unfold load_or_create. intros E q N. destruct (path_exists env path d); [by injection E as <- _|].
  destruct (to_json_pretty _) as [body|]; [|by injection E as <- _].
  unfold write_secret in E. destruct (write_fault env); injection E as <- _; [|done|]; by rewrite lookup_insert_ne.
Qed.
(** A successful [init]: the configuration, and the identity loaded after it. *)
Lemma init_spec env path cfg d : ended (init_client env path cfg d) = Ok tt ->
  exists d1 sk, validate_client cfg = Ok tt /\ save_client_config (config_io env) (directory env) cfg path d = (d1, Ok tt) /\
    load_or_create (identity_io env) (seed env) (identity_path cfg) d1 = (files (init_client env path cfg d), Ok sk) /\
    printed (init_client env path cfg d) = init_lines path (b64_encode (verifying_key sk)) cfg /\
    requests (init_client env path cfg d) = [].
Proof.
  unfold init_client. destruct (validate_client cfg) as [[]|] eqn:V; [|done].
  destruct (save_client_config _ _ _ _ _) as [d1 [[]|]] eqn:S; [|done]. unfold client_new. rewrite V.
  destruct (load_or_create _ _ _ d1) as [d2 [sk|]] eqn:I; [|done]. intros _. exists d1, sk. done.
Qed.

(** The key a client shows is its key. A successful [init] writes the
    configuration and the identity and nothing else, sends nothing, and prints
    a key; from then on, as long as the files can be read, [whoami] prints
    exactly this key and changes nothing, and another successful [init] with the
    same identity file, whatever its addresses and its seed, prints it again. *)
Theorem shown_key_is_kept env path ws http id d : length (seed env) = 32 -> id <> path ->
  let r := client_main env path (InitClient ws http id) d in
  ended r = Ok tt ->
  exists key, printed r = init_lines path key {| client_ws_url := ws; client_http_url := http; identity_path := id |} /\
    requests r = [] /\ (forall q, q <> path -> q <> id -> files r !! q = d !! q) /\
    forall later, readable later ->
      client_main later path Whoami (files r) = ran (files r) [] [key] (Ok tt) /\
      forall ws' http', let r' := client_main later path (InitClient ws' http' id) (files r) in
        ended r' = Ok tt ->
        printed r' = init_lines path key {| client_ws_url := ws'; client_http_url := http'; identity_path := id |} /\
        files r' !! id = files r !! id.
Proof.
  cbv zeta. cbn [client_main]. set (cfg := {| client_ws_url := ws; client_http_url := http; identity_path := id |}).
  intros L Ne E. destruct (init_spec _ _ _ _ E) as (d1 & sk & V & S & I & P & R). set (r := init_client env path cfg d) in *.
  destruct (save_then_load _ _ _ _ _ V S) as [Sf Sl]. pose proof (identity_frame _ _ _ _ _ _ I) as If. cbn [identity_path cfg] in I, If.
  exists (b64_encode (verifying_key sk)). split; [done|]. split; [done|]. split; [intros q N1 N2; by rewrite If, Sf|].
  intros later (R1 & R2 & R3). pose proof (identity_is_kept _ _ _ _ _ _ L I) as Kept. split.
  - unfold whoami. rewrite (Sl (config_io later) (files r)) by (try done; by apply If). cbn [identity_path cfg]. by rewrite Kept.
  - intros ws' http' E'. destruct (init_spec _ _ _ _ E') as (d2 & sk' & V' & S' & I' & P' & _). cbn [identity_path] in I'.
    destruct (save_then_load _ _ _ _ _ V' S') as [Sf' _].
    destruct (identity_on_disk _ _ _ _ _ _ L I) as (body & Hb & Rb).
    assert (load_or_create (identity_io later) (seed later) id d2 = (d2, Ok sk)) as K2.
    { unfold load_or_create, path_exists, read_to_string. rewrite (Sf' id), R2, R3, Hb, bool_decide_true by eauto. cbn. by rewrite Rb. }
    rewrite K2 in I'. injection I' as I' <-. split; [done|]. rewrite <-I'. by apply Sf'.
Qed.
End Shown.

(** ** Pictures, and the defaults *)

Section Pictures.
Context `{Urls} `{JsonField} `{!Serde (list Device)} `{Base64} `{SecretBytes}.
Context `{!Serde StoredIdentity} `{!SerdePretty StoredIdentity} `{!Serde ClientConfig} `{!SerdePretty ClientConfig}.

(** The viewer is opened on a picture that was captured and written, at the
    path that was asked for, by a command that succeeds. *)
Lemma viewer_shows_the_capture env path command d p : opened (client_main env path command d) = Some p ->
  ended (client_main env path command d) = Ok tt /\
  exists email password device target client image, command = View email password device p false /\ dv_id target = device /\
    capture env target client = Ok image /\ files (client_main env path command d) !! p = Some image.
Proof.
  destruct command as [ws http id| |email password|email password device out no_open]; cbn [client_main]; intros O.
  - unfold init_client in O. repeat case_match; discriminate O.
  - unfold whoami in O. repeat case_match; discriminate O.
  - unfold devices, logged_in in O. repeat case_match; discriminate O.
  - unfold view, logged_in in *. destruct (from_config_file _ _ _ _ _) as [d1 [client|]]; [|discriminate O].
    destruct (client_login _ _ _ client) as [[sent client1] [[]|]]; [|discriminate O].
    unfold find_device in *. destruct (client_list_devices _ client1) as [more ds].
    destruct ds as [ds|]; [|discriminate O]. destruct (list_find (fun d => dv_id d = device) ds) as [[i target]|] eqn:F; [|discriminate O].
    cbn [fmap option_fmap option_map ok_or snd] in *. destruct (capture env target client1) as [image|] eqn:C; [|discriminate O].
    cbn [opened ended files] in *. destruct no_open; [discriminate O|]. injection O as ->. split; [done|].
    apply list_find_Some in F as (_ & Id & _). exists email, password, device, target, client1, image. split_and!; [done..|]. by rewrite lookup_insert_eq.
Qed.
(** [init] without options is refused, as its own defaults are no TLS
    addresses. *)
Lemma default_init_refused env path d :
  client_main env path default_init d =
  ran d [] [] (Err (Sdk.Config "relay_ws_url must use wss://; plaintext relay WebSockets are unsafe")).
Proof. reflexivity. Qed.
End Pictures.

Definition example_env : @ClientEnv toy_urls toy_ed25519 :=
  {| config_io := quiet; directory := Ok tt; identity_io := quiet; seed := be_bytes 32 5; network := accepting;
     capture _ _ := Err (Sdk.Config "no device") |}.
Definition other_seed : @ClientEnv toy_urls toy_ed25519 :=
  {| config_io := quiet; directory := Ok tt; identity_io := quiet; seed := be_bytes 32 9; network := accepting;
     capture _ _ := Err (Sdk.Config "no device") |}.
#[export] Instance ClientConfig_eq_dec : EqDecision ClientConfig.
Proof. solve_decision. Defined.
#[export] Instance ClientConfig_countable : Countable ClientConfig.
Proof.
  refine (inj_countable' (fun c => (client_ws_url c, client_http_url c, identity_path c))
    (fun '(w, h, i) => {| client_ws_url := w; client_http_url := h; identity_path := i |}) _). by intros [].
Defined.
Lemma shown_key_is_kept_witness :
  let main := @client_main toy_urls toy_json_field no_devices toy_base64 toy_ed25519 toy_secret_bytes
    (braced_serde StoredIdentity) (braced_pretty StoredIdentity) (braced_serde ClientConfig) (braced_pretty ClientConfig) in
  let r := main example_env "client.json"%string (InitClient "wss://relay.test/ws" "https://relay.test" "id.json") ∅ in
  ended r = Ok tt /\
  exists key, printed r = init_lines "client.json" key example_client /\
    printed (main other_seed "client.json"%string Whoami (files r)) = [key] /\
    ended (main other_seed "client.json"%string (InitClient "wss://b/ws" "https://b" "id.json") (files r)) = Ok tt.
Proof.
  cbv zeta. match goal with |- ended ?r = _ /\ _ => assert (ended r = Ok tt) as E by (vm_compute; reflexivity) end. split; [exact E|].
  destruct (@shown_key_is_kept toy_urls toy_json_field no_devices toy_base64 toy_base64_laws toy_ed25519 toy_secret_bytes
    toy_secret_bytes_laws (braced_serde StoredIdentity) (braced_pretty StoredIdentity) (braced_pretty_laws StoredIdentity)
    (braced_serde ClientConfig) (braced_pretty ClientConfig) (braced_pretty_laws ClientConfig)
    example_env "client.json" "wss://relay.test/ws" "https://relay.test" "id.json" ∅ eq_refl ltac:(discriminate) E)
    as (key & P & _ & _ & Later).
  destruct (Later other_seed ltac:(done)) as [W _]. exists key. split; [exact P|]. split; [exact (f_equal printed W)|].
  vm_compute. reflexivity.
Defined.
