(* ===== verification/Runner.v ===== *)
(** * The agent's commands

    rivetlink-agent/src/runner.rs (and the commands of cli.rs): commands that
    change the configuration, the keys and the trusted clients, the start of a
    host and of the broker of a physical console, and the loops that keep them
    connected. A command is a function of the disk and of what its file
    operations and requests meet; it gives the disk, the lines it prints and
    its result. *)
From Stdlib Require Import NArith Lia Strings.String Strings.Byte.
From S2P Require Import Prelude Text Gateway Listeners Interfaces Instances Protocol Sealed Handshake Trusted Host ClientSession Direct Pins.
From S2P Require Import Connections P2p Tunnel KeyStore LanHost ConsoleLan AgentConfig Rest.

Record InitOptions := {
  opt_relay_url : string;
  opt_relay_http_url : string;
  opt_device_name : string;
  opt_keystore_path : string;
  opt_unattended_console : bool;
  opt_allow_trusted : bool;
  opt_enable_lan : bool;
  opt_disable_relay : bool;
  opt_lan_port : N;
}.
(** The commands that end; the others are below. *)
Inductive Command :=
| Init (options : InitOptions)
| Register (token : string) (platform : option string)
| PublicKey
| SetDeviceId (device_id : Uuid)
| DeviceId
| ConfigureConsoleTransports (lan relay : bool) (lan_port : N)
| TrustClient (public_key name : string) (allow_unattended_console allow_console_control : bool).

Section Runner.
Context `{Base64} `{UuidText} `{UuidParse} `{SecretBytes} `{Urls} `{JsonField}.
Context `{!Serde StoredKey} `{!SerdePretty StoredKey} `{!Serde ConfigFields} `{!SerdePretty ConfigFields}.
Context `{!Serde StoredFile} `{!SerdePretty StoredFile}.

Record CmdEnv := {
  config_io : FileEnv;
  signing_io : FileEnv;
  encryption_io : FileEnv;
  trust_io : FileEnv;
  signing_seed : bytes;
  encryption_seed : bytes;
  http : Http;
}.
Definition Outcome : Type := Disk * list string * Result unit AgentError.

(** ** Commands *)

Definition config_of_options (o : InitOptions) : AgentConfig :=
  {| relay_url := opt_relay_url o;
     relay_http_url := opt_relay_http_url o;
     device_name := opt_device_name o;
     keystore_path := opt_keystore_path o;
     cfg_device_id := None;
     heartbeat_secs := 10;
     reconnect_cap_secs := 60;
     unattended_console :=
       {| enabled := opt_unattended_console o; allow_trusted_clients := opt_allow_trusted o;
          capture_timeout_secs := capture_timeout_secs default_unattended;
          min_capture_interval_secs := min_capture_interval_secs default_unattended;
          max_capture_bytes := max_capture_bytes default_unattended |};
     console_transports :=
       {| lan := {| lan_enabled := opt_enable_lan o; bind_address := bind_address default_lan;
                    lan_port := opt_lan_port o |};
          relay := {| relay_enabled := negb (opt_disable_relay o) |} |} |}.
Definition init_lines (config_path : string) (c : AgentConfig) (signing encryption : KeyMaterial) : list string :=
  let t := console_transports c in
  ["Agent initialized."%string; ("  config:     " ++ config_path)%string; ("  device:     " ++ device_name c)%string] ++
  (if relay_enabled (relay t)
   then [("  relay ws:   " ++ relay_url c)%string; ("  relay http: " ++ relay_http_url c)%string] else []) ++
  (if lan_enabled (lan t)
   then [("  LAN:        " ++ bind_address (lan t) ++ ":" ++ pretty (lan_port (lan t)))%string] else []) ++
  [("  signing pk: " ++ b64_encode (key_public signing))%string;
   ("  ecdh pk:    " ++ b64_encode (key_public encryption))%string].
Definition init (env : CmdEnv) (config_path : string) (o : InitOptions) (d : Disk) : Outcome :=
  let c := config_of_options o in
  match validate c with
  | Err e => (d, [], Err e)
  | Ok _ =>
      match save_config (config_io env) c config_path d with
      | (d, Err e) => (d, [], Err e)
      | (d, Ok _) =>
          let store := {| dir := opt_keystore_path o |} in
          match ensure_signing_key (signing_io env) (signing_seed env) store d with
          | (d, Err e) => (d, [], Err e)
          | (d, Ok signing) =>
              match ensure_encryption_key (encryption_io env) (encryption_seed env) store d with
              | (d, Err e) => (d, [], Err e)
              | (d, Ok encryption) => (d, init_lines config_path c signing encryption, Ok tt)
              end
          end
      end
  end.

Definition set_device (id : Uuid) (c : AgentConfig) : AgentConfig :=
  {| relay_url := relay_url c; relay_http_url := relay_http_url c; device_name := device_name c;
     keystore_path := keystore_path c; cfg_device_id := Some id; heartbeat_secs := heartbeat_secs c;
     reconnect_cap_secs := reconnect_cap_secs c; unattended_console := unattended_console c;
     console_transports := console_transports c |}.
Definition set_transports (lan_on relay_on : bool) (port : N) (c : AgentConfig) : AgentConfig :=
  {| relay_url := relay_url c; relay_http_url := relay_http_url c; device_name := device_name c;
     keystore_path := keystore_path c; cfg_device_id := cfg_device_id c; heartbeat_secs := heartbeat_secs c;
     reconnect_cap_secs := reconnect_cap_secs c; unattended_console := unattended_console c;
     console_transports :=
       {| lan := {| lan_enabled := lan_on; bind_address := bind_address (lan (console_transports c)); lan_port := port |};
          relay := {| relay_enabled := relay_on |} |} |}.

(** A load that fails ends every command. *)
Definition with_config (env : CmdEnv) (path : string) (d : Disk) (k : AgentConfig -> Outcome) : Outcome :=
  match load_config (config_io env) path d with
  | Err e => (d, [], Err e)
  | Ok c => k c
  end.
Definition saved (env : CmdEnv) (c : AgentConfig) (path : string) (lines : list string) (d : Disk) : Outcome :=
  match save_config (config_io env) c path d with
  | (d, Err e) => (d, [], Err e)
  | (d, Ok _) => (d, lines, Ok tt)
  end.

Definition register (env : CmdEnv) (config_path token : string) (platform : option string) (d : Disk) : Outcome :=
  with_config env config_path d (fun c =>
    match ensure_signing_key (signing_io env) (signing_seed env) {| dir := keystore_path c |} d with
    | (d, Err e) => (d, [], Err e)
    | (d, Ok signing) =>
        match (agent_register_device (http env) (relay_http_url c) token (key_public signing) (device_name c) platform).2 with
        | Err e => (d, [], Err e)
        | Ok id => saved env (set_device id c) config_path ["Device registered."%string] d
        end
    end).
Definition public_key (env : CmdEnv) (config_path : string) (d : Disk) : Outcome :=
  with_config env config_path d (fun c =>
    match ensure_signing_key (signing_io env) (signing_seed env) {| dir := keystore_path c |} d with
    | (d, Err e) => (d, [], Err e)
    | (d, Ok signing) => (d, [b64_encode (key_public signing)], Ok tt)
    end).
Definition set_device_id (env : CmdEnv) (config_path : string) (id : Uuid) (d : Disk) : Outcome :=
  with_config env config_path d (fun c => saved env (set_device id c) config_path [] d).
Definition print_device_id (env : CmdEnv) (config_path : string) (d : Disk) : Outcome :=
  with_config env config_path d (fun c =>
    match cfg_device_id c with
    | None => (d, [], Err (Config "device_id is not registered yet"))
    | Some id => (d, [uuid_to_string id], Ok tt)
    end).
Definition configure_console_transports (env : CmdEnv) (config_path : string) (lan relay : bool) (port : N) (d : Disk)
  : Outcome :=
  with_config env config_path d (fun c =>
    if negb lan && negb relay then (d, [], Err (Config "select at least one console transport"))
    else
      let c := set_transports lan relay port c in
      match validate c with
      | Err e => (d, [], Err e)
      | Ok _ => saved env c config_path [] d
      end).

Definition trusted_path (c : AgentConfig) : string := path_join (keystore_path c) "trusted_clients.json".
(** The key a client is trusted by. *)
Definition check_client_key (public_key : string) : Result unit AgentError :=
  let? raw := map_err Base64Error (b64_decode (trim public_key)) in
  if negb (length raw =? 32)%nat
  then Err (Config "trusted client identity must be a 32-byte Ed25519 public key")
  else if vk_valid raw then Ok tt
  else Err (Config ("invalid trusted client identity: " ++ vk_error raw)).
Definition trust_client (env : CmdEnv) (config_path public_key name : string)
    (allow_unattended_console allow_console_control : bool) (d : Disk) : Outcome :=
  if (trim name =? "")%string then (d, [], Err (Config "trusted client name is required"))
  else
    match check_client_key public_key with
    | Err e => (d, [], Err e)
    | Ok _ =>
        with_config env config_path d (fun c =>
          let path := trusted_path c in
          match load_or_empty (read_fault (trust_io env)) path d with
          | Err e => (d, [], Err e)
          | Ok trusted =>
              let entry := {| name := trim name; can_view := true; can_control := allow_console_control;
                              can_unattended_console := allow_unattended_console |} in
              match trust (write_fault (trust_io env)) public_key entry trusted d with
              | (_, d, Ok _) => (d, ["Trusted client added to " ++ path ++ "."]%string, Ok tt)
              | (_, d, Err e) => (d, [], Err e)
              end
          end)
    end.

Definition run_command (env : CmdEnv) (config_path : string) (c : Command) (d : Disk) : Outcome :=
  match c with
  | Init o => init env config_path o d
  | Register token platform => register env config_path token platform d
  | PublicKey => public_key env config_path d
  | SetDeviceId id => set_device_id env config_path id d
  | DeviceId => print_device_id env config_path d
  | ConfigureConsoleTransports lan relay port => configure_console_transports env config_path lan relay port d
  | TrustClient key name unattended control => trust_client env config_path key name unattended control d
  end.

(** ** Starting a host *)

Record HostStart := {
  hs_config : AgentConfig;
  hs_device_id : Uuid;
  hs_signing_key : SigningKey;
  hs_trusted : TrustedClients;
  hs_policy : ConsentPolicy;
}.
Definition ed25519_signing_key (stored : KeyMaterial) : SigningKey := signing_from_bytes (key_secret stored).
Definition physical_console_policy (c : AgentConfig) : ConsentPolicy :=
  let u := unattended_console c in
  UnattendedConsole (from_secs (min_capture_interval_secs u)) (from_secs (capture_timeout_secs u)) (max_capture_bytes u).
(** The keys a host runs with. *)
Definition host_keys (env : CmdEnv) (c : AgentConfig) (d : Disk) : Disk * Result SigningKey AgentError :=
  let store := {| dir := keystore_path c |} in
  match ensure_signing_key (signing_io env) (signing_seed env) store d with
  | (d, Err e) => (d, Err e)
  | (d, Ok signing) =>
      match ensure_encryption_key (encryption_io env) (encryption_seed env) store d with
      | (d, Err e) => (d, Err e)
      | (d, Ok _) => (d, Ok (ed25519_signing_key signing))
      end
  end.
(** The tasks of [run_physical_console_broker], with what each gets. *)
Inductive ConsoleTask :=
| LanTask (signing_key : SigningKey) (device_name : string) (transport : LanConsoleTransportConfig)
    (trusted : TrustedClients) (limits : UnattendedConsoleConfig)
| RelayTask (start : HostStart).
(** [run_physical_console_broker] up to [join_next]: the tasks it spawned, and
    whether they go on. Returning drops them. *)
Definition start_physical_console (env : CmdEnv) (config_path : string) (d : Disk)
  : Disk * list ConsoleTask * Result unit AgentError :=
  match load_config (config_io env) config_path d with
  | Err e => (d, [], Err e)
  | Ok c =>
      let u := unattended_console c in
      if negb (enabled u) || negb (allow_trusted_clients u)
      then (d, [], Err (Config "physical console requires local unattended_console.enabled and unattended_console.allow_trusted_clients"))
      else
        match host_keys env c d with
        | (d, Err e) => (d, [], Err e)
        | (d, Ok key) =>
            match load_or_empty (read_fault (trust_io env)) (trusted_path c) d with
            | Err e => (d, [], Err e)
            | Ok trusted =>
                let t := console_transports c in
                let tasks := if lan_enabled (lan t) then [LanTask key (device_name c) (lan t) trusted u] else [] in
                if relay_enabled (relay t) then
                  match cfg_device_id c with
                  | None => (d, tasks, Err (Config "device_id missing — register the relay transport before enabling it"))
                  | Some id =>
                      (d, tasks ++ [RelayTask {| hs_config := c; hs_device_id := id; hs_signing_key := key; hs_trusted := trusted;
                                                 hs_policy := physical_console_policy c |}], Ok tt)
                  end
                else
                  (d, tasks, match tasks with
                             | [] => Err (Config "no physical-console transport enabled")
                             | _ => Ok tt
                             end)
            end
        end
  end.
(** [lan]: the authentication of a LAN host. *)
Definition lan_auth (env : CmdEnv) (pin : option string) (keystore_path : string) (auto_accept : bool) (d : Disk)
  : Disk * Result (SigningKey * LanAuth) AgentError :=
  match ensure_signing_key (signing_io env) (signing_seed env) {| dir := keystore_path |} d with
  | (d, Err e) => (d, Err e)
  | (d, Ok signing) =>
      (d, let? auth :=
            match pin with
            | Some pin => Ok (Password pin)
            | None =>
                let? trusted := load_or_empty (read_fault (trust_io env)) (path_join keystore_path "trusted_clients.json") d in
                Ok (KeyAuth trusted auto_accept)
            end in
          Ok (ed25519_signing_key signing, auth))
  end.
End Runner.

(** ** Staying connected *)

Definition reconnect_delay (failed_attempts : N) : N :=
  from_secs (if (failed_attempts <=? 4)%N then N.shiftl 1 failed_attempts else 30).
(** What each attempt of the loop waits afterwards, by whether it connected. *)
Fixpoint reconnect_delays (failed_attempts : N) (attempts : list bool) : list N :=
  match attempts with
  | [] => []
  | connected :: attempts =>
      let failed := if connected then 0%N else failed_attempts in
      reconnect_delay failed :: reconnect_delays (N.min u32_max (failed + 1)) attempts
  end.

(** ** What commands do to the files *)

Section Commands.
Context `{Base64} `{UuidText} `{UuidParse} `{SecretBytes} `{Urls} `{JsonField}.
Context `{!Serde StoredKey} `{!SerdePretty StoredKey} `{!Serde ConfigFields} `{!SerdePretty ConfigFields}.
Context `{!Serde StoredFile} `{!SerdePretty StoredFile}.
Context `{!SerdePrettyLaws ConfigFields}.
Context (config_path : string).

Definition own_name : Prop :=
  forall dir file, file ∈ ["signing.json"; "encryption.json"; "trusted_clients.json"]%string ->
  path_join dir file <> config_path.
(** File operations that see what is there and are not cut short. *)
Definition sound_io (env : CmdEnv) : Prop :=
  hidden (signing_io env) = false /\ hidden (encryption_io env) = false /\
  writes_whole (config_io env) /\ writes_whole (trust_io env).

(** No file but [except] loses its contents. *)
Definition keeps (except : list string) (d d' : Disk) : Prop :=
  forall q b, q ∉ except -> d !! q = Some b -> d' !! q = Some b.
Lemma keeps_refl l d : keeps l d d.
Proof. by intros q b _. Qed.
Lemma keeps_trans l d1 d2 d3 : keeps l d1 d2 -> keeps l d2 d3 -> keeps l d1 d3.
Proof. intros K1 K2 q b Hq Hb. by eapply K2, K1. Qed.
Lemma keeps_mono l l' d d' : l ⊆ l' -> keeps l d d' -> keeps l' d d'.
Proof. intros S K q b Hq. apply K. set_solver. Qed.
#[local] Hint Resolve keeps_refl : core.

Lemma ensure_key_keeps env path g d : hidden env = false -> keeps [] d (ensure_key env path g d).1.
Proof.
  intros Hh q b _ Hb. destruct (decide (q = path)) as [->|N].
  - by rewrite (proj1 (ensure_key_present env path g d b Hh Hb)).
  - by rewrite ensure_key_other.
Qed.
Lemma ensure_key_config env path g d : path <> config_path -> (ensure_key env path g d).1 !! config_path = d !! config_path.
Proof. intros N. by apply ensure_key_other. Qed.
Lemma save_config_keeps env c path d : let '(d', r) := save_config env c path d in
  keeps [path] d d' /\ (is_ok r = false -> writes_whole env -> d' = d).
Proof.
  unfold save_config. destruct (to_json_pretty _); [|by split].
  assert (forall b, keeps [path] d (<[path := b]> d)) as K.
  { intros b q c' Hq E. rewrite lookup_insert_ne; [done|]. intros ->. apply Hq. by left. }
  unfold write_secret, writes_whole. destruct (write_fault env); cbn [map_err]; split; try done; auto.
Qed.
Lemma trust_keeps fault key entry t d : let '(t', d', r) := trust fault key entry t d in
  keeps [path t] d d' /\ (is_ok r = false -> (match fault with WriteFails _ _ => False | _ => True end) -> d' = d) /\
  (forall q, q <> path t -> d' !! q = d !! q).
Proof.
  unfold trust, save. cbn [path entries]. destruct (to_json_pretty _); [|by split_and!].
  assert (forall b, keeps [path t] d (<[path t := b]> d)) as K.
  { intros b q c' Hq E. rewrite lookup_insert_ne; [done|]. intros <-. apply Hq. by left. }
  unfold write_secret. destruct fault; cbn [map_err]; split_and!; try done; auto; intros; by rewrite lookup_insert_ne.
Qed.

(** The change a command makes to the configuration it finds on [d], when it
    makes one: a registration stores the id that the relay's answer gave. *)
Inductive changes (env : CmdEnv) (d : Disk) : Command -> AgentConfig -> Prop :=
| change_init o : changes env d (Init o) (config_of_options o)
| change_register token platform c signing id : config_now config_path d = Some c ->
    (ensure_signing_key (signing_io env) (signing_seed env) {| dir := keystore_path c |} d).2 = Ok signing ->
    (agent_register_device (http env) (relay_http_url c) token (key_public signing) (device_name c) platform).2 = Ok id ->
    changes env d (Register token platform) (set_device id c)
| change_device id c : config_now config_path d = Some c -> changes env d (SetDeviceId id) (set_device id c)
| change_transports lan relay port c : config_now config_path d = Some c ->
    changes env d (ConfigureConsoleTransports lan relay port) (set_transports lan relay port c).
Definition changing (cmd : Command) : bool :=
  match cmd with Init _ | Register _ _ | SetDeviceId _ | ConfigureConsoleTransports _ _ _ => true | _ => false end.

(** The configuration after a command. *)
Definition config_spec (env : CmdEnv) (cmd : Command) (d d' : Disk) (r : Result unit AgentError) : Prop :=
  d' !! config_path = d !! config_path /\ (is_ok r = true -> changing cmd = false) \/
  exists c, changes env d cmd c /\ config_now config_path d' = Some c /\ (is_ok r = true \/ exists o, cmd = Init o).
(** What a failed command touches. *)
Definition failed_spec (cmd : Command) (d d' : Disk) (lines : list string) (r : Result unit AgentError) : Prop :=
  is_ok r = false -> lines = [] /\ keeps (match cmd with Init _ => [config_path] | _ => [] end) d d'.

Lemma set_device_valid id c : config_valid c -> config_valid (set_device id c).
Proof. done. Qed.
(** A command that ends by saving a changed configuration. *)
Lemma saved_config env cmd d d1 c' lines : writes_whole (config_io env) -> changes env d cmd c' -> config_valid c' ->
  d1 !! config_path = d !! config_path ->
  let '(d', out, r) := saved env c' config_path lines d1 in config_spec env cmd d d' r.
Proof.
  intros W C V E. unfold saved. pose proof (save_config_cases (config_io env) c' config_path d1 V W) as S.
  destruct (save_config _ _ _ d1) as [d2 [[]|e]].
  - destruct S as [S1 S2]. right. exists c'. split; [done|]. split; [done|by left].
  - destruct S as [_ ->]. left. by split.
Qed.
Lemma saved_failed env cmd d d1 c' lines : writes_whole (config_io env) -> keeps [] d d1 ->
  let '(d', out, r) := saved env c' config_path lines d1 in failed_spec cmd d d' out r.
Proof.
  intros W K. unfold saved. pose proof (save_config_keeps (config_io env) c' config_path d1) as SK.
  destruct (save_config _ _ _ d1) as [d2 [[]|e]]; [done|]. destruct SK as [_ SK]. rewrite (SK eq_refl W).
  intros _. split; [done|]. eapply keeps_mono; [|exact K]. set_solver.
Qed.

Lemma run_command_config env cmd d : own_name -> writes_whole (config_io env) ->
  let '(d', out, r) := run_command env config_path cmd d in config_spec env cmd d d' r.
Proof.
  intros O W.
  assert (forall dir, signing_path {| dir := dir |} <> config_path) as Os by (intros dir; apply O; set_solver).
  assert (forall dir, encryption_path {| dir := dir |} <> config_path) as Oe by (intros dir; apply O; set_solver).
  assert (forall cmd d1 e, d1 !! config_path = d !! config_path -> config_spec env cmd d d1 (Err e)) as Fails by (intros; by left).
  assert (forall cmd e, config_spec env cmd d d (Err e)) as Refused by (intros; by apply Fails).
  assert (forall cmd d1, changing cmd = false -> d1 !! config_path = d !! config_path ->
    config_spec env cmd d d1 (Ok tt)) as Succeeds by (intros; by left).
  destruct cmd as [o|token platform| |id| |lan relay port|key name unattended control]; cbn [run_command].
  - unfold init. set (c := config_of_options o). destruct (validate c) as [[]|e] eqn:V; [|done].
    apply validate_spec in V. pose proof (save_config_cases (config_io env) c config_path d V W) as Sc. clear Refused.
    destruct (save_config _ c config_path d) as [d1 [[]|e]]; [|destruct Sc as [_ ->]; by apply Fails]. destruct Sc as [_ Now].
    assert (forall d2 r, d2 !! config_path = d1 !! config_path -> config_spec env (Init o) d d2 r) as Done.
    { intros d2 r E. right. exists c. split; [constructor|]. split; [by rewrite (config_now_same _ _ _ E)|]. right. by exists o. }
    unfold ensure_signing_key, ensure_encryption_key.
    pose proof (ensure_key_config (signing_io env) (signing_path {| dir := opt_keystore_path o |}) (generate_signing (signing_seed env)) d1 (Os _)) as E1.
    destruct (ensure_key _ _ _ d1) as [d2 [k|e]]; [|by apply Done]. cbn [fst] in *.
    pose proof (ensure_key_config (encryption_io env) (encryption_path {| dir := opt_keystore_path o |}) (generate_encryption (encryption_seed env)) d2 (Oe _)) as E2.
    destruct (ensure_key _ _ _ d2) as [d3 [k'|e]]; cbn [fst] in *; apply Done; by rewrite E2.
  - unfold register, with_config. destruct (load_config _ _ _) as [c|e] eqn:L; [|done]. apply load_config_now in L as [N V].
    destruct (ensure_signing_key (signing_io env) _ _ d) as [d1 ks] eqn:Ek.
    assert (d1 !! config_path = d !! config_path) as E.
    { change d1 with (d1, ks).1. rewrite <-Ek. apply ensure_key_config, Os. }
    destruct ks as [k|e]; [|by apply Fails].
    destruct (agent_register_device _ _ _ _ _ _).2 as [id|e] eqn:Ea; [|by apply Fails].
    apply saved_config; [done| |by apply set_device_valid|done]. apply (change_register env d token platform c k); [done|by rewrite Ek|done].
  - unfold public_key, with_config. destruct (load_config _ _ _) as [c|e]; [|done]. unfold ensure_signing_key.
    pose proof (ensure_key_config (signing_io env) (signing_path {| dir := keystore_path c |}) (generate_signing (signing_seed env)) d (Os _)) as E.
    destruct (ensure_key _ _ _ d) as [d1 [k|e]]; cbn [fst] in *; [by apply Succeeds|by apply Fails].
  - unfold set_device_id, with_config. destruct (load_config _ _ _) as [c|e] eqn:L; [|done]. apply load_config_now in L as [N V].
    apply saved_config; [done|by constructor|by apply set_device_valid|done].
  - unfold print_device_id, with_config. destruct (load_config _ _ _) as [c|e]; [|done].
    destruct (cfg_device_id c); [by apply Succeeds|done].
  - unfold configure_console_transports, with_config. destruct (load_config _ _ _) as [c|e] eqn:L; [|done]. apply load_config_now in L as [N _].
    destruct (_ && _); [done|]. destruct (validate _) as [[]|e] eqn:V; [|done]. apply validate_spec in V.
    apply saved_config; [done|by constructor|done|done].
  - unfold trust_client. destruct (_ =? _)%string; [done|]. destruct (check_client_key key); [|done].
    unfold with_config. destruct (load_config _ _ _) as [c|e]; [|done]. cbv zeta.
    destruct (load_or_empty _ _ _) as [t|e] eqn:Et; [|done].
    assert (path t = trusted_path c) as Ep by (unfold load_or_empty in Et; inv_ok Et; done).
    match goal with |- context [trust ?f key ?entry t d] => pose proof (trust_keeps f key entry t d) as T end.
    destruct (trust _ _ _ _ _) as [[t' d1] r1]. destruct T as (_ & _ & T3).
    assert (d1 !! config_path = d !! config_path) as E.
    { apply T3. rewrite Ep. intros E. eapply (O (keystore_path c)); [|symmetry; exact E]. set_solver. }
    destruct r1 as [[]|e]; [by apply Succeeds|by apply Fails].
Qed.
Lemma run_command_failed env cmd d : sound_io env ->
  let '(d', out, r) := run_command env config_path cmd d in failed_spec cmd d d' out r.
Proof.
  intros (Hs & He & Hc & Ht).
  assert (forall cmd d1 e, keeps (match cmd with Init _ => [config_path] | _ => [] end) d d1 ->
    failed_spec cmd d d1 [] (Err e)) as Fails by (intros; by intros _).
  assert (forall cmd e, failed_spec cmd d d [] (Err e)) as Refused by (intros; by apply Fails).
  assert (forall cmd d1 lines, failed_spec cmd d d1 lines (Ok tt)) as Succeeds by done.
  destruct cmd as [o|token platform| |id| |lan relay port|key name unattended control]; cbn [run_command].
  - unfold init. set (c := config_of_options o). destruct (validate c) as [[]|e]; [|done].
    pose proof (save_config_keeps (config_io env) c config_path d) as Sk.
    destruct (save_config _ c config_path d) as [d1 [[]|e]]; destruct Sk as [Sk _]; [|by apply Fails].
    unfold ensure_signing_key, ensure_encryption_key.
    pose proof (ensure_key_keeps (signing_io env) (signing_path {| dir := opt_keystore_path o |}) (generate_signing (signing_seed env)) d1 Hs) as K1.
    assert (forall d2, keeps [] d1 d2 -> keeps [config_path] d d2) as Kt.
    { intros d2 K. eapply keeps_trans; [exact Sk|]. eapply keeps_mono; [|exact K]. set_solver. }
    destruct (ensure_key _ _ _ d1) as [d2 [k|e]]; cbn [fst] in *; [|apply Fails; by apply Kt].
    pose proof (ensure_key_keeps (encryption_io env) (encryption_path {| dir := opt_keystore_path o |}) (generate_encryption (encryption_seed env)) d2 He) as K2.
    destruct (ensure_key _ _ _ d2) as [d3 [k'|e]]; cbn [fst] in *; [done|]. apply Fails, Kt. by eapply keeps_trans.
  - unfold register, with_config. destruct (load_config _ _ _) as [c|e]; [|done]. unfold ensure_signing_key.
    pose proof (ensure_key_keeps (signing_io env) (signing_path {| dir := keystore_path c |}) (generate_signing (signing_seed env)) d Hs) as K.
    destruct (ensure_key _ _ _ d) as [d1 [k|e]]; cbn [fst] in *; [|by apply Fails].
    destruct (_.2) as [id|e]; [by apply saved_failed|by apply Fails].
  - unfold public_key, with_config. destruct (load_config _ _ _) as [c|e]; [|done]. unfold ensure_signing_key.
    pose proof (ensure_key_keeps (signing_io env) (signing_path {| dir := keystore_path c |}) (generate_signing (signing_seed env)) d Hs) as K.
    destruct (ensure_key _ _ _ d) as [d1 [k|e]]; cbn [fst] in *; [done|by apply Fails].
  - unfold set_device_id, with_config. destruct (load_config _ _ _) as [c|e]; [|done]. by apply saved_failed.
  - unfold print_device_id, with_config. destruct (load_config _ _ _) as [c|e]; [|done]. by destruct (cfg_device_id c).
  - unfold configure_console_transports, with_config. destruct (load_config _ _ _) as [c|e]; [|done].
    destruct (_ && _); [done|]. destruct (validate _); [by apply saved_failed|done].
  - unfold trust_client. destruct (_ =? _)%string; [done|]. destruct (check_client_key key); [|done].
    unfold with_config. destruct (load_config _ _ _) as [c|e]; [|done]. cbv zeta.
    destruct (load_or_empty _ _ _) as [t|e]; [|done].
    match goal with |- context [trust ?f key ?entry t d] => pose proof (trust_keeps f key entry t d) as T end.
    destruct (trust _ _ _ _ _) as [[t' d1] [[]|e]]; destruct T as (_ & T2 & _); [done|].
    rewrite T2 by (try done; unfold writes_whole in Ht; by destruct (write_fault (trust_io env))). done.
Qed.

(** The configuration over the agent's life, as long as it is run. *)
Definition run_commands (ops : list (CmdEnv * Command)) (d : Disk) : Disk :=
  fold_left (fun d op => (run_command op.1 config_path op.2 d).1.1) ops d.
Definition absent_or_loads (d : Disk) : Prop :=
  d !! config_path = None \/ exists c, config_now config_path d = Some c /\ config_valid c.

(** C37. Every configuration the agent writes is one it accepts. The
    configuration file, named unlike the key and client files of a key store,
    is absent or loads as a valid configuration after any sequence of commands,
    with whatever answers of the relay, unreadable files and failing writes of
    keys and clients, as long as no write of the configuration itself is cut
    short: it is written in place, and such a write loses it. And each command
    that then succeeds and is one that changes it makes exactly its own change
    to what it was, a registration storing the id that the relay answered. *)
Theorem config_always_loads ops d : own_name -> Forall (fun op => writes_whole (config_io op.1)) ops -> absent_or_loads d ->
  absent_or_loads (run_commands ops d) /\
  (forall env cmd, writes_whole (config_io env) ->
     let before := run_commands ops d in
     let '(d', _, r) := run_command env config_path cmd before in
     is_ok r = true ->
     (changing cmd = false /\ config_now config_path d' = config_now config_path before) \/
     exists c, changes env before cmd c /\ config_now config_path d' = Some c).
Proof.
  intros O F A. split.
  - revert d A. induction F as [|[env cmd] ops W F IH]; intros d A; [done|]. apply IH. cbn [fst snd] in *.
    pose proof (run_command_config env cmd d O W) as R. destruct (run_command _ _ _ _) as [[d' out] r]. cbn [fst].
    destruct R as [[E _]|(c & _ & N & _)].
    + destruct A as [A|(c & N & V)]; [left; by rewrite E|right]. exists c. by rewrite (config_now_same _ _ _ E).
    + right. exists c. split; [done|by eapply config_now_valid].
  - intros env cmd W. cbv zeta. pose proof (run_command_config env cmd (run_commands ops d) O W) as R.
    destruct (run_command _ _ _ _) as [[d' out] r]. intros Hr.
    destruct R as [[E C]|(c & Hc & N & _)]; [left|right; by exists c].
    split; [auto|]. by apply config_now_same.
Qed.

(** C39. A command that fails changes nothing it found, when key files that are
    there can be seen to be there and no write of the configuration or of the
    trusted clients was cut short (both are written in place): refused input,
    unreadable files, files that cannot be opened, written keys, and every
    answer of the relay. It prints nothing and leaves every file that existed
    as it was, the configuration, the keys and the trusted clients with them;
    only [init] may have written its new configuration before its keys failed,
    and that configuration is valid. *)
Theorem failed_command_changes_nothing env cmd d d' lines e : own_name -> sound_io env ->
  run_command env config_path cmd d = (d', lines, Err e) ->
  lines = [] /\
  (forall q b, d !! q = Some b -> d' !! q = Some b \/
     exists o, cmd = Init o /\ q = config_path /\ config_now config_path d' = Some (config_of_options o) /\
       config_valid (config_of_options o)).
Proof.
  intros O S E. pose proof S as (_ & _ & W & _). pose proof (run_command_config env cmd d O W) as C.
  pose proof (run_command_failed env cmd d S) as R. rewrite E in R, C.
  destruct (R eq_refl) as [L K]. split; [done|]. intros q b Hb.
  destruct C as [[Same _]|(c & Hc & N & [Hr|[o ->]])]; [|done|].
  - destruct (decide (q = config_path)) as [->|Nq]; [left; by rewrite Same|]. left. apply K; [|done].
    destruct cmd; set_solver.
  - destruct (decide (q = config_path)) as [->|Nq]; [|left; apply K; [set_solver|done]].
    right. exists o. inversion Hc; subst. split_and!; try done. by eapply config_now_valid.
Qed.
End Commands.

(** ** The loops of a host

    An attempt meets what the dialling, the sends and the frames of the login
    give, and, when it is connected, the events of the connection's loop and
    what each packet's handling meets. *)
Record RelayDial := {
  at_dialled : Result unit string;
  at_send : string -> Result unit string;
  at_frames : list (Result Message string);
}.

(** One try after the other; each gives the log of its own connection, the
    newest event first. *)
Section ConnectLoop.
Context {A : Type} (attempt : A -> Disk -> Disk * list Host.HostEvent * bool).
End ConnectLoop.

Section RelayLoop.
Context `{Base64} `{UuidText} `{SecretBytes} `{X25519} `{Hash} `{Aead} `{JsonText}.
Context `{!Serde SignalPacket} `{!Serde ConsoleInputPacket} `{!Serde StoredFile} `{!SerdePretty StoredFile}.
Context `{!Serde AuthAck} `{!Serde DeviceChallenge}.
Context (show_message : Message -> string).

(** A connection gets a new host from the keys and the clients read at the
    start; the one of a physical console takes input as well. *)
Definition new_host (s : HostStart) : ScreenshotHost := host_new (hs_signing_key s) (hs_trusted s) (hs_policy s).
Definition connected (s : HostStart) (a : RelayDial) : bool :=
  is_ok (connect_device show_message (relay_url (hs_config s)) (hs_device_id s) (hs_signing_key s)
           (at_dialled a) (at_send a) (at_frames a)).2.

End RelayLoop.

(** ** Hosts that nobody attends *)

Section Unattended.
Context `{Base64} `{UuidText} `{SecretBytes} `{X25519} `{Hash} `{Aead} `{JsonText} `{Urls} `{JsonField} `{UuidParse}.
Context `{!Serde SignalPacket} `{!Serde ConsoleInputPacket} `{!Serde StoredFile} `{!SerdePretty StoredFile}.
Context `{!Serde AuthAck} `{!Serde DeviceChallenge}.
Context `{!Serde StoredKey} `{!SerdePretty StoredKey} `{!Serde ConfigFields} `{!SerdePretty ConfigFields}.
Context (show_message : Message -> string).



End Unattended.

(** ** Waiting between attempts *)

Lemma reconnect_delay_capped f : reconnect_delay (N.min u32_max f) = reconnect_delay f.
Proof.
  unfold reconnect_delay, u32_max. destruct (N.leb_spec f 4), (N.leb_spec (N.min 4294967295 f) 4); try lia; try done.
  by rewrite N.min_r by lia.
Qed.
Lemma reconnect_delays_eq f attempts : reconnect_delays (N.min u32_max f) attempts = reconnect_delays f attempts.
Proof.
  destruct attempts as [|[] attempts]; [done..|]. cbn [reconnect_delays].
  rewrite reconnect_delay_capped. do 2 f_equal. unfold u32_max. lia.
Qed.

(** A host comes back soon. After every attempt it waits at least one
    second and at most thirty; after a connection that ended it waits one, and
    each further failure in a row doubles the wait up to sixteen seconds, then
    it is thirty, for as long as the relay stays away. *)
Theorem reconnects_within_bounds failed attempts :
  Forall (fun w => from_secs 1 <= w <= from_secs 30)%N (reconnect_delays failed attempts) /\
  length (reconnect_delays failed attempts) = length attempts /\
  (forall n, reconnect_delays failed (true :: repeat false n) =
     map (fun i => from_secs (if (i <=? 4)%nat then 2 ^ N.of_nat i else 30)) (seq 0 (S n))).
Proof.
  assert (forall f, from_secs 1 <= reconnect_delay f <= from_secs 30)%N as B.
  { intros f. unfold reconnect_delay. destruct (N.leb_spec f 4); [|by vm_compute].
    assert (f = 0 \/ f = 1 \/ f = 2 \/ f = 3 \/ f = 4)%N as [->|[->|[->|[->| ->]]]] by lia; by vm_compute. }
  assert (forall i, reconnect_delay (N.of_nat i) = from_secs (if (i <=? 4)%nat then 2 ^ N.of_nat i else 30)) as D.
  { intros i. unfold reconnect_delay. destruct (N.leb_spec (N.of_nat i) 4), (Nat.leb_spec i 4); try lia; try done.
    by rewrite N.shiftl_1_l. }
  split_and!.
  - revert failed. induction attempts as [|c attempts IH]; intros failed; [constructor|]. constructor; [apply B|apply IH].
  - revert failed. induction attempts as [|c attempts IH]; intros failed; [done|]. cbn. by rewrite IH.
  - intros n. cbn [reconnect_delays seq map]. f_equal.
    assert (forall k, reconnect_delays (N.of_nat k) (repeat false n) =
      map (fun i => from_secs (if (i <=? 4)%nat then 2 ^ N.of_nat i else 30)) (seq k n)) as G.
    { induction n as [|n IH]; intros k; [done|]. cbn [repeat reconnect_delays seq map]. f_equal; [apply D|].
      rewrite reconnect_delays_eq, <-IH. f_equal. lia. }
    rewrite reconnect_delays_eq. apply (G 1).
Qed.

(** ** At concrete inputs *)

#[local] Instance secret_bytes : @SecretBytes toy_ed25519 := toy_secret_bytes.
#[local] Instance key_serde : Serde StoredKey := braced_serde StoredKey.
#[local] Instance key_pretty : SerdePretty StoredKey := braced_pretty StoredKey.
#[local] Instance config_serde : Serde ConfigFields := braced_serde ConfigFields.
#[local] Instance config_pretty : SerdePretty ConfigFields := braced_pretty ConfigFields.
#[local] Instance config_laws : SerdePrettyLaws ConfigFields := braced_pretty_laws ConfigFields.
#[local] Instance trusted_serde : Serde StoredFile := braced_serde StoredFile.
#[local] Instance trusted_pretty : SerdePretty StoredFile := braced_pretty StoredFile.
(** A path that ends differently is no file of a key store. *)
Lemma path_join_ends dir file : ends_with file (path_join dir file) = true.
Proof.
  apply ends_with_spec. unfold path_join. destruct (dir =? "")%string; [by exists []|].
  destruct (ends_with "/" dir); rewrite !as_bytes_app; [by eexists|]. exists (as_bytes dir ++ as_bytes "/"). by rewrite app_assoc.
Qed.
Lemma own_name_config : own_name "config.json".
Proof.
  intros dir file Hf E. pose proof (path_join_ends dir file) as P. rewrite E in P.
  repeat (apply elem_of_cons in Hf as [->|Hf]; [vm_compute in P; discriminate P|]). by apply not_elem_of_nil in Hf.
Qed.

Definition example_options : InitOptions :=
  {| opt_relay_url := "wss://relay.test/ws"; opt_relay_http_url := "https://relay.test"; opt_device_name := "host-1";
     opt_keystore_path := "keys"; opt_unattended_console := true; opt_allow_trusted := true; opt_enable_lan := true;
     opt_disable_relay := false; opt_lan_port := 47823 |}.
Definition example_env : CmdEnv :=
  {| config_io := quiet; signing_io := quiet; encryption_io := quiet; trust_io := quiet;
     signing_seed := be_bytes 32 7; encryption_seed := be_bytes 32 8;
     http := {| builds := Ok tt; answers _ := Ok ("id:" ++ uuid_to_string (uuid_from_u128 9))%string |} |}.
Definition failing_env : CmdEnv :=
  {| config_io := {| hidden := false; read_fault := None; write_fault := OpenFails "read-only"; remove_fault _ := None |};
     signing_io := quiet; encryption_io := quiet; trust_io := quiet;
     signing_seed := be_bytes 32 7; encryption_seed := be_bytes 32 8; http := http example_env |}.
Definition example_ops : list (CmdEnv * Command) :=
  [(example_env, Init example_options); (example_env, Register "t1" None);
   (failing_env, ConfigureConsoleTransports true false 5000); (example_env, ConfigureConsoleTransports true false 5001)].
Lemma example_whole : Forall (fun op => writes_whole (config_io op.1)) example_ops.
Proof. repeat constructor. Qed.

Definition example_disk : Disk := run_commands "config.json" example_ops ∅.
Lemma config_always_loads_witness :
  option_map (fun c => (uuid_as_bytes <$> cfg_device_id c, lan_port (lan (console_transports c)), relay_enabled (relay (console_transports c))))
    (config_now "config.json" example_disk) = Some (Some (be_bytes 16 9), 5001%N, false) /\
  absent_or_loads "config.json" example_disk.
Proof.
  split; [vm_cast_no_check (eq_refl (Some (Some (be_bytes 16 9), 5001%N, false)))|].
  apply (config_always_loads "config.json" example_ops ∅ own_name_config example_whole). by left.
Defined.
(** The configuration cannot be written: the command fails and nothing changed. *)
Lemma failed_command_changes_nothing_witness :
  let '(d', lines, r) := run_command failing_env "config.json" (SetDeviceId (uuid_from_u128 4)) example_disk in
  r = Err (Trusted.Io "read-only") /\ lines = [] /\ (forall q b, example_disk !! q = Some b -> d' !! q = Some b).
Proof.
  destruct (run_command failing_env "config.json" (SetDeviceId (uuid_from_u128 4)) example_disk) as [[d' lines] r] eqn:E.
  assert (r = Err (Trusted.Io "read-only")) as ->.
  { transitivity ((run_command failing_env "config.json" (SetDeviceId (uuid_from_u128 4)) example_disk).2); [by rewrite E|].
    vm_cast_no_check (eq_refl (Err (A := unit) (Trusted.Io "read-only"))). }
  assert (sound_io failing_env) as S by (repeat constructor).
  pose proof (failed_command_changes_nothing "config.json" failing_env _ _ _ _ _ own_name_config S E) as [L K].
  split; [done|]. split; [done|]. intros q b [Hq|(o & C & _)]%K; [done|discriminate C].
Defined.

(** A write of the configuration that is cut short leaves a file that does not
    load: the old configuration was truncated first. *)
Lemma cut_save_loses_config :
  let env := {| config_io := {| hidden := false; read_fault := None; write_fault := WriteFails 10 "no space left on device";
                                remove_fault _ := None |};
                signing_io := quiet; encryption_io := quiet; trust_io := quiet;
                signing_seed := []; encryption_seed := []; http := http example_env |} in
  is_ok (load_config quiet "config.json" example_disk) = true /\
  is_ok (load_config quiet "config.json"
    (run_command env "config.json" (SetDeviceId (uuid_from_u128 4)) example_disk).1.1) = false.
Proof. split; [vm_cast_no_check (eq_refl true)|vm_cast_no_check (eq_refl false)]. Qed.

(** The relay transport is enabled and the host is not registered: the task of
    the local network was spawned, and then the broker returns. *)
Definition unregistered_disk : Disk := run_commands "config.json" [(example_env, Init example_options)] ∅.
Lemma lan_lost_without_registration :
  map (fun t => match t with LanTask _ _ transport _ _ => Some (lan_port transport) | RelayTask _ => None end)
    (start_physical_console example_env "config.json" unregistered_disk).1.2 = [Some 47823%N] /\
  is_ok (start_physical_console example_env "config.json" unregistered_disk).2 = false.
Proof. split; [vm_cast_no_check (eq_refl [Some 47823%N])|vm_cast_no_check (eq_refl false)]. Qed.

(** An approval by the operator is forgotten with the connection it came on:
    the next connection starts from the clients read at the start, and its next
    approval writes them back without the earlier one. *)
Lemma approve_saves key t d : let '(t', d', r) := trust NoFault key
    {| name := "approved-on-connect"; can_view := true; can_control := false; can_unattended_console := false |} t d in
  r = Ok tt /\ load_or_empty None (path t) d' = Ok {| path := path t; entries := entries t' |} /\ path t' = path t /\
  entries t' = <[trim key := {| name := "approved-on-connect"; can_view := true; can_control := false;
                                can_unattended_console := false |}]> (entries t).
Proof.
  unfold trust, save. cbn [to_json_pretty trusted_pretty braced_pretty path entries write_secret map_err].
  split; [done|]. split; [|done]. unfold load_or_empty, read_to_string. rewrite lookup_insert_eq.
  cbn [fmap option_fmap option_map ok_or map_err]. rewrite from_utf8_as_bytes.
  set (e := <[trim key := _]> (entries t)).
  assert (from_json (braced (encode e)) = Ok e) as -> by (by apply (@from_to_json_pretty _ _ _ (braced_pretty_laws StoredFile))).
  done.
Qed.
Lemma reconnect_forgets_approval (s : HostStart) d key1 key2 : trim key1 <> trim key2 -> get (hs_trusted s) key1 = None ->
  let approve key d :=
    disk (trust_approved NoFault key {| host := new_host s; disk := d; Host.log := [] |}).1 in
  let d1 := approve key1 d in
  (exists t, load_or_empty None (path (hs_trusted s)) d1 = Ok t /\ is_Some (get t key1)) /\
  (exists t, load_or_empty None (path (hs_trusted s)) (approve key2 d1) = Ok t /\ get t key1 = None).
Proof.
  intros N G. cbv zeta. unfold trust_approved. cbn [host disk new_host host_new Host.trusted].
  pose proof (approve_saves key1 (hs_trusted s) d) as A1. destruct (trust _ key1 _ _ d) as [[t1 d1] r1].
  destruct A1 as (_ & L1 & _ & E1). cbn [fst disk].
  pose proof (approve_saves key2 (hs_trusted s) d1) as A2. destruct (trust _ key2 _ _ d1) as [[t2 d2] r2].
  destruct A2 as (_ & L2 & _ & E2). cbn [fst disk]. split; (eexists; split; [eassumption|]); unfold get in *; cbn [entries].
  - rewrite E1, lookup_insert_eq. by eexists.
  - by rewrite E2, lookup_insert_ne by congruence.
Qed.

(** *** Two hosts that serve *)

#[local] Instance relayed_packets : Serde SignalPacket := toy_serde SignalPacket.
#[local] Instance relayed_inputs : Serde ConsoleInputPacket := toy_serde ConsoleInputPacket.
#[local] Existing Instances FlatJson.flat_json FlatJson.ack_serde FlatJson.challenge_serde.
