(* ===== verification/Capture.v ===== *)
(** * The encoders of the live stream

    rivetlink-agent/src/capture/screencast.rs and capture/h264.rs: the tile
    encoder, which sends the tiles that changed since the last frame that was
    queued, and the controller around the video encoder, which adapts its
    bitrate and never lets an encoded frame be dropped. JPEG and H.264
    themselves are parameters, and so are the clock and the queue. *)
From Stdlib Require Import NArith Lia Strings.String Strings.Byte.
From S2P Require Import Prelude Text Interfaces Instances Protocol Trusted SharedFolder Lan Worker.

(** What [Sender::try_send] answers. *)
Inductive QueueReply := QueueOk | QueueFull | QueueClosed.

(** ** Tiles *)

Module Tiles.
Definition TILE : N := 128.
Definition KEYFRAME_INTERVAL : N := 160.
Definition HEARTBEAT : N := 1000 * 1000000.

Record TileRect := { fw : N; x : N; y : N; w : N; h : N }.
Record TileEncoder := { prev : option (N * N * bytes); counter : N; last_sent : N }.
Definition tile_encoder_new (now : N) : TileEncoder := {| prev := None; counter := 0; last_sent := now |}.

Definition seqN (n : N) : list N := map N.of_nat (seq 0 (N.to_nat n)).
(** [&data[start..stop]]; [None] is a panic. *)
Definition slice (data : bytes) (start stop : N) : option bytes :=
  if (start <=? stop)%N && (stop <=? len data)%N
  then Some (take (N.to_nat (stop - start)) (drop (N.to_nat start) data)) else None.
Definition tile_row (data : bytes) (r : TileRect) (row : N) : option bytes :=
  let start := (((y r + row) * fw r + x r) * 4)%N in slice data start (start + w r * 4).
(** The rows up to the first that differs. *)
Fixpoint rows_differ (cur prev : bytes) (r : TileRect) (rows : list N) : option bool :=
  match rows with
  | [] => Some false
  | row :: rest =>
      let_some a := tile_row cur r row else None in
      let_some b := tile_row prev r row else None in
      if bool_decide (a = b) then rows_differ cur prev r rest else Some true
  end.
Definition tile_differs (cur prev : bytes) (r : TileRect) : option bool := rows_differ cur prev r (seqN (h r)).
Fixpoint tile_rows (frame : bytes) (r : TileRect) (rows : list N) : option bytes :=
  match rows with
  | [] => Some []
  | row :: rest =>
      let_some a := tile_row frame r row else None in
      let_some b := tile_rows frame r rest else None in
      Some (a ++ b)
  end.

Section Encoder.
(** A JPEG encoder of a BGRA image at a quality. *)
Variable jpeg : N -> N -> N -> bytes -> Result bytes string.
Context `{Base64}.

Definition encode_tile (frame : bytes) (r : TileRect) (quality : N) : option (Result bytes string) :=
  let_some buf := tile_rows frame r (seqN (h r)) else None in
  Some (jpeg quality (w r) (h r) buf).
Definition tile_rect (fw fh col row : N) : TileRect :=
  {| fw := fw; x := col * TILE; y := row * TILE;
     w := N.min TILE (fw - col * TILE); h := N.min TILE (fh - row * TILE) |}.
Definition to_u32 (n : N) : N := if (n <=? u32_max)%N then n else 0.

(** The tiles in row-major order. *)
Fixpoint push_tiles (data : bytes) (prev_data : option bytes) (keyframe : bool) (quality fw fh cols : N)
  (tiles : list (N * N)) : option (list TilePatch) :=
  match tiles with
  | [] => Some []
  | (row, col) :: rest =>
      let r := tile_rect fw fh col row in
      let_some changed := (if keyframe then Some true
                           else match prev_data with
                                | Some pd => tile_differs data pd r
                                | None => Some true end) else None in
      if changed : bool then
        let_some encoded := encode_tile data r quality else None in
        let_some more := push_tiles data prev_data keyframe quality fw fh cols rest else None in
        Some (match encoded with
              | Ok jpeg => {| tile_index := to_u32 (row * cols + col); jpeg_b64 := b64_encode jpeg |} :: more
              | Err _ => more
              end)
      else push_tiles data prev_data keyframe quality fw fh cols rest
  end.
Definition div_up (a b : N) : N := ((a + b - 1) / b)%N.
Definition tile_positions (fw fh : N) : list (N * N) :=
  flat_map (fun row => map (pair row) (seqN (div_up fw TILE))) (seqN (div_up fh TILE)).
Definition frame_delta (fw fh : N) (keyframe : bool) (tiles : list TilePatch) : FrameDelta :=
  {| fd_w := to_u32 fw; fd_h := to_u32 fh; fd_tile := to_u32 TILE; fd_keyframe := keyframe; fd_tiles := tiles |}.

(** The encoder, the frame given to the queue, and whether to go on; [None] is
    a panic. [queue] answers if a frame is given to it. *)
Definition Pushed : Type := TileEncoder * option FrameDelta * bool.
Definition tiles_push (now sent_at : N) (queue : QueueReply) (fw fh quality : N) (data : bytes) (e : TileEncoder)
  : option Pushed :=
  if (fw =? 0)%N || (fh =? 0)%N || (len data <? (fw * fh * 4) mod 2 ^ 64)%N then Some (e, None, true)
  else
    let dims_changed := match prev e with
                        | Some (pw, ph, _) => negb (pw =? fw)%N || negb (ph =? fh)%N
                        | None => true end in
    let keyframe := dims_changed || (counter e mod KEYFRAME_INTERVAL =? 0)%N in
    let e := {| prev := prev e; counter := (counter e + 1) mod 2 ^ 32; last_sent := last_sent e |} in
    let_some tiles := push_tiles data (option_map snd (prev e)) keyframe quality fw fh (div_up fw TILE)
                        (tile_positions fw fh) else None in
    if (match tiles with [] => true | _ => false end) && negb keyframe &&
       (duration_since now (last_sent e) <? HEARTBEAT)%N
    then Some (e, None, true)
    else
      let delta := frame_delta fw fh keyframe tiles in
      Some (match queue with
            | QueueOk => ({| prev := Some (fw, fh, data); counter := counter e; last_sent := sent_at |}, Some delta, true)
            | QueueFull => (e, Some delta, true)
            | QueueClosed => (e, Some delta, false)
            end).
Definition tiles_heartbeat (now sent_at : N) (queue : QueueReply) (e : TileEncoder) : Pushed :=
  match prev e with
  | None => (e, None, true)
  | Some (pw, ph, _) =>
      if (duration_since now (last_sent e) <? HEARTBEAT)%N then (e, None, true)
      else
        let delta := frame_delta pw ph false [] in
        match queue with
        | QueueOk => ({| prev := prev e; counter := counter e; last_sent := sent_at |}, Some delta, true)
        | QueueFull => (e, Some delta, true)
        | QueueClosed => (e, Some delta, false)
        end
  end.

(** ** The encoder and its viewer *)

Inductive Turn :=
| PushFrame (now sent_at : N) (queue : QueueReply) (fw fh quality : N) (data : bytes)
| Heartbeat (now sent_at : N) (queue : QueueReply).
Definition turn (t : Turn) (e : TileEncoder) : option Pushed :=
  match t with
  | PushFrame now sent_at queue fw fh quality data => tiles_push now sent_at queue fw fh quality data e
  | Heartbeat now sent_at queue => Some (tiles_heartbeat now sent_at queue e)
  end.
Definition turn_queue (t : Turn) : QueueReply :=
  match t with PushFrame _ _ q _ _ _ _ | Heartbeat _ _ q => q end.
(** The frames that were queued, until the consumer is gone. *)
Fixpoint tiles_run (ts : list Turn) (e : TileEncoder) : option (TileEncoder * list FrameDelta) :=
  match ts with
  | [] => Some (e, [])
  | t :: ts =>
      let_some (e, delta, go) := turn t e else None in
      if go : bool then
        let_some (e', more) := tiles_run ts e else None in
        Some (e', match delta, turn_queue t with Some d, QueueOk => d :: more | _, _ => more end)
      else Some (e, [])
  end.

(** The viewer's picture, as documented for [FrameDelta]: a keyframe rebuilds
    it, another frame replaces the tiles it holds. *)
Definition Picture : Type := N * N * gmap N string.
Definition show (p : Picture) (d : FrameDelta) : Picture :=
  let base := if fd_keyframe d then ∅ else p.2 in
  (fd_w d, fd_h d, foldl (fun m t => <[tile_index t := jpeg_b64 t]> m) base (fd_tiles d)).
(** The reference: the picture of a frame as a whole. *)
Definition whole_picture (fw fh quality : N) (data : bytes) : option Picture :=
  let_some tiles := push_tiles data None true quality fw fh (div_up fw TILE) (tile_positions fw fh) else None in
  Some (show (0, 0, ∅)%N (frame_delta fw fh true tiles)).
End Encoder.

(** *** No slice is out of range *)

Definition frame_ok (fw fh : N) (data : bytes) : Prop :=
  (0 < fw)%N /\ (0 < fh)%N /\ (fw * fh <= u32_max)%N /\ (fw * fh * 4 <= len data)%N.

Lemma elem_of_seqN n k : k ∈ seqN n <-> (k < n)%N.
Proof.
  unfold seqN. rewrite list_elem_of_fmap. split.
  - intros (j & -> & Hj%elem_of_seq). lia.
  - intros L. exists (N.to_nat k). rewrite N2Nat.id, elem_of_seq. split; [done|lia].
Qed.
Lemma elem_of_positions fw fh row col : (0 < fw)%N -> (0 < fh)%N ->
  (row, col) ∈ tile_positions fw fh ->
  (col * TILE < fw)%N /\ (row * TILE < fh)%N /\ (col < div_up fw TILE)%N /\ (row < div_up fh TILE)%N.
Proof.
  intros Hw Hh Hp. unfold tile_positions in Hp. apply list_elem_of_In, in_flat_map in Hp as (r & Hr & Hc).
  apply list_elem_of_In, elem_of_seqN in Hr. apply list_elem_of_In, list_elem_of_fmap in Hc as (c & E & Hc).
  apply elem_of_seqN in Hc. injection E as -> ->.
  assert (forall n k, (0 < n)%N -> (k < div_up n TILE)%N -> (k * TILE < n)%N) as D.
  { clear. intros n k Hn Hk. unfold div_up, TILE in *.
    pose proof (N.Div0.mul_div_le (n + 128 - 1) 128). nia. }
  split_and!; auto.
Qed.
Lemma div_up_le n : (0 < n)%N -> (div_up n TILE <= n)%N.
Proof. intros L. unfold div_up, TILE. apply N.Div0.div_le_upper_bound; lia. Qed.

Lemma slice_ok data start stop : (start <= stop)%N -> (stop <= len data)%N ->
  exists b, slice data start stop = Some b /\ len b = (stop - start)%N.
Proof.
  intros L1 L2. unfold slice. rewrite (proj2 (N.leb_le _ _) L1), (proj2 (N.leb_le _ _) L2). eexists. split; [done|].
  unfold len in *. rewrite length_take, length_drop. lia.
Qed.
Lemma tile_row_ok fw fh data col row k : frame_ok fw fh data -> (col * TILE < fw)%N -> (row * TILE < fh)%N ->
  let r := tile_rect fw fh col row in
  (k < h r)%N -> exists b, tile_row data r k = Some b /\ len b = (w r * 4)%N.
Proof.
  intros (Hw & Hh & _ & Hl) Hc Hr r Hk. unfold tile_row. subst r. cbn in *.
  assert (col * TILE + N.min TILE (fw - col * TILE) <= fw)%N as B1 by lia.
  assert (row * TILE + k < fh)%N as B2 by lia.
  destruct (slice_ok data (((row * TILE + k) * fw + col * TILE) * 4)
    (((row * TILE + k) * fw + col * TILE) * 4 + N.min TILE (fw - col * TILE) * 4)) as (b & E & L); [lia| |].
  - etrans; [|exact Hl]. assert ((row * TILE + k) * fw + fw <= fh * fw)%N as B3.
    { rewrite <-(N.mul_1_l fw) at 2. rewrite <-N.mul_add_distr_r. apply N.mul_le_mono_r. lia. }
    rewrite (N.mul_comm fw fh). lia.
  - exists b. split; [exact E|]. rewrite L. lia.
Qed.
Lemma tile_rows_ok data r rows : (forall k, k ∈ rows -> exists b, tile_row data r k = Some b /\ len b = (w r * 4)%N) ->
  exists b, tile_rows data r rows = Some b /\ len b = (len rows * (w r * 4))%N.
Proof.
  induction rows as [|k rows IH]; intros H; [by exists []|]. cbn [tile_rows].
  destruct (H k) as (a & -> & La); [by left|]. destruct IH as (b & -> & Lb); [intros j Hj; apply H; by right|].
  exists (a ++ b). split; [done|]. unfold len in *. rewrite length_app. cbn [length]. lia.
Qed.
Lemma rows_differ_ok cur prv r rows :
  (forall k, k ∈ rows -> exists b, tile_row cur r k = Some b /\ len b = (w r * 4)%N) ->
  (forall k, k ∈ rows -> exists b, tile_row prv r k = Some b /\ len b = (w r * 4)%N) ->
  exists d, rows_differ cur prv r rows = Some d /\
    (d = false -> tile_rows cur r rows = tile_rows prv r rows).
Proof.
  induction rows as [|k rows IH]; intros H1 H2; [by exists false|]. cbn [rows_differ tile_rows].
  destruct (H1 k) as (a & -> & La); [by left|]. destruct (H2 k) as (b & -> & Lb); [by left|].
  case_bool_decide as E; [|by exists true]. subst b.
  destruct IH as (d & -> & Hd); [intros j Hj; apply H1; by right|intros j Hj; apply H2; by right|].
  exists d. split; [done|]. intros Ed. by rewrite Hd.
Qed.

(** *** What a frame sends *)

Section Sends.
Variable jpeg : N -> N -> N -> bytes -> Result bytes string.
Context `{Base64}.
(** The encoder fails only for images it cannot hold. *)
Hypothesis jpeg_works : forall q tw th b, (0 < tw <= TILE)%N -> (0 < th <= TILE)%N ->
  len b = (tw * th * 4)%N -> is_ok (jpeg q tw th b) = true.
Variable quality : N.

Definition pixels (fw fh : N) (data : bytes) (p : N * N) : bytes :=
  let r := tile_rect fw fh p.2 p.1 in default [] (tile_rows data r (seqN (h r))).
Definition patch (fw fh : N) (data : bytes) (p : N * N) : string :=
  let r := tile_rect fw fh p.2 p.1 in
  match jpeg quality (w r) (h r) (pixels fw fh data p) with Ok j => b64_encode j | Err _ => ""%string end.
Definition tile_id (fw : N) (p : N * N) : N := (p.1 * div_up fw TILE + p.2)%N.
Definition differs (fw fh : N) (keyframe : bool) (prv : option bytes) (data : bytes) (p : N * N) : bool :=
  keyframe || match prv with
              | Some pd => default true (tile_differs data pd (tile_rect fw fh p.2 p.1))
              | None => true end.

Lemma pixels_ok fw fh data p : frame_ok fw fh data -> p ∈ tile_positions fw fh ->
  let r := tile_rect fw fh p.2 p.1 in
  tile_rows data r (seqN (h r)) = Some (pixels fw fh data p) /\
  is_ok (jpeg quality (w r) (h r) (pixels fw fh data p)) = true.
Proof.
  destruct p as [row col]. intros F Hp r. cbn [fst snd] in r. pose proof F as (Hw & Hh & _ & _).
  apply elem_of_positions in Hp as (Hc & Hr & _); [|done..].
  destruct (tile_rows_ok data r (seqN (h r))) as (b & E & L).
  { intros k Hk%elem_of_seqN. by apply (tile_row_ok fw fh). }
  assert (pixels fw fh data (row, col) = b) as -> by (unfold pixels; cbn [fst snd]; fold r; by rewrite E).
  split; [exact E|]. apply jpeg_works; [subst r; cbn [w h tile_rect]; unfold TILE in *; lia..|]. rewrite L.
  unfold len at 1. unfold seqN. rewrite length_map, length_seq. lia.
Qed.
Lemma differs_ok fw fh (keyframe : bool) prv data p : frame_ok fw fh data ->
  (forall pd, prv = Some pd -> frame_ok fw fh pd) -> p ∈ tile_positions fw fh ->
  (if keyframe then Some true
   else match prv with Some pd => tile_differs data pd (tile_rect fw fh p.2 p.1) | None => Some true end) =
    Some (differs fw fh keyframe prv data p) /\
  (differs fw fh keyframe prv data p = false -> forall pd, prv = Some pd ->
    patch fw fh data p = patch fw fh pd p).
Proof.
  intros F Fp Hp. unfold differs. destruct keyframe; [done|]. destruct prv as [pd|]; [|done].
  destruct p as [row col]. pose proof F as (Hw & Hh & _ & _).
  pose proof (elem_of_positions fw fh row col Hw Hh Hp) as (Hc & Hr & _). cbn [fst snd].
  destruct (rows_differ_ok data pd (tile_rect fw fh col row) (seqN (h (tile_rect fw fh col row)))) as (d & E & Hd).
  - intros k Hk%elem_of_seqN. by apply (tile_row_ok fw fh).
  - intros k Hk%elem_of_seqN. apply (tile_row_ok fw fh); auto.
  - unfold tile_differs. rewrite E. cbn. split; [done|]. intros -> pd' [= <-].
    unfold patch, pixels. cbn [fst snd]. by rewrite Hd.
Qed.
Lemma tile_id_fits fw fh data p : frame_ok fw fh data -> p ∈ tile_positions fw fh ->
  to_u32 (tile_id fw p) = tile_id fw p.
Proof.
  destruct p as [row col]. intros (Hw & Hh & Hm & _) Hp.
  apply elem_of_positions in Hp as (Hc & Hr & Hc' & Hr'); [|done..].
  pose proof (div_up_le fw Hw). pose proof (div_up_le fh Hh). unfold to_u32, tile_id. cbn [fst snd].
  assert (row * div_up fw TILE + col < div_up fh TILE * div_up fw TILE)%N by nia.
  assert (div_up fh TILE * div_up fw TILE <= fh * fw)%N by nia.
  by rewrite (proj2 (N.leb_le _ _)) by lia.
Qed.
Lemma tile_id_inj fw fh p q : (0 < fw)%N -> (0 < fh)%N ->
  p ∈ tile_positions fw fh -> q ∈ tile_positions fw fh -> tile_id fw p = tile_id fw q -> p = q.
Proof.
  destruct p as [r1 c1], q as [r2 c2]. intros Hw Hh Hp Hq E.
  apply elem_of_positions in Hp as (_ & _ & Hc1 & _); [|done..].
  apply elem_of_positions in Hq as (_ & _ & Hc2 & _); [|done..].
  unfold tile_id in E. cbn [fst snd] in E. set (c := div_up fw TILE) in *.
  rewrite (N.mul_comm r1), (N.mul_comm r2) in E. apply N.div_mod_unique in E as [-> ->]; done.
Qed.
Lemma push_tiles_ok fw fh keyframe prv data ps : frame_ok fw fh data ->
  (forall pd, prv = Some pd -> frame_ok fw fh pd) -> (forall p, p ∈ ps -> p ∈ tile_positions fw fh) ->
  push_tiles jpeg data prv keyframe quality fw fh (div_up fw TILE) ps =
  Some (map (fun p => {| tile_index := tile_id fw p; jpeg_b64 := patch fw fh data p |})
            (filter (fun p => differs fw fh keyframe prv data p = true) ps)).
Proof.
  intros F Fp Hps. induction ps as [|[row col] ps IH]; [done|]. cbn [push_tiles].
  destruct (differs_ok fw fh keyframe prv data (row, col) F Fp) as [D0 _]; [apply Hps; by left|].
  cbn [fst snd] in D0. rewrite D0. clear D0.
  rewrite IH by (intros p Hp; apply Hps; by right).
  destruct (differs fw fh keyframe prv data (row, col)) eqn:D.
  - rewrite filter_cons_True by done. cbn [map].
    destruct (pixels_ok fw fh data (row, col) F) as [E J]; [apply Hps; by left|].
    unfold encode_tile. cbn [fst snd] in E, J. rewrite E.
    destruct (jpeg _ _ _ _) as [j|] eqn:Ej; [|done].
    assert (patch fw fh data (row, col) = b64_encode j) as ->
      by (unfold patch; cbn [fst snd]; by rewrite Ej).
    pose proof (tile_id_fits fw fh data (row, col) F ltac:(apply Hps; by left)) as T.
    unfold tile_id at 1 in T. cbn [fst snd] in T. by rewrite T.
  - rewrite filter_cons_False by congruence. done.
Qed.

(** *** Pictures *)

Definition put (fw fh : N) (data : bytes) (m : gmap N string) (p : N * N) : gmap N string :=
  <[tile_id fw p := patch fw fh data p]> m.
Lemma put_all_out fw fh data ps m i : (forall p, p ∈ ps -> tile_id fw p <> i) ->
  foldl (put fw fh data) m ps !! i = m !! i.
Proof.
  revert m. induction ps as [|p ps IH]; intros m H'; [done|]. cbn. rewrite IH by (intros q Hq; apply H'; by right).
  apply lookup_insert_ne, H'. by left.
Qed.
Lemma put_all_in fw fh data ps m p : (0 < fw)%N -> (0 < fh)%N ->
  (forall q, q ∈ ps -> q ∈ tile_positions fw fh) -> p ∈ ps ->
  foldl (put fw fh data) m ps !! tile_id fw p = Some (patch fw fh data p).
Proof.
  intros Hw Hh. revert m. induction ps as [|q ps IH]; intros m Hps Hp; [by apply not_elem_of_nil in Hp|].
  cbn. destruct (decide (p ∈ ps)) as [Hin|Hout]; [apply IH; [intros r Hr; apply Hps; by right|done]|].
  apply elem_of_cons in Hp as [->|?]; [|done]. rewrite put_all_out.
  - apply lookup_insert_eq.
  - intros r Hr E. apply (tile_id_inj fw fh) in E as ->; [done..| |]; apply Hps; [by right|by left].
Qed.
(** The picture of a whole frame, and that changed tiles alone lead to it. *)
Definition full (fw fh : N) (data : bytes) (m : gmap N string) : gmap N string :=
  foldl (put fw fh data) m (tile_positions fw fh).
Lemma changed_is_full fw fh pd data m : frame_ok fw fh data -> frame_ok fw fh pd ->
  foldl (put fw fh data) (full fw fh pd m)
    (filter (fun p => differs fw fh false (Some pd) data p = true) (tile_positions fw fh)) = full fw fh data m.
Proof.
  intros F Fp. pose proof F as (Hw & Hh & _). apply map_eq. intros i.
  destruct (decide (i ∈ tile_id fw <$> tile_positions fw fh)) as [(p & -> & Hp)%list_elem_of_fmap|Ho].
  - unfold full at 2. rewrite (put_all_in fw fh data (tile_positions fw fh) m p) by done.
    destruct (differs fw fh false (Some pd) data p) eqn:D.
    + apply (put_all_in fw fh data); [done|done| |by apply list_elem_of_filter].
      intros q Hq. by apply list_elem_of_filter in Hq as [_ Hq].
    + rewrite put_all_out.
      * unfold full. rewrite (put_all_in fw fh pd) by done. f_equal. symmetry.
        by eapply (differs_ok fw fh false (Some pd) data p F); [intros ? [= <-]|done|done|done].
      * intros q Hq E. apply list_elem_of_filter in Hq as [Dq Hq].
        apply (tile_id_inj fw fh) in E as ->; [congruence|done..].
  - assert (forall p, p ∈ tile_positions fw fh -> tile_id fw p <> i) as Ho'.
    { intros p Hp <-. apply Ho. by apply list_elem_of_fmap_2. }
    unfold full. rewrite !put_all_out; [done|done|done|].
    intros p Hp. apply list_elem_of_filter in Hp as [_ Hp]. by apply Ho'.
Qed.
Lemma full_again fw fh pd data m : (0 < fw)%N -> (0 < fh)%N -> full fw fh data (full fw fh pd m) = full fw fh data m.
Proof.
  intros Hw Hh. apply map_eq. intros i.
  destruct (decide (i ∈ tile_id fw <$> tile_positions fw fh)) as [(p & -> & Hp)%list_elem_of_fmap|Ho].
  - unfold full. by rewrite !(put_all_in fw fh data _ _ p) by done.
  - assert (forall p, p ∈ tile_positions fw fh -> tile_id fw p <> i) as Ho'.
    { intros p Hp <-. apply Ho. by apply list_elem_of_fmap_2. }
    unfold full. by rewrite !put_all_out by done.
Qed.
Lemma show_delta fw fh keyframe prv data p : frame_ok fw fh data ->
  show p (frame_delta fw fh keyframe (map (fun p => {| tile_index := tile_id fw p; jpeg_b64 := patch fw fh data p |})
            (filter (fun p => differs fw fh keyframe prv data p = true) (tile_positions fw fh)))) =
  (fw, fh, foldl (put fw fh data) (if keyframe then ∅ else p.2)
     (filter (fun p => differs fw fh keyframe prv data p = true) (tile_positions fw fh))).
Proof.
  intros (Hw & Hh & Hm & _). unfold show, frame_delta. cbn [fd_w fd_h fd_keyframe fd_tiles].
  assert (fw <= u32_max /\ fh <= u32_max)%N as [L1 L2] by (split; nia).
  unfold to_u32. rewrite (proj2 (N.leb_le _ _) L1), (proj2 (N.leb_le _ _) L2). f_equal.
  generalize (if keyframe then ∅ else p.2 : gmap N string). generalize (filter (fun p => differs fw fh keyframe prv data p = true) (tile_positions fw fh)).
  intros l. induction l as [|q l IH]; intros m; [done|]. cbn. apply IH.
Qed.
Lemma filter_all {A} (P : A -> Prop) `{forall x, Decision (P x)} (l : list A) : (forall x, x ∈ l -> P x) -> filter P l = l.
Proof.
  induction l as [|a l IH]; intros H'; [done|]. rewrite filter_cons_True by (apply H'; by left).
  f_equal. apply IH. intros b Hb. apply H'. by right.
Qed.
Lemma keyframe_all fw fh prv data :
  filter (fun p => differs fw fh true prv data p = true) (tile_positions fw fh) = tile_positions fw fh.
Proof. by apply filter_all. Qed.
Lemma whole_picture_ok fw fh data : frame_ok fw fh data ->
  whole_picture jpeg fw fh quality data = Some (fw, fh, full fw fh data ∅).
Proof.
  intros F. unfold whole_picture.
  rewrite (push_tiles_ok fw fh true None data (tile_positions fw fh) F) by done.
  cbn [mbind option_bind]. rewrite (show_delta fw fh true None data) by done.
  by rewrite keyframe_all.
Qed.

(** *** The encoder and its viewer *)

Definition synced (e : TileEncoder) (p : Picture) : Prop :=
  forall fw fh data, prev e = Some (fw, fh, data) ->
    frame_ok fw fh data /\ p = (fw, fh, full fw fh data ∅).
Definition turn_fits (t : Turn) : Prop :=
  match t with
  | PushFrame _ _ _ fw fh q _ => q = quality /\ (fw * fh <= u32_max)%N
  | Heartbeat _ _ _ => True
  end.
Lemma turn_synced t e p : turn_fits t -> synced e p ->
  exists e' delta go, turn jpeg t e = Some (e', delta, go) /\
    synced e' (match delta, turn_queue t with Some d, QueueOk => show p d | _, _ => p end) /\
    (delta = None \/ turn_queue t <> QueueOk -> prev e' = prev e) /\
    (go = false -> turn_queue t = QueueClosed).
Proof.
  intros T S. destruct t as [now sent_at queue fw fh q data|now sent_at queue]; cbn [turn turn_queue].
  - destruct T as [-> Hm]. unfold tiles_push.
    destruct ((fw =? 0)%N || _ || _)%N eqn:E.
    { exists e, None, true. split; [done|]. by destruct queue. }
    apply orb_false_iff in E as [[E1%N.eqb_neq E2%N.eqb_neq]%orb_false_iff E3%N.ltb_ge].
    rewrite N.mod_small in E3 by (unfold u32_max in Hm; change (2 ^ 64)%N with 18446744073709551616%N; lia).
    assert (frame_ok fw fh data) as F by (unfold frame_ok; split_and!; lia).
    set (dims := match prev e with Some (pw, ph, _) => _ | None => true end).
    set (keyframe := (dims || _)%N). cbv zeta. cbn [prev counter last_sent].
    assert (keyframe = true \/ exists pd, prev e = Some (fw, fh, pd)) as K.
    { destruct keyframe eqn:Ek; [by left|right]. subst keyframe. apply orb_false_iff in Ek as [Ed _].
      subst dims. destruct (prev e) as [[[pw ph] pd]|]; [|done].
      apply orb_false_iff in Ed as [D1%negb_false_iff%N.eqb_eq D2%negb_false_iff%N.eqb_eq]. subst. by exists pd. }
    set (prv := if keyframe then None else option_map snd (prev e)).
    assert (forall ps, push_tiles jpeg data (option_map snd (prev e)) keyframe quality fw fh (div_up fw TILE) ps =
      push_tiles jpeg data prv keyframe quality fw fh (div_up fw TILE) ps) as Eprv.
    { subst prv. destruct keyframe; [|done]. clear. intros ps. induction ps as [|[row col] ps IH]; [done|].
      cbn [push_tiles mbind option_bind]. by rewrite IH. }
    assert (forall pd, prv = Some pd -> frame_ok fw fh pd) as Fp.
    { subst prv. destruct keyframe; [done|]. destruct K as [?|(pd & Ep)]; [done|]. rewrite Ep.
      intros pd' [= <-]. by destruct (S _ _ _ Ep). }
    rewrite Eprv, (push_tiles_ok fw fh keyframe prv data (tile_positions fw fh) F Fp) by done.
    cbn [mbind option_bind].
    destruct (_ && (duration_since now (last_sent e) <? HEARTBEAT)%N).
    { eexists _, None, true. split; [done|]. by destruct queue. }
    assert (show p (frame_delta fw fh keyframe
       (map (fun p => {| tile_index := tile_id fw p; jpeg_b64 := patch fw fh data p |})
         (filter (fun p => differs fw fh keyframe prv data p = true) (tile_positions fw fh)))) =
       (fw, fh, full fw fh data ∅)) as Sh.
    { rewrite show_delta by done. do 2 f_equal. destruct keyframe eqn:Ek.
      - by rewrite keyframe_all.
      - destruct K as [?|(pd & Ep)]; [done|]. destruct (S _ _ _ Ep) as [Fpd ->]. cbn [snd].
        subst prv. rewrite Ep. cbn [option_map snd]. by apply changed_is_full. }
    destruct queue; eexists _, _, _; (split; [reflexivity|]).
    + split; [|split; [by intros [?|?]|done]]. intros w' h' d' Ew. cbn in Ew. injection Ew as <- <- <-. by split.
    + by split.
    + by split.
  - unfold tiles_heartbeat. destruct (prev e) as [[[pw ph] pd]|] eqn:Ep.
    2:{ exists e, None, true. split; [done|]. by destruct queue. }
    destruct (_ <? HEARTBEAT)%N.
    { exists e, None, true. split; [done|]. by destruct queue. }
    destruct queue; eexists _, _, _; (split; [reflexivity|]).
    + split; [|split; [done|done]]. intros w' h' d' Ew. cbn in Ew. injection Ew as <- <- <-.
      destruct (S _ _ _ Ep) as [F ->]. split; [done|]. unfold show, frame_delta. cbn.
      destruct F as (Hw & Hh & Hm & _). assert (pw <= u32_max /\ ph <= u32_max)%N as [L1 L2] by (split; nia).
      unfold to_u32. by rewrite (proj2 (N.leb_le _ _) L1), (proj2 (N.leb_le _ _) L2).
    + by split.
    + by split.
Qed.

(** C21. The tiles make the picture. Whatever frames are captured, whichever the
    queue has no room for, and with the heartbeats in between, the encoder
    never reads outside a frame, and a viewer that shows the queued frames has
    at each point exactly the picture it would have from the last of them
    sent whole: a frame that is dropped is made up for by the next one. *)
Theorem tiles_make_the_picture now turns : Forall turn_fits turns ->
  exists e frames, tiles_run jpeg turns (tile_encoder_new now) = Some (e, frames) /\
    match prev e with
    | Some (fw, fh, data) => whole_picture jpeg fw fh quality data = Some (foldl show (0, 0, ∅)%N frames)
    | None => True
    end.
Proof.
  intros F. assert (forall e p, synced e p -> exists e' frames, tiles_run jpeg turns e = Some (e', frames) /\
    synced e' (foldl show p frames)) as G.
  { induction F as [|t turns T F IH]; intros e p S; [by exists e, []|]. cbn [tiles_run].
    destruct (turn_synced t e p T S) as (e' & delta & go & -> & S' & P' & G'). cbn [mbind option_bind].
    destruct go.
    - destruct (IH _ _ S') as (e2 & frames & -> & S2). cbn [mbind option_bind].
      destruct delta, (turn_queue t); by eexists _, _.
    - rewrite (G' eq_refl) in S'. exists e', []. split; [done|]. by destruct delta. }
  destruct (G (tile_encoder_new now) (0, 0, ∅)%N) as (e & frames & -> & S); [done|].
  exists e, frames. split; [done|]. destruct (prev e) as [[[fw fh] data]|] eqn:Ep; [|done].
  destruct (S _ _ _ Ep) as [Fr ->]. by apply whole_picture_ok.
Qed.
End Sends.

(** Two tiles; a frame is dropped, the next one makes up for it. *)
Definition ex_jpeg (q tw th : N) (b : bytes) : Result bytes string := Ok (byte_of_N q :: b).
Definition ex_frame (left right : byte) : bytes := replicate 512 left ++ replicate 8 right.
Definition ex_turns : list Turn :=
  [PushFrame 0 0 QueueOk 130 1 60 (ex_frame Byte.x00 Byte.x00);
   PushFrame 1 1 QueueFull 130 1 60 (ex_frame Byte.x01 Byte.x00);
   PushFrame 2 2 QueueOk 130 1 60 (ex_frame Byte.x01 Byte.x02);
   Heartbeat 2000000000 2000000000 QueueOk;
   PushFrame 2000000001 2000000001 QueueOk 130 1 60 (ex_frame Byte.x01 Byte.x03)].
Lemma tiles_make_the_picture_witness :
  (match tiles_run ex_jpeg ex_turns (tile_encoder_new 0) with
   | Some (_, frames) => map (fun d => (fd_keyframe d, map tile_index (fd_tiles d))) frames
   | None => [] end) = [(true, [0; 1]%N); (false, [0; 1]%N); (false, []); (false, [1%N])] /\
  exists e frames, tiles_run ex_jpeg ex_turns (tile_encoder_new 0) = Some (e, frames) /\
    match prev e with
    | Some (fw, fh, data) => whole_picture ex_jpeg fw fh 60 data = Some (foldl show (0, 0, ∅)%N frames)
    | None => True
    end.
Proof.
  split; [vm_compute; reflexivity|].
  apply (tiles_make_the_picture ex_jpeg (fun _ _ _ _ _ _ _ => eq_refl) 60 0 ex_turns).
  repeat constructor; vm_compute; discriminate.
Defined.
End Tiles.


(** ** H.264

    The encoder produces frames by number; a delta needs the frame before it.
    [answer] is what the encoder does with a frame: an error, a skip by its
    rate control, or a frame, with a keyframe whenever one was forced or the
    encoder is new. *)
Module H264.
Definition MAX_BPS : N := 10000000.
Definition MIN_BPS : N := 1000000.
Definition H264_HEARTBEAT : N := 1000 * 1000000.
Definition RAISE_AFTER : N := from_secs 10.
Definition LOWER_HOLDOFF : N := from_secs 1.
Definition MIN_KEYFRAME_GAP : N := 500 * 1000000.
Definition i420_len (w h : N) : N := w * h + 2 * ((w / 2) * (h / 2)).

Record H264Encoder := {
  w : N;
  h : N;
  (** The number of frames encoded so far, and whether the next must be a
      keyframe: the encoder is new or one was forced. *)
  encoded : nat;
  intra_next : bool;
  bitrate : N;
  control : VideoControl;
  last : option bytes;
  pending : bool;
  last_sent : N;
  last_rate_change : N;
  last_congestion : N;
  last_forced_keyframe : option N;
}.
Inductive Answer := EncodeFails | Skipped | Encoded (keyframe : bool) (data : bytes).
(** The answers of the environment to one call: the time, whether an encoder
    can be built, and the queue. *)
Record Env := {
  now : N;
  builds : bool;
  closed : bool;
  capacity : N;
  answer : Answer;
  accepts : QueueReply;
}.
Definition h264_new (t fw fh : N) (c : VideoControl) (builds : bool) : Result H264Encoder AgentError :=
  if (fw =? 0)%N || (fh =? 0)%N || negb (fw mod 2 =? 0)%N || negb (fh mod 2 =? 0)%N
  then Err (Trusted.Lan "h264: unsupported frame size")
  else if negb builds then Err (Trusted.Lan "h264 encoder")
  else Ok {| w := fw; h := fh; encoded := 0; intra_next := true; bitrate := MAX_BPS; control := c;
             last := None; pending := false; last_sent := t; last_rate_change := t; last_congestion := t;
             last_forced_keyframe := None |}.

Definition with_control (c : VideoControl) (e : H264Encoder) : H264Encoder :=
  {| w := w e; h := h e; encoded := encoded e; intra_next := intra_next e; bitrate := bitrate e; control := c;
     last := last e; pending := pending e; last_sent := last_sent e; last_rate_change := last_rate_change e;
     last_congestion := last_congestion e; last_forced_keyframe := last_forced_keyframe e |}.
Definition with_last (data : option bytes) (waits : bool) (e : H264Encoder) : H264Encoder :=
  {| w := w e; h := h e; encoded := encoded e; intra_next := intra_next e; bitrate := bitrate e; control := control e;
     last := data; pending := waits; last_sent := last_sent e; last_rate_change := last_rate_change e;
     last_congestion := last_congestion e; last_forced_keyframe := last_forced_keyframe e |}.
Definition with_sent (t : N) (e : H264Encoder) : H264Encoder :=
  {| w := w e; h := h e; encoded := encoded e; intra_next := intra_next e; bitrate := bitrate e; control := control e;
     last := last e; pending := pending e; last_sent := t; last_rate_change := last_rate_change e;
     last_congestion := last_congestion e; last_forced_keyframe := last_forced_keyframe e |}.
Definition with_rate (intra : bool) (bps t_change t_congestion : N) (e : H264Encoder) : H264Encoder :=
  {| w := w e; h := h e; encoded := encoded e; intra_next := intra; bitrate := bps; control := control e;
     last := last e; pending := pending e; last_sent := last_sent e; last_rate_change := t_change;
     last_congestion := t_congestion; last_forced_keyframe := last_forced_keyframe e |}.
Definition force_intra (t : N) (e : H264Encoder) : H264Encoder :=
  {| w := w e; h := h e; encoded := encoded e; intra_next := true; bitrate := bitrate e; control := control e;
     last := last e; pending := pending e; last_sent := last_sent e; last_rate_change := last_rate_change e;
     last_congestion := last_congestion e; last_forced_keyframe := Some t |}.
Definition with_encoded (e : H264Encoder) : H264Encoder :=
  {| w := w e; h := h e; encoded := S (encoded e); intra_next := false; bitrate := bitrate e; control := control e;
     last := last e; pending := pending e; last_sent := last_sent e; last_rate_change := last_rate_change e;
     last_congestion := last_congestion e; last_forced_keyframe := last_forced_keyframe e |}.
Definition set_keyframe (b : bool) (c : VideoControl) : VideoControl :=
  {| vc_keyframe := b; vc_congested := vc_congested c |}.
Definition set_congested (b : bool) (c : VideoControl) : VideoControl :=
  {| vc_keyframe := vc_keyframe c; vc_congested := b |}.

(** A new encoder starts with a keyframe, so a pending request is met. *)
Definition set_bitrate (env : Env) (bps : N) (e : H264Encoder) : H264Encoder :=
  if (bps =? bitrate e)%N then e
  else if builds env
  then with_control (set_keyframe false (control e)) (with_rate true bps (now env) (last_congestion e) e)
  else with_rate (intra_next e) (bitrate e) (now env) (last_congestion e) e.
Definition adapt (env : Env) (fresh : bool) (e : H264Encoder) : H264Encoder :=
  let since t := duration_since (now env) t in
  let e :=
    if vc_congested (control e) then
      let e := with_rate (intra_next e) (bitrate e) (last_rate_change e) (now env)
                 (with_control (set_congested false (control e)) e) in
      if (LOWER_HOLDOFF <=? since (last_rate_change e))%N
      then set_bitrate env (N.max (bitrate e / 3 * 2) MIN_BPS) e else e
    else if fresh && (RAISE_AFTER <=? since (last_congestion e))%N && (RAISE_AFTER <=? since (last_rate_change e))%N
    then set_bitrate env (N.min (bitrate e / 4 * 5) MAX_BPS) e
    else e in
  let may_force := match last_forced_keyframe e with
                   | None => true
                   | Some at_ => (MIN_KEYFRAME_GAP <=? since at_)%N end in
  if may_force && vc_keyframe (control e)
  then force_intra (now env) (with_control (set_keyframe false (control e)) e) else e.

(** An encoded frame with its number and the picture it shows. *)
Record Coded := { number : nat; picture : bytes; frame : VideoFrame }.
Inductive EncodeResult := Failed | Nothing | Gives (f : Coded).
Section Encoding.
Context `{Base64}.
(** An empty bitstream is a skip. *)
Definition encode (env : Env) (data : bytes) (e : H264Encoder) : H264Encoder * EncodeResult :=
  match answer env with
  | EncodeFails => (e, Failed)
  | Skipped | Encoded _ [] => (e, Nothing)
  | Encoded keyframe (b :: bs) =>
      (with_encoded e,
       Gives {| number := encoded e; picture := data;
                frame := {| vf_w := Tiles.to_u32 (w e); vf_h := Tiles.to_u32 (h e); vf_keyframe := keyframe || intra_next e;
                            vf_data_b64 := b64_encode (b :: bs) |} |})
  end.
(** The frame that was queued, and whether to go on. *)
Definition h264_send (env : Env) (fresh : bool) (data : bytes) (e : H264Encoder)
  : H264Encoder * option Coded * bool :=
  if negb (len data =? i420_len (w e) (h e))%N then (e, None, true)
  else if closed env then (e, None, false)
  else if (capacity env =? 0)%N
  then (with_control (set_congested true (control e)) (with_last (Some data) true e), None, true)
  else
    let '(e, r) := encode env data (adapt env fresh e) in
    match r with
    | Nothing => (with_last (Some data) true e, None, true)
    | Failed => (with_control (request_keyframe (control e)) (with_last (Some data) true e), None, true)
    | Gives f =>
        let e := with_last (Some data) false e in
        match accepts env with
        | QueueOk => (with_sent (now env) e, Some f, true)
        | QueueFull => (with_control (request_keyframe (control e)) (with_last (last e) true e), None, true)
        | QueueClosed => (e, None, false)
        end
    end.
Definition h264_push (env : Env) (data : bytes) (e : H264Encoder) : H264Encoder * option Coded * bool :=
  h264_send env true data e.
Definition h264_heartbeat (env : Env) (e : H264Encoder) : H264Encoder * option Coded * bool :=
  if negb (pending e) && (duration_since (now env) (last_sent e) <? H264_HEARTBEAT)%N then (e, None, true)
  else match last e with
       | Some data => h264_send env false data (with_last None (pending e) e)
       | None => (e, None, negb (closed env))
       end.

(** ** One stream *)

Inductive VideoEvent :=
| Captured (env : Env) (data : bytes)
| Tick (env : Env)
| Feedback (keyframe congested : bool).
Definition video_event (ev : VideoEvent) (e : H264Encoder) : H264Encoder * option Coded * bool :=
  match ev with
  | Captured env data => h264_push env data e
  | Tick env => h264_heartbeat env e
  | Feedback keyframe congested =>
      let c := if keyframe then request_keyframe (control e) else control e in
      (with_control (if congested then report_congestion c else c) e, None, true)
  end.
(** The queued frames, up to the end of the stream or of the events. *)
Fixpoint video_run (evs : list VideoEvent) (e : H264Encoder) : H264Encoder * list Coded * bool :=
  match evs with
  | [] => (e, [], true)
  | ev :: evs =>
      match video_event ev e with
      | (e, f, true) => let '(e, more, go) := video_run evs e in (e, option_list f ++ more, go)
      | (e, f, false) => (e, option_list f, false)
      end
  end.
(** The newest well-formed picture among the events. *)
Definition newest_picture (fw fh : N) (evs : list VideoEvent) (first : option bytes) : option bytes :=
  foldl (fun newest ev => match ev with
                          | Captured _ data => if (len data =? i420_len fw fh)%N then Some data else newest
                          | _ => newest end) first evs.
(** A single producer that checked for room is not told the queue is full. *)
Definition single_producer (ev : VideoEvent) : Prop :=
  match ev with
  | Captured env _ | Tick env => (capacity env =? 0)%N = false -> accepts env <> QueueFull
  | Feedback _ _ => True
  end.
(** A decoder can follow: a delta comes right after the frame it needs. *)
Fixpoint decodable (prv : option nat) (fs : list Coded) : Prop :=
  match fs with
  | [] => True
  | f :: rest => (vf_keyframe (frame f) = true \/ prv = Some (pred (number f)) /\ number f <> 0) /\
                 decodable (Some (number f)) rest
  end.
Definition shown (first : option bytes) (fs : list Coded) : option bytes :=
  foldl (fun _ f => Some (picture f)) first fs.
Definition last_number (first : option nat) (fs : list Coded) : option nat :=
  foldl (fun _ f => Some (number f)) first fs.

Definition rate_ok (bps : N) : Prop := (MIN_BPS <= bps <= MAX_BPS)%N.
(** The encoder after the queue got frame [prv] last, which showed [pic]. *)
Record encoder_ok (fw fh : N) (prv : option nat) (pic newest : option bytes) (e : H264Encoder) : Prop := {
  eo_size : w e = fw /\ h e = fh;
  eo_rate : rate_ok (bitrate e);
  eo_last : last e = newest;
  eo_valid : forall data, newest = Some data -> len data = i420_len fw fh;
  eo_chain : intra_next e = true \/ prv = Some (pred (encoded e)) /\ encoded e <> 0;
  eo_fresh : pending e = false -> pic = newest;
}.
(** What a change of the rate keeps. *)
Record keeps (e e' : H264Encoder) : Prop := {
  kp_size : w e' = w e /\ h e' = h e;
  kp_rate : rate_ok (bitrate e) -> rate_ok (bitrate e');
  kp_last : last e' = last e /\ pending e' = pending e;
  kp_chain : encoded e' = encoded e /\ (intra_next e = true -> intra_next e' = true);
}.
#[local] Instance keeps_refl : Reflexive keeps.
Proof. by split. Qed.
#[local] Instance keeps_trans : Transitive keeps.
Proof. intros a b c [[] ? [] []] [[] ? [] []]. split; [split; congruence|auto|split; congruence|split; [congruence|auto]]. Qed.
Lemma set_bitrate_keeps env bps e : (rate_ok (bitrate e) -> rate_ok bps) -> keeps e (set_bitrate env bps e).
Proof. intros R. unfold set_bitrate. destruct (_ =? _)%N; [done|]. by destruct (builds env). Qed.
Lemma adapt_keeps env fresh e : keeps e (adapt env fresh e).
Proof.
  unfold adapt. cbv zeta.
  match goal with |- keeps e (if match last_forced_keyframe ?x with _ => _ end && _ then _ else _) =>
    assert (keeps e x) as K; [|set (e1 := x) in *] end.
  { destruct (vc_congested _).
    - etrans; [|destruct (_ <=? _)%N; [apply set_bitrate_keeps|reflexivity]]; [by split|].
      unfold rate_ok. cbn. pose proof (N.Div0.mul_div_le (bitrate e) 3). unfold MIN_BPS, MAX_BPS. lia.
    - destruct (_ && _); [|reflexivity]. apply set_bitrate_keeps. unfold rate_ok, MIN_BPS, MAX_BPS.
      intros [B1 B2]. split; [|lia]. apply N.min_glb; [|lia].
      pose proof (N.div_mod (bitrate e) 4). pose proof (N.mod_lt (bitrate e) 4). lia. }
  clearbody e1. destruct (_ && _); [|exact K]. etrans; [exact K|]. by split.
Qed.

Lemma send_ok fw fh prv pic env fresh data e :
  ((capacity env =? 0)%N = false -> accepts env <> QueueFull) ->
  len data = i420_len fw fh -> w e = fw -> h e = fh -> rate_ok (bitrate e) ->
  (intra_next e = true \/ prv = Some (pred (encoded e)) /\ encoded e <> 0) ->
  match h264_send env fresh data e with
  | (e', f, go) =>
      decodable prv (option_list f) /\ rate_ok (bitrate e') /\
      (go = true -> encoder_ok fw fh (last_number prv (option_list f)) (shown pic (option_list f)) (Some data) e')
  end.
Proof.
  intros Sp L Ew Eh R C. unfold h264_send. rewrite Ew, Eh, L, N.eqb_refl. cbn [negb].
  destruct (closed env); [split; [done|split; done]|].
  destruct (capacity env =? 0)%N eqn:Ec; [split; [done|split; [done|]]; intros _; split; cbn; try done; by intros ? [= <-]|].
  pose proof (adapt_keeps env fresh e) as [[K1 K2] K3 [K4 K5] [K6 K7]]. set (e1 := adapt env fresh e) in *.
  assert (intra_next e1 = true \/ prv = Some (pred (encoded e1)) /\ encoded e1 <> 0) as C1.
  { rewrite K6. destruct C; auto. }
  assert (rate_ok (bitrate e1)) as R1 by auto.
  assert (forall c : VideoControl, encoder_ok fw fh prv pic (Some data) (with_control c (with_last (Some data) true e1))) as P.
  { intros c. split; cbn; try done; [by rewrite K1, K2|by intros ? [= <-]]. }
  unfold encode. destruct (answer env) as [| |key [|b bs]].
  - split; [done|split; [done|intros _; apply P]].
  - split; [done|split; [done|intros _]]. specialize (P (control e1)). by destruct e1.
  - split; [done|split; [done|intros _]]. specialize (P (control e1)). by destruct e1.
  - destruct (accepts env) eqn:Ea; [|by destruct (Sp eq_refl)|split; [done|split; done]].
    cbn [option_list decodable frame number vf_keyframe last_number shown foldl picture].
    split; [|split; [done|]].
    + split; [|done]. destruct C1 as [->|C1]; [left; apply orb_true_r|by right].
    + intros _. split; cbn; try done; [by rewrite K1, K2|by intros ? [= <-]|by right].
Qed.
Lemma event_ok fw fh prv pic newest ev e : single_producer ev -> encoder_ok fw fh prv pic newest e ->
  match video_event ev e with
  | (e', f, go) =>
      decodable prv (option_list f) /\ rate_ok (bitrate e') /\
      (go = true -> encoder_ok fw fh (last_number prv (option_list f)) (shown pic (option_list f))
                      (newest_picture fw fh [ev] newest) e')
  end.
Proof.
  intros Sp K. pose proof K as [[K1 K2] K3 K4 K5 K6 K7]. destruct ev as [env data|env|key con]; cbn [video_event newest_picture foldl].
  - unfold h264_push. destruct (len data =? i420_len fw fh)%N eqn:L.
    + apply N.eqb_eq in L. by apply send_ok.
    + unfold h264_send. rewrite K1, K2, L. split; [done|split; done].
  - unfold h264_heartbeat. destruct (_ && _); [split; [done|split; done]|].
    rewrite K4. destruct newest as [data|]; [|split; [done|split; done]].
    apply (send_ok fw fh prv pic); cbn; auto.
  - split; [done|split; [done|]]. intros _. by split.
Qed.
Lemma decodable_app prv a b : decodable prv (a ++ b) <-> decodable prv a /\ decodable (last_number prv a) b.
Proof.
  revert prv. induction a as [|f a IH]; intros prv; cbn [app decodable last_number foldl]; [naive_solver|].
  rewrite IH. unfold last_number. naive_solver.
Qed.

(** C22. The video stream can be decoded and stays fresh. Whatever is captured,
    however the queue fills and drains, whatever the encoder skips or fails at
    and whenever viewers ask for keyframes or report congestion: every frame
    that is queued is a keyframe or comes right after the frame it needs, the
    bitrate stays within its bounds, and as long as the stream goes on the
    newest picture captured is the one the last queued frame shows, or it is
    kept and marked to be sent. *)
Theorem video_stream_decodable t fw fh c e0 evs : h264_new t fw fh c true = Ok e0 -> Forall single_producer evs ->
  let '(e, frames, go) := video_run evs e0 in
  decodable None frames /\ rate_ok (bitrate e) /\
  (go = true -> last e = newest_picture fw fh evs None /\
                (shown None frames = last e \/ pending e = true)).
Proof.
  intros E F. assert (encoder_ok fw fh None None None e0) as K.
  { unfold h264_new in E. destruct (_ || _); [done|]. injection E as <-. split; cbn; try done; by left. }
  assert (forall prv pic newest e, encoder_ok fw fh prv pic newest e ->
    let '(e', frames, go) := video_run evs e in
    decodable prv frames /\ rate_ok (bitrate e') /\
    (go = true -> encoder_ok fw fh (last_number prv frames) (shown pic frames) (newest_picture fw fh evs newest) e')) as G.
  { clear E K e0. induction F as [|ev evs Sp F IH]; intros prv pic newest e K; cbn [video_run].
    { split; [done|split; [apply K|done]]. }
    pose proof (event_ok fw fh prv pic newest ev e Sp K) as H1.
    destruct (video_event ev e) as [[e1 f] [|]]; [|destruct H1 as (? & ? & _); split; [done|split; done]].
    destruct H1 as (D1 & _ & K1). specialize (IH _ _ _ _ (K1 eq_refl)).
    destruct (video_run evs e1) as [[e2 more] go]. destruct IH as (D2 & R2 & K2).
    split; [by apply decodable_app|]. split; [done|]. intros Hg. specialize (K2 Hg).
    unfold last_number, shown. rewrite !foldl_app. exact K2. }
  specialize (G _ _ _ _ K). destruct (video_run evs e0) as [[e frames] go]. destruct G as (D & R & G).
  split; [done|]. split; [done|]. intros Hg. destruct (G Hg) as [_ _ L _ _ Fr]. split; [done|].
  destruct (pending e); [by right|left]. rewrite L. by apply Fr.
Qed.
End Encoding.

(** A frame that finds no room is sent by the next tick, at a lower rate and
    so as a keyframe; congestion asks for another one; the frame after is a delta. *)
Definition ex_at (t room : N) : Env :=
  {| now := from_secs t; builds := true; closed := false; capacity := room;
     answer := Encoded false [Byte.x01]; accepts := QueueOk |}.
Definition ex_picture (b : byte) : bytes := replicate 6 b.
Definition ex_events : list VideoEvent :=
  [Captured (ex_at 0 1) (ex_picture Byte.x00); Captured (ex_at 1 0) (ex_picture Byte.x01);
   Tick (ex_at 2 1); Feedback false true; Captured (ex_at 2 1) (ex_picture Byte.x02);
   Captured (ex_at 2 1) (ex_picture Byte.x04); Captured (ex_at 2 1) [];
   Captured (ex_at 3 0) (ex_picture Byte.x03)].
Definition ex_encoder : H264Encoder :=
  {| w := 2; h := 2; encoded := 0; intra_next := true; bitrate := MAX_BPS; control := video_control_default;
     last := None; pending := false; last_sent := 0; last_rate_change := 0; last_congestion := 0;
     last_forced_keyframe := None |}.
Lemma video_stream_decodable_witness :
  (let '(e, frames, go) := video_run ex_events ex_encoder in
   map (fun f => (number f, vf_keyframe (frame f))) frames = [(0, true); (1, true); (2, true); (3, false)] /\
   bitrate e = 6666666%N /\ pending e = true /\ go = true) /\
  let '(e, frames, go) := video_run ex_events ex_encoder in
  decodable None frames /\ rate_ok (bitrate e) /\
  (go = true -> last e = newest_picture 2 2 ex_events None /\
                (shown None frames = last e \/ pending e = true)).
Proof.
  split; [vm_compute; split_and!; reflexivity|].
  apply (video_stream_decodable 0 2 2 video_control_default ex_encoder ex_events eq_refl).
  repeat constructor; discriminate.
Defined.
End H264.
