(* ===== verification/MacCapture.v ===== *)
(** * Capturing the screen on macOS

    rivetlink-agent/src/capture/screencast.rs, its macOS backend: the displays to
    share, the capturer for one of them, and the stream of its frames through the
    tile encoder of [Capture]. ScreenCaptureKit (scap) is a parameter: its
    targets, its frames and whether a capturer can be built. *)
From Stdlib Require Import NArith ZArith Lia Strings.String Strings.Byte.
From S2P Require Import Prelude Text Interfaces Instances Protocol Trusted SharedFolder Lan Worker Capture.

Inductive Target := Display (id : N) (title : string) | Window (id : N).
Definition is_display (t : Target) : bool := match t with Display _ _ => true | Window _ => false end.
Definition list_displays (targets : list Target) : list DisplayInfo :=
  omap (fun t => match t with Display id title => Some {| display_id := id; display_name := title |} | Window _ => None end) targets.
Record Options := { o_fps : N; o_show_cursor : bool; o_target : option Target }.
(** The options of the capturer; without a target scap takes the main display. *)
Definition build_capturer (supported : bool) (targets : list Target) (build : Options -> Result unit string) (fps : N) (display : option N)
  : Result Options AgentError :=
  if negb supported then Err (Trusted.Lan "screen capture not supported here")
  else
    let displays := List.filter is_display targets in
    let target :=
      match display with
      | Some id => find (fun t => match t with Display i _ => (i =? id)%N | Window _ => false end) displays
      | None => head displays
      end in
    let options := {| o_fps := N.max fps 1; o_show_cursor := true; o_target := target |} in
    let? _ := map_err (fun e => Trusted.Lan ("screencast: " ++ e)) (build options) in Ok options.

Inductive Frame := BGRA (width height : Z) (data : bytes) | BGRx (width height : Z) (data : bytes) | OtherFrame.
(** [usize::try_from] of an [i32], zero when it is negative. *)
Definition usize_or_0 (n : Z) : N := if (0 <=? n)%Z then Z.to_N n else 0.
Definition frame_to_bgra (frame : Frame) : option (N * N * bytes) :=
  match frame with
  | BGRA width height data | BGRx width height data =>
      let w := usize_or_0 width in
      let h := usize_or_0 height in
      let expected := ((w * h * 4) mod 2 ^ 64)%N in
      if (w =? 0)%N || (h =? 0)%N || (len data <? expected)%N then None else Some (w, h, take (N.to_nat expected) data)
  | OtherFrame => None
  end.

Section Stream.
Variable jpeg : N -> N -> N -> bytes -> Result bytes string.
Context `{Base64}.

(** What the capturer gives, with the clock and the queue the encoder meets. *)
Record Grab := { g_frame : Result Frame string; g_now : N; g_sent_at : N; g_queue : QueueReply }.
Definition START_FAILED (e : string) : AgentError :=
  Trusted.Lan ("screen capture failed to start (Screen Recording permission?): " ++ e).
(** The loop of [stream]: the frames queued, and its result; [None] is a panic.
    It ends by itself when no grab is left to run. *)
Fixpoint mac_stream_loop (quality : N) (got_frame : bool) (grabs : list Grab) (e : Tiles.TileEncoder)
  : option (Tiles.TileEncoder * list FrameDelta * option (Result unit AgentError)) :=
  match grabs with
  | [] => Some (e, [], None)
  | g :: grabs =>
      match g_frame g with
      | Err err => Some (e, [], Some (if got_frame then Ok tt else Err (START_FAILED err)))
      | Ok frame =>
          match frame_to_bgra frame with
          | None => mac_stream_loop quality true grabs e
          | Some (w, h, data) =>
              let_some (e, delta, go) := Tiles.tiles_push jpeg (g_now g) (g_sent_at g) (g_queue g) w h quality data e else None in
              if go : bool then
                let_some (e', more, r) := mac_stream_loop quality true grabs e else None in
                Some (e', match delta, g_queue g with Some d, QueueOk => d :: more | _, _ => more end, r)
              else Some (e, [], Some (Ok tt))
          end
      end
  end.
(** [stream]: five frames are dropped while the capture warms up. *)
Definition mac_stream (capturer : Result Options AgentError) (quality now : N) (grabs : list Grab)
  : option (Tiles.TileEncoder * list FrameDelta * option (Result unit AgentError)) :=
  match capturer with
  | Err e => Some (Tiles.tile_encoder_new now, [], Some (Err e))
  | Ok _ => mac_stream_loop quality false (drop 5 grabs) (Tiles.tile_encoder_new now)
  end.

(** ** The stream is the encoder's *)

(** The turns of the encoder: the usable frames before the first failure. *)
Fixpoint turns_of (quality : N) (grabs : list Grab) : list Tiles.Turn :=
  match grabs with
  | [] => []
  | g :: grabs =>
      match g_frame g with
      | Err _ => []
      | Ok frame =>
          match frame_to_bgra frame with
          | None => turns_of quality grabs
          | Some (w, h, data) => Tiles.PushFrame (g_now g) (g_sent_at g) (g_queue g) w h quality data :: turns_of quality grabs
          end
      end
  end.
(** The stream queues what the encoder's run queues, so that what holds of the
    picture of its viewer holds here. *)
Lemma stream_is_encoder quality got grabs e :
  option_map fst (mac_stream_loop quality got grabs e) = Tiles.tiles_run jpeg (turns_of quality grabs) e.
Proof.
  revert got e. induction grabs as [|g grabs IH]; intros got e; [done|]. cbn [mac_stream_loop turns_of].
  destruct (g_frame g) as [frame|err]; [|done]. destruct (frame_to_bgra frame) as [[[w h] data]|]; [|apply IH].
  cbn [Tiles.tiles_run Tiles.turn Tiles.turn_queue]. destruct (Tiles.tiles_push _ _ _ _ _ _ _ _ _) as [[[e' delta] []]|]; [|done..].
  rewrite <-(IH true e'). by destruct (mac_stream_loop quality true grabs e') as [[[e2 more] r]|].
Qed.
(** Every frame that reaches the encoder is packed: positive sides, and exactly
    its pixels, the first ones of the capture. *)
Lemma frame_packed frame w h data : (forall width height d, frame = BGRA width height d \/ frame = BGRx width height d ->
    (width < 2 ^ 31)%Z /\ (height < 2 ^ 31)%Z) ->
  frame_to_bgra frame = Some (w, h, data) ->
  (0 < w)%N /\ (0 < h)%N /\ len data = (w * h * 4)%N /\ exists d, (exists width height, frame = BGRA width height d \/ frame = BGRx width height d) /\
    data `prefix_of` d.
Proof.
  intros B F. assert (forall width height d, (width < 2 ^ 31)%Z /\ (height < 2 ^ 31)%Z ->
    (if (usize_or_0 width =? 0)%N || (usize_or_0 height =? 0)%N || (len d <? (usize_or_0 width * usize_or_0 height * 4) mod 2 ^ 64)%N then None
     else Some (usize_or_0 width, usize_or_0 height, take (N.to_nat ((usize_or_0 width * usize_or_0 height * 4) mod 2 ^ 64)) d)) = Some (w, h, data) ->
    (0 < w)%N /\ (0 < h)%N /\ len data = (w * h * 4)%N /\ data `prefix_of` d) as P.
  { intros width height d [Bw Bh] E. destruct (N.eqb_spec (usize_or_0 width) 0); [done|]. destruct (N.eqb_spec (usize_or_0 height) 0); [done|].
    destruct (N.ltb_spec (len d) ((usize_or_0 width * usize_or_0 height * 4) mod 2 ^ 64)) as [|L]; [done|]. injection E as <- <- <-.
    assert (forall z, (z < 2 ^ 31)%Z -> (usize_or_0 z < 2 ^ 31)%N) as U.
    { intros z Hz. unfold usize_or_0. destruct (Z.leb_spec 0 z); lia. }
    pose proof (U _ Bw). pose proof (U _ Bh).
    assert (usize_or_0 width * usize_or_0 height * 4 < 2 ^ 64)%N as Small by (change (2 ^ 64)%N with (2 ^ 31 * 2 ^ 31 * 4)%N; nia).
    rewrite N.mod_small in L by done. rewrite N.mod_small by done.
    split_and!; [lia|lia| |by eexists; rewrite take_drop]. unfold len in *. rewrite length_take. lia. }
  destruct frame as [width height d|width height d|]; [| |done].
  - destruct (P width height d (B _ _ _ (or_introl eq_refl)) F) as (? & ? & ? & ?). split_and!; try done. exists d. split; [|done]. exists width, height. by left.
  - destruct (P width height d (B _ _ _ (or_intror eq_refl)) F) as (? & ? & ? & ?). split_and!; try done. exists d. split; [|done]. exists width, height. by right.
Qed.
(** The stream fails only when no frame ever came. *)
Lemma stream_fails_before_first quality grabs e e' ds err : mac_stream_loop quality false grabs e = Some (e', ds, Some (Err err)) ->
  exists msg rest g, grabs = g :: rest /\ g_frame g = Err msg /\ err = START_FAILED msg /\ ds = [].
Proof.
  destruct grabs as [|g grabs]; [done|]. cbn [mac_stream_loop]. destruct (g_frame g) as [frame|msg] eqn:E.
  2:{ intros [= <- <- <-]. by exists msg, grabs, g. }
  assert (forall grabs e e' ds err, mac_stream_loop quality true grabs e = Some (e', ds, Some (Err err)) -> False) as N.
  { clear. induction grabs as [|g grabs IH]; intros e e' ds err; [done|]. cbn [mac_stream_loop]. destruct (g_frame g) as [frame|msg]; [|done].
    destruct (frame_to_bgra frame) as [[[w h] data]|]; [|apply IH].
    destruct (Tiles.tiles_push _ _ _ _ _ _ _ _ _) as [[[e2 delta] []]|]; [|done..]. destruct (mac_stream_loop quality true grabs e2) as [[[e3 more] r]|] eqn:S; [|done].
    intros [= _ _ ->]. by destruct (IH _ _ _ _ S). }
  destruct (frame_to_bgra frame) as [[[w h] data]|]; [|intros S; by destruct (N _ _ _ _ _ S)].
  destruct (Tiles.tiles_push _ _ _ _ _ _ _ _ _) as [[[e2 delta] []]|]; [|done..]. destruct (mac_stream_loop quality true grabs e2) as [[[e3 more] r]|] eqn:S; [|done].
  intros [= _ _ ->]. by destruct (N _ _ _ _ _ S).
Qed.
End Stream.

(** A display that is asked for and is gone is not an error: the capturer has no
    target, which is the main display. *)
Lemma gone_display_shows_another : build_capturer true [Display 1 "main"; Window 7] (fun _ => Ok tt) 30 (Some 2%N) =
  Ok {| o_fps := 30; o_show_cursor := true; o_target := None |}.
Proof. reflexivity. Qed.
