(* ===== verification/Screen.v ===== *)
(** * Screens

    rivetlink-agent/src/capture: the monitors of a GNOME session, the size of
    what is streamed and the loop of a stream (mutter.rs), the root window of an
    Xorg session (x11.rs) and the one-shot screenshot (screenshot.rs). D-Bus,
    the X server, GStreamer, PNG and the tools that take screenshots are
    parameters. *)
From Stdlib Require Import NArith ZArith Lia Strings.String Strings.Byte.
From S2P Require Import Prelude Text Interfaces Instances Protocol Trusted SharedFolder Lan Worker Capture.

(** ** Mutter *)

Module Mutter.
Definition MAX_W : N := 1920.
Definition MAX_H : N := 1080.
Definition FALLBACK_W : N := 1280.
Definition FALLBACK_H : N := 720.

(** [v & !1], and [u32::try_from] of a [u64]. *)
Definition even (v : N) : N := N.max (N.ldiff v 1) 2.
Definition u32_or (d n : N) : N := if (n <=? u32_max)%N then n else d.
Definition fit_output (src_w src_h : N) : N * N :=
  if (src_w =? 0)%N || (src_h =? 0)%N then (FALLBACK_W, FALLBACK_H)
  else
    let '(max_w, max_h) := if (src_w <? src_h)%N then (MAX_H, MAX_W) else (MAX_W, MAX_H) in
    let '(w, h) := if (max_w <? src_w)%N then (max_w, u32_or max_h (src_h * max_w / src_w)) else (src_w, src_h) in
    let '(w, h) := if (max_h <? h)%N then (u32_or max_w (w * max_h / h), max_h) else (w, h) in
    (even w, even h).
Definition i420_width (w : N) : N := N.max (N.ldiff w 7) 8.
Example fitted :
  map (fun p => fit_output p.1 p.2) [(3440, 1440); (1920, 1080); (2560, 1440); (3840, 2160); (1366, 768); (0, 0); (2160, 3840)]%N =
  [(1920, 802); (1920, 1080); (1920, 1080); (1920, 1080); (1366, 768); (1280, 720); (1080, 1920)]%N.
Proof. vm_compute. reflexivity. Qed.

(** *** Monitors, as [GetCurrentState] of DisplayConfig tells them *)

Inductive PropValue := PBool (b : bool) | POther.
Record Mode := { mode_width : Z; mode_height : Z; mode_props : string -> option PropValue }.
Record MonitorEntry := { me_connector : string; me_vendor : string; me_product : string; me_modes : list Mode }.
Record LogicalMonitor := { lm_transform : N; lm_primary : bool; lm_connectors : list string }.
Record CurrentState := { cs_monitors : list MonitorEntry; cs_logical : list LogicalMonitor }.
Record MonitorInfo := { connector : string; label : string; width : N; height : N }.

Definition mode_flag (props : string -> option PropValue) (key : string) : bool :=
  match props key with Some (PBool true) => true | _ => false end.
Definition oriented (width height transform : N) : N * N :=
  if (transform mod 2 =? 1)%N then (height, width) else (width, height).
Definition u32_of_i32 (z : Z) : N := if (z <? 0)%Z then 0 else Z.to_N z.
(** The entries of [transforms], the last of one connector first. *)
Definition transforms (logical : list LogicalMonitor) : list (string * N) :=
  rev (flat_map (fun lm => map (fun c => (c, lm_transform lm)) (lm_connectors lm)) logical).
Definition transform_of (logical : list LogicalMonitor) (c : string) : N :=
  default 0%N (snd <$> find (fun p => String.eqb p.1 c) (transforms logical)).
Definition primary (logical : list LogicalMonitor) : option string :=
  lm ← find lm_primary logical; head (lm_connectors lm).
Definition current_mode (modes : list Mode) : option Mode :=
  match find (fun m => mode_flag (mode_props m) "is-current") modes with
  | Some m => Some m
  | None => head modes
  end.
Definition monitor_info (logical : list LogicalMonitor) (e : MonitorEntry) : MonitorInfo :=
  let '(w, h) := match current_mode (me_modes e) with
                 | None => (0%N, 0%N)
                 | Some m => oriented (u32_of_i32 (mode_width m)) (u32_of_i32 (mode_height m))
                               (transform_of logical (me_connector e))
                 end in
  {| connector := me_connector e;
     label := if negb (me_product e =? "")%string then (me_connector e ++ " · " ++ me_product e)%string
              else if negb (me_vendor e =? "")%string then (me_connector e ++ " · " ++ me_vendor e)%string
              else me_connector e;
     width := w; height := h |}.
(** A stable sort by whether a monitor is another one than the primary. *)
Definition primary_first (p : string) (ms : list MonitorInfo) : list MonitorInfo :=
  List.filter (fun m => String.eqb (connector m) p) ms ++ List.filter (fun m => negb (String.eqb (connector m) p)) ms.
Definition monitors (state : Result CurrentState AgentError) : Result (list MonitorInfo) AgentError :=
  let? state := state in
  let ms := map (monitor_info (cs_logical state)) (cs_monitors state) in
  Ok (match primary (cs_logical state) with Some p => primary_first p ms | None => ms end).

Definition list_displays (state : Result CurrentState AgentError) : list DisplayInfo :=
  imap (fun i m => {| display_id := u32_or 0 (N.of_nat i); display_name := label m |})
    (match monitors state with Ok ms => ms | Err _ => [] end).
(** The index of a display among the monitors. *)
Definition monitor_index (display : option N) (ms : list MonitorInfo) : nat :=
  match display with
  | Some d => if (d <? len ms)%N then N.to_nat d else 0
  | None => 0
  end.
Definition monitor_target (state : Result CurrentState AgentError) (display : option N) : option (string * N * N) :=
  ms ← ok (monitors state); m ← ms !! monitor_index display ms; Some (connector m, width m, height m).

(** *** One picture *)

(** A process: what its standard output and its errors carry, until they are taken. *)
Record Child := { c_stdout : option bytes; c_stderr : option bytes }.
Definition drain_gstreamer_stderr (c : Child) : Child := {| c_stdout := c_stdout c; c_stderr := None |}.
Definition pipeline (node : N) (caps : string) : list string :=
  (["-q"; "pipewiresrc"; "path=" ++ pretty node; "do-timestamp=true"; "!"; "videoscale"; "add-borders=true"; "!";
    "videoconvert"; "!"; caps; "!"; "fdsink"; "fd=1"; "sync=false"])%string.
Definition raw_caps (format : string) (w h : N) : string :=
  ("video/x-raw,format=" ++ format ++ ",width=" ++ pretty w ++ ",height=" ++ pretty h)%string.

Section Session.
(** Starting a process, a cast of a monitor, and PNG. *)
Context (spawn : string -> list string -> Result Child string).
Context (record_monitor : string -> Result N AgentError).
Context (png : N -> N -> bytes -> Result bytes AgentError).

Definition spawn_gst (node out_w out_h : N) (format : string) : Result Child AgentError :=
  let colorimetry := (if (format =? "I420") then ",colorimetry=bt709" else "")%string in
  let? child := map_err (fun e => Trusted.Lan ("gst-launch-1.0 failed to start (install gstreamer1.0-tools + gstreamer1.0-pipewire): " ++ e))
                  (spawn "gst-launch-1.0" (pipeline node (raw_caps format out_w out_h ++ colorimetry)))%string in
  Ok (drain_gstreamer_stderr child).
Definition spawn_one_frame_gst (node out_w out_h timeout_secs : N) : Result Child AgentError :=
  let? child := map_err (fun e => Config ("headless capture requires Ubuntu coreutils and gstreamer1.0-tools + gstreamer1.0-pipewire: " ++ e))
                  (spawn "timeout" ("--signal=TERM" :: (pretty (N.max timeout_secs 1) ++ "s") :: "gst-launch-1.0" ::
                                    pipeline node (raw_caps "BGRx" out_w out_h)))%string in
  Ok (drain_gstreamer_stderr child).
Definition MAX_DIAGNOSTIC_BYTES : nat := 4096.
Definition collect_gstreamer_stderr (stderr : bytes) : string :=
  trim (from_utf8_lossy (take MAX_DIAGNOSTIC_BYTES stderr)).

Fixpoint bgrx_rgba (bgrx : bytes) : bytes :=
  match bgrx with
  | b :: g :: r :: _ :: rest => r :: g :: b :: Byte.xff :: bgrx_rgba rest
  | _ => []
  end.
Definition encode_bgrx_png (w h : N) (bgrx : bytes) : Result bytes AgentError :=
  if (u32_max <? w)%N then Err (Config "virtual monitor width is invalid")
  else if (u32_max <? h)%N then Err (Config "virtual monitor height is invalid")
  else png w h (bgrx_rgba bgrx).
Definition NO_MONITOR : string := "no active GNOME monitor is available in this graphical session".
Definition capture_primary_png (state : Result CurrentState AgentError) (timeout_secs : N) : Result bytes AgentError :=
  let? mons := monitors state in
  let? monitor := ok_or (head mons) (Config NO_MONITOR) in
  let '(w, h) := fit_output (width monitor) (height monitor) in
  let? node := record_monitor (connector monitor) in
  let? child := spawn_one_frame_gst node w h timeout_secs in
  let? stdout := ok_or (c_stdout child) (Config "Mutter capture stdout missing") in
  let gstreamer_error := match c_stderr child with Some e => collect_gstreamer_stderr e | None => ""%string end in
  let frame_bytes := (w * h * 4)%N in
  if negb (frame_bytes <? 2 ^ 64)%N then Err (Config "virtual monitor dimensions are too large")
  else if (len stdout <? frame_bytes)%N
  then
    let diagnostic := (if (gstreamer_error =? "") then "" else "; GStreamer: " ++ gstreamer_error)%string in
    Err (Config ("Mutter capture did not produce a frame within " ++ pretty (N.max timeout_secs 1) ++
                 " seconds: failed to fill whole buffer" ++ diagnostic))
  else encode_bgrx_png w h (take (N.to_nat frame_bytes) stdout).

Inductive ConsoleCaptureBackend := DirectScreenCast.
Definition console_capture_backend (state : HostConsoleState) : Result ConsoleCaptureBackend AgentError :=
  match state with
  | GdmLogin | SessionLocked =>
      Err (Config "the existing GDM or locked physical display cannot be captured through a supported Mutter API")
  | DesktopReady => Ok DirectScreenCast
  | Booting | SessionStarting | SessionSwitching | Offline =>
      Err (Config "graphical console capture is unavailable while the session is transitioning")
  end.
Definition capture_console_png (state : Result CurrentState AgentError) (timeout_secs : N) (console : HostConsoleState)
  : Result bytes AgentError :=
  let? backend := console_capture_backend console in
  match backend with DirectScreenCast => capture_primary_png state timeout_secs end.
End Session.

(** *** The loop of a stream *)

Inductive StreamEncoder := ETiles (e : Tiles.TileEncoder) | EVideo (e : H264.H264Encoder).
Record StreamPlan := {
  sp_connector : string;
  sp_format : string;
  sp_w : N;
  sp_h : N;
  sp_frame_bytes : N;
  sp_encoder : StreamEncoder;
}.
(** [stream] up to the start of the cast; [builds] is whether OpenH264 starts. *)
Definition stream_plan (state : Result CurrentState AgentError) (display : option N) (video : option VideoControl)
    (builds : bool) (now : N) : Result StreamPlan AgentError :=
  let? mons := monitors state in
  let? m := ok_or (mons !! monitor_index display mons) (Trusted.Lan "no monitors found to share") in
  let '(fit_w, out_h) := fit_output (width m) (height m) in
  let h264_w := i420_width fit_w in
  let enc := match video with
             | Some control => match H264.h264_new now h264_w out_h control builds with
                               | Ok h264 => EVideo h264
                               | Err _ => ETiles (Tiles.tile_encoder_new now)
                               end
             | None => ETiles (Tiles.tile_encoder_new now)
             end in
  Ok (match enc with
      | EVideo _ => {| sp_connector := connector m; sp_format := "I420"; sp_w := h264_w; sp_h := out_h;
                       sp_frame_bytes := H264.i420_len h264_w out_h; sp_encoder := enc |}
      | ETiles _ => {| sp_connector := connector m; sp_format := "BGRx"; sp_w := fit_w; sp_h := out_h;
                       sp_frame_bytes := fit_w * out_h * 4; sp_encoder := enc |}
      end).

(** The reader thread, access by access, and the main loop. *)
Inductive ReaderPhase := Reading | HasFrame (frame : bytes) | PipeClosed | ReaderDone.
Inductive MainPhase := AtTop | Asleep | TookFrame (frame : option bytes) | LoopEnded | Panicked.
Record StreamLoop := {
  latest : option bytes;
  alive : bool;
  saw_frame : bool;
  reader : ReaderPhase;
  main : MainPhase;
  encoder : StreamEncoder;
  (** What was queued, and what the reader stored and the encoder was given. *)
  queued_tiles : list FrameDelta;
  queued_video : list H264.Coded;
  stored : list bytes;
  encoder_given : list bytes;
}.
(** The answers of the clock and the queue while a frame is encoded. *)
Record TurnEnv := { te_now : N; te_sent_at : N; te_queue : QueueReply; te_video : H264.Env }.
Inductive LoopEvent :=
| ReadFrame (frame : bytes)
| ReadFails
| StoreFrame
| StoreDead
| TopOfLoop (tx_closed : bool)
| TakeLatest
| EncodeTurn (env : TurnEnv)
| ViewerFeedback (keyframe congested : bool).

Definition loop_start (plan : StreamPlan) : StreamLoop :=
  {| latest := None; alive := true; saw_frame := false; reader := Reading; main := AtTop; encoder := sp_encoder plan;
     queued_tiles := []; queued_video := []; stored := []; encoder_given := [] |}.
Definition with_reader (r : ReaderPhase) (s : StreamLoop) : StreamLoop :=
  {| latest := latest s; alive := alive s; saw_frame := saw_frame s; reader := r; main := main s; encoder := encoder s;
     queued_tiles := queued_tiles s; queued_video := queued_video s; stored := stored s; encoder_given := encoder_given s |}.
Definition with_main (m : MainPhase) (s : StreamLoop) : StreamLoop :=
  {| latest := latest s; alive := alive s; saw_frame := saw_frame s; reader := reader s; main := m; encoder := encoder s;
     queued_tiles := queued_tiles s; queued_video := queued_video s; stored := stored s; encoder_given := encoder_given s |}.

Section Loop.
Context `{Base64} (jpeg : N -> N -> N -> bytes -> Result bytes string).
Variables (plan : StreamPlan) (quality : N).

Definition tiles_turn (env : TurnEnv) (frame : option bytes) : Tiles.Turn :=
  match frame with
  | Some buf => Tiles.PushFrame (te_now env) (te_sent_at env) (te_queue env) (sp_w plan) (sp_h plan) quality buf
  | None => Tiles.Heartbeat (te_now env) (te_sent_at env) (te_queue env)
  end.
Definition video_turn (env : TurnEnv) (frame : option bytes) : H264.VideoEvent :=
  match frame with Some buf => H264.Captured (te_video env) buf | None => H264.Tick (te_video env) end.
Definition went (go : bool) : MainPhase := if go then AtTop else LoopEnded.
Definition encode_step (env : TurnEnv) (frame : option bytes) (s : StreamLoop) : StreamLoop :=
  match encoder s with
  | ETiles e =>
      match Tiles.turn jpeg (tiles_turn env frame) e with
      | None => with_main Panicked s
      | Some (e, delta, go) =>
          {| latest := latest s; alive := alive s; saw_frame := saw_frame s; reader := reader s; main := went go;
             encoder := ETiles e;
             queued_tiles := queued_tiles s ++ match delta, te_queue env with Some d, QueueOk => [d] | _, _ => [] end;
             queued_video := queued_video s; stored := stored s; encoder_given := encoder_given s ++ option_list frame |}
      end
  | EVideo e =>
      let '(e, coded, go) := H264.video_event (video_turn env frame) e in
      {| latest := latest s; alive := alive s; saw_frame := saw_frame s; reader := reader s; main := went go;
         encoder := EVideo e; queued_tiles := queued_tiles s; queued_video := queued_video s ++ option_list coded;
         stored := stored s; encoder_given := encoder_given s ++ option_list frame |}
  end.
(** One access; an event that cannot happen changes nothing. *)
Definition loop_step (s : StreamLoop) (ev : LoopEvent) : StreamLoop :=
  match ev with
  | ReadFrame frame =>
      match reader s with
      | Reading =>
          if (len frame =? sp_frame_bytes plan)%N
          then {| latest := latest s; alive := alive s; saw_frame := true; reader := HasFrame frame; main := main s;
                  encoder := encoder s; queued_tiles := queued_tiles s; queued_video := queued_video s;
                  stored := stored s; encoder_given := encoder_given s |}
          else s
      | _ => s
      end
  | ReadFails => match reader s with Reading => with_reader PipeClosed s | _ => s end
  | StoreFrame =>
      match reader s with
      | HasFrame frame =>
          {| latest := Some frame; alive := alive s; saw_frame := saw_frame s; reader := Reading; main := main s;
             encoder := encoder s; queued_tiles := queued_tiles s; queued_video := queued_video s;
             stored := stored s ++ [frame]; encoder_given := encoder_given s |}
      | _ => s
      end
  | StoreDead =>
      match reader s with
      | PipeClosed =>
          {| latest := latest s; alive := false; saw_frame := saw_frame s; reader := ReaderDone; main := main s;
             encoder := encoder s; queued_tiles := queued_tiles s; queued_video := queued_video s;
             stored := stored s; encoder_given := encoder_given s |}
      | _ => s
      end
  | TopOfLoop tx_closed => match main s with AtTop => with_main (if tx_closed then LoopEnded else Asleep) s | _ => s end
  | TakeLatest =>
      match main s with
      | Asleep =>
          {| latest := None; alive := alive s; saw_frame := saw_frame s; reader := reader s; main := TookFrame (latest s);
             encoder := encoder s; queued_tiles := queued_tiles s; queued_video := queued_video s;
             stored := stored s; encoder_given := encoder_given s |}
      | _ => s
      end
  | EncodeTurn env =>
      match main s with
      | TookFrame None => if alive s then encode_step env None s else with_main LoopEnded s
      | TookFrame (Some frame) => encode_step env (Some frame) s
      | _ => s
      end
  | ViewerFeedback keyframe congested =>
      match encoder s with
      | EVideo e =>
          {| latest := latest s; alive := alive s; saw_frame := saw_frame s; reader := reader s; main := main s;
             encoder := EVideo (H264.video_event (H264.Feedback keyframe congested) e).1.1;
             queued_tiles := queued_tiles s; queued_video := queued_video s; stored := stored s;
             encoder_given := encoder_given s |}
      | ETiles _ => s
      end
  end.
Definition loop_run (evs : list LoopEvent) (s : StreamLoop) : StreamLoop := fold_left loop_step evs s.
(** What [stream] answers, once the loop has ended and the reader is joined. *)
Definition stream_result (s : StreamLoop) : Result unit AgentError :=
  if saw_frame s then Ok tt
  else Err (Trusted.Lan "screen capture produced no frames (is gst-launch-1.0 + the pipewire plugin installed?)").
End Loop.

(** *** Sizes *)

Lemma even_div v : even v = N.max (v / 2 * 2) 2.
Proof. unfold even. f_equal. change 1%N with (N.ones 1). by rewrite N.ldiff_ones_r, N.shiftl_mul_pow2, N.shiftr_div_pow2. Qed.
Lemma i420_width_div v : i420_width v = N.max (v / 8 * 8) 8.
Proof. unfold i420_width. f_equal. change 7%N with (N.ones 3). by rewrite N.ldiff_ones_r, N.shiftl_mul_pow2, N.shiftr_div_pow2. Qed.
Lemma max_multiple a k : (0 < k)%N -> (N.max (a / k * k) k mod k = 0)%N.
Proof.
  intros Hk. destruct (N.max_spec (a / k * k) k) as [[_ ->]|[_ ->]]; [by apply N.Div0.mod_same|apply N.Div0.mod_mul].
Qed.
(** A division rounds down by less than one. *)
Lemma div_between a b : (0 < b)%N -> (a / b * b <= a /\ a < (a / b + 1) * b)%N.
Proof.
  intros H. pose proof (N.div_mod' a b) as D. pose proof (N.mod_lt a b ltac:(lia)) as M.
  set (q := (a / b)%N) in *. set (r := (a mod b)%N) in *. clearbody q r. nia.
Qed.
Lemma even_bounds v : (even v mod 2 = 0 /\ 2 <= even v /\ v <= even v + 1 /\ even v <= N.max v 2)%N.
Proof.
  rewrite even_div. split; [by apply max_multiple|]. destruct (div_between v 2) as [A B]; [done|].
  set (q := (v / 2)%N) in *. clearbody q. lia.
Qed.

(** What the two shrinking steps give before the last bit is dropped. *)
Lemma shrink_bounds src_w src_h max_w max_h : (0 < src_w <= u32_max)%N -> (0 < src_h <= u32_max)%N -> (0 < max_w)%N -> (0 < max_h)%N ->
  let '(w, h) := if (max_w <? src_w)%N then (max_w, u32_or max_h (src_h * max_w / src_w)) else (src_w, src_h) in
  let '(w, h) := if (max_h <? h)%N then (u32_or max_w (w * max_h / h), max_h) else (w, h) in
  (w <= N.min max_w src_w /\ h <= N.min max_h src_h /\
   w * src_h < (h + 1) * src_w /\ h * src_w < (w + 1) * src_h)%N.
Proof.
  intros [W0 W1] [H0 H1] M1 M2. unfold u32_or.
  destruct (N.ltb_spec max_w src_w) as [L|L].
  - assert (src_h * max_w / src_w <= src_h)%N as D by (apply N.Div0.div_le_upper_bound; nia).
    rewrite (proj2 (N.leb_le _ _)) by lia.
    destruct (div_between (src_h * max_w) src_w) as [A1 A2]; [lia|].
    set (h1 := (src_h * max_w / src_w)%N) in *. clearbody h1.
    destruct (N.ltb_spec max_h h1) as [K|K]; [|split_and!; nia].
    assert (max_w * max_h / h1 <= max_w)%N as D2 by (apply N.Div0.div_le_upper_bound; nia).
    rewrite (proj2 (N.leb_le _ _)) by lia.
    destruct (div_between (max_w * max_h) h1) as [B1 B2]; [lia|].
    set (w2 := (max_w * max_h / h1)%N) in *. clearbody w2. split_and!; [lia|lia| |].
    + apply (N.mul_lt_mono_pos_r h1); [lia|].
      assert (w2 * src_h * h1 <= max_h * (max_w * src_h))%N by nia.
      assert (max_h * (max_w * src_h) < max_h * ((h1 + 1) * src_w))%N by nia.
      assert (max_h * ((h1 + 1) * src_w) <= (max_h + 1) * src_w * h1)%N by nia. lia.
    + apply (N.mul_lt_mono_pos_r max_w); [lia|].
      assert (max_h * max_w * src_w < (w2 + 1) * h1 * src_w)%N by nia.
      assert ((w2 + 1) * h1 * src_w <= (w2 + 1) * (src_h * max_w))%N by nia. lia.
  - destruct (N.ltb_spec max_h src_h) as [K|K]; [|split_and!; nia].
    assert (src_w * max_h / src_h <= src_w)%N as D2 by (apply N.Div0.div_le_upper_bound; nia).
    rewrite (proj2 (N.leb_le _ _)) by lia.
    destruct (div_between (src_w * max_h) src_h) as [B1 B2]; [lia|].
    set (w2 := (src_w * max_h / src_h)%N) in *. clearbody w2. split_and!; [lia|lia|nia|nia].
Qed.

(** Rounding down to even numbers keeps this up to a pixel. *)
Lemma even_size w h src_w src_h max_w max_h :
  (max_w mod 2 = 0 -> max_h mod 2 = 0 -> 2 <= max_w -> 2 <= max_h -> 0 < src_w -> 0 < src_h ->
   w <= N.min max_w src_w -> h <= N.min max_h src_h ->
   w * src_h < (h + 1) * src_w -> h * src_w < (w + 1) * src_h ->
   even w <= max_w /\ even h <= max_h /\ even w <= N.max src_w 2 /\ even h <= N.max src_h 2 /\
   (even w = 2 \/ even w * src_h < (even h + 2) * src_w) /\ (even h = 2 \/ even h * src_w < (even w + 2) * src_h))%N.
Proof.
  intros _ _ M1 M2 S1 S2 W H R1 R2. pose proof (even_bounds w) as (_ & A1 & A2 & A3). pose proof (even_bounds h) as (_ & B1 & B2 & B3).
  split_and!; try lia.
  - destruct (N.le_gt_cases (even w) w); [right|left; lia]. nia.
  - destruct (N.le_gt_cases (even h) h); [right|left; lia]. nia.
Qed.

Lemma fit_output_known src_w src_h : (0 < src_w <= u32_max)%N -> (0 < src_h <= u32_max)%N ->
  let '(w, h) := fit_output src_w src_h in
  ((if src_w <? src_h then w <= MAX_H /\ h <= MAX_W else w <= MAX_W /\ h <= MAX_H) /\
   w <= N.max src_w 2 /\ h <= N.max src_h 2 /\
   (w = 2 \/ w * src_h < (h + 2) * src_w) /\ (h = 2 \/ h * src_w < (w + 2) * src_h))%N.
Proof.
  intros HW HH. unfold fit_output.
  rewrite (proj2 (N.eqb_neq src_w 0)), (proj2 (N.eqb_neq src_h 0)) by lia. cbn [orb].
  destruct (src_w <? src_h)%N.
  - pose proof (shrink_bounds src_w src_h MAX_H MAX_W HW HH ltac:(done) ltac:(done)) as S.
    destruct (if (MAX_H <? src_w)%N then _ else _) as [w1 h1]. destruct (if (MAX_W <? h1)%N then _ else _) as [w h].
    destruct S as (S1 & S2 & S3 & S4).
    destruct (even_size w h src_w src_h MAX_H MAX_W) as (? & ? & ? & ? & ? & ?); unfold MAX_H, MAX_W in *; try done; lia.
  - pose proof (shrink_bounds src_w src_h MAX_W MAX_H HW HH ltac:(done) ltac:(done)) as S.
    destruct (if (MAX_W <? src_w)%N then _ else _) as [w1 h1]. destruct (if (MAX_H <? h1)%N then _ else _) as [w h].
    destruct S as (S1 & S2 & S3 & S4).
    destruct (even_size w h src_w src_h MAX_W MAX_H) as (? & ? & ? & ? & ? & ?); unfold MAX_H, MAX_W in *; try done; lia.
Qed.
Lemma fit_output_even src_w src_h :
  exists w h, fit_output src_w src_h = (even w, even h).
Proof.
  unfold fit_output. destruct (_ || _); [by exists FALLBACK_W, FALLBACK_H|].
  destruct (if (src_w <? src_h)%N then _ else _) as [mw mh]. destruct (if (mw <? src_w)%N then _ else _) as [w1 h1].
  destruct (if (mh <? h1)%N then _ else _) as [w h]. by exists w, h.
Qed.
Lemma fit_output_pixels src_w src_h : (src_w <= u32_max)%N -> (src_h <= u32_max)%N ->
  let '(w, h) := fit_output src_w src_h in
  (w mod 2 = 0 /\ h mod 2 = 0 /\ 2 <= w <= MAX_W /\ 2 <= h <= MAX_W /\ w * h <= MAX_W * MAX_H)%N.
Proof.
  intros Hw Hh. pose proof (fit_output_known src_w src_h) as K. destruct (fit_output_even src_w src_h) as (w & h & E).
  pose proof (even_bounds w) as (A1 & A2 & _). pose proof (even_bounds h) as (B1 & B2 & _). rewrite E in *.
  split; [done|]. split; [done|].
  destruct (decide (src_w = 0 \/ src_h = 0)%N) as [Z|Z].
  - assert (fit_output src_w src_h = (FALLBACK_W, FALLBACK_H)) as F.
    { unfold fit_output. destruct Z as [->| ->]; [done|]. by rewrite orb_true_r. }
    rewrite F in E. injection E as <- <-. done.
  - specialize (K ltac:(lia) ltac:(lia)) as (Box & _). unfold MAX_W, MAX_H in *. destruct (src_w <? src_h)%N; nia.
Qed.

(** The size of a stream is right for every screen. For any size of a
    monitor both sides are even and positive and have no more pixels than 1920
    by 1080; a known screen fits into that turned the way it is, is never
    enlarged beyond two pixels, and keeps its proportions up to the pixels that
    are rounded away; and the width H.264 gets is a multiple of eight, so that
    its planes are packed and its encoder takes the size. *)
Theorem stream_size_bounded src_w src_h : (src_w <= u32_max)%N -> (src_h <= u32_max)%N ->
  let '(w, h) := fit_output src_w src_h in
  (w mod 2 = 0 /\ h mod 2 = 0 /\ 2 <= w <= MAX_W /\ 2 <= h <= MAX_W /\ w * h <= MAX_W * MAX_H)%N /\
  (src_w <> 0 -> src_h <> 0 ->
   (if src_w <? src_h then w <= MAX_H /\ h <= MAX_W else w <= MAX_W /\ h <= MAX_H) /\
   w <= N.max src_w 2 /\ h <= N.max src_h 2 /\
   (w = 2 \/ w * src_h < (h + 2) * src_w) /\ (h = 2 \/ h * src_w < (w + 2) * src_h))%N /\
  (i420_width w mod 8 = 0 /\ 8 <= i420_width w <= N.max w 8 /\
   2 * H264.i420_len (i420_width w) h = i420_width w * h * 3)%N /\
  forall t control, is_ok (H264.h264_new t (i420_width w) h control true) = true.
Proof.
  intros Hw Hh. pose proof (fit_output_known src_w src_h) as K. pose proof (fit_output_pixels src_w src_h Hw Hh) as P.
  destruct (fit_output src_w src_h) as [w h]. destruct P as (Pw & Ph & Bw & Bh & Px).
  split; [done|]. split; [intros; apply K; lia|].
  assert (i420_width w mod 8 = 0)%N as M8 by (rewrite i420_width_div; by apply max_multiple).
  pose proof (N.div_mod' (i420_width w) 8) as D8. rewrite M8 in D8.
  pose proof (N.div_mod' h 2) as D2. rewrite Ph in D2.
  assert (8 <= i420_width w <= N.max w 8)%N as W8.
  { rewrite i420_width_div. pose proof (N.Div0.mul_div_le w 8). lia. }
  split; [split; [done|split; [done|]]|].
  - unfold H264.i420_len. set (k := (i420_width w / 8)%N) in *. rewrite D8, D2.
    set (j := (h / 2)%N) in *. replace ((8 * k + 0) / 2)%N with (4 * k)%N by (replace (8 * k + 0)%N with (4 * k * 2)%N by lia; by rewrite N.div_mul).
    replace ((2 * j + 0) / 2)%N with j by (replace (2 * j + 0)%N with (j * 2)%N by lia; by rewrite N.div_mul). lia.
  - intros t control. unfold H264.h264_new. rewrite (proj2 (N.eqb_neq _ _)), (proj2 (N.eqb_neq h 0)), Ph by lia.
    assert (i420_width w mod 2 = 0)%N as -> by (rewrite D8; replace (8 * (i420_width w / 8) + 0)%N with (4 * (i420_width w / 8) * 2)%N by lia; apply N.Div0.mod_mul).
    done.
Qed.
Lemma stream_size_bounded_witness :
  fit_output 2160 3840 = (1080, 1920)%N /\
  let '(w, h) := fit_output 3440 1440 in
  (w mod 2 = 0 /\ h mod 2 = 0 /\ 2 <= w <= MAX_W /\ 2 <= h <= MAX_W /\ w * h <= MAX_W * MAX_H)%N /\
  (3440 <> 0 -> 1440 <> 0 ->
   (if 3440 <? 1440 then w <= MAX_H /\ h <= MAX_W else w <= MAX_W /\ h <= MAX_H) /\
   w <= N.max 3440 2 /\ h <= N.max 1440 2 /\
   (w = 2 \/ w * 1440 < (h + 2) * 3440) /\ (h = 2 \/ h * 3440 < (w + 2) * 1440))%N /\
  (i420_width w mod 8 = 0 /\ 8 <= i420_width w <= N.max w 8 /\
   2 * H264.i420_len (i420_width w) h = i420_width w * h * 3)%N /\
  forall t control, is_ok (H264.h264_new t (i420_width w) h control true) = true.
Proof. split; [reflexivity|]. apply (stream_size_bounded 3440 1440); unfold u32_max; lia. Defined.
(** One pixel is enlarged: the comment that nothing is upscaled has this exception. *)
Lemma one_pixel_is_enlarged : fit_output 1 1 = (2, 2)%N.
Proof. reflexivity. Qed.

(** *** What the loop shows *)

(** The numbers of modes are 32-bit. *)
Definition state_typed (state : Result CurrentState AgentError) : Prop :=
  forall st e m, state = Ok st -> e ∈ cs_monitors st -> m ∈ me_modes e ->
    (mode_width m <= Z.of_N u32_max)%Z /\ (mode_height m <= Z.of_N u32_max)%Z.
Lemma monitors_typed state ms m : state_typed state -> monitors state = Ok ms -> m ∈ ms ->
  (width m <= u32_max)%N /\ (height m <= u32_max)%N.
Proof.
  intros T E Hm. unfold monitors in E. destruct state as [st|]; [|done]. cbn in E. injection E as E.
  assert (m ∈ map (monitor_info (cs_logical st)) (cs_monitors st)) as Hin.
  { destruct (primary _); subst ms; [|done]. unfold primary_first in Hm. rewrite list_elem_of_In in Hm |- *.
    apply in_app_iff in Hm as [H|H]; by apply filter_In in H as [H _]. }
  apply list_elem_of_In, in_map_iff in Hin as (e & <- & He%list_elem_of_In). unfold monitor_info.
  destruct (current_mode (me_modes e)) as [mo|] eqn:M; [|cbn; unfold u32_max; lia].
  assert (mo ∈ me_modes e) as Hmo.
  { unfold current_mode in M. destruct (find _ (me_modes e)) eqn:F.
    - injection M as ->. apply find_some in F as [F _]. by apply list_elem_of_In.
    - destruct (me_modes e); [done|]. injection M as ->. by left. }
  destruct (T _ _ _ eq_refl He Hmo) as [W H]. unfold oriented, u32_of_i32.
  destruct (transform_of _ _ mod 2 =? 1)%N; cbn [width height];
    destruct (mode_width mo <? 0)%Z eqn:E1, (mode_height mo <? 0)%Z eqn:E2; unfold u32_max in *; lia.
Qed.

Record plan_fits (plan : StreamPlan) : Prop := {
  pf_size : (0 < sp_w plan /\ 0 < sp_h plan /\ sp_w plan * sp_h plan <= u32_max)%N;
  pf_encoder : match sp_encoder plan with
               | ETiles e => sp_frame_bytes plan = (sp_w plan * sp_h plan * 4)%N /\ exists now, e = Tiles.tile_encoder_new now
               | EVideo e => sp_frame_bytes plan = H264.i420_len (sp_w plan) (sp_h plan) /\
                             exists now control, H264.h264_new now (sp_w plan) (sp_h plan) control true = Ok e
               end;
}.
Lemma stream_plan_fits state display video builds now plan :
  state_typed state -> stream_plan state display video builds now = Ok plan -> plan_fits plan.
Proof.
  intros T E. unfold stream_plan in E. destruct (monitors state) as [ms|] eqn:M; [|done]. cbn in E.
  destruct (ms !! monitor_index display ms) as [m|] eqn:L; [|done]. cbn [ok_or] in E.
  destruct (monitors_typed _ _ m T M) as [W H]; [by eapply list_elem_of_lookup_2|].
  pose proof (fit_output_pixels _ _ W H) as P. destruct (fit_output (width m) (height m)) as [w h].
  destruct P as (Pw & Ph & Bw & Bh & Px).
  assert (8 <= i420_width w <= N.max w 8)%N as W8.
  { rewrite i420_width_div. pose proof (N.Div0.mul_div_le w 8). lia. }
  assert (w * h <= u32_max /\ i420_width w * h <= u32_max)%N as [Q1 Q2] by (unfold MAX_W, MAX_H, u32_max in *; nia).
  destruct video as [control|]; [destruct (H264.h264_new now (i420_width w) h control builds) as [e|] eqn:N|].
  all: injection E as <-; split; cbn [sp_w sp_h sp_encoder sp_frame_bytes]; try (split_and!; lia).
  - split; [done|]. exists now, control. by destruct builds; [|unfold H264.h264_new in N; destruct (_ || _)].
  - split; [done|by exists now].
  - split; [done|by exists now].
Qed.

(** What the encoder remembers is what it was last given and could queue. *)
Lemma turn_prev `{Base64} jpeg t e e' delta go : Tiles.turn jpeg t e = Some (e', delta, go) ->
  (Tiles.prev e' = Tiles.prev e \/
   exists now at_ q fw fh quality data, t = Tiles.PushFrame now at_ q fw fh quality data /\ Tiles.prev e' = Some (fw, fh, data)) /\
  (forall d, delta = Some d -> Tiles.turn_queue t = QueueOk -> Tiles.prev e' <> None).
Proof.
  destruct t as [now at_ q fw fh quality data|now at_ q]; cbn [Tiles.turn Tiles.turn_queue].
  - unfold Tiles.tiles_push. destruct (_ || _); [intros [= <- <- <-]; split; [by left|done]|]. cbv zeta.
    destruct (Tiles.push_tiles _ _ _ _ _ _ _ _ _) as [tiles|]; [|done].
    destruct (_ && _); [intros [= <- <- <-]; split; [by left|done]|].
    destruct q; intros [= <- <- <-]; cbn; (split; [|done]); [right; by repeat eexists|by left|by left].
  - unfold Tiles.tiles_heartbeat. destruct (Tiles.prev e) as [[[pw ph] pd]|] eqn:P; [|intros [= <- <- <-]; split; [by left|done]].
    destruct (_ <? _)%N; [intros [= <- <- <-]; split; [by left|done]|].
    destruct q; intros [= <- <- <-]; (split; [by left|]); cbn; congruence.
Qed.

Section Shows.
Context `{Base64} (jpeg : N -> N -> N -> bytes -> Result bytes string).
Hypothesis jpeg_works : forall q tw th b, (0 < tw <= Tiles.TILE)%N -> (0 < th <= Tiles.TILE)%N ->
  len b = (tw * th * 4)%N -> is_ok (jpeg q tw th b) = true.
Variables (plan : StreamPlan) (quality : N).
Hypothesis plan_ok : plan_fits plan.

Definition taken (m : MainPhase) : list bytes := match m with TookFrame (Some f) => [f] | _ => [] end.
Definition nothing_shown : Tiles.Picture := (0, 0, ∅)%N.
Definition encoder_shows (s : StreamLoop) : Prop :=
  match encoder s with
  | ETiles e =>
      Tiles.synced jpeg quality e (foldl Tiles.show nothing_shown (queued_tiles s)) /\
      (queued_tiles s <> [] -> Tiles.prev e <> None) /\
      (forall fw fh data, Tiles.prev e = Some (fw, fh, data) ->
         fw = sp_w plan /\ fh = sp_h plan /\ data ∈ encoder_given s)
  | EVideo e =>
      H264.decodable None (queued_video s) /\
      (main s <> LoopEnded ->
       H264.encoder_ok (sp_w plan) (sp_h plan) (H264.last_number None (queued_video s)) (H264.shown None (queued_video s))
         (last (encoder_given s)) e)
  end.
Record loop_ok (s : StreamLoop) : Prop := {
  lo_no_panic : main s <> Panicked;
  lo_order : encoder_given s ++ taken (main s) ++ option_list (latest s) `sublist_of` stored s;
  lo_fresh : last (encoder_given s ++ taken (main s) ++ option_list (latest s)) = last (stored s);
  lo_size : (forall f, f ∈ stored s -> len f = sp_frame_bytes plan) /\
            forall f, reader s = HasFrame f -> len f = sp_frame_bytes plan;
  lo_saw : saw_frame s = true <-> stored s <> [] \/ exists f, reader s = HasFrame f;
  lo_kind : match encoder s with
            | ETiles _ => sp_frame_bytes plan = (sp_w plan * sp_h plan * 4)%N
            | EVideo _ => sp_frame_bytes plan = H264.i420_len (sp_w plan) (sp_h plan)
            end;
  lo_shows : encoder_shows s;
}.

Lemma loop_start_ok : loop_ok (loop_start plan).
Proof.
  destruct plan_ok as [_ P]. split; cbn [loop_start main encoder_given taken latest stored reader saw_frame encoder app option_list]; try done.
  - split; [intros f Hf; by apply elem_of_nil in Hf|done].
  - split; [done|intros [?|(? & ?)]; done].
  - destruct (sp_encoder plan); by destruct P as [? _].
  - unfold encoder_shows. cbn. destruct (sp_encoder plan) as [e|e].
    + destruct P as (_ & now & ->). cbn. split; [done|split; [done|done]].
    + destruct P as (_ & now & control & E). split; [done|]. intros _.
      unfold H264.h264_new in E. destruct (_ || _); [done|]. injection E as <-. split; cbn; try done. by left.
Qed.

Lemma sublist_drop_mid {A} (a b c l : list A) : a ++ b ++ c `sublist_of` l -> a ++ b `sublist_of` l.
Proof. intros S. etrans; [|exact S]. apply sublist_app; [done|]. rewrite <-(app_nil_r b) at 1. by apply sublist_app; [|apply sublist_nil_l]. Qed.
Lemma encode_step_ok env frame s : H264.single_producer (H264.Tick (te_video env)) -> loop_ok s ->
  main s = TookFrame frame -> loop_ok (encode_step jpeg plan quality env frame s).
Proof.
  intros Sp [I1 I2 I3 [I4 I4'] I5 I6 I7] M. rewrite M in I2, I3.
  assert (taken (TookFrame frame) = option_list frame) as Tk by (by destruct frame). rewrite Tk in I2, I3.
  assert (forall f, frame = Some f -> len f = sp_frame_bytes plan) as Hlen.
  { intros f ->. apply I4. eapply elem_of_sublist; [|exact I2]. cbn. set_solver. }
  assert (forall go, taken (went go) = []) as Tw by (by intros []).
  unfold encode_step. unfold encoder_shows in I7. destruct (encoder s) as [e|e] eqn:En.
  - destruct I7 as (Sy & Sq & Sg).
    destruct (Tiles.turn_synced jpeg jpeg_works quality (tiles_turn plan quality env frame) e
      (foldl Tiles.show nothing_shown (queued_tiles s))) as (e' & delta & go & Tn & Sy' & _ & _);
      [|exact Sy|].
    { destruct frame; cbn; [split; [done|apply plan_ok]|done]. }
    rewrite Tn. destruct (turn_prev _ _ _ _ _ _ Tn) as [Pv Pn].
    assert (Tiles.turn_queue (tiles_turn plan quality env frame) = te_queue env) as Tq by (by destruct frame). rewrite Tq in Sy', Pn.
    split; cbn [main encoder_given taken latest stored reader saw_frame encoder queued_tiles queued_video]; try done.
    + by destruct go.
    + by rewrite Tw, <-app_assoc.
    + by rewrite Tw, <-app_assoc.
    + unfold encoder_shows. cbn [encoder queued_tiles encoder_given].
      rewrite foldl_app. split; [|split].
      * by destruct delta, (te_queue env).
      * intros Hq. destruct delta as [d|]; [destruct (te_queue env) eqn:Eq; [by eapply Pn|..]|];
          rewrite app_nil_r in Hq; (destruct Pv as [->|(? & ? & ? & ? & ? & ? & ? & _ & ->)]; [by apply Sq|done]).
      * intros fw fh data Hp. destruct Pv as [Pv|(now & at_ & q & fw' & fh' & ql & data' & Et & Pv)]; rewrite Pv in Hp.
        -- destruct (Sg _ _ _ Hp) as (? & ? & ?). split_and!; [done..|]. set_solver.
        -- injection Hp as -> -> ->. destruct frame as [buf|]; [|done]. cbn in Et. injection Et as _ _ _ <- <- _ <-.
           split_and!; [done..|]. set_solver.
  - destruct I7 as (Dc & Eo). specialize (Eo ltac:(by rewrite M)).
    assert (H264.single_producer (video_turn env frame)) as Sp' by (by destruct frame).
    pose proof (H264.event_ok _ _ _ _ _ _ _ Sp' Eo) as Ev.
    destruct (H264.video_event (video_turn env frame) e) as [[e' coded] go]. destruct Ev as (Dc' & _ & Eo').
    split; cbn [main encoder_given taken latest stored reader saw_frame encoder queued_tiles queued_video]; try done.
    + by destruct go.
    + by rewrite Tw, <-app_assoc.
    + by rewrite Tw, <-app_assoc.
    + unfold encoder_shows. cbn [encoder queued_video encoder_given main]. split; [by apply H264.decodable_app|].
      intros Hm. destruct go; [|done]. specialize (Eo' eq_refl). unfold H264.last_number, H264.shown in *.
      rewrite !foldl_app. destruct frame as [buf|]; cbn [video_turn H264.newest_picture foldl option_list] in *.
      * change (option_list (Some buf)) with [buf]. rewrite last_snoc. rewrite (Hlen buf eq_refl), I6, N.eqb_refl in Eo'. exact Eo'.
      * change (option_list (@None bytes)) with (@nil bytes). rewrite app_nil_r. exact Eo'.
Qed.
Definition queue_told (ev : LoopEvent) : Prop :=
  match ev with EncodeTurn env => H264.single_producer (H264.Tick (te_video env)) | _ => True end.
Lemma loop_step_ok ev s : queue_told ev -> loop_ok s -> loop_ok (loop_step jpeg plan quality s ev).
Proof.
  intros Q K. pose proof K as [I1 I2 I3 [I4 I4'] I5 I6 I7]. destruct ev as [f| | | |closed| |env|k c]; cbn [loop_step].
  - destruct (reader s) eqn:R; try done. destruct (N.eqb_spec (len f) (sp_frame_bytes plan)); [|done].
    split; cbn; try done; [by split; [|intros ? [= <-]]|split; [intros _; right; by eexists|done]].
  - destruct (reader s) eqn:R; try done. split; cbn; try done. rewrite I5. split; (intros [?|(? & ?)]; [by left|done]).
  - destruct (reader s) as [|f| |] eqn:R; try done. split; cbn; try done.
    + rewrite app_assoc. apply sublist_app; [|done]. rewrite app_assoc in I2.
      etrans; [|exact I2]. rewrite <-(app_nil_r (_ ++ _)) at 1. apply sublist_app; [done|apply sublist_nil_l].
    + by rewrite app_assoc, !last_snoc.
    + split; [|done]. intros g [Hg|Hg%list_elem_of_singleton]%elem_of_app; subst; auto.
    + split; [intros _; left; by destruct (stored s)|intros _; apply I5; right; by eexists].
  - destruct (reader s) eqn:R; try done. split; cbn; try done. rewrite I5. split; (intros [?|(? & ?)]; [by left|done]).
  - destruct (main s) eqn:M; try done. split; cbn; try done; [by destruct closed|by destruct closed|by destruct closed|].
    unfold encoder_shows in *. cbn. destruct (encoder s); [done|]. destruct I7 as [? I7]. split; [done|]. intros _. apply I7. by rewrite M.
  - destruct (main s) eqn:M; try done. split; cbn; try done.
    + by destruct (latest s).
    + by destruct (latest s).
    + unfold encoder_shows in *. cbn. destruct (encoder s); [done|]. destruct I7 as [? I7]. split; [done|]. intros _. apply I7. by rewrite M.
  - destruct (main s) as [| |frame| |] eqn:M; try done. destruct frame as [f|]; [by apply encode_step_ok|].
    destruct (alive s); [by apply encode_step_ok|]. split; cbn; try done.
    unfold encoder_shows in *. cbn. destruct (encoder s); [done|]. by destruct I7 as [? I7].
  - destruct (encoder s) as [e|e] eqn:En; [done|]. split; cbn; try done. unfold encoder_shows in *. rewrite En in I7. cbn.
    destruct I7 as [? I7]. split; [done|]. intros Hm. destruct (I7 Hm). by split.
Qed.
Lemma loop_run_ok evs s : Forall queue_told evs -> loop_ok s -> loop_ok (loop_run jpeg plan quality evs s).
Proof.
  intros F. revert s. induction F as [|ev evs Q F IH]; intros s K; [done|]. apply IH. by apply loop_step_ok.
Qed.
End Shows.

(** A whole turn leaves no stored frame waiting. *)
Lemma encode_step_keeps `{Base64} jpeg plan quality env frame s :
  latest (encode_step jpeg plan quality env frame s) = latest s /\ stored (encode_step jpeg plan quality env frame s) = stored s /\
  taken (main (encode_step jpeg plan quality env frame s)) = [].
Proof.
  unfold encode_step. destruct (encoder s) as [e|e].
  - destruct (Tiles.turn _ _ _) as [[[e' d] go]|]; [|done]. by destruct go.
  - destruct (H264.video_event _ _) as [[e' c] go]. by destruct go.
Qed.
Lemma turn_catches_up `{Base64} jpeg plan quality
  (Jpeg : forall q tw th b, (0 < tw <= Tiles.TILE)%N -> (0 < th <= Tiles.TILE)%N ->
     len b = (tw * th * 4)%N -> is_ok (jpeg q tw th b) = true) (Fits : plan_fits plan) env s :
  loop_ok jpeg plan quality s -> main s = AtTop -> queue_told (EncodeTurn env) ->
  last (encoder_given (loop_run jpeg plan quality [TopOfLoop false; TakeLatest; EncodeTurn env] s)) = last (stored s).
Proof.
  intros K M Q. set (s' := loop_run _ _ _ _ s).
  assert (loop_ok jpeg plan quality s') as [_ _ Fresh _ _ _ _] by (apply loop_run_ok; [done|done|repeat constructor; done|done]).
  assert (latest s' = None /\ stored s' = stored s /\ taken (main s') = []) as (L & St & Tk).
  { unfold s', loop_run. cbn [fold_left loop_step]. rewrite M. cbn [with_main main loop_step latest alive].
    destruct (latest s) as [f|]; [|destruct (alive s); [|done]];
      match goal with |- context [encode_step _ _ _ _ ?f ?x] => by destruct (encode_step_keeps jpeg plan quality env f x) as (-> & -> & ->) end. }
  rewrite L, Tk, !app_nil_r, St in Fresh. exact Fresh.
Qed.

(** C23. A stream shows the screen. However the reader of the pipe and the loop
    interleave, whatever the queue has room for and whatever viewers ask for:
    the encoder never reads outside a frame; the frames it was given, the one
    the loop has in hand and the one that waits are frames that were captured,
    in their order, each once, and the last of them is the newest that the
    reader stored; a whole turn of a loop that goes on leaves none waiting, so
    the encoder has the newest stored before it. Nothing is claimed of a frame
    that is stored after the last take of a loop: it still waits when the loop
    ends, and is not encoded. The viewer of a tile stream has exactly the
    picture of one of the frames given, sent whole; the viewer of a video stream
    can decode every frame, and while the stream goes on it has the newest
    picture the encoder got, or that picture is marked to be sent; and a stream
    fails exactly when no frame was read. *)
Theorem stream_shows_the_screen `{Base64} jpeg quality state display video builds now plan evs
  (Jpeg : forall q tw th b, (0 < tw <= Tiles.TILE)%N -> (0 < th <= Tiles.TILE)%N ->
     len b = (tw * th * 4)%N -> is_ok (jpeg q tw th b) = true) :
  state_typed state -> stream_plan state display video builds now = Ok plan -> Forall queue_told evs ->
  let s := loop_run jpeg plan quality evs (loop_start plan) in
  main s <> Panicked /\
  encoder_given s ++ taken (main s) ++ option_list (latest s) `sublist_of` stored s /\
  last (encoder_given s ++ taken (main s) ++ option_list (latest s)) = last (stored s) /\
  (forall env, main s = AtTop -> queue_told (EncodeTurn env) ->
     last (encoder_given (loop_run jpeg plan quality [TopOfLoop false; TakeLatest; EncodeTurn env] s)) = last (stored s)) /\
  (is_ok (stream_result s) = true <-> stored s <> [] \/ exists f, reader s = HasFrame f) /\
  match encoder s with
  | ETiles _ => queued_tiles s = [] \/ exists frame, frame ∈ encoder_given s /\
      Tiles.whole_picture jpeg (sp_w plan) (sp_h plan) quality frame = Some (foldl Tiles.show nothing_shown (queued_tiles s))
  | EVideo e => H264.decodable None (queued_video s) /\
      (main s <> LoopEnded -> H264.last e = last (encoder_given s) /\
         (H264.shown None (queued_video s) = H264.last e \/ H264.pending e = true))
  end.
Proof.
  intros T P Q s. pose proof (stream_plan_fits _ _ _ _ _ _ T P) as F.
  assert (loop_ok jpeg plan quality s) as [I1 I2 I3 _ I5 _ I7] by (apply loop_run_ok; auto using loop_start_ok).
  assert (loop_ok jpeg plan quality s) as K by (apply loop_run_ok; auto using loop_start_ok).
  clearbody s. split; [done|]. split; [done|]. split; [done|]. split; [|split].
  - intros env M Qe. by apply (turn_catches_up jpeg plan quality Jpeg F env s).
  - rewrite <-I5. unfold stream_result. by destruct (saw_frame s).
  - unfold encoder_shows in I7. destruct (encoder s) as [e|e].
    + destruct I7 as (Sy & Sq & Sg). destruct (decide (queued_tiles s = [])) as [|Hq]; [by left|right].
      destruct (Tiles.prev e) as [[[fw fh] data]|] eqn:Pv; [|by destruct (Sq Hq)].
      destruct (Sg _ _ _ eq_refl) as (-> & -> & Hd). destruct (Sy _ _ _ Pv) as [Fr ->]. exists data.
      split; [done|]. by apply Tiles.whole_picture_ok.
    + destruct I7 as [Dc Eo]. split; [done|]. intros Hm. destruct (Eo Hm) as [_ _ L _ _ Fr]. split; [done|].
      destruct (H264.pending e); [by right|left]. rewrite L. by apply Fr.
Qed.
Definition ex_monitors : Result CurrentState AgentError :=
  Ok {| cs_monitors := [{| me_connector := "DP-1"; me_vendor := "ACME"; me_product := "";
                           me_modes := [{| mode_width := 1920; mode_height := 1080; mode_props _ := None |};
                                        {| mode_width := 2; mode_height := 4;
                                           mode_props k := if (k =? "is-current")%string then Some (PBool true) else None |}] |};
                        {| me_connector := "eDP-1"; me_vendor := "ACME"; me_product := "Panel"; me_modes := [] |}];
        cs_logical := [{| lm_transform := 0; lm_primary := true; lm_connectors := ["eDP-1"%string] |};
                       {| lm_transform := 1; lm_primary := false; lm_connectors := ["DP-1"%string] |}] |}.
Example listed : map (fun d => (display_id d, display_name d)) (list_displays ex_monitors) =
  [(0%N, "eDP-1 · Panel"%string); (1%N, "DP-1 · ACME"%string)] /\
  monitor_target ex_monitors (Some 1%N) = Some ("DP-1"%string, 4%N, 2%N) /\
  monitor_target ex_monitors (Some 9%N) = Some ("eDP-1"%string, 0%N, 0%N).
Proof. vm_compute. done. Qed.
Definition ex_plan : StreamPlan :=
  {| sp_connector := "DP-1"; sp_format := "BGRx"; sp_w := 4; sp_h := 2; sp_frame_bytes := 32;
     sp_encoder := ETiles (Tiles.tile_encoder_new 0) |}.
Definition ex_turn : LoopEvent :=
  EncodeTurn {| te_now := 1; te_sent_at := 1; te_queue := QueueOk;
                te_video := {| H264.now := 1; H264.builds := true; H264.closed := false; H264.capacity := 1;
                               H264.answer := H264.Skipped; H264.accepts := QueueOk |} |}.
Definition ex_loop : list LoopEvent :=
  [TopOfLoop false; ReadFrame (replicate 32 Byte.x01); StoreFrame; ReadFrame (replicate 32 Byte.x02); TakeLatest; StoreFrame;
   ex_turn; TopOfLoop false; TakeLatest; ex_turn; ReadFails; StoreDead; TopOfLoop false].
Lemma stream_shows_the_screen_witness :
  let s := loop_run Tiles.ex_jpeg ex_plan 60 ex_loop (loop_start ex_plan) in
  (length (queued_tiles s) = 2 /\ length (encoder_given s) = 2 /\ main s = Asleep) /\
  main s <> Panicked /\
  encoder_given s ++ taken (main s) ++ option_list (latest s) `sublist_of` stored s /\
  last (encoder_given s ++ taken (main s) ++ option_list (latest s)) = last (stored s) /\
  (forall env, main s = AtTop -> queue_told (EncodeTurn env) ->
     last (encoder_given (loop_run Tiles.ex_jpeg ex_plan 60 [TopOfLoop false; TakeLatest; EncodeTurn env] s)) = last (stored s)) /\
  (is_ok (stream_result s) = true <-> stored s <> [] \/ exists f, reader s = HasFrame f) /\
  match encoder s with
  | ETiles _ => queued_tiles s = [] \/ exists frame, frame ∈ encoder_given s /\
      Tiles.whole_picture Tiles.ex_jpeg 4 2 60 frame = Some (foldl Tiles.show nothing_shown (queued_tiles s))
  | EVideo e => H264.decodable None (queued_video s) /\
      (main s <> LoopEnded -> H264.last e = last (encoder_given s) /\
         (H264.shown None (queued_video s) = H264.last e \/ H264.pending e = true))
  end.
Proof.
  intros s. split; [vm_compute; done|].
  apply (stream_shows_the_screen Tiles.ex_jpeg 60 ex_monitors (Some 1%N) None true 0 ex_plan ex_loop).
  - done.
  - intros st e m [= <-]. cbn [cs_monitors]. intros He Hm. repeat (apply elem_of_cons in He as [->|He]; [cbn in Hm|]); [| |by apply elem_of_nil in He].
    + repeat (apply elem_of_cons in Hm as [->|Hm]); [done|done|by apply elem_of_nil in Hm].
    + by apply elem_of_nil in Hm.
  - vm_cast_no_check (eq_refl (@Ok StreamPlan AgentError ex_plan)).
  - repeat constructor; done.
Defined.

(** A frame that is stored between the take and the look at [alive] is left
    behind when the capture ends there. *)
Lemma last_frame_left_behind :
  let s := loop_run Tiles.ex_jpeg ex_plan 60
    [TopOfLoop false; TakeLatest; ReadFrame (replicate 32 Byte.x01); StoreFrame; ReadFails; StoreDead; ex_turn]
    (loop_start ex_plan) in
  main s = LoopEnded /\ encoder_given s = [] /\ stored s <> [] /\ stream_result s = Ok tt.
Proof. vm_compute. done. Qed.

(** *** One picture, exactly *)

Lemma bgrx_rgba_pixels b : (len b mod 4 = 0)%N -> length (bgrx_rgba b) = length b.
Proof.
  remember (length b) as n eqn:E. revert b E. induction (lt_wf n) as [n _ IH]. intros b E M.
  destruct b as [|p [|q [|r [|x rest]]]]; try (by subst); try (unfold len in M; cbn in M; discriminate M).
  cbn [bgrx_rgba length] in *. subst n. do 4 f_equal. apply (IH (length rest)); [lia|done|].
  unfold len in *. cbn [length] in M. replace (N.of_nat (S (S (S (S (length rest)))))) with (N.of_nat (length rest) + 1 * 4)%N in M by lia.
  by rewrite N.Div0.mod_add in M.
Qed.
Section Pictures.
Context (spawn : string -> list string -> Result Child string) (record_monitor : string -> Result N AgentError)
  (png : N -> N -> bytes -> Result bytes AgentError).
(** A picture is the first frame of the primary monitor in full, in the size
    that was asked for; the errors of GStreamer are drained by the spawn and
    never reach the message that is to carry them. *)
Lemma capture_primary_exact state m rest node child secs : state_typed state ->
  monitors state = Ok (m :: rest) -> record_monitor (connector m) = Ok node ->
  let '(w, h) := fit_output (width m) (height m) in
  spawn "timeout" ("--signal=TERM" :: (pretty (N.max secs 1) ++ "s") :: "gst-launch-1.0" ::
    pipeline node (raw_caps "BGRx" w h))%string = Ok child ->
  forall out, c_stdout child = Some out ->
  capture_primary_png spawn record_monitor png state secs =
    if (len out <? w * h * 4)%N
    then Err (Config ("Mutter capture did not produce a frame within " ++ pretty (N.max secs 1) ++
                      " seconds: failed to fill whole buffer"))
    else png w h (bgrx_rgba (take (N.to_nat (w * h * 4)) out)).
Proof.
  intros T M R. destruct (monitors_typed _ _ m T M) as [W H]; [by left|].
  pose proof (fit_output_pixels _ _ W H) as P. unfold capture_primary_png. rewrite M. cbn [head ok_or].
  destruct (fit_output (width m) (height m)) as [w h]. destruct P as (_ & _ & [B1 B2] & [B3 B4] & Px).
  intros Sp out Eo. rewrite R. unfold spawn_one_frame_gst. rewrite Sp. cbn [map_err drain_gstreamer_stderr c_stdout c_stderr].
  rewrite Eo. cbn [ok_or]. rewrite (proj2 (N.ltb_lt _ _)); [|unfold MAX_W, MAX_H in *; change (2 ^ 64)%N with 18446744073709551616%N; lia].
  cbn [negb]. destruct (len out <? w * h * 4)%N; [done|]. unfold encode_bgrx_png.
  rewrite !(proj2 (N.ltb_ge _ _)); [done|unfold MAX_W, u32_max in *; lia..].
Qed.
(** The login screen and a locked screen are never captured. *)
Lemma console_capture_needs_desktop state secs console :
  is_ok (capture_console_png spawn record_monitor png state secs console) = true -> console = DesktopReady.
Proof. by destruct console. Qed.
End Pictures.
End Mutter.


(** ** Xorg *)

Module X11.
Definition MAX_X11_PIXELS : N := 33554432.
Definition MAX_STREAM_WIDTH : N := 1920.
Definition MAX_STREAM_HEIGHT : N := 1080.
Definition usize_max : N := 2 ^ 64 - 1.
Definition saturating_mul (a b : N) : N := N.min (a * b) usize_max.
Inductive VisualClass := TrueColor | DirectColor | OtherClass.
Record Visualtype := { visual_id : N; visual_class : VisualClass; red_mask : N; green_mask : N; blue_mask : N }.
Record XScreen := { root_depth : N; root_visual : N; allowed_depths : list (N * list Visualtype) }.
Record Setup := { roots : list XScreen; pixmap_formats : list (N * N); image_byte_order : N }.

Definition fit_stream_dimensions (width height : N) : N * N :=
  if (width <=? MAX_STREAM_WIDTH)%N && (height <=? MAX_STREAM_HEIGHT)%N then (width, height)
  else
    let width_limited_height := (saturating_mul height MAX_STREAM_WIDTH / width)%N in
    if (width_limited_height <=? MAX_STREAM_HEIGHT)%N
    then (MAX_STREAM_WIDTH, N.max width_limited_height 1)
    else (N.max (saturating_mul width MAX_STREAM_HEIGHT / height) 1, MAX_STREAM_HEIGHT)%N.

(** [u32::trailing_zeros] of a mask that is not 0. *)
Fixpoint trailing_zeros (p : positive) : N := match p with xO p => N.succ (trailing_zeros p) | _ => 0 end.
Definition component (pixel mask : N) : N :=
  match mask with
  | 0%N => 0%N
  | Npos p =>
      let shift := trailing_zeros p in
      let maximum := N.shiftr mask shift in
      let value := N.shiftr (N.land pixel mask) shift in
      let scaled := (N.min (value * 255) u32_max / maximum)%N in
      if (scaled <=? 255)%N then scaled else 255%N
  end.
Definition read_pixel (b : bytes) (image_byte_order : N) : N :=
  if (image_byte_order =? 0)%N
  then foldl (fun value x => N.lor value (N.shiftl (Byte.to_N x.2) (8 * N.of_nat x.1))) 0%N (imap (fun i x => (i, x)) b)
  else foldl (fun value x => N.lor (N.shiftl value 8 mod 2 ^ 32) (Byte.to_N x)) 0%N b.

Definition STRIDE_ERROR : AgentError := Config "invalid X11 image stride".
Section Decode.
Variables (data : bytes) (source_width source_height target_width target_height bits_per_pixel byte_order : N).
Variable visual : Visualtype.
Definition bytes_per_pixel : N := ((bits_per_pixel + 7) / 8)%N.
Definition pixel_rgba (b : bytes) : bytes :=
  let value := read_pixel b byte_order in
  [byte_of_N (component value (red_mask visual)); byte_of_N (component value (green_mask visual));
   byte_of_N (component value (blue_mask visual)); Byte.xff].
Definition source_of (target source_size target_size : N) : N := (saturating_mul target source_size / target_size)%N.
(** A row of the target; [None] is a slice out of range. *)
Definition decode_row (stride target_y : N) : option (list bytes) :=
  let source_y := source_of target_y source_height target_height in
  row ← Tiles.slice data (source_y * stride) ((source_y + 1) * stride);
  mapM (fun target_x =>
          let source_offset := (source_of target_x source_width target_width * bytes_per_pixel)%N in
          pixel_rgba <$> Tiles.slice row source_offset (source_offset + bytes_per_pixel))
    (Tiles.seqN target_width).
Definition decode_root_image_scaled : option (Result bytes AgentError) :=
  if (source_width =? 0)%N || (source_height =? 0)%N || (target_width =? 0)%N || (target_height =? 0)%N
  then Some (Err (Config "invalid X11 image dimensions for scaling"))
  else if negb ((1 <=? bytes_per_pixel)%N && (bytes_per_pixel <=? 4)%N)
  then Some (Err (Config "unsupported X11 root pixel format"))
  else
    let stride := (len data / source_height)%N in
    if negb ((len data mod source_height =? 0)%N && (saturating_mul source_width bytes_per_pixel <=? stride)%N)
    then Some (Err STRIDE_ERROR)
    else if (usize_max <? target_width * target_height * 4)%N
    then Some (Err (Config "X11 stream dimensions are too large"))
    else rows ← mapM (decode_row stride) (Tiles.seqN target_height); Some (Ok (concat (concat rows))).
End Decode.

Definition visual_for_root (setup : Setup) (depth visual : N) : Result Visualtype AgentError :=
  ok_or (find (fun v => (visual_id v =? visual)%N)
           (flat_map snd (List.filter (fun d => (d.1 =? depth)%N) (flat_map allowed_depths (roots setup)))))
    (Config "X11 root visual is unavailable").
Definition x11_error (e : string) : AgentError := Config ("X11 console capture unavailable: " ++ e).

Section Capture.
(** The answers of the X server, and PNG. *)
Context (connected : Result (Setup * nat) string) (geometry : Result (N * N) string) (image : Result bytes string).
Context (png : N -> N -> bytes -> Result bytes AgentError).
Definition x11_capture_png : option (Result bytes AgentError) :=
  match connected with
  | Err e => Some (Err (x11_error e))
  | Ok (setup, screen_index) =>
      let_some screen := roots setup !! screen_index else Some (Err (Config "X11 display has no screen")) in
      match geometry with
      | Err e => Some (Err (x11_error e))
      | Ok (w, h) =>
          if (w =? 0)%N || (h =? 0)%N then Some (Err (Config "X11 display has no active monitor geometry"))
          else if (MAX_X11_PIXELS <? w * h)%N then Some (Err (Config "X11 monitor geometry is too large"))
          else
            match image with
            | Err e => Some (Err (x11_error e))
            | Ok data =>
                match visual_for_root setup (root_depth screen) (root_visual screen) with
                | Err e => Some (Err e)
                | Ok visual =>
                    match visual_class visual with
                    | OtherClass => Some (Err (Config "unsupported X11 root visual class"))
                    | _ =>
                        let '(stream_w, stream_h) := fit_stream_dimensions w h in
                        let_some format := find (fun f => (f.1 =? root_depth screen)%N) (pixmap_formats setup)
                          else Some (Err (Config "X11 root pixel format is unavailable")) in
                        rgba ← decode_root_image_scaled data w h stream_w stream_h format.2 (image_byte_order setup) visual;
                        Some (let? rgba := rgba in png stream_w stream_h rgba)
                    end
                end
            end
      end
  end.
End Capture.

Definition rgb_visual : Visualtype :=
  {| visual_id := 1; visual_class := TrueColor; red_mask := 0xff0000; green_mask := 0x00ff00; blue_mask := 0x0000ff |}.
Example decodes :
  map (fun b => decode_root_image_scaled b 1 1 1 1 32 0 rgb_visual) [[Byte.x03; Byte.x02; Byte.x01; Byte.x00]; [Byte.x00; Byte.x00; Byte.x00]] =
  [Some (Ok [Byte.x01; Byte.x02; Byte.x03; Byte.xff]); Some (Err STRIDE_ERROR)] /\
  map (fun p => fit_stream_dimensions p.1 p.2) [(3840, 2160); (3440, 1440); (1280, 720)]%N = [(1920, 1080); (1920, 803); (1280, 720)]%N.
Proof. vm_compute. done. Qed.

(** *** Every pixel *)

Lemma fit_stream_bounds w h : (0 < w <= 65535)%N -> (0 < h <= 65535)%N ->
  let '(sw, sh) := fit_stream_dimensions w h in
  (1 <= sw <= MAX_STREAM_WIDTH /\ 1 <= sh <= MAX_STREAM_HEIGHT /\ sw <= w /\ sh <= h)%N.
Proof.
  intros [W0 W1] [H0 H1]. unfold fit_stream_dimensions.
  destruct ((w <=? MAX_STREAM_WIDTH)%N && (h <=? MAX_STREAM_HEIGHT)%N) eqn:E.
  { apply andb_true_iff in E as [E1%N.leb_le E2%N.leb_le]. lia. }
  unfold saturating_mul, MAX_STREAM_WIDTH, MAX_STREAM_HEIGHT in *.
  rewrite !N.min_l by (unfold usize_max; change (2 ^ 64)%N with 18446744073709551616%N; lia).
  destruct (Mutter.div_between (h * 1920) w W0) as [A1 A2]. destruct (Mutter.div_between (w * 1080) h H0) as [B1 B2].
  set (a := (h * 1920 / w)%N) in *. set (b := (w * 1080 / h)%N) in *. clearbody a b.
  destruct (N.leb_spec a 1080) as [L|L].
  - apply andb_false_iff in E. rewrite !N.leb_gt in E. assert (1920 <= w)%N by (destruct E; [lia|nia]).
    split_and!; try lia. destruct (N.le_gt_cases a h); [lia|nia].
  - assert (1080 <= h)%N by (apply andb_false_iff in E; rewrite !N.leb_gt in E; destruct E; nia).
    split_and!; try lia; nia.
Qed.

Lemma mapM_total {A B} (f : A -> option B) (g : A -> B) l : (forall x, x ∈ l -> f x = Some (g x)) -> mapM f l = Some (map g l).
Proof.
  induction l as [|x l IH]; intros H; [done|]. cbn. rewrite H by left. rewrite IH; [done|]. intros y Hy. apply H. by right.
Qed.
(** Pieces of one length are found where they were put. *)
Lemma concat_piece {A} n (ls : list (list A)) i c : Forall (fun l => length l = n) ls -> ls !! i = Some c ->
  take n (drop (i * n) (concat ls)) = c.
Proof.
  intros F. revert i. induction F as [|l ls L F IH]; intros i E; [done|]. cbn [concat].
  destruct i as [|i]; cbn in E.
  - injection E as <-. cbn. rewrite <-L. apply take_app_length.
  - rewrite <-(IH i E). f_equal. rewrite drop_app_ge by (rewrite L; simpl; lia). f_equal. rewrite L. simpl. lia.
Qed.
Lemma length_concat_pieces {A} n (ls : list (list A)) : Forall (fun l => length l = n) ls -> length (concat ls) = length ls * n.
Proof. induction 1 as [|l ls L F IH]; [done|]. cbn [concat length]. rewrite length_app, IH. lia. Qed.
Lemma seqN_lookup n k : (k < n)%N -> Tiles.seqN n !! N.to_nat k = Some k.
Proof.
  intros H. unfold Tiles.seqN. rewrite list_lookup_fmap, lookup_seq_lt by lia. cbn. f_equal. lia.
Qed.
Lemma length_seqN n : length (Tiles.seqN n) = N.to_nat n.
Proof. unfold Tiles.seqN. by rewrite length_map, length_seq. Qed.
Lemma slice_some data start stop : (start <= stop)%N -> (stop <= len data)%N ->
  Tiles.slice data start stop = Some (take (N.to_nat (stop - start)) (drop (N.to_nat start) data)).
Proof. intros L1 L2. unfold Tiles.slice. by rewrite (proj2 (N.leb_le _ _) L1), (proj2 (N.leb_le _ _) L2). Qed.

Lemma source_of_lt t size target : (0 < target <= 65535)%N -> (0 < size <= 65535)%N -> (t < target)%N ->
  source_of t size target = (t * size / target)%N /\ (t * size / target < size)%N.
Proof.
  intros [T0 T1] [S0 S1] Ht. unfold source_of, saturating_mul.
  rewrite N.min_l by (unfold usize_max; change (2 ^ 64)%N with 18446744073709551616%N; nia).
  split; [done|]. apply N.Div0.div_lt_upper_bound. nia.
Qed.

Section Exact.
Variables (data : bytes) (sw sh tw th bits order : N) (visual : Visualtype).
Definition image_ok : Prop :=
  (sw <> 0 /\ sh <> 0 /\ tw <> 0 /\ th <> 0 /\ 1 <= bytes_per_pixel bits <= 4 /\
   len data mod sh = 0 /\ sw * bytes_per_pixel bits <= len data / sh)%N.
(** The bytes of the pixel of the image at column [sx] and row [sy]. *)
Definition image_pixel (sx sy : N) : bytes :=
  take (N.to_nat (bytes_per_pixel bits)) (drop (N.to_nat (sy * (len data / sh) + sx * bytes_per_pixel bits)) data).
Definition target_row (y : N) : list bytes :=
  map (fun x => pixel_rgba order visual (image_pixel (x * sw / tw) (y * sh / th))) (Tiles.seqN tw).

Lemma decode_row_ok y : image_ok -> (sw <= 65535)%N -> (sh <= 65535)%N -> (tw <= 65535)%N -> (th <= 65535)%N -> (y < th)%N ->
  decode_row data sw sh tw th bits order visual (len data / sh) y = Some (target_row y).
Proof.
  intros (S1 & S2 & T1 & T2 & K & M & St) L1 L2 L3 L4 Hy. unfold decode_row.
  destruct (source_of_lt y sh th) as [-> Ly]; [lia..|]. set (sy := (y * sh / th)%N) in *. set (stride := (len data / sh)%N) in *.
  assert (len data = sh * stride)%N as D by (pose proof (N.div_mod' (len data) sh); fold stride in H; lia).
  rewrite slice_some by nia. cbn [mbind option_bind]. unfold target_row. apply mapM_total. intros x Hx%Tiles.elem_of_seqN.
  destruct (source_of_lt x sw tw) as [-> Lx]; [lia..|]. fold sy. set (sx := (x * sw / tw)%N) in *. set (k := bytes_per_pixel bits) in *.
  replace ((sy + 1) * stride - sy * stride)%N with stride by lia.
  assert (sx * k + k <= stride)%N as Fit by nia.
  assert (sy * stride + stride <= len data)%N as Fit' by nia.
  rewrite slice_some; [|lia|unfold len in *; rewrite length_take, length_drop; lia].
  cbn [fmap option_fmap option_map]. do 2 f_equal. unfold image_pixel. fold stride k.
  replace (N.to_nat (sx * k + k - sx * k)) with (N.to_nat k) by lia.
  rewrite skipn_firstn_comm, drop_drop, take_take. f_equal; [lia|]. f_equal. lia.
Qed.
End Exact.

Lemma decode_cases data sw sh tw th bits order visual :
  (sw <= 65535)%N -> (sh <= 65535)%N -> (tw <= 65535)%N -> (th <= 65535)%N ->
  (exists e, decode_root_image_scaled data sw sh tw th bits order visual = Some (Err e) /\ ~ image_ok data sw sh tw th bits) \/
  image_ok data sw sh tw th bits /\
  decode_root_image_scaled data sw sh tw th bits order visual =
    Some (Ok (concat (concat (map (target_row data sw sh tw th bits order visual) (Tiles.seqN th))))).
Proof.
  intros L1 L2 L3 L4. unfold decode_root_image_scaled.
  destruct ((sw =? 0)%N || (sh =? 0)%N || (tw =? 0)%N || (th =? 0)%N) eqn:Z.
  { left. eexists. split; [done|]. intros (A & B & C & D & _). rewrite !orb_true_iff, !N.eqb_eq in Z. destruct Z as [[[?|?]|?]|?]; done. }
  rewrite !orb_false_iff, !N.eqb_neq in Z. destruct Z as (((Z1 & Z2) & Z3) & Z4).
  destruct ((1 <=? bytes_per_pixel bits)%N && (bytes_per_pixel bits <=? 4)%N) eqn:K; cbn [negb].
  2:{ left. eexists. split; [done|]. intros (_ & _ & _ & _ & K' & _). apply andb_false_iff in K. rewrite !N.leb_gt in K. lia. }
  apply andb_true_iff in K as [K1%N.leb_le K2%N.leb_le].
  assert (saturating_mul sw (bytes_per_pixel bits) = sw * bytes_per_pixel bits)%N as ->.
  { apply N.min_l. unfold usize_max. change (2 ^ 64)%N with 18446744073709551616%N. nia. }
  destruct ((len data mod sh =? 0)%N && (sw * bytes_per_pixel bits <=? len data / sh)%N) eqn:St; cbn [negb].
  2:{ left. eexists. split; [done|]. intros (_ & _ & _ & _ & _ & M & S). apply andb_false_iff in St. rewrite N.eqb_neq, N.leb_gt in St. destruct St; [done|lia]. }
  apply andb_true_iff in St as [M%N.eqb_eq S%N.leb_le].
  rewrite (proj2 (N.ltb_ge usize_max _)) by (unfold usize_max; change (2 ^ 64)%N with 18446744073709551616%N; nia).
  assert (image_ok data sw sh tw th bits) as Ok_ by done. right. split; [done|].
  rewrite (mapM_total _ (target_row data sw sh tw th bits order visual)).
  2:{ intros y Hy%Tiles.elem_of_seqN. by apply decode_row_ok. }
  done.
Qed.

(** *** Colours *)

Lemma lor_shiftl_add a b n : (a < 2 ^ n)%N -> N.lor a (N.shiftl b n) = (a + b * 2 ^ n)%N.
Proof.
  intros H. rewrite <-N.shiftl_mul_pow2. assert (N.land a (N.shiftl b n) = 0)%N as Z.
  { apply N.bits_inj_0. intros m. rewrite N.land_spec. destruct (N.lt_ge_cases m n) as [L|L].
    - rewrite N.shiftl_spec_low by done. apply andb_false_r.
    - rewrite N.testbit_eqb, N.div_small; [done|]. eapply N.lt_le_trans; [exact H|]. by apply N.pow_le_mono_r. }
  by rewrite <-N.lxor_lor, N.add_nocarry_lxor.
Qed.
Lemma byte_lt x : (Byte.to_N x < 256)%N.
Proof. pose proof (Byte.to_N_bounded x). lia. Qed.
(** A colour of a visual is a field of the pixel, [width] bits from bit [low]
    on, and the visual holds the mask of it. *)
Record Field := { low : N; field_width : N }.
Definition mask_of (f : Field) : N := N.shiftl (N.ones (field_width f)) (low f).
(** What the pixel says of a field, in 255ths of the most it can hold. *)
Definition intensity (value : N) (f : Field) : N :=
  ((value / 2 ^ low f) mod 2 ^ field_width f * 255 / (2 ^ field_width f - 1))%N.
(** The number that bytes with the least significant one first stand for, and
    the number of a pixel in the order that the setup of the server names. *)
Fixpoint number (l : bytes) : N := match l with [] => 0%N | x :: l => (Byte.to_N x + 256 * number l)%N end.
Definition pixel_value (order : N) (b : bytes) : N := number (if (order =? 0)%N then b else reverse b).

Lemma trailing_zeros_iter n p : trailing_zeros (Pos.iter xO p n) = (Npos n + trailing_zeros p)%N.
Proof.
  induction n as [|n IH] using Pos.peano_ind; [cbn; lia|]. rewrite Pos.iter_succ. cbn [trailing_zeros]. rewrite IH. lia.
Qed.
Lemma trailing_zeros_ones n : match N.ones (Npos n) with N0 => False | Npos p => trailing_zeros p = 0%N end.
Proof.
  pose proof (N.ones_spec_low (Npos n) 0 ltac:(lia)) as T. destruct (N.ones (Npos n)) as [|[p|p|]]; done.
Qed.
Lemma mask_of_pos f : field_width f <> 0%N -> exists p, mask_of f = Npos p /\ trailing_zeros p = low f.
Proof.
  unfold mask_of. destruct f as [l [|n]]; [done|]. intros _. cbn [low field_width].
  pose proof (trailing_zeros_ones n) as T. destruct (N.ones (Npos n)) as [|p]; [done|].
  destruct l as [|l]; [by exists p|]. exists (Pos.iter xO p l). split; [done|]. rewrite trailing_zeros_iter, T. lia.
Qed.
(** The component of a field is what the pixel says of it. *)
Lemma component_field v f : (field_width f <= 24)%N -> component v (mask_of f) = intensity v f.
Proof.
  intros W. destruct (N.eq_dec (field_width f) 0%N) as [Z|Z].
  { unfold intensity, mask_of. rewrite Z, N.mod_1_r. cbn. by destruct (low f). }
  destruct (mask_of_pos f Z) as (p & Ep & Et). unfold component. rewrite Ep, Et, <-Ep. unfold mask_of, intensity.
  rewrite N.shiftr_land, N.shiftr_shiftl_l, N.sub_diag, N.shiftl_0_r, N.land_ones, N.shiftr_div_pow2 by lia.
  rewrite N.ones_equiv, <-N.sub_1_r. set (c := ((v / 2 ^ low f) mod 2 ^ field_width f)%N).
  assert (c < 2 ^ field_width f)%N as Hc by (apply N.mod_lt, N.pow_nonzero; done).
  assert (2 ^ field_width f <= 2 ^ 24)%N as H24 by (apply N.pow_le_mono_r; [done|lia]). change (2 ^ 24)%N with 16777216%N in H24.
  assert (2 ^ 1 <= 2 ^ field_width f)%N as H1 by (apply N.pow_le_mono_r; [done|lia]). change (2 ^ 1)%N with 2%N in H1.
  set (m := (2 ^ field_width f)%N) in *. clearbody c m.
  rewrite N.min_l by (unfold u32_max; change (2 ^ 32)%N with 4294967296%N; lia).
  destruct (N.leb_spec (c * 255 / (m - 1)) 255) as [|L]; [done|].
  assert (c * 255 / (m - 1) <= 255)%N by (apply N.Div0.div_le_upper_bound; nia). lia.
Qed.
Lemma intensity_byte v f : (field_width f <= 24)%N -> (intensity v f <= 255)%N.
Proof.
  intros W. rewrite <-component_field by done. unfold component. destruct (mask_of f); [done|]. cbv zeta.
  by destruct (N.leb_spec (N.min (N.shiftr (N.land v (Npos p)) (trailing_zeros p) * 255) u32_max / N.shiftr (Npos p) (trailing_zeros p)) 255).
Qed.

Lemma read_lsb l : forall k acc, (acc < 2 ^ (8 * N.of_nat k))%N ->
  foldl (fun value x => N.lor value (N.shiftl (Byte.to_N x.2) (8 * N.of_nat x.1))) acc (imap (fun i x => ((k + i)%nat, x)) l) =
  (acc + number l * 2 ^ (8 * N.of_nat k))%N.
Proof.
  induction l as [|x l IH]; intros k acc H; [cbn; lia|]. cbn [imap foldl fst snd number]. rewrite Nat.add_0_r, lor_shiftl_add by done.
  rewrite (imap_ext _ (fun i x => ((S k + i)%nat, x))) by (intros; unfold compose; f_equal; lia).
  assert (2 ^ (8 * N.of_nat (S k)) = 256 * 2 ^ (8 * N.of_nat k))%N as P.
  { replace (8 * N.of_nat (S k))%N with (8 + 8 * N.of_nat k)%N by lia. by rewrite N.pow_add_r. }
  pose proof (byte_lt x). rewrite IH, P by (rewrite P; nia). lia.
Qed.
Lemma number_snoc l x : number (l ++ [x]) = (number l + Byte.to_N x * 2 ^ (8 * N.of_nat (length l)))%N.
Proof.
  induction l as [|y l IH]; cbn [app number length]; [cbn; lia|]. rewrite IH.
  replace (8 * N.of_nat (S (length l)))%N with (8 + 8 * N.of_nat (length l))%N by lia. rewrite N.pow_add_r.
  change (2 ^ 8)%N with 256%N. lia.
Qed.
Lemma read_msb l : forall k acc, (acc < 2 ^ (8 * N.of_nat k))%N -> k + length l <= 4 ->
  foldl (fun value x => N.lor (N.shiftl value 8 mod 2 ^ 32) (Byte.to_N x)) acc l =
  (acc * 2 ^ (8 * N.of_nat (length l)) + number (reverse l))%N.
Proof.
  induction l as [|x l IH]; intros k acc H L; [cbn; lia|]. cbn [foldl length] in *. pose proof (byte_lt x).
  assert (2 ^ (8 * N.of_nat (S k)) = 256 * 2 ^ (8 * N.of_nat k))%N as P.
  { replace (8 * N.of_nat (S k))%N with (8 + 8 * N.of_nat k)%N by lia. by rewrite N.pow_add_r. }
  assert (2 ^ (8 * N.of_nat (S k)) <= 2 ^ 32)%N as B by (apply N.pow_le_mono_r; [done|lia]).
  rewrite N.mod_small by (rewrite N.shiftl_mul_pow2; change (2 ^ 8)%N with 256%N; nia).
  rewrite N.lor_comm, lor_shiftl_add by (change (2 ^ 8)%N with 256%N; done). change (2 ^ 8)%N with 256%N.
  rewrite (IH (S k)) by (rewrite ?P; lia). rewrite reverse_cons, number_snoc, length_reverse.
  replace (8 * N.of_nat (S (length l)))%N with (8 + 8 * N.of_nat (length l))%N by lia. rewrite N.pow_add_r.
  change (2 ^ 8)%N with 256%N. lia.
Qed.
Lemma read_pixel_value b order : length b <= 4 -> read_pixel b order = pixel_value order b.
Proof.
  intros L. unfold read_pixel, pixel_value. destruct (order =? 0)%N.
  - etransitivity; [exact (read_lsb b 0 0%N eq_refl)|]. change (2 ^ (8 * N.of_nat 0))%N with 1%N. lia.
  - rewrite (read_msb b 0 0%N eq_refl) by done. lia.
Qed.
(** The colours of a pixel: red, green and blue as the fields say, opaque. *)
Definition colour (order : N) (r g b : Field) (pixel : bytes) : list N :=
  let value := pixel_value order pixel in [intensity value r; intensity value g; intensity value b; 255%N].
Lemma pixel_rgba_colour order visual r g b pixel : length pixel <= 4 ->
  Forall (fun f => (field_width f <= 24)%N) [r; g; b] ->
  (red_mask visual, green_mask visual, blue_mask visual) = (mask_of r, mask_of g, mask_of b) ->
  map Byte.to_N (pixel_rgba order visual pixel) = colour order r g b pixel.
Proof.
  intros L F [= Er Eg Eb]. rewrite !list.Forall_cons in F. destruct F as (Wr & Wg & Wb & _).
  unfold pixel_rgba, colour. cbv zeta. rewrite Er, Eg, Eb, read_pixel_value, !component_field by done. cbn [map].
  rewrite !to_N_byte_of_N. rewrite !N.mod_small; [done|..]; pose proof (intensity_byte (pixel_value order pixel) r Wr);
    pose proof (intensity_byte (pixel_value order pixel) g Wg); pose proof (intensity_byte (pixel_value order pixel) b Wb); lia.
Qed.

(** C24. An image of the X server is read exactly. For every image and pixel
    format, decoding to a smaller size never reads out of range; it succeeds
    exactly for images that are not empty, with pixels of one to four bytes and
    rows of one length that hold them; and then the picture has the size that
    was asked for, and each of its pixels is opaque and has the colour of the
    pixel of the image at the same place: the pixel is the number its bytes
    stand for in the byte order of the server, red, green and blue are the
    fields of it that the three masks of the visual name, and each is given in
    255ths of the most its field holds. The masks are those of fields of at most
    24 bits; a wider one saturates. *)
Theorem decode_exact data sw sh tw th bits order visual :
  (sw <= 65535)%N -> (sh <= 65535)%N -> (tw <= 65535)%N -> (th <= 65535)%N ->
  match decode_root_image_scaled data sw sh tw th bits order visual with
  | None => False
  | Some (Err _) => ~ image_ok data sw sh tw th bits
  | Some (Ok rgba) =>
      image_ok data sw sh tw th bits /\ len rgba = (tw * th * 4)%N /\
      forall x y, (x < tw)%N -> (y < th)%N ->
        (x * sw / tw < sw)%N /\ (y * sh / th < sh)%N /\
        forall r g b, Forall (fun f => (field_width f <= 24)%N) [r; g; b] ->
          (red_mask visual, green_mask visual, blue_mask visual) = (mask_of r, mask_of g, mask_of b) ->
          map Byte.to_N <$> Tiles.slice rgba ((y * tw + x) * 4) ((y * tw + x) * 4 + 4) =
            Some (colour order r g b (image_pixel data sh bits (x * sw / tw) (y * sh / th)))
  end.
Proof.
  intros L1 L2 L3 L4. destruct (decode_cases data sw sh tw th bits order visual L1 L2 L3 L4) as [(e & -> & No)|[Yes ->]]; [done|].
  pose proof Yes as (Z1 & Z2 & Z3 & Z4 & [_ K4] & _). split; [done|].
  set (rows := map (target_row data sw sh tw th bits order visual) (Tiles.seqN th)).
  assert (Forall (fun r => length r = N.to_nat tw) rows) as Frows.
  { apply list.Forall_fmap, list.Forall_forall. intros y _. cbn. unfold target_row. by rewrite length_map, length_seqN. }
  assert (Forall (fun p => length p = 4) (concat rows)) as Fpix.
  { apply List.Forall_concat, list.Forall_fmap, list.Forall_forall. intros y _. cbn. unfold target_row.
    apply list.Forall_fmap, list.Forall_forall. done. }
  assert (length (concat rows) = N.to_nat th * N.to_nat tw) as Lc.
  { rewrite (length_concat_pieces (N.to_nat tw)) by done. unfold rows. by rewrite length_map, length_seqN. }
  assert (len (concat (concat rows)) = tw * th * 4)%N as Len by (unfold len; rewrite (length_concat_pieces 4), Lc by done; lia).
  split; [done|]. intros x y Hx Hy.
  destruct (source_of_lt x sw tw) as [_ Bx]; [lia..|]. destruct (source_of_lt y sh th) as [_ By]; [lia..|].
  split; [done|]. split; [done|]. intros r g b Wide Masks. rewrite slice_some; [|lia|rewrite Len; nia].
  replace ((y * tw + x) * 4 + 4 - (y * tw + x) * 4)%N with 4%N by lia. cbn [fmap option_fmap option_map]. f_equal.
  replace (N.to_nat ((y * tw + x) * 4)) with ((N.to_nat y * N.to_nat tw + N.to_nat x) * 4) by lia.
  assert (length (image_pixel data sh bits (x * sw / tw) (y * sh / th)) <= 4) as L by (unfold image_pixel; rewrite length_take; lia).
  rewrite <-(pixel_rgba_colour order visual r g b _ L Wide Masks). f_equal.
  apply (concat_piece 4); [done|]. rewrite <-lookup_drop, <-(lookup_take_lt _ (N.to_nat tw)) by lia.
  rewrite (concat_piece (N.to_nat tw) rows _ (target_row data sw sh tw th bits order visual y) Frows).
  - unfold target_row. rewrite list_lookup_fmap, seqN_lookup by done. done.
  - unfold rows. rewrite list_lookup_fmap, seqN_lookup by done. done.
Qed.
Lemma decode_exact_witness :
  let data := [Byte.x03; Byte.x02; Byte.x01; Byte.x00; Byte.x06; Byte.x05; Byte.x04; Byte.x00;
               Byte.x09; Byte.x08; Byte.x07; Byte.x00; Byte.x0c; Byte.x0b; Byte.x0a; Byte.x00] in
  decode_root_image_scaled data 2 2 1 2 32 0 rgb_visual =
    Some (Ok [Byte.x01; Byte.x02; Byte.x03; Byte.xff; Byte.x07; Byte.x08; Byte.x09; Byte.xff]) /\
  match decode_root_image_scaled data 2 2 1 2 32 0 rgb_visual with
  | None => False
  | Some (Err _) => ~ image_ok data 2 2 1 2 32
  | Some (Ok rgba) =>
      image_ok data 2 2 1 2 32 /\ len rgba = (1 * 2 * 4)%N /\
      forall x y, (x < 1)%N -> (y < 2)%N ->
        (x * 2 / 1 < 2)%N /\ (y * 2 / 2 < 2)%N /\
        forall r g b, Forall (fun f => (field_width f <= 24)%N) [r; g; b] ->
          (red_mask rgb_visual, green_mask rgb_visual, blue_mask rgb_visual) = (mask_of r, mask_of g, mask_of b) ->
          map Byte.to_N <$> Tiles.slice rgba ((y * 1 + x) * 4) ((y * 1 + x) * 4 + 4) =
            Some (colour 0 r g b (image_pixel data 2 32 (x * 2 / 1) (y * 2 / 2)))
  end /\
  (red_mask rgb_visual, green_mask rgb_visual, blue_mask rgb_visual) =
    (mask_of {| low := 16; field_width := 8 |}, mask_of {| low := 8; field_width := 8 |}, mask_of {| low := 0; field_width := 8 |}) /\
  colour 0 {| low := 16; field_width := 8 |} {| low := 8; field_width := 8 |} {| low := 0; field_width := 8 |} (image_pixel data 2 32 0 1) =
    [7; 8; 9; 255]%N.
Proof. split; [vm_compute; reflexivity|]. split; [apply decode_exact; lia|]. split; vm_compute; reflexivity. Defined.

(** The capture as a whole never reads out of range either, and what it hands
    to PNG is at most 1920 by 1080. *)
Lemma x11_capture_total connected w h image png : (w <= 65535)%N -> (h <= 65535)%N ->
  is_Some (x11_capture_png connected (Ok (w, h)) image png).
Proof.
  intros Lw Lh. unfold x11_capture_png. destruct connected as [[setup i]|]; [|done]. destruct (roots setup !! i) as [screen|]; [|done].
  destruct ((w =? 0)%N || (h =? 0)%N) eqn:Z; [done|]. apply orb_false_iff in Z as [Z1%N.eqb_neq Z2%N.eqb_neq].
  destruct (MAX_X11_PIXELS <? w * h)%N; [done|]. destruct image as [data|]; [|done].
  destruct (visual_for_root _ _ _) as [visual|]; [|done].
  pose proof (fit_stream_bounds w h ltac:(lia) ltac:(lia)) as B. destruct (fit_stream_dimensions w h) as [sw sh].
  unfold MAX_STREAM_WIDTH, MAX_STREAM_HEIGHT in B.
  destruct (visual_class visual); try done; (destruct (find _ _) as [[d bits]|]; [|done]); cbn [snd];
    destruct (decode_cases data w h sw sh bits (image_byte_order setup) visual Lw Lh ltac:(lia) ltac:(lia)) as [(e & -> & _)|[_ ->]]; done.
Qed.
(** A mask of more than 24 bits saturates: white becomes almost black. *)
Lemma wide_mask_saturates : component 0xffffffff 0xffffffff = 1%N.
Proof. reflexivity. Qed.

(** *** The usual screen *)

(** A mask of one byte picks that byte of the pixel. *)
Lemma component_byte v k : component v (N.shiftl 255 (8 * N.of_nat k)) = (v / 2 ^ (8 * N.of_nat k) mod 256)%N.
Proof.
  change (N.shiftl 255 (8 * N.of_nat k)) with (mask_of {| low := 8 * N.of_nat k; field_width := 8 |}).
  rewrite component_field by done. unfold intensity. cbn [low field_width].
  change (2 ^ 8 - 1)%N with 255%N. change (2 ^ 8)%N with 256%N. by rewrite N.div_mul.
Qed.
(** Little-endian BGRX with masks of one byte each, the usual screen, and its
    big-endian form: the colours are the bytes. *)
Lemma bgrx_exact b g r x : pixel_rgba 0 rgb_visual [b; g; r; x] = [r; g; b; Byte.xff].
Proof.
  assert (read_pixel [b; g; r; x] 0 = Byte.to_N b + Byte.to_N g * 2 ^ 8 + Byte.to_N r * 2 ^ 16 + Byte.to_N x * 2 ^ 24)%N as V.
  { pose proof (byte_lt b). pose proof (byte_lt g). pose proof (byte_lt r).
    unfold read_pixel. cbn [N.eqb imap foldl fst snd compose].
    change (8 * N.of_nat 0)%N with 0%N. change (8 * N.of_nat 1)%N with 8%N.
    change (8 * N.of_nat 2)%N with 16%N. change (8 * N.of_nat 3)%N with 24%N.
    change (2 ^ 8)%N with 256%N. change (2 ^ 16)%N with 65536%N. change (2 ^ 24)%N with 16777216%N.
    rewrite N.shiftl_0_r, N.lor_0_l, (lor_shiftl_add (Byte.to_N b)) by (change (2 ^ 8)%N with 256%N; lia).
    rewrite (lor_shiftl_add (Byte.to_N b + _)) by (change (2 ^ 8)%N with 256%N; change (2 ^ 16)%N with 65536%N; lia).
    rewrite (lor_shiftl_add (Byte.to_N b + _ + _))
      by (change (2 ^ 8)%N with 256%N; change (2 ^ 16)%N with 65536%N; change (2 ^ 24)%N with 16777216%N; lia).
    done. }
  unfold pixel_rgba. cbv zeta. rewrite V. cbn [red_mask green_mask blue_mask rgb_visual].
  set (v := (Byte.to_N b + _ + _ + _)%N).
  assert (component v 16711680 = v / 65536 mod 256)%N as -> by exact (component_byte v 2).
  assert (component v 65280 = v / 256 mod 256)%N as -> by exact (component_byte v 1).
  assert (component v 255 = v / 1 mod 256)%N as -> by exact (component_byte v 0). subst v.
  pose proof (byte_lt b). pose proof (byte_lt g). pose proof (byte_lt r).
  set (B := Byte.to_N b) in *. set (G := Byte.to_N g) in *. set (R := Byte.to_N r) in *. set (X := Byte.to_N x).
  change (2 ^ 8)%N with 256%N. change (2 ^ 16)%N with 65536%N. change (2 ^ 24)%N with 16777216%N.
  assert ((B + G * 256 + R * 65536 + X * 16777216) / 65536 mod 256 = R)%N as ->.
  { replace (B + G * 256 + R * 65536 + X * 16777216)%N with (B + G * 256 + (R + X * 256) * 65536)%N by lia.
    rewrite N.div_add, (N.div_small (B + G * 256)), N.add_0_l, N.Div0.mod_add by lia. by apply N.mod_small. }
  assert ((B + G * 256 + R * 65536 + X * 16777216) / 256 mod 256 = G)%N as ->.
  { replace (B + G * 256 + R * 65536 + X * 16777216)%N with (B + (G + (R + X * 256) * 256) * 256)%N by lia.
    rewrite N.div_add, (N.div_small B), N.add_0_l, N.Div0.mod_add by lia. by apply N.mod_small. }
  assert ((B + G * 256 + R * 65536 + X * 16777216) / 1 mod 256 = B)%N as ->.
  { rewrite N.div_1_r. replace (B + G * 256 + R * 65536 + X * 16777216)%N with (B + (G + R * 256 + X * 65536) * 256)%N by lia.
    rewrite N.Div0.mod_add by lia. by apply N.mod_small. }
  unfold B, G, R. by rewrite !byte_of_N_to_N.
Qed.
End X11.


(** ** One-shot screenshots *)

Module Screenshot.
(** [str::parse::<usize>]. *)
Fixpoint usize_digits (acc : N) (b : bytes) : option N :=
  match b with
  | [] => Some acc
  | x :: b =>
      if is_ascii_digit x then
        let acc := (acc * 10 + (Byte.to_N x - 48))%N in
        if (X11.usize_max <? acc)%N then None else usize_digits acc b
      else None
  end.
Definition parse_usize (s : string) : option N :=
  match as_bytes s with
  | [] => None
  | [x] => if is_ascii_digit x then Some (Byte.to_N x - 48)%N else None
  | x :: b => if Byte.eqb x Byte.x2b then usize_digits 0 b else usize_digits 0 (x :: b)
  end.
Definition fake_capture_size (var : option string) : option N :=
  v ← var; Some (default (600 * 1024)%N (parse_usize v)).
Definition pattern : bytes := as_bytes "RIVETLINK-FAKE-SCREENSHOT-".
(** [fuel] is the number of rounds. *)
Fixpoint fill (fuel size : nat) (out : bytes) : option bytes :=
  if (length out <? size)%nat then
    match fuel with
    | 0 => None
    | S fuel => fill fuel size (out ++ take (Nat.min (size - length out) (length pattern)) pattern)
    end
  else Some out.
Definition synthetic_blob (size : nat) : option bytes := fill size size [].

(** Files a picture goes through; a tool may write before it fails. *)
Record ShotEnv := {
  portal : Trusted.Disk -> Trusted.Disk * Result string string;
  tool : string -> list string -> Trusted.Disk -> Trusted.Disk * Result unit AgentError;
  shot_read_fault : option string;
  shot_remove_fault : bool;
}.
Definition read_file (env : ShotEnv) (path : string) (d : Trusted.Disk) : Result bytes AgentError :=
  match shot_read_fault env with
  | Some m => Err (Io m)
  | None => ok_or (d !! path) (Io "No such file or directory")
  end.
Definition read_and_remove (empty : string) (env : ShotEnv) (path : string) (d : Trusted.Disk) : Trusted.Disk * Result bytes AgentError :=
  match read_file env path d with
  | Err e => (d, Err e)
  | Ok b => (if shot_remove_fault env then d else delete path d,
             match b with [] => Err (Config empty) | _ => Ok b end)
  end.
Definition read_and_cleanup : ShotEnv -> string -> Trusted.Disk -> Trusted.Disk * Result bytes AgentError :=
  read_and_remove "capture produced no data".
Definition portal_capture_png (env : ShotEnv) (d : Trusted.Disk) : Trusted.Disk * Result bytes AgentError :=
  match portal env d with
  | (d, Err e) => (d, Err (Config ("screenshot portal: " ++ e)))
  | (d, Ok path) => read_and_remove "portal capture produced no data" env path d
  end.
Definition NO_TOOL : string :=
  "no screen capture available (no desktop portal, and none of grim, scrot, or imagemagick found), or set RIVET_FAKE_CAPTURE for headless testing".
Fixpoint try_tools (env : ShotEnv) (path : string) (tools : list (string * list string)) (d : Trusted.Disk)
  : Trusted.Disk * Result bytes AgentError :=
  match tools with
  | [] => (d, Err (Config NO_TOOL))
  | (cmd, args) :: rest =>
      match tool env cmd args d with
      | (d, Ok _) => read_and_cleanup env path d
      | (d, Err _) => try_tools env path rest d
      end
  end.
Definition capture_blocking (env : ShotEnv) (path : string) (d : Trusted.Disk) : Trusted.Disk * Result bytes AgentError :=
  try_tools env path [("grim", [path]); ("scrot", ["-z"; path]); ("import", ["-window"; "root"; path])]%string d.
(** [None] is a loop that does not end. *)
Definition capture_png (env : ShotEnv) (fake : option string) (path : string) (d : Trusted.Disk)
  : option (Trusted.Disk * Result bytes AgentError) :=
  match fake_capture_size fake with
  | Some size => blob ← synthetic_blob (N.to_nat size); Some (d, Ok blob)
  | None =>
      Some (match portal_capture_png env d with
            | (d, Ok b) => (d, Ok b)
            | (d, Err _) => capture_blocking env path d
            end)
  end.

Lemma fill_ends fuel size out : size <= length out + fuel ->
  exists b, fill fuel size out = Some b /\ length b = Nat.max size (length out).
Proof.
  revert out. induction fuel as [|fuel IH]; intros out H; cbn [fill]; destruct (Nat.ltb_spec (length out) size) as [L|L]; try lia.
  - exists out. split; [done|lia].
  - assert (length pattern = 26) as Lp by reflexivity.
    destruct (IH (out ++ take (Nat.min (size - length out) (length pattern)) pattern)) as (b & -> & Hb).
    { rewrite length_app, length_take, Lp. lia. }
    exists b. split; [done|]. rewrite Hb, length_app, length_take, Lp. lia.
  - exists out. split; [done|lia].
Qed.
(** A synthetic picture has the size that was asked for. *)
Lemma synthetic_blob_size size : exists b, synthetic_blob size = Some b /\ length b = size.
Proof. destruct (fill_ends size size []) as (b & E & L); [cbn; lia|]. exists b. split; [exact E|]. rewrite L. cbn. lia. Qed.

(** What a capture gives is what some tool left in its file, never nothing, and
    that file is gone when it could be removed. *)
Lemma capture_blocking_file env path d d' b : capture_blocking env path d = (d', Ok b) ->
  b <> [] /\ exists d1, d1 !! path = Some b /\ d' = if shot_remove_fault env then d1 else delete path d1.
Proof.
  unfold capture_blocking. generalize [("grim", [path]); ("scrot", ["-z"; path]); ("import", ["-window"; "root"; path])]%string.
  intros tools. revert d. induction tools as [|[cmd args] tools IH]; intros d; cbn [try_tools]; [done|].
  destruct (tool env cmd args d) as [d1 [[]|e]]; [|apply IH]. unfold read_and_cleanup, read_and_remove, read_file.
  destruct (shot_read_fault env); [done|]. destruct (d1 !! path) as [[|x b']|] eqn:E; try done.
  cbn [ok_or]. intros [= <- <-]. split; [done|]. by exists d1.
Qed.
(** When every tool fails, what they wrote of the screen stays in its file. *)
Lemma failed_tools_leave_picture :
  let env := {| portal d := (d, Err "no portal"%string);
                tool cmd args d := (<["/tmp/rivet.png"%string := [Byte.x01]]> d, Err (Config "exited"));
                shot_read_fault := None; shot_remove_fault := false |} in
  exists d e, capture_png env None "/tmp/rivet.png" ∅ = Some (d, Err e) /\ d !! "/tmp/rivet.png"%string = Some [Byte.x01].
Proof. eexists _, _. split; [reflexivity|]. by vm_compute. Qed.
End Screenshot.
