(* ===== verification/Inputs.v ===== *)
(** * Replaying input

    rivetlink-agent/src/input: the actions of a controller become calls of
    Mutter's RemoteDesktop (mutter.rs) or XTEST events of an Xorg session
    (x11.rs). D-Bus and the X server are parameters: they say how many calls of
    an action succeed. The numbers of the keys are those of the evdev crate. *)
From Stdlib Require Import NArith ZArith Lia Strings.String Strings.Byte Floats.SpecFloat.
From S2P Require Import Prelude Text Interfaces Instances Protocol Trusted SharedFolder Lan Worker Capture Screen.

(** ** Keys *)

(** The constants of [evdev::Key] that are used. *)
Inductive Key :=
| KEY_A | KEY_B | KEY_C | KEY_D | KEY_E | KEY_F | KEY_G | KEY_H | KEY_I | KEY_J | KEY_K | KEY_L | KEY_M | KEY_N
| KEY_O | KEY_P | KEY_Q | KEY_R | KEY_S | KEY_T | KEY_U | KEY_V | KEY_W | KEY_X | KEY_Y | KEY_Z | KEY_0 | KEY_1
| KEY_2 | KEY_3 | KEY_4 | KEY_5 | KEY_6 | KEY_7 | KEY_8 | KEY_9 | KEY_F1 | KEY_F2 | KEY_F3 | KEY_F4 | KEY_F5
| KEY_F6 | KEY_F7 | KEY_F8 | KEY_F9 | KEY_F10 | KEY_F11 | KEY_F12 | KEY_ENTER | KEY_TAB | KEY_SPACE
| KEY_BACKSPACE | KEY_DELETE | KEY_ESC | KEY_LEFTSHIFT | KEY_RIGHTSHIFT | KEY_LEFTCTRL | KEY_RIGHTCTRL
| KEY_LEFTALT | KEY_RIGHTALT | KEY_LEFTMETA | KEY_RIGHTMETA | KEY_CAPSLOCK | KEY_UP | KEY_DOWN | KEY_LEFT
| KEY_RIGHT | KEY_HOME | KEY_END | KEY_PAGEUP | KEY_PAGEDOWN | KEY_INSERT | KEY_MINUS | KEY_EQUAL
| KEY_LEFTBRACE | KEY_RIGHTBRACE | KEY_BACKSLASH | KEY_SEMICOLON | KEY_APOSTROPHE | KEY_GRAVE | KEY_COMMA
| KEY_DOT | KEY_SLASH | KEY_102ND | KEY_KP0 | KEY_KP1 | KEY_KP2 | KEY_KP3 | KEY_KP4 | KEY_KP5 | KEY_KP6
| KEY_KP7 | KEY_KP8 | KEY_KP9 | KEY_KPPLUS | KEY_KPMINUS | KEY_KPASTERISK | KEY_KPSLASH | KEY_KPDOT
| KEY_KPENTER | KEY_NUMLOCK | KEY_SYSRQ | KEY_SCROLLLOCK | KEY_PAUSE | KEY_COMPOSE | KEY_VOLUMEUP
| KEY_VOLUMEDOWN | KEY_MUTE | KEY_PLAYPAUSE.
#[export] Instance Key_eq_dec : EqDecision Key.
Proof. solve_decision. Defined.
(** [Key::code]: numbers of linux/input-event-codes.h. *)
Class Evdev := { key_number : Key -> N }.
Class EvdevLaws `{Evdev} := {
  key_number_inj : forall a b, key_number a = key_number b -> a = b;
  (** X11 keycodes are eight more and end at 255. *)
  key_number_range : forall k, (0 < key_number k <= 247)%N;
  left_ctrl_number : key_number KEY_LEFTCTRL = 29%N;
}.
Definition key_table : list (string * Key) :=
  [("KeyA", KEY_A); ("KeyB", KEY_B); ("KeyC", KEY_C); ("KeyD", KEY_D); ("KeyE", KEY_E); ("KeyF", KEY_F);
   ("KeyG", KEY_G); ("KeyH", KEY_H); ("KeyI", KEY_I); ("KeyJ", KEY_J); ("KeyK", KEY_K); ("KeyL", KEY_L);
   ("KeyM", KEY_M); ("KeyN", KEY_N); ("KeyO", KEY_O); ("KeyP", KEY_P); ("KeyQ", KEY_Q); ("KeyR", KEY_R);
   ("KeyS", KEY_S); ("KeyT", KEY_T); ("KeyU", KEY_U); ("KeyV", KEY_V); ("KeyW", KEY_W); ("KeyX", KEY_X);
   ("KeyY", KEY_Y); ("KeyZ", KEY_Z); ("Digit0", KEY_0); ("Digit1", KEY_1); ("Digit2", KEY_2);
   ("Digit3", KEY_3); ("Digit4", KEY_4); ("Digit5", KEY_5); ("Digit6", KEY_6); ("Digit7", KEY_7);
   ("Digit8", KEY_8); ("Digit9", KEY_9); ("F1", KEY_F1); ("F2", KEY_F2); ("F3", KEY_F3); ("F4", KEY_F4);
   ("F5", KEY_F5); ("F6", KEY_F6); ("F7", KEY_F7); ("F8", KEY_F8); ("F9", KEY_F9); ("F10", KEY_F10);
   ("F11", KEY_F11); ("F12", KEY_F12); ("Enter", KEY_ENTER); ("Tab", KEY_TAB); ("Space", KEY_SPACE);
   ("Backspace", KEY_BACKSPACE); ("Delete", KEY_DELETE); ("Escape", KEY_ESC); ("ShiftLeft", KEY_LEFTSHIFT);
   ("ShiftRight", KEY_RIGHTSHIFT); ("ControlLeft", KEY_LEFTCTRL); ("ControlRight", KEY_RIGHTCTRL);
   ("AltLeft", KEY_LEFTALT); ("AltRight", KEY_RIGHTALT); ("MetaLeft", KEY_LEFTMETA);
   ("MetaRight", KEY_RIGHTMETA); ("CapsLock", KEY_CAPSLOCK); ("ArrowUp", KEY_UP); ("ArrowDown", KEY_DOWN);
   ("ArrowLeft", KEY_LEFT); ("ArrowRight", KEY_RIGHT); ("Home", KEY_HOME); ("End", KEY_END);
   ("PageUp", KEY_PAGEUP); ("PageDown", KEY_PAGEDOWN); ("Insert", KEY_INSERT); ("Minus", KEY_MINUS);
   ("Equal", KEY_EQUAL); ("BracketLeft", KEY_LEFTBRACE); ("BracketRight", KEY_RIGHTBRACE);
   ("Backslash", KEY_BACKSLASH); ("Semicolon", KEY_SEMICOLON); ("Quote", KEY_APOSTROPHE);
   ("Backquote", KEY_GRAVE); ("Comma", KEY_COMMA); ("Period", KEY_DOT); ("Slash", KEY_SLASH);
   ("IntlBackslash", KEY_102ND); ("Numpad0", KEY_KP0); ("Numpad1", KEY_KP1); ("Numpad2", KEY_KP2);
   ("Numpad3", KEY_KP3); ("Numpad4", KEY_KP4); ("Numpad5", KEY_KP5); ("Numpad6", KEY_KP6);
   ("Numpad7", KEY_KP7); ("Numpad8", KEY_KP8); ("Numpad9", KEY_KP9); ("NumpadAdd", KEY_KPPLUS);
   ("NumpadSubtract", KEY_KPMINUS); ("NumpadMultiply", KEY_KPASTERISK); ("NumpadDivide", KEY_KPSLASH);
   ("NumpadDecimal", KEY_KPDOT); ("NumpadEnter", KEY_KPENTER); ("NumLock", KEY_NUMLOCK);
   ("PrintScreen", KEY_SYSRQ); ("ScrollLock", KEY_SCROLLLOCK); ("Pause", KEY_PAUSE);
   ("ContextMenu", KEY_COMPOSE); ("AudioVolumeUp", KEY_VOLUMEUP); ("AudioVolumeDown", KEY_VOLUMEDOWN);
   ("AudioVolumeMute", KEY_MUTE); ("MediaPlayPause", KEY_PLAYPAUSE)]%string.
Definition code_to_key (code : string) : option Key := snd <$> find (fun p => String.eqb p.1 code) key_table.
Definition browser_evdev_key_code `{Evdev} (code : string) : option N :=
  if (code =? "CommandMod")%string then Some 29%N else key_number <$> code_to_key code.
Definition key_code `{Evdev} (code : string) : option N := browser_evdev_key_code code.

#[export] Instance linux_evdev : Evdev := {|
  key_number k := (match k with
    | KEY_A => 30 | KEY_B => 48 | KEY_C => 46 | KEY_D => 32 | KEY_E => 18 | KEY_F => 33 | KEY_G => 34
    | KEY_H => 35 | KEY_I => 23 | KEY_J => 36 | KEY_K => 37 | KEY_L => 38 | KEY_M => 50 | KEY_N => 49
    | KEY_O => 24 | KEY_P => 25 | KEY_Q => 16 | KEY_R => 19 | KEY_S => 31 | KEY_T => 20 | KEY_U => 22
    | KEY_V => 47 | KEY_W => 17 | KEY_X => 45 | KEY_Y => 21 | KEY_Z => 44 | KEY_0 => 11 | KEY_1 => 2 | KEY_2 => 3
    | KEY_3 => 4 | KEY_4 => 5 | KEY_5 => 6 | KEY_6 => 7 | KEY_7 => 8 | KEY_8 => 9 | KEY_9 => 10 | KEY_F1 => 59
    | KEY_F2 => 60 | KEY_F3 => 61 | KEY_F4 => 62 | KEY_F5 => 63 | KEY_F6 => 64 | KEY_F7 => 65 | KEY_F8 => 66
    | KEY_F9 => 67 | KEY_F10 => 68 | KEY_F11 => 87 | KEY_F12 => 88 | KEY_ENTER => 28 | KEY_TAB => 15
    | KEY_SPACE => 57 | KEY_BACKSPACE => 14 | KEY_DELETE => 111 | KEY_ESC => 1 | KEY_LEFTSHIFT => 42
    | KEY_RIGHTSHIFT => 54 | KEY_LEFTCTRL => 29 | KEY_RIGHTCTRL => 97 | KEY_LEFTALT => 56 | KEY_RIGHTALT => 100
    | KEY_LEFTMETA => 125 | KEY_RIGHTMETA => 126 | KEY_CAPSLOCK => 58 | KEY_UP => 103 | KEY_DOWN => 108
    | KEY_LEFT => 105 | KEY_RIGHT => 106 | KEY_HOME => 102 | KEY_END => 107 | KEY_PAGEUP => 104
    | KEY_PAGEDOWN => 109 | KEY_INSERT => 110 | KEY_MINUS => 12 | KEY_EQUAL => 13 | KEY_LEFTBRACE => 26
    | KEY_RIGHTBRACE => 27 | KEY_BACKSLASH => 43 | KEY_SEMICOLON => 39 | KEY_APOSTROPHE => 40 | KEY_GRAVE => 41
    | KEY_COMMA => 51 | KEY_DOT => 52 | KEY_SLASH => 53 | KEY_102ND => 86 | KEY_KP0 => 82 | KEY_KP1 => 79
    | KEY_KP2 => 80 | KEY_KP3 => 81 | KEY_KP4 => 75 | KEY_KP5 => 76 | KEY_KP6 => 77 | KEY_KP7 => 71
    | KEY_KP8 => 72 | KEY_KP9 => 73 | KEY_KPPLUS => 78 | KEY_KPMINUS => 74 | KEY_KPASTERISK => 55
    | KEY_KPSLASH => 98 | KEY_KPDOT => 83 | KEY_KPENTER => 96 | KEY_NUMLOCK => 69 | KEY_SYSRQ => 99
    | KEY_SCROLLLOCK => 70 | KEY_PAUSE => 119 | KEY_COMPOSE => 127 | KEY_VOLUMEUP => 115 | KEY_VOLUMEDOWN => 114
    | KEY_MUTE => 113 | KEY_PLAYPAUSE => 164
  end)%N |}.

(** What one action asks for, and what becomes of it: [fails] is the number of
    calls that succeed before one fails. *)
Definition attempt {C} (fails : option nat) (error : AgentError) (calls : list C) : list C * Result unit AgentError :=
  match fails with
  | Some n => if (n <? length calls)%nat then (take (S n) calls, Err error) else (calls, Ok tt)
  | None => (calls, Ok tt)
  end.

(** ** Mutter *)

Definition f64_of_N (n : N) : spec_float := binary_normalize 53 1024 (Z.of_N n) 0 false.
(** [f64::from(value) / 10_000.0 * extent]. *)
Definition frame_position (value extent : N) : spec_float :=
  SFmul 53 1024 (SFdiv 53 1024 (f64_of_N value) (f64_of_N 10000)) (f64_of_N extent).
Inductive DbusCall :=
| NotifyPointerMotionAbsolute (stream : string) (px py : spec_float)
| NotifyPointerButton (code : Z) (down : bool)
| NotifyPointerAxisDiscrete (axis : N) (steps : Z)
| NotifyKeyboardKeycode (code : N) (down : bool).
Record MutterInjector := { mi_stream : string; mi_width : N; mi_height : N }.
Definition dbus_err (e : string) : AgentError := Input ("Mutter RemoteDesktop D-Bus error: " ++ e).
(** [open] sets up the session and its cast of a monitor. *)
Definition mutter_new (state : Result Mutter.CurrentState AgentError) (open : string -> Result string string)
    (display : option N) : Result MutterInjector AgentError :=
  let? target := ok_or (Mutter.monitor_target state display) (Input "no monitor available to control") in
  let '(connector, w, h) := target in
  let? stream := map_err dbus_err (open connector) in
  Ok {| mi_stream := stream; mi_width := N.max w 1; mi_height := N.max h 1 |}.
Definition button_code (b : Ptr.PtrButton) : Z :=
  match b with Ptr.Left => 0x110 | Ptr.Right => 0x111 | Ptr.Middle => 0x112 end.

(** The milliseconds of the last click that was injected. *)
Definition mark_injected_click (now_ms : N) : N := now_ms + 1.
Definition injected_click_age_ms (last_inject_ms now_ms : N) : N :=
  if (last_inject_ms =? 0)%N then 2 ^ 64 - 1 else now_ms - last_inject_ms.

(** ** Xorg *)

Record XFake := { event_type : N; detail : N; fake_x : Z; fake_y : Z }.
Definition KEY_PRESS : N := 2.
Definition KEY_RELEASE : N := 3.
Definition BUTTON_PRESS : N := 4.
Definition BUTTON_RELEASE : N := 5.
Definition MOTION_NOTIFY : N := 6.
Record X11Injector := { xi_width : N; xi_height : N }.
Definition x11_error (e : string) : AgentError := Input ("X11/XTEST input unavailable: " ++ e).
(** [screen] is the size of the screen of the display, if it has one. *)
Definition x11_new (connected : Result (option (N * N)) string) : Result X11Injector AgentError :=
  let? screen := map_err x11_error connected in
  let? size := ok_or screen (Input "X11 display has no screen") in
  if (size.1 =? 0)%N || (size.2 =? 0)%N then Err (Input "X11 display has no active monitor geometry")
  else Ok {| xi_width := size.1; xi_height := size.2 |}.
Definition i16_max : Z := 32767.
Definition scale_coordinate (value extent : N) : Z :=
  let pixel := Z.of_N (N.min value 10000 * (extent - 1) / 10000) in
  if (pixel <=? i16_max)%Z then pixel else i16_max.
Definition x11_button (b : Ptr.PtrButton) : N :=
  match b with Ptr.Left => 1 | Ptr.Middle => 2 | Ptr.Right => 3 end.
Definition fake (event_type detail : N) (x y : Z) : XFake :=
  {| event_type := event_type; detail := detail; fake_x := x; fake_y := y |}.
Definition scroll (button : N) (amount : Z) : list XFake :=
  concat (repeat [fake BUTTON_PRESS button 0 0; fake BUTTON_RELEASE button 0 0]
            (Z.to_nat (Z.min (Z.abs amount) 120))).

Section Apply.
Context `{Evdev}.

(** The calls of an action, each only after the one before succeeded. *)
Definition mutter_calls (self : MutterInjector) (action : InputAction) : list DbusCall :=
  match action with
  | ActMove x y =>
      [NotifyPointerMotionAbsolute (mi_stream self) (frame_position x (mi_width self)) (frame_position y (mi_height self))]
  | ActButton button down => [NotifyPointerButton (button_code button) down]
  | ActScroll dx dy =>
      (if negb (dy =? 0)%Z then [NotifyPointerAxisDiscrete 0 dy] else []) ++
      (if negb (dx =? 0)%Z then [NotifyPointerAxisDiscrete 1 dx] else [])
  | ActKey code down => match key_code code with Some keycode => [NotifyKeyboardKeycode keycode down] | None => [] end
  end.
(** [proxy] is whether the session answers; the time of the last click after it. *)
Definition mutter_apply (self : MutterInjector) (proxy : Result unit string) (fails : option nat) (now_ms : N)
    (action : InputAction) (last_inject_ms : N) : list DbusCall * N * Result unit AgentError :=
  match map_err dbus_err proxy with
  | Err e => ([], last_inject_ms, Err e)
  | Ok _ =>
      let last_inject_ms := match action with ActButton _ _ => mark_injected_click now_ms | _ => last_inject_ms end in
      let '(made, r) := attempt fails (dbus_err "call failed") (mutter_calls self action) in
      (made, last_inject_ms, r)
  end.

Definition x11_calls (self : X11Injector) (action : InputAction) : Result (list XFake) AgentError :=
  match action with
  | ActMove x y => Ok [fake MOTION_NOTIFY 0 (scale_coordinate x (xi_width self)) (scale_coordinate y (xi_height self))]
  | ActButton button down => Ok [fake (if down then BUTTON_PRESS else BUTTON_RELEASE) (x11_button button) 0 0]
  | ActScroll dx dy =>
      Ok ((if negb (dy =? 0)%Z then scroll (if (0 <? dy)%Z then 5 else 4) dy else []) ++
          (if negb (dx =? 0)%Z then scroll (if (0 <? dx)%Z then 7 else 6) dx else []))
  | ActKey code down =>
      match browser_evdev_key_code code with
      | None => Ok []
      | Some evdev =>
          if (evdev + 8 <=? 255)%N then Ok [fake (if down then KEY_PRESS else KEY_RELEASE) (evdev + 8) 0 0]
          else Err (Input "invalid X11 keycode")
      end
  end.
Definition x11_apply (self : X11Injector) (fails : option nat) (action : InputAction) : list XFake * Result unit AgentError :=
  match x11_calls self action with
  | Err e => ([], Err e)
  | Ok calls => attempt fails (x11_error "request failed") calls
  end.

(** The injector threads: an action that fails is logged and left. *)
Fixpoint mutter_run (self : MutterInjector) (actions : list (Result unit string * option nat * N * InputAction))
    (last_inject_ms : N) : list DbusCall * N :=
  match actions with
  | [] => ([], last_inject_ms)
  | (proxy, fails, now_ms, action) :: rest =>
      let '(made, last_inject_ms, _) := mutter_apply self proxy fails now_ms action last_inject_ms in
      let '(more, last_inject_ms) := mutter_run self rest last_inject_ms in (made ++ more, last_inject_ms)
  end.
Definition mutter_injector (injector : Result MutterInjector AgentError)
    (actions : list (Result unit string * option nat * N * InputAction)) (last_inject_ms : N) : list DbusCall * N :=
  match injector with Ok self => mutter_run self actions last_inject_ms | Err _ => ([], last_inject_ms) end.
Fixpoint x11_run (self : X11Injector) (actions : list (option nat * InputAction)) : list XFake :=
  match actions with
  | [] => []
  | (fails, action) :: rest => (x11_apply self fails action).1 ++ x11_run self rest
  end.
Definition x11_injector (injector : Result X11Injector AgentError) (actions : list (option nat * InputAction)) : list XFake :=
  match injector with Ok self => x11_run self actions | Err _ => [] end.
End Apply.
Example pointer_places :
  map (fun p => scale_coordinate p.1 p.2) [(0, 1920); (10000, 1920); (65535, 1920); (10000, 65535)]%N = [0; 1919; 1919; 32767]%Z /\
  map (fun v => SFcompare (frame_position v 1920) (f64_of_N 960)) [0; 5000; 10000]%N = [Some Lt; Some Eq; Some Gt] /\
  SFcompare (frame_position 10000 1920) (f64_of_N 1920) = Some Eq.
Proof. vm_compute. done. Qed.

(** ** Both sessions see the same *)

(** What a session sees of a call: a key or a button going down or up, or the
    wheel turned by steps. *)
Inductive Act :=
| KeyAct (number : N) (down : bool)
| ButtonAct (button : Ptr.PtrButton) (down : bool)
| WheelAct (vertical : bool) (steps : Z).
Definition mutter_act (call : DbusCall) : option Act :=
  match call with
  | NotifyPointerMotionAbsolute _ _ _ => None
  | NotifyPointerButton code down =>
      if (code =? 0x110)%Z then Some (ButtonAct Ptr.Left down)
      else if (code =? 0x111)%Z then Some (ButtonAct Ptr.Right down)
      else if (code =? 0x112)%Z then Some (ButtonAct Ptr.Middle down) else None
  | NotifyPointerAxisDiscrete axis steps => Some (WheelAct (axis =? 0)%N steps)
  | NotifyKeyboardKeycode code down => Some (KeyAct code down)
  end.
(** An X11 keycode is an evdev number plus 8; the buttons 4 to 7 are the wheel,
    one step for each press. *)
Definition x11_act (f : XFake) : option Act :=
  let press := (event_type f =? BUTTON_PRESS)%N in
  if (event_type f =? KEY_PRESS)%N then Some (KeyAct (detail f - 8) true)
  else if (event_type f =? KEY_RELEASE)%N then Some (KeyAct (detail f - 8) false)
  else if press || (event_type f =? BUTTON_RELEASE)%N then
    match detail f with
    | 1%N => Some (ButtonAct Ptr.Left press)
    | 2%N => Some (ButtonAct Ptr.Middle press)
    | 3%N => Some (ButtonAct Ptr.Right press)
    | 4%N => if press then Some (WheelAct true (-1)) else None
    | 5%N => if press then Some (WheelAct true 1) else None
    | 6%N => if press then Some (WheelAct false (-1)) else None
    | 7%N => if press then Some (WheelAct false 1) else None
    | _ => None
    end
  else None.
Definition is_wheel (a : Act) : bool := match a with WheelAct _ _ => true | _ => false end.
Definition transitions (acts : list Act) : list Act := List.filter (fun a => negb (is_wheel a)) acts.
Definition wheel (vertical : bool) (acts : list Act) : Z :=
  foldr Z.add 0%Z (omap (fun a => match a with
                                  | WheelAct v steps => if Bool.eqb v vertical then Some steps else None
                                  | _ => None end) acts).
Definition wanted `{Evdev} (action : InputAction) : option Act :=
  match action with
  | ActButton button down => Some (ButtonAct button down)
  | ActKey code down => n ← key_code code; Some (KeyAct n down)
  | _ => None
  end.
Definition turned (vertical : bool) (action : InputAction) : Z :=
  match action with ActScroll dx dy => if vertical then dy else dx | _ => 0 end.
Definition limited (n : Z) : Z := Z.max (-120) (Z.min 120 n).
Definition fake_fits (self : X11Injector) (f : XFake) : Prop :=
  (detail f <= 255)%N /\ (0 <= fake_x f <= Z.of_N (xi_width self - 1))%Z /\ (0 <= fake_y f <= Z.of_N (xi_height self - 1))%Z /\
  (fake_x f <= i16_max /\ fake_y f <= i16_max)%Z.

Lemma inj_of_NoDup {A B} (f : A -> B) l x y : base.NoDup (map f l) -> x ∈ l -> y ∈ l -> f x = f y -> x = y.
Proof.
  induction l as [|a l IH]; [intros _ Hx; by apply elem_of_nil in Hx|]. cbn [map]. intros [Ha N]%list.NoDup_cons Hx Hy E.
  apply elem_of_cons in Hx as [->|Hx], Hy as [->|Hy]; auto; exfalso; apply Ha.
  - rewrite E. by apply list_elem_of_fmap_2.
  - rewrite <-E. by apply list_elem_of_fmap_2.
Qed.
Lemma key_table_complete k : k ∈ map snd key_table.
Proof. apply (bool_decide_unpack _). destruct k; vm_compute; exact I. Qed.
#[export] Instance linux_evdev_laws : EvdevLaws.
Proof.
  split.
  - intros a b. apply (inj_of_NoDup key_number (map snd key_table)); auto using key_table_complete.
    apply (bool_decide_unpack _). vm_compute. exact I.
  - intros k. destruct k; cbn; lia.
  - reflexivity.
Qed.
Lemma code_to_key_in code k : code_to_key code = Some k -> (code, k) ∈ key_table.
Proof.
  unfold code_to_key. destruct (find _ key_table) as [[c k']|] eqn:F; [|done]. intros [= <-].
  apply find_some in F as [Hin E]. cbn in E. apply String.eqb_eq in E as ->. by apply list_elem_of_In.
Qed.
Lemma code_to_key_inj a b k : code_to_key a = Some k -> code_to_key b = Some k -> a = b.
Proof.
  intros A%code_to_key_in B%code_to_key_in.
  assert ((a, k) = (b, k)) as E; [|congruence].
  apply (inj_of_NoDup snd key_table); auto. apply (bool_decide_unpack _). vm_compute. exact I.
Qed.

Section Alike.
Context `{EvdevLaws}.

Lemma key_code_range code n : key_code code = Some n -> (0 < n <= 247)%N.
Proof.
  unfold key_code, browser_evdev_key_code. destruct (code =? "CommandMod")%string; [intros [= <-]; lia|].
  destruct (code_to_key code) as [k|]; [|done]. intros [= <-]. apply key_number_range.
Qed.
(** No two keys are mixed up; the command modifier is the left control key. *)
Lemma key_code_inj a b n : key_code a = Some n -> key_code b = Some n ->
  a = b \/ n = 29%N /\ (a = "CommandMod"%string \/ b = "CommandMod"%string).
Proof.
  unfold key_code, browser_evdev_key_code.
  destruct (String.eqb_spec a "CommandMod") as [->|Ha]; [intros [= <-] _; right; auto|].
  destruct (String.eqb_spec b "CommandMod") as [->|Hb]; [intros _ [= <-]; right; auto|].
  destruct (code_to_key a) as [k|] eqn:A; [|done]. destruct (code_to_key b) as [k'|] eqn:B; [|done].
  intros [= <-] [= E]. apply key_number_inj in E as ->. left. by eapply code_to_key_inj.
Qed.

Lemma transitions_app a b : transitions (a ++ b) = transitions a ++ transitions b.
Proof. apply List.filter_app. Qed.
Lemma wheel_app v a b : wheel v (a ++ b) = (wheel v a + wheel v b)%Z.
Proof.
  unfold wheel. rewrite omap_app. induction (omap _ a) as [|z l IH]; cbn [app foldr]; lia.
Qed.
Lemma scale_coordinate_fits value extent : (0 <= scale_coordinate value extent <= Z.of_N (extent - 1))%Z /\ (scale_coordinate value extent <= i16_max)%Z.
Proof.
  unfold scale_coordinate. cbv zeta.
  assert (N.min value 10000 * (extent - 1) / 10000 <= extent - 1)%N as L by (apply N.Div0.div_le_upper_bound; nia).
  set (pixel := (N.min value 10000 * (extent - 1) / 10000)%N) in *. clearbody pixel.
  destruct (Z.leb_spec (Z.of_N pixel) i16_max); unfold i16_max in *; lia.
Qed.

(** One turn of the wheel, as XTEST plays it. *)
Lemma scroll_acts (button : N) (amount : Z) (v : bool) (s : Z) : (button = if v then if (0 <? s)%Z then 5 else 4 else if (0 <? s)%Z then 7 else 6)%N ->
  (s = 1 \/ s = -1)%Z ->
  omap x11_act (scroll button amount) = repeat (WheelAct v s) (Z.to_nat (Z.min (Z.abs amount) 120)).
Proof.
  intros -> Hs. unfold scroll. generalize (Z.to_nat (Z.min (Z.abs amount) 120)). intros n.
  induction n as [|n IH]; [done|]. cbn [repeat concat]. rewrite omap_app, IH.
  by destruct v, Hs as [->| ->].
Qed.
Lemma transitions_wheel v s n : transitions (repeat (WheelAct v s) n) = [].
Proof. by induction n. Qed.
Lemma wheel_repeat v w s n : wheel v (repeat (WheelAct w s) n) = if Bool.eqb w v then (s * Z.of_nat n)%Z else 0%Z.
Proof.
  unfold wheel. induction n as [|n IH]; [by destruct (Bool.eqb w v); cbn; lia|]. cbn [repeat omap list_omap].
  destruct (Bool.eqb w v); cbn [foldr]; lia.
Qed.
(** The events of one direction of a scroll. *)
Definition wheel_fakes (v : bool) (d : Z) : list XFake :=
  if negb (d =? 0)%Z then scroll (if v then if (0 <? d)%Z then 5 else 4 else if (0 <? d)%Z then 7 else 6)%N d else [].
Lemma wheel_fakes_acts v d : omap x11_act (wheel_fakes v d) =
  repeat (WheelAct v (if (0 <? d)%Z then 1 else -1)%Z) (Z.to_nat (Z.min (Z.abs d) 120)).
Proof.
  unfold wheel_fakes. destruct (Z.eqb_spec d 0) as [->|Hd]; [done|]. cbn [negb].
  apply scroll_acts; by destruct v, (0 <? d)%Z; auto.
Qed.
Lemma wheel_fakes_sum v w d : wheel w (omap x11_act (wheel_fakes v d)) = if Bool.eqb v w then limited d else 0%Z.
Proof.
  rewrite wheel_fakes_acts, wheel_repeat. destruct (Bool.eqb v w); [|done]. unfold limited.
  destruct (Z.ltb_spec 0 d); lia.
Qed.
Lemma scroll_fits x button amount : (button <= 7)%N -> Forall (fake_fits x) (scroll button amount).
Proof.
  intros B. unfold scroll. apply List.Forall_concat, List.Forall_forall. intros l Hl. apply repeat_spec in Hl. subst l.
  repeat constructor; cbn; unfold i16_max; lia.
Qed.

Lemma mutter_action_acts m action :
  let acts := omap mutter_act (mutter_calls m action) in
  transitions acts = option_list (wanted action) /\ forall v, wheel v acts = turned v action.
Proof.
  destruct action as [x y|button down|dx dy|code down]; cbn.
  - split; [done|by intros []].
  - by destruct button.
  - destruct (Z.eqb_spec dy 0) as [->|Hy], (Z.eqb_spec dx 0) as [->|Hx]; cbn; (split; [done|]); intros []; cbn; lia.
  - destruct (key_code code) as [n|]; cbn; split; done.
Qed.
Lemma x11_action_acts x action : exists fakes, x11_calls x action = Ok fakes /\
  let acts := omap x11_act fakes in
  transitions acts = option_list (wanted action) /\ (forall v, wheel v acts = limited (turned v action)) /\
  Forall (fake_fits x) fakes.
Proof.
  destruct action as [px py|button down|dx dy|code down]; cbn [x11_calls].
  - eexists. split; [reflexivity|]. split; [done|]. split; [by intros []|].
    repeat constructor; cbn; first [lia|apply scale_coordinate_fits].
  - eexists. split; [reflexivity|]. split; [by destruct button, down|]. split; [by destruct button, down; intros []|].
    constructor; [|done]. repeat split; cbn; destruct button; cbn; unfold i16_max; lia.
  - exists (wheel_fakes true dy ++ wheel_fakes false dx). split; [done|]. cbv zeta. rewrite omap_app.
    split; [|split].
    + by rewrite transitions_app, !wheel_fakes_acts, !transitions_wheel.
    + intros v. rewrite wheel_app, !wheel_fakes_sum. destruct v; cbn; unfold limited; lia.
    + apply List.Forall_app. split; unfold wheel_fakes; (case_match; [|done]); apply scroll_fits; case_match; lia.
  - fold (key_code code). cbn [wanted]. destruct (key_code code) as [n|] eqn:K.
    + pose proof (key_code_range _ _ K). rewrite (proj2 (N.leb_le _ _)) by lia. eexists. split; [reflexivity|].
      cbn [mbind option_bind]. assert (n + 8 - 8 = n)%N as E by lia.
      destruct down; (split; [cbn; by rewrite E|split; [by intros []|]]);
        (constructor; [|done]); repeat split; cbn; unfold i16_max; lia.
    + eexists. split; [reflexivity|]. split; [done|]. split; [by intros []|done].
Qed.

(** C25. Both kinds of session replay the same input. For any actions whose
    calls succeed, the keys and buttons that go down and up are exactly those of
    the actions, in order, on Mutter and on Xorg alike; the wheel turns as far
    as the actions say on Mutter, and on Xorg as far as 120 steps an action
    allow; each XTEST event is one the protocol can carry and points into the
    screen; and no two keys share a number, the command modifier and the left
    control key apart. *)
Theorem backends_replay_alike m x now last actions :
  let on_mutter := omap mutter_act (mutter_run m (map (fun a => (Ok tt, None, now, a)) actions) last).1 in
  let fakes := x11_run x (map (pair None) actions) in
  let on_x11 := omap x11_act fakes in
  transitions on_mutter = omap wanted actions /\ transitions on_x11 = omap wanted actions /\
  (forall v, wheel v on_mutter = foldr Z.add 0%Z (map (turned v) actions) /\
             wheel v on_x11 = foldr Z.add 0%Z (map (fun a => limited (turned v a)) actions)) /\
  Forall (fake_fits x) fakes /\
  forall a b n, key_code a = Some n -> key_code b = Some n ->
    a = b \/ n = 29%N /\ (a = "CommandMod"%string \/ b = "CommandMod"%string).
Proof.
  cbv zeta. revert last. induction actions as [|action actions IH]; intros last.
  { split_and!; [done..|apply key_code_inj]. }
  destruct (mutter_action_acts m action) as [M1 M2].
  destruct (x11_action_acts x action) as (fakes & Ex & X1 & X2 & X3). cbv zeta in *.
  cbn [map mutter_run x11_run mutter_apply map_err attempt]. unfold x11_apply. rewrite Ex. cbn [attempt fst].
  set (last' := match action with ActButton _ _ => mark_injected_click now | _ => last end).
  specialize (IH last'). destruct (mutter_run m _ last') as [more last'']. cbn [fst] in *.
  destruct IH as (IH1 & IH2 & IH3 & IH4 & IH5).
  rewrite !omap_app, !transitions_app, IH1, IH2, M1, X1. split_and!.
  - by cbn [omap list_omap]; destruct (wanted action).
  - by cbn [omap list_omap]; destruct (wanted action).
  - intros v. destruct (IH3 v) as [A B]. rewrite !wheel_app, A, B, M2, X2. done.
  - apply List.Forall_app. by split.
  - done.
Qed.
End Alike.

Lemma backends_replay_alike_witness :
  let m := {| mi_stream := "/stream"; mi_width := 1920; mi_height := 1080 |} in
  let x := {| xi_width := 1920; xi_height := 1080 |} in
  let actions := [ActMove 5000 65535; ActButton Ptr.Right true; ActButton Ptr.Right false; ActKey "KeyA" true;
                  ActKey "Nothing" true; ActScroll 0 (-2); ActKey "KeyA" false] in
  let on_mutter := omap mutter_act (mutter_run m (map (fun a => (Ok tt, None, 5%N, a)) actions) 0).1 in
  let fakes := x11_run x (map (pair None) actions) in
  let on_x11 := omap x11_act fakes in
  (map (fun f => (event_type f, detail f)) fakes = [(6, 0); (4, 3); (5, 3); (2, 38); (4, 4); (5, 4); (4, 4); (5, 4); (3, 38)]%N) /\
  transitions on_mutter = omap wanted actions /\ transitions on_x11 = omap wanted actions /\
  (forall v, wheel v on_mutter = foldr Z.add 0%Z (map (turned v) actions) /\
             wheel v on_x11 = foldr Z.add 0%Z (map (fun a => limited (turned v a)) actions)) /\
  Forall (fake_fits x) fakes /\
  forall a b n, key_code a = Some n -> key_code b = Some n ->
    a = b \/ n = 29%N /\ (a = "CommandMod"%string \/ b = "CommandMod"%string).
Proof. cbv zeta. split; [vm_compute; reflexivity|]. apply backends_replay_alike. Defined.

(** A position beyond the frame stays beyond it on Mutter. *)
Lemma mutter_pointer_unlimited :
  SFcompare (frame_position 65535 1920) (f64_of_N 12582) = Some Gt /\ scale_coordinate 65535 1920 = 1919%Z.
Proof. vm_compute. done. Qed.
(** The overlay sees a click right after it was injected, until the time passes. *)
Lemma click_age now later : (now < later)%N -> injected_click_age_ms (mark_injected_click now) later = (later - now - 1)%N.
Proof.
  intros L. unfold injected_click_age_ms, mark_injected_click. rewrite (proj2 (N.eqb_neq _ _)) by lia. lia.
Qed.
